(* ===== verification/_CoqProject ===== *)
-Q . S2P
Prelude.v
Heap.v
Hash.v
HashTheory.v
HashSpec.v
Buffer.v
Status.v
ConfVal.v
ConfParser.v
ConfParserTheory.v
ConfScan.v
Conf.v
ConfTheory.v
ConfSave.v
ConfSpec.v
Dir.v
Mkdir.v
Module.v
ModuleSpec.v
ScanConf.v
ScanCtx.v
ScanSpec.v
Info.v
Blocks.v
InfoHeap.v
ConfHeap.v
ConfHeapSpec.v
ParserHeap.v
ParserHeapSpec.v
ConfHistory.v
Settings.v
OnDemandMod.v
Quarantine.v
Event.v
EventHeap.v
OnDemand.v
OnDemandTheory.v
OnDemandSpec.v
Json.v
Jrpc.v
JrpcTheory.v
JrpcSpec.v
Marshall.v
MarshallSpec.v
RpcDefs.v
SchemaSpec.v
Log.v
RpcBe.v
RpcBeSpec.v
Socket.v
Options.v
Tools.v
ToolsSpec.v
Daemon.v
DaemonSpec.v
Queue.v
QueueSpec.v
FaMonitor.v
FaMonitorSpec.v
Monitor.v
MountHeap.v
MonitorSpec.v
MediaScan.v
OnAccessMod.v
GetOpt.v
WinDir.v
WinRegistry.v
WinRegistrySpec.v
WinQuarantine.v
WinPaths.v
WinService.v
WinPipe.v
WinDriver.v
WinMods.v
WinControl.v
WinClient.v
WinControlSpec.v
WinInstall.v
WinNotify.v
WinCrypt.v
