(* ===== verification/Prelude.v ===== *)
(** * Armadito core: a verification library

    Armadito is an antivirus for Linux and Windows.  This library models its C code as
    functions of Rocq and proves what the code guarantees.  It follows the Linux build, with
    the parts of the Windows port that have logic of their own beside it; file names below
    are relative to [src/].

    ** The program

    The library [libcore] scans files.  Antivirus engines are modules, loaded from a
    directory; a configuration, read from text files, says which modules apply to which
    types of files.  An on-demand scan walks a tree, hands every file to the modules and
    fires events: start, detections, progress, completion.  The builtin on-access module
    watches mount points and directories with fanotify and inotify, and denies the opening
    of malware.  A daemon opens the library, keeps a journal of the events and serves
    clients on a Unix socket with JSON-RPC messages; its command-line tools ask for a scan
    or for the state of the signature bases and print what they receive.

    ** Files, and what they model

    Prelude.v: outcomes of C code, machine integers, characters and byte strings, the
    lemmas and tactics shared by all components.

    Basic structures.
    - Hash.v, HashTheory.v, HashSpec.v: [librpc/jrpc/hash.c].
    - Buffer.v: [librpc/jrpc/buffer.c] and the buffer of [libmodule/string.c].
    - Status.v: [libcore/status.c], [action.c], [report.c].
    - Log.v: [libmodule/log.c], the log of the daemon and its journal
      ([arch/linux/daemon/journal.c]).

    Configuration.
    - ConfVal.v: [libmodule/confval.c], the values.
    - ConfParser.v, ConfParserTheory.v: [libcore/confparser.c], scanner and parser, and
      the grammar they accept.
    - Conf.v, ConfTheory.v, ConfScan.v, ConfSave.v, ConfSpec.v: [libcore/conf.c], the
      store, loading and saving.

    Memory.
    - Heap.v: heaps of blocks, commands on them, and the logic of their ownership.
    - Blocks.v: the blocks of the configuration and of the update information, C strings,
      the arrays and strings of GLib.
    - ConfHeap.v, ConfHeapSpec.v: [confval.c] and [conf.c] with their blocks.
    - ParserHeap.v, ParserHeapSpec.v: [confparser.c] with its blocks, and loading a file.
    - ConfHistory.v: histories of calls of the configuration.
    - EventHeap.v, InfoHeap.v, MountHeap.v: [event.c], events and callbacks; [info.c]; the
      notifications of mounts that the threads of [monitor.c] pass on.

    Scanning.
    - Dir.v, Mkdir.v: [libcore/arch/linux/os/dir.c] and [file.c].
    - Module.v, ModuleSpec.v: [libcore/module.c], [armadito.c], the life cycle of modules.
    - ScanConf.v, ScanCtx.v, ScanSpec.v: [libcore/scanconf.c], [scanctx.c], [mimetype.c].
    - Info.v: [libcore/info.c].
    - Settings.v, OnDemandMod.v, OnAccessMod.v, Quarantine.v: the builtin modules and
      what the settings of their sections amount to.
    - Event.v: [libcore/event.c].
    - OnDemand.v, OnDemandTheory.v, OnDemandSpec.v: [libcore/ondemand.c].

    On-access protection ([libcore/arch/linux/builtin-modules/on-access/]).
    - Queue.v, QueueSpec.v: [queue.c], [stamp.h], [watchdog.c].
    - FaMonitor.v, FaMonitorSpec.v: [famonitor.c], [response.c].
    - Monitor.v, MonitorSpec.v: [monitor.c], [imonitor.c], [mount.c].
    - MediaScan.v: from the mount of a medium to the report of its scan.

    Remote calls, daemon and tools.
    - Json.v: the interface of the jansson library, with an implementation of it.
    - Jrpc.v, JrpcTheory.v, JrpcSpec.v: [librpc/jrpc/mapper.c], [connection.c], [jrpc.c].
    - Marshall.v, MarshallSpec.v: [librpc/jrpc/marshall.c] and the macros of
      [libjrpc/marshall.h].
    - RpcDefs.v: [librpc/include/rpc/rpcdefs.h], [rpctypes.h].
    - SchemaSpec.v: [libjrpc/jsonschema.h], [librpc/include/rpc/rpcschema.h].
    - RpcBe.v, RpcBeSpec.v: [librpc/rpcbe.c], [arch/linux/daemon/server.c].
    - Socket.v: [arch/linux/daemon/unixsockserver.c], [arch/linux/net/unixsockclient.c].
    - Options.v: the options of the three programs.
    - Tools.v, ToolsSpec.v: [tools/armadito-scan.c], [armadito-info.c], [librpc/unixio.c].
    - Daemon.v, DaemonSpec.v: [arch/linux/daemon/main.c], [daemonize.c],
      [libmodule/stdpaths.c].

    The Windows port.
    - GetOpt.v: [arch/windows/utils/getopt.c].
    - WinDir.v: [libcore/arch/windows/os].
    - WinRegistry.v, WinRegistrySpec.v: [arch/windows/service/config.c].
    - WinQuarantine.v: its quarantine module, of which the Linux one is Quarantine.v.
    - WinPaths.v: the Windows part of [libmodule/stdpaths.c].
    - WinService.v: the threads of the service, [scan_onaccess.c] and [scan_ondemand.c] of
      [arch/windows/service].
    - WinPipe.v: what such a thread does with the requests of its client.
    - WinDriver.v: the threads there that answer the driver, [scan_onaccess.c].
    - WinMods.v: [libcore/arch/windows/builtin-modules/], on-access and on-demand.
    - WinNotify.v: [notify.c] and [log.c] there, [arch/windows/utils/tools.c].
    - WinControl.v, WinClient.v, WinControlSpec.v, WinInstall.v: [service.c]
      there: loading and unloading; the process of the service and the controls it gets;
      the commands that control it; the states, ends and handles of both; its registry
      keys, its installation and its command line.
    - WinCrypt.v: [arch/windows/utils/crypt.c], [others.c].

    A definition has the name of the C function, structure or constant it models.  A
    structure is a [Record], an enum an [Inductive] with its values given by a function
    ([a6o_file_status_val]), a tagged union an [Inductive] whose constructor is the tag.
    A function that changes a structure returns the new one, next to its return value.  A
    pointer into an array is an index; objects that several holders share live in a heap,
    a finite map from addresses, wherever a freed object can still be reached (Queue.v,
    RpcBe.v).

    ** Values and memory

    Most files say what a function computes, on values.  The files under "Memory" model
    some of the same functions, under the same names, with every block they allocate, read
    and free: a [cmd] works on a heap, and faults when it uses a block that is not there.
    Their specifications are assertions of a linear separation logic, an instance of the
    interface of Iris, and refer to the values: the function on the heap, given blocks that
    represent a value ([conf_at], [parser_at], [source_at], [info_at], [data_at]), leaves
    blocks that represent what the function on values returns, and nothing else.  So what
    is proved of the values holds of the code with its memory, and a block that the code
    forgets appears in the specification.

    ** Faults

    A function of the model returns [Ok], or the [Fault] the C code runs into.  A
    theorem that gives the result [Ok] therefore also says that memory is used properly,
    that no assertion fails and that loops end.  A message of level ERROR is such a fault:
    outside Windows [a6o_log] aborts the process after it (Log.v); the functions of the
    Windows port go on and return their codes.  Return codes are ordinary results.
    Memory allocation is assumed to succeed.

    ** What is a parameter

    - The system: the answers of [open], [read], [stat], [opendir] and [readdir] (as the
      tree of a walk, Dir.v), [realpath], clocks, sockets, fanotify, inotify and the bus
      (class [Kernel] of Monitor.v), [mkstemp] and [rename] (Quarantine.v); the registry of
      Windows (record [registry], with what it promises in [registry_laws]), its drives,
      its cryptographic services, its service control manager (record [scm_env]); the
      directories that [mkdir] makes (class [FileSystem], Mkdir.v).
    - [malloc] (class [Allocator] of Heap.v): any address that is not in use.
    - Libraries: the arrays and strings of GLib (classes [GLib] and [GArrays], with their
      laws and an implementation on blocks), json-c (class [JsonC] of WinNotify.v, with its
      laws and the implementation [nodes]), libmagic's type of a file, [g_module_open], jansson (class [Jansson],
      with its documented behaviour in [JanssonLaws] and the implementation [Tree.jtree]
      that shows the laws can hold), the printing of doubles and dates, [getopt_long].
    - The functions of modules, of RPC methods and of callbacks, which are code of the
      module or of the program that uses the library.

    ** Concurrency

    Each component says what its threads share.  The counting thread and the pool of an
    on-demand scan are an order of the file scans and a moment at which the count appears
    (OnDemand.v); the monitor thread and the pool of on-access scans are the relation
    [fa_step] (FaMonitor.v); connections, scans and events of the daemon are the relation
    [be_step] (RpcBe.v); the threads that answer the driver of Windows are the steps of
    WinDriver.v; the threads that pass on a mount are the tasks of MountHeap.v; other
    processes that create directories while they are being
    marked are the runs of MonitorSpec.v.  The theorems hold for every order.

    ** Fuel and bounds

    Loops that are not structural take fuel, and running out of it is [Fault Diverges];
    every such loop has a theorem or lemma that the fuel it is given is enough.
    - Doubling a buffer: 65 steps, since a size is below 2^64.
    - Probing a table: the size of the table.
    - Scanner and parser: twice the bytes of the file, and two more; each character is
      read at most twice.
    - Printing a number: as many digits as its type can have (10, 11 or 20).
    - Walking the callbacks of a source: the number of registrations made.
    - Popping the queue: the entries it has.  Reading inotify events: the bytes read, each
      event taking at least its header.
    - Connecting: the number of attempts allowed.
    - The strings of a value of the registry: the bytes of the value and one more.
    - The commands that control the service: the answers until the clock has moved by the
      time they allow, or until the state they wait for changes; one of them has no limit
      ([stop_never_ends]).
    - The loops on messages of a tool or of a client's thread: the number of messages; the
      code itself has no bound there, and the theorems say after which message it stops,
      or that it never does.
    Machine integers are numbers of [Z] with their conversions written out.  Where the C
    code would overflow, the theorem states the bound it needs: fewer than 2^31 files in a
    scan, 2^61 bytes in a message, 2^62 slots in a table.

    ** What is proved

    - Data structures: the hash table, over histories of calls, is a finite map
      ([hash_table_histories]) as long as no key is inserted twice; the queue is a list
      ([queue_refines_list]); buffers hold what was appended ([buffer_collects_chunks]).
    - Configuration: the parser accepts exactly its documented grammar and always ends;
      the store is a map; a saved store loads back; the daemon's configuration is the one
      its files say ([daemon_starts]).
    - Memory: any history of calls of the configuration, loading files included, uses no
      freed block and leaves one, which [a6o_conf_free] forgets ([conf_session_frees]);
      events and the callbacks of their source ([source_session_frees]), the update information
      ([info_new_free]) and the notifications of mounts, whatever the order of the threads
      ([mount_threads_own]), are freed once.  Uses that break this are stated too
      ([set_own_string_faults], [remove_itself_faults]).
    - Modules: each is loaded, initialised, configured and closed once and in order, and
      one that fails does not disturb the others; what the builtin modules make of their
      sections.
    - Scanning: which modules apply and what verdict they give; the white list; which
      files a walk reaches; how directories are made ([mkdir_p_makes_ancestors]); a scan
      always completes and its report is truthful, under
      every schedule.
    - On-access: every permission event is answered exactly once and its descriptor closed
      once, in every interleaving; the work left always ends; malware is denied; every
      directory below a configured one becomes protected.
    - Remote calls: messages and structures are understood as they were made; a call gets
      one answer; no input makes the library fault; a listener gets the events it asked
      for; which messages the published schema accepts ([schema_accepts], [root_accepts]).
      [scan_shown] and [info_shown] join the parts: what armadito-scan and
      armadito-info print is what the daemon found.
    - Errors: where the code misbehaves, the theorem states how: the callback of a scan or
      of a listener outlives its object ([scan_callback_outlives_scan],
      [listener_outlives_connection]), a refused call stays pending for ever
      ([call_refused]), descriptors of ignored events leak ([notify_leaks]).
    - The Windows port: every notification uses a freed object
      ([notification_frees_twice]); the two walks of a directory find the same files
      ([walks_agree]); a configuration survives the registry ([registry_roundtrip]); a
      command line is understood ([command_parsed]); a file is moved to the quarantine
      ([win_quarantine_moves]); a signature is checked against the whole file, up to the
      size an [int] can hold ([signature_verified], [long_file_cut]); all the clients of
      the service share one context ([pool_shares_context]).  The service holds its library
      exactly while it runs ([service_lifecycle]), as long as it is only continued when
      paused; the commands end, with what their results mean and which handles they leave
      ([pause_continue_outcome], [stop_outcome], [launch_outcome]); installing and
      uninstalling ([install_uninstall], [registry_result_is_crash_key]); the paths of the
      product ([windows_paths]).  Every question of the driver is answered once
      ([driver_answered]), and when its threads end ([finalize_ends], [finalize_may_hang]).

    Every component has its own invariant ([ht_ok], [conf_ok], [run_inv], [fa_inv],
    [conn_ok], [heap_ok]); its operations preserve it, and the theorems on histories and
    interleavings follow by induction.  Theorems with hypotheses are followed by a lemma
    named [.._witness], which applies them to a concrete case.

    ** What is not modelled

    - Of the Windows port, what only calls Windows: the creation of its pipes; functions
      that are not in the tree ([a6o_scan_simple], the handler of JSON requests, the one
      that sends them), because of which the service does not build at this commit; and
      [display_entry], which passes a union to [printf].
    - The memory of the components that are not listed under "Memory"; the blocks that GLib
      and the system keep for themselves.
    - The text of the JSON schema, which the preprocessor and [sed] make, and the functions
      that print structures for debugging.
    - The main loop of GLib, thread creation and [server_new], which only connect the
      operations that are modelled; the texts of usages and of most log messages.
    - The tests, the build files and the packaging. *)
From Stdlib Require Export ZArith Lia Ascii.
From stdpp Require Export base tactics list strings gmap option numbers.

#[export] Set Default Goal Selector "!".

(** ** Outcomes of C code

    A C function either returns ([Ok]) or runs into one of the faults below:
    dereferencing NULL, reading an object that was never initialised or was
    already freed, indexing outside an array, failing an [assert], calling
    [abort], or not leaving a loop within the bound given for it.  Library results
    that the source handles itself (return codes) are ordinary values, never faults. *)
Inductive fault : Set :=
  | NullDeref
  | UninitRead
  | UseAfterFree
  | OutOfBounds
  | AssertFail
  | Aborted
  | Diverges.

Inductive outcome (A : Type) : Type :=
  | Ok (a : A)
  | Fault (f : fault).
Arguments Ok {A} a.
Arguments Fault {A} f.

#[export] Instance fault_eq_dec : EqDecision fault.
Proof. solve_decision. Defined.

#[export] Instance outcome_eq_dec {A} `{EqDecision A} : EqDecision (outcome A).
Proof. solve_decision. Defined.

#[export] Instance outcome_ret : MRet outcome := @Ok.
#[export] Instance outcome_bind : MBind outcome :=
  fun A B k m => match m with Ok a => k a | Fault f => Fault f end.
#[export] Instance outcome_fmap : FMap outcome :=
  fun A B k m => match m with Ok a => Ok (k a) | Fault f => Fault f end.

#[export] Instance Ok_inj {A} : Inj (=) (=) (@Ok A).
Proof. by intros a b [= ->]. Qed.

Definition is_ok {A} (m : outcome A) : bool :=
  match m with Ok _ => true | Fault _ => false end.

(** [assert(b)] of <assert.h>. *)
Definition c_assert (b : bool) : outcome unit :=
  if b then Ok tt else Fault AssertFail.

Lemma bind_Ok {A B} (a : A) (k : A -> outcome B) : (Ok a ≫= k) = k a.
Proof. done. Qed.

Lemma bind_Fault {A B} f (k : A -> outcome B) : (Fault f ≫= k) = Fault f.
Proof. done. Qed.

Lemma bind_Ok_inv {A B} (m : outcome A) (k : A -> outcome B) b :
  (m ≫= k) = Ok b -> exists a, m = Ok a /\ k a = Ok b.
Proof. destruct m; [eauto | done]. Qed.

Lemma bind_assoc {A B C} (m : outcome A) (k : A -> outcome B) (k' : B -> outcome C) :
  ((m ≫= k) ≫= k') = (m ≫= fun a => k a ≫= k').
Proof. by destruct m. Qed.

(** ** Machine integers

    Integers are kept in [Z]; the functions below are the conversions C applies
    on x86-64: unsigned types wrap, conversion to a signed type of the same
    width is two's complement. *)
Definition wrap (w : Z) (z : Z) : Z := (z mod 2 ^ w)%Z.
Definition u8 (z : Z) : Z := wrap 8 z.
Definition u32 (z : Z) : Z := wrap 32 z.
Definition u64 (z : Z) : Z := wrap 64 z.
Definition signed (w : Z) (z : Z) : Z :=
  let u := wrap w z in if (u <? 2 ^ (w - 1))%Z then u else (u - 2 ^ w)%Z.
Definition i8 (z : Z) : Z := signed 8 z.
Definition i32 (z : Z) : Z := signed 32 z.
Definition i64 (z : Z) : Z := signed 64 z.

Lemma wrap_bound w z : (0 <= w)%Z -> (0 <= wrap w z < 2 ^ w)%Z.
Proof. intros. apply Z.mod_pos_bound. lia. Qed.

Lemma wrap_small w z : (0 <= z < 2 ^ w)%Z -> wrap w z = z.
Proof. apply Z.mod_small. Qed.

Lemma wrap_wrap w z : (0 <= w)%Z -> wrap w (wrap w z) = wrap w z.
Proof. intros. by apply wrap_small, wrap_bound. Qed.

Lemma u64_bound z : (0 <= u64 z < 2 ^ 64)%Z.
Proof. by apply wrap_bound. Qed.

Lemma u32_bound z : (0 <= u32 z < 2 ^ 32)%Z.
Proof. by apply wrap_bound. Qed.

Lemma u64_small z : (0 <= z < 2 ^ 64)%Z -> u64 z = z.
Proof. apply wrap_small. Qed.

Lemma u32_small z : (0 <= z < 2 ^ 32)%Z -> u32 z = z.
Proof. apply wrap_small. Qed.

Lemma signed_small w z :
  (0 < w)%Z -> (- 2 ^ (w - 1) <= z < 2 ^ (w - 1))%Z -> signed w z = z.
Proof.
  intros Hw Hz. unfold signed, wrap.
  assert (2 ^ w = 2 * 2 ^ (w - 1))%Z as E.
  { rewrite <- Z.pow_succ_r by lia. f_equal; lia. }
  destruct (decide (0 <= z)%Z).
  - rewrite Z.mod_small by lia. case_match; [done | lia].
  - rewrite <- (Z.mod_unique_pos z (2 ^ w) (-1) (z + 2 ^ w)) by lia.
    case_match; lia.
Qed.

Lemma signed_bound w z : (0 < w)%Z -> (- 2 ^ (w - 1) <= signed w z < 2 ^ (w - 1))%Z.
Proof.
  intros Hw. unfold signed, wrap.
  assert (2 ^ w = 2 * 2 ^ (w - 1))%Z as E.
  { rewrite <- Z.pow_succ_r by lia. f_equal; lia. }
  assert (0 < 2 ^ (w - 1))%Z by (apply Z.pow_pos_nonneg; lia).
  pose proof (Z.mod_pos_bound z (2 ^ w) ltac:(lia)). case_match; lia.
Qed.

Lemma i64_bound z : (- 2 ^ 63 <= i64 z < 2 ^ 63)%Z.
Proof. by apply (signed_bound 64). Qed.

Lemma i64_small z : (- 2 ^ 63 <= z < 2 ^ 63)%Z -> i64 z = z.
Proof. intros. by apply (signed_small 64). Qed.

Lemma i32_small z : (- 2 ^ 31 <= z < 2 ^ 31)%Z -> i32 z = z.
Proof. intros. apply (signed_small 32); lia. Qed.

Lemma i32_u32 z : (- 2 ^ 31 <= z < 2 ^ 31)%Z -> i32 (u32 z) = z.
Proof.
  intros Hz. transitivity (i32 z); [|by apply i32_small]. unfold i32, signed, u32. by rewrite wrap_wrap.
Qed.

(** The bytes of a C string, and back. *)
Abbreviation bytes := String.list_ascii_of_string.
Abbreviation of_bytes := String.string_of_list_ascii.

Lemma of_bytes_bytes s : of_bytes (bytes s) = s.
Proof. apply String.string_of_list_ascii_of_string. Qed.

Lemma bytes_of_bytes l : bytes (of_bytes l) = l.
Proof. apply String.list_ascii_of_string_of_list_ascii. Qed.

Lemma length_bytes s : length (bytes s) = String.length s.
Proof. induction s; simpl; congruence. Qed.

Lemma bytes_app s1 s2 : bytes (s1 +:+ s2) = bytes s1 ++ bytes s2.
Proof. induction s1 as [|c s1 IH]; [done|]. simpl. by rewrite <- IH. Qed.

Lemma bytes_inj s1 s2 : bytes s1 = bytes s2 -> s1 = s2.
Proof. intros E. by rewrite <- (of_bytes_bytes s1), <- (of_bytes_bytes s2), E. Qed.

#[export] Instance append_assoc : Assoc (=) String.append.
Proof. intros s1 s2 s3. apply bytes_inj. rewrite !bytes_app. apply (assoc_L (++)). Qed.

#[export] Instance append_empty_r : RightId (=) "" String.append.
Proof. intros s. apply bytes_inj. rewrite bytes_app. apply (right_id_L [] (++)). Qed.

(** Bytes of a C string as the values of [char] (signed on x86) or
    [unsigned char]. *)
Definition uchar (c : ascii) : Z := Z.of_N (N_of_ascii c).
Definition schar (c : ascii) : Z := i8 (uchar c).

Lemma uchar_bound c : (0 <= uchar c < 256)%Z.
Proof. unfold uchar. pose proof (N_ascii_bounded c). lia. Qed.

(** The C string at the beginning of an object: its bytes before the first NUL. *)
Fixpoint c_string (l : list ascii) : string :=
  match l with
  | [] => EmptyString
  | c :: l => if (c =? "000")%char then EmptyString else String c (c_string l)
  end.

Lemma c_string_bytes x : "000"%char ∉ bytes x -> c_string (bytes x) = x.
Proof.
  induction x as [|c x IH]; simpl; [done|]. rewrite not_elem_of_cons. intros [Hc Hx].
  rewrite (proj2 (Ascii.eqb_neq _ _)) by done. by rewrite IH.
Qed.

Lemma c_string_nul x l : "000"%char ∉ bytes x -> c_string (bytes x ++ "000"%char :: l) = x.
Proof.
  induction x as [|c x IH]; simpl; [done|]. rewrite not_elem_of_cons. intros [Hc Hx].
  rewrite (proj2 (Ascii.eqb_neq _ _)) by done. by rewrite IH.
Qed.

(** Little-endian integers. *)
Fixpoint le_value (l : list ascii) : Z :=
  match l with [] => 0 | c :: l => uchar c + 256 * le_value l end%Z.

Fixpoint le_bytes (n : nat) (z : Z) : list ascii :=
  match n with O => [] | S n => ascii_of_N (Z.to_N (z mod 256)) :: le_bytes n (z / 256) end.

Lemma le_value_bytes n z : (0 <= z < 256 ^ Z.of_nat n)%Z -> le_value (le_bytes n z) = z.
Proof.
  revert z. induction n as [|n IH]; intros z Hz; [change (256 ^ Z.of_nat 0)%Z with 1%Z in Hz; cbn; lia|].
  rewrite Nat2Z.inj_succ, Z.pow_succ_r in Hz by lia. cbn [le_bytes le_value].
  pose proof (Z.mod_pos_bound z 256 ltac:(lia)).
  rewrite IH by (split; [apply Z.div_pos; lia|apply Z.div_lt_upper_bound; lia]).
  unfold uchar. rewrite N_ascii_embedding by lia. rewrite Z2N.id by lia. rewrite Z.add_comm. symmetry. apply Z.div_mod. lia.
Qed.

Lemma length_le_bytes n z : length (le_bytes n z) = n.
Proof. revert z. induction n as [|n IH]; intros z; [done|]. cbn. by rewrite IH. Qed.

(** Bit operations on unsigned words. *)
Lemma bits_high n z i : (0 <= z < 2 ^ n)%Z -> (0 <= n <= i)%Z -> Z.testbit z i = false.
Proof.
  intros Hz Hi. rewrite <- (Z.mod_small z (2 ^ n)) by done. by apply Z.mod_pow2_bits_high.
Qed.

Lemma bits_bound n z :
  (0 <= n)%Z -> (0 <= z)%Z -> (forall i, (n <= i)%Z -> Z.testbit z i = false) ->
  (0 <= z < 2 ^ n)%Z.
Proof.
  intros Hn Hz Hb. enough (z = z mod 2 ^ n)%Z as -> by (apply Z.mod_pos_bound; lia).
  apply Z.bits_inj'. intros i Hi. destruct (decide (i < n)%Z).
  - by rewrite Z.mod_pow2_bits_low.
  - rewrite Z.mod_pow2_bits_high by lia. apply Hb. lia.
Qed.

Lemma lxor_bound n a b :
  (0 <= n)%Z -> (0 <= a < 2 ^ n)%Z -> (0 <= b < 2 ^ n)%Z -> (0 <= Z.lxor a b < 2 ^ n)%Z.
Proof.
  intros Hn Ha Hb. apply bits_bound; [done|apply Z.lxor_nonneg; lia|].
  intros i Hi. by rewrite Z.lxor_spec, !(bits_high n) by lia.
Qed.

Lemma shiftr_bound n z s :
  (0 <= s)%Z -> (0 <= z < 2 ^ n)%Z -> (0 <= Z.shiftr z s < 2 ^ n)%Z.
Proof.
  intros Hs Hz. rewrite Z.shiftr_div_pow2 by done.
  assert (0 < 2 ^ s)%Z by (apply Z.pow_pos_nonneg; lia). split; [apply Z.div_pos; lia|].
  apply Z.div_lt_upper_bound; nia.
Qed.

(** The xor-shift step of the MurmurHash finalisers undoes itself when the shift
    is at least half of the width. *)
Lemma xorshift_involutive n s z :
  (0 <= n <= 2 * s)%Z -> (0 <= z < 2 ^ n)%Z ->
  let y := Z.lxor z (Z.shiftr z s) in Z.lxor y (Z.shiftr y s) = z.
Proof.
  intros Hs Hz y. unfold y. rewrite Z.shiftr_lxor, Z.shiftr_shiftr by lia.
  assert (Z.shiftr z (s + s) = 0)%Z as ->.
  { rewrite Z.shiftr_div_pow2 by lia. apply Z.div_small.
    assert (2 ^ n <= 2 ^ (s + s))%Z by (apply Z.pow_le_mono_r; lia). lia. }
  by rewrite Z.lxor_0_r, Z.lxor_assoc, Z.lxor_nilpotent, Z.lxor_0_r.
Qed.

(** Multiplication by a constant with an inverse modulo [2 ^ w] is injective. *)
Lemma wrap_mul_inj w c c' a b :
  (0 <= w)%Z -> wrap w (c * c') = 1%Z ->
  (0 <= a < 2 ^ w)%Z -> (0 <= b < 2 ^ w)%Z ->
  wrap w (a * c) = wrap w (b * c) -> a = b.
Proof.
  intros Hw Hc Ha Hb E.
  assert (forall x, 0 <= x < 2 ^ w -> wrap w (wrap w (x * c) * c') = x)%Z as Hinv.
  { intros x Hx. unfold wrap in *. rewrite Zmult_mod_idemp_l, <- Z.mul_assoc.
    rewrite <- Zmult_mod_idemp_r, Hc, Z.mul_1_r. by apply Z.mod_small. }
  rewrite <- (Hinv a Ha), <- (Hinv b Hb). by rewrite E.
Qed.

Create HintDb cint.
#[export] Hint Resolve u64_bound u32_bound wrap_bound uchar_bound : cint.

(** ** Automation shared by the components *)

(** Decompose a hypothesis [(m ≫= k) = Ok b]. *)
Ltac inv_bind :=
  repeat match goal with
  | H : (_ ≫= _) = Ok _ |- _ =>
      let x := fresh "x" in let Hx := fresh "Hx" in
      apply bind_Ok_inv in H; destruct H as (x & Hx & H)
  | H : Ok _ = Ok _ |- _ => injection H as H
  | H : Fault _ = Ok _ |- _ => discriminate H
  | H : mret _ = Ok _ |- _ => injection H as H
  end.
