(* ===== verification/Heap.v ===== *)
(** * Heaps and ownership

    Which blocks of memory a function allocates, reads and frees.  A heap is a finite map
    from addresses to blocks; a command ([cmd]) is a function of the C code that works on
    it, a pointer is an address or NULL.  Reading or freeing a block that is not there is a
    fault, so a command that returns has neither used a freed block nor freed one twice.

    Specifications are assertions of a linear separation logic ([hprop]): an assertion
    holds for exactly the blocks it speaks of.  A postcondition therefore lists every block
    that is left, and a leak cannot be forgotten.  The logic is an instance of the
    interface of Iris, whose proof mode carries the proofs of ConfHeap.v and those after
    it. *)
From S2P Require Import Prelude.
From iris.bi Require Import interface derived_laws_later.
From iris.proofmode Require Import proofmode.

Abbreviation addr := positive.
(** A pointer that may be NULL. *)
Abbreviation ptr := (option positive).

(** [malloc] gives any address that is not in use. *)
Class Allocator := {
  new_addr : gset addr -> addr;
  new_addr_fresh (used : gset addr) : new_addr used ∉ used;
}.

#[export] Instance least_allocator : Allocator :=
  {| new_addr := fresh; new_addr_fresh := is_fresh |}.

(** ** Commands *)

Abbreviation heap B := (gmap positive B).

Section commands.
Context {B : Type}.

Definition cmd (A : Type) : Type := heap B -> outcome (A * heap B).

#[export] Instance cmd_ret : MRet cmd := fun A a h => Ok (a, h).
#[export] Instance cmd_bind : MBind cmd := fun A C k m h => r ← m h; k r.1 r.2.

Definition fault_cmd {A} (f : fault) : cmd A := fun _ => Fault f.

(** A computation that does not touch the heap. *)
Definition lift {A} (o : outcome A) : cmd A := fun h => a ← o; Ok (a, h).

Definition malloc `{Allocator} (b : B) : cmd addr := fun h =>
  let a := new_addr (dom h) in Ok (a, <[a := b]> h).

(** The address behind a pointer that the code dereferences. *)
Definition deref_ptr (p : ptr) : cmd addr := lift (match p with Some a => Ok a | None => Fault NullDeref end).

Definition load (a : addr) : cmd B := fun h =>
  match h !! a with Some b => Ok (b, h) | None => Fault UseAfterFree end.

Definition store (a : addr) (b : B) : cmd unit := fun h =>
  match h !! a with Some _ => Ok (tt, <[a := b]> h) | None => Fault UseAfterFree end.

(** [free(p)]: nothing for NULL. *)
Definition free (p : ptr) : cmd unit := fun h =>
  match p with
  | None => Ok (tt, h)
  | Some a => match h !! a with Some _ => Ok (tt, delete a h) | None => Fault UseAfterFree end
  end.

(** [for (i = 0; i < len; i++) f(array[i]);] *)
Fixpoint for_each {A} (f : A -> cmd unit) (l : list A) : cmd unit :=
  match l with [] => mret tt | x :: l => f x;; for_each f l end.

End commands.
Arguments cmd : clear implicits.

(** ** Assertions *)

Record hprop (B : Type) := HProp { holds : heap B -> Prop }.
Arguments HProp {B} _.
Arguments holds {B} _ _.
Add Printing Constructor hprop.
Bind Scope bi_scope with hprop.

Section logic.
Context {B : Type}.
Implicit Types P Q R : hprop B.

#[local] Instance hprop_equiv : Equiv (hprop B) := fun P Q => forall h, holds P h <-> holds Q h.
#[local] Instance hprop_equivalence : Equivalence (≡@{hprop B}).
Proof.
  split.
  - by intros P h.
  - intros P Q E h. by rw (E h).
  - intros P Q R E1 E2 h. by rw (E1 h).
Qed.

#[local] Canonical Structure hpropO := discreteO (hprop B).

Record hentails P Q : Prop := Entails { at_heap : forall h, holds P h -> holds Q h }.
#[local] Coercion at_heap : hentails >-> Funclass.
Definition hemp : hprop B := HProp (fun h => h = ∅).
Definition hpure (φ : Prop) : hprop B := HProp (fun _ => φ).
Definition hand P Q : hprop B := HProp (fun h => holds P h /\ holds Q h).
Definition hor P Q : hprop B := HProp (fun h => holds P h \/ holds Q h).
Definition himpl P Q : hprop B := HProp (fun h => holds P h -> holds Q h).
Definition hforall A (Φ : A -> hprop B) : hprop B := HProp (fun h => forall a, holds (Φ a) h).
Definition hexist A (Φ : A -> hprop B) : hprop B := HProp (fun h => exists a, holds (Φ a) h).
(** The heap splits in two parts, one for each assertion. *)
Definition hsep P Q : hprop B :=
  HProp (fun h => exists h1 h2, h = h1 ∪ h2 /\ h1 ##ₘ h2 /\ holds P h1 /\ holds Q h2).
Definition hwand P Q : hprop B :=
  HProp (fun h => forall h', h ##ₘ h' -> holds P h' -> holds Q (h ∪ h')).
Definition hpersistently P : hprop B := HProp (fun _ => holds P ∅).

Lemma hprop_bi_mixin :
  BiMixin hentails hemp hpure hand hor himpl hforall hexist hsep hwand.
Proof.
  split.
  - split; [by intros P; split|]. intros P Q R H1 H2. split. intros h HP. exact (H2 h (H1 h HP)).
  - intros P Q. split.
    + intros E. split; split; intros h HP; by apply E.
    + intros [H1 H2] h. split; [apply H1|apply H2].
  - intros n φ ψ E h. apply E.
  - intros n P P' E Q Q' F h. simpl. by rw (E h) (F h).
  - intros n P P' E Q Q' F h. simpl. by rw (E h) (F h).
  - intros n P P' E Q Q' F h. simpl. by rw (E h) (F h).
  - intros A n Φ Ψ E h. split; intros HΦ a; apply (E a), HΦ.
  - intros A n Φ Ψ E h. split; intros [a HΦ]; exists a; by apply (E a).
  - intros n P P' E Q Q' F h. split; intros (h1 & h2 & ? & ? & HP & HQ); exists h1, h2;
      (split_and!; [done|done|by apply E|by apply F]).
  - intros n P P' E Q Q' F h. split; intros HW h' D HP; apply F, HW; [done|by apply E|done|by apply E].
  - by intros φ P Hφ.
  - intros φ P HP. split. intros h Hφ. exact (HP Hφ h I).
  - intros P Q. by split; intros h [].
  - intros P Q. by split; intros h [].
  - intros P Q R H1 H2. split. intros h HP. split; [exact (H1 h HP)|exact (H2 h HP)].
  - intros P Q. split. by left.
  - intros P Q. split. by right.
  - intros P Q R H1 H2. split. intros h [HP|HQ]; [exact (H1 h HP)|exact (H2 h HQ)].
  - intros P Q R HR. split. intros h HP HQ. exact (HR h (conj HP HQ)).
  - intros P Q R HR. split. intros h [HP HQ]. exact (HR h HP HQ).
  - intros A P Φ HΦ. split. intros h HP a. exact (HΦ a h HP).
  - intros A Φ a. split. intros h HΦ. exact (HΦ a).
  - intros A Φ a. split. intros h HΦ. by exists a.
  - intros A Φ Q HΦ. split. intros h [a Ha]. exact (HΦ a h Ha).
  - intros P P' Q Q' H1 H2. split. intros h (h1 & h2 & -> & D & HP & HQ). exists h1, h2.
    split_and!; [done|done|exact (H1 _ HP)|exact (H2 _ HQ)].
  - intros P. split. intros h HP. exists ∅, h. rw left_id_L.
    split_and!; [done|apply map_disjoint_empty_l|done|done].
  - intros P. split. intros h (h1 & h2 & -> & D & -> & HP). by rw left_id_L.
  - intros P Q. split. intros h (h1 & h2 & -> & D & HP & HQ). exists h2, h1.
    split_and!; [by apply map_union_comm|done|done|done].
  - intros P Q R. split. intros h (h12 & h3 & -> & D & (h1 & h2 & -> & D' & HP & HQ) & HR).
    apply map_disjoint_union_l in D as [D1 D2]. exists h1, (h2 ∪ h3).
    split_and!; [by rw assoc_L|by apply map_disjoint_union_r|done|by exists h2, h3].
  - intros P Q R HR. split. intros h HP h' D HQ. apply (HR (h ∪ h')). by exists h, h'.
  - intros P Q R HR. split. intros h (h1 & h2 & -> & D & HP & HQ). exact (HR h1 HP h2 D HQ).
Qed.

Lemma hprop_persistently_mixin :
  BiPersistentlyMixin hentails hemp hand hexist hsep hpersistently.
Proof.
  split.
  - intros n P Q E h. apply (E ∅).
  - intros P Q HPQ. split. intros h. exact (HPQ ∅).
  - by intros P.
  - by split.
  - by intros P Q.
  - intros A Φ. split. intros h [a Ha]. by exists a.
  - intros P Q. by split; intros h (h1 & h2 & _ & _ & HP & _).
  - intros P Q. split. intros h [HP HQ]. exists ∅, h. rw left_id_L.
    split_and!; [done|apply map_disjoint_empty_l|done|done].
Qed.

Lemma hprop_later_mixin :
  BiLaterMixin hentails hpure hor himpl hforall hexist hsep hpersistently id.
Proof. eapply bi_later_mixin_id; [done|apply hprop_bi_mixin]. Qed.

Canonical Structure hpropI : bi :=
  {| bi_ofe_mixin := ofe_mixin_of (hprop B);
     bi_bi_mixin := hprop_bi_mixin;
     bi_bi_persistently_mixin := hprop_persistently_mixin;
     bi_bi_later_mixin := hprop_later_mixin |}.

End logic.
Arguments hpropI : clear implicits.

(** ** Ownership of a block, and what a command does *)

Section wp.
Context {B : Type}.
Implicit Types (a : addr) (b : B) (P : hprop B).

(** The block [a], with contents [b], and nothing else. *)
Definition points_to a b : hprop B := HProp (fun h => h = {[a := b]}).

(** [wp c Q]: started on this heap and any other blocks beside it, the command returns,
    without a fault; [Q] holds of the value and of the heap it leaves, and the other blocks
    are as they were. *)
Definition wp {A} (c : cmd B A) (Q : A -> hprop B) : hprop B :=
  HProp (fun h => forall hf, h ##ₘ hf ->
    exists v h', c (h ∪ hf) = Ok (v, h' ∪ hf) /\ h' ##ₘ hf /\ holds (Q v) h').

#[local] Notation "a ↦ b" := (points_to a b) (at level 20) : bi_scope.

Lemma wp_ret {A} (v : A) Q : Q v ⊢ wp (mret v) Q.
Proof. split. intros h HQ hf D. by exists v, h. Qed.

Lemma wp_bind {A C} (c : cmd B A) (k : A -> cmd B C) Q :
  wp c (fun v => wp (k v) Q) ⊢ wp (c ≫= k) Q.
Proof.
  split. intros h Hc hf D. destruct (Hc hf D) as (v & h1 & E & D1 & Hk).
  destruct (Hk hf D1) as (w & h2 & E2 & D2 & HQ). exists w, h2.
  split; [|done]. unfold mbind, cmd_bind. rw E. exact E2.
Qed.

Lemma wp_wand {A} (c : cmd B A) (Q R : A -> hprop B) :
  wp c Q ∗ (∀ v, Q v -∗ R v) ⊢ wp c R.
Proof.
  split. intros h (h1 & h2 & -> & D & Hc & HR) hf Df.
  apply map_disjoint_union_l in Df as [D1 D2].
  destruct (Hc (h2 ∪ hf)) as (v & h' & E & D' & HQ); [by apply map_disjoint_union_r|].
  apply map_disjoint_union_r in D' as [D2' Df'].
  exists v, (h' ∪ h2). rw -!assoc_L. split_and!.
  - exact E.
  - apply map_disjoint_union_l. done.
  - rw (map_union_comm h' h2); [|done]. by apply (HR v); [|].
Qed.

Lemma wp_mono {A} (c : cmd B A) (Q R : A -> hprop B) : (forall v, Q v ⊢ R v) -> wp c Q ⊢ wp c R.
Proof. iIntros (HQ) "Hc". iApply wp_wand. iFrame "Hc". iIntros (v) "HQ". by iApply HQ. Qed.

Lemma wp_frame {A} (c : cmd B A) Q P : wp c Q ∗ P ⊢ wp c (fun v => Q v ∗ P).
Proof. iIntros "[Hc HP]". iApply wp_wand. iFrame "Hc". iIntros (v) "HQ". iFrame. Qed.

Lemma wp_lift {A} (o : outcome A) v Q : o = Ok v -> Q v ⊢ wp (lift o) Q.
Proof. intros ->. split. intros h HQ hf D. by exists v, h. Qed.

Lemma wp_malloc `{Allocator} b Q : (∀ a, a ↦ b -∗ Q a) ⊢ wp (malloc b) Q.
Proof.
  split. intros h HQ hf D. set (a := new_addr (dom (h ∪ hf))).
  assert (Ha : a ∉ dom (h ∪ hf)) by apply new_addr_fresh.
  rw dom_union_L in Ha. apply not_elem_of_union in Ha as [Ha Haf].
  apply not_elem_of_dom in Ha, Haf.
  exists a, (<[a := b]> h). rw -insert_union_l. split_and!; [done|by apply map_disjoint_insert_l_2|].
  rw insert_union_singleton_r; [|done]. apply (HQ a).
  - by apply map_disjoint_singleton_r.
  - done.
Qed.

(** What a command reaches of a heap it shares with the others. *)
Lemma points_to_union a b h hf : holds (points_to a b) h -> (h ∪ hf) !! a = Some b.
Proof. intros ->. by rw lookup_union lookup_singleton_eq union_Some_l. Qed.

Lemma points_to_free a b h hf : holds (points_to a b) h -> h ##ₘ hf -> hf !! a = None.
Proof. intros ->. by apply map_disjoint_singleton_l. Qed.

Lemma wp_load a b Q : a ↦ b ∗ (a ↦ b -∗ Q b) ⊢ wp (load a) Q.
Proof.
  split. intros h (h1 & h2 & -> & D & Ha & HQ) hf Df. exists b, (h2 ∪ h1).
  rw -(map_union_comm h1 h2); [|done]. split_and!; [|done|].
  - unfold load. by rw -assoc_L (points_to_union _ _ _ _ Ha).
  - rw (map_union_comm h1 h2); [|done]. by apply HQ.
Qed.

Lemma wp_store a b b' Q : a ↦ b ∗ (a ↦ b' -∗ Q tt) ⊢ wp (store a b') Q.
Proof.
  split. intros h (h1 & h2 & -> & D & Ha & HQ) hf Df.
  apply map_disjoint_union_l in Df as [D1 D2].
  assert (Hh2 : h2 !! a = None) by by eapply points_to_free.
  assert (Hhf : hf !! a = None) by by eapply points_to_free.
  exists tt, (h2 ∪ {[a := b']}). split_and!.
  - unfold store. rw -assoc_L (points_to_union _ _ _ _ Ha) Ha insert_union_l insert_singleton_eq.
    rw (map_union_comm h2 {[a := b']}); [by rw -assoc_L|by apply map_disjoint_singleton_r].
  - apply map_disjoint_union_l. split; [done|by apply map_disjoint_singleton_l].
  - apply HQ; [by apply map_disjoint_singleton_r|done].
Qed.

Lemma wp_free a b Q : a ↦ b ∗ Q tt ⊢ wp (free (Some a)) Q.
Proof.
  split. intros h (h1 & h2 & -> & D & Ha & HQ) hf Df.
  apply map_disjoint_union_l in Df as [D1 D2].
  exists tt, h2. split_and!; [|done|done].
  unfold free. rw -assoc_L (points_to_union _ _ _ _ Ha) Ha delete_union delete_singleton_eq left_id_L.
  rw delete_id //. apply lookup_union_None. split; by eapply points_to_free.
Qed.

Lemma wp_free_null Q : Q tt ⊢ wp (free None) Q.
Proof. split. intros h HQ hf D. by exists tt, h. Qed.

(** A call under a bind: the callee takes [P] and gives [R v] back. *)
Lemma wp_call {A C} (P : hprop B) (c : cmd B A) (k : A -> cmd B C) R Q :
  (P ⊢ wp c R) -> P ∗ (∀ v, R v -∗ wp (k v) Q) ⊢ wp (c ≫= k) Q.
Proof.
  iIntros (Hc) "[HP HQ]". iApply wp_bind. iApply wp_wand. iFrame "HQ". by iApply Hc.
Qed.

(** A call whose result is the result of the caller. *)
Lemma wp_tail {A} (P : hprop B) (c : cmd B A) R Q :
  (P ⊢ wp c R) -> P ∗ (∀ v, R v -∗ Q v) ⊢ wp c Q.
Proof. iIntros (Hc) "[HP HQ]". iApply wp_wand. iFrame "HQ". by iApply Hc. Qed.

(** [f] on each element, of which it consumes [Φ] and leaves [Ψ]. *)
Lemma wp_for_each {A} (f : A -> cmd B unit) (Φ Ψ : A -> hprop B) (l : list A) :
  (forall x, Φ x ⊢ wp (f x) (fun _ => Ψ x)) ->
  ([∗ list] x ∈ l, Φ x) ⊢ wp (for_each f l) (fun _ => [∗ list] x ∈ l, Ψ x).
Proof.
  intros Hf. induction l as [|x l IH]; simpl; [iIntros "_"; by iApply wp_ret|].
  iIntros "[Hx Hl]". iApply wp_call; [apply Hf|]. iFrame "Hx". iIntros (_) "Hx".
  iApply wp_tail; [apply IH|]. iFrame "Hl". iIntros (_) "Hl". iFrame.
Qed.

(** What a postcondition keeps can be framed before the command. *)
#[export] Instance frame_wp pers {A} (R : hprop B) (c : cmd B A) (Q Q' : A -> hprop B) :
  (FrameInstantiateExistDisabled -> forall v, Frame pers R (Q v) (Q' v)) ->
  Frame pers R (wp c Q) (wp c Q').
Proof.
  intros HF. specialize (HF ltac:(constructor)). unfold Frame in *. iIntros "[HR Hc]". iApply wp_wand.
  iFrame "Hc". iIntros (v) "HQ". specialize (HF v). rw -HF. iFrame.
Qed.

(** A specification is a statement on runs: a heap of which [P] describes a part. *)
Lemma wp_run {A} (P : hprop B) (c : cmd B A) Q h hf :
  (P ⊢ wp c Q) -> holds P h -> h ##ₘ hf ->
  exists v h', c (h ∪ hf) = Ok (v, h' ∪ hf) /\ h' ##ₘ hf /\ holds (Q v) h'.
Proof. intros Hc HP D. exact (at_heap _ _ Hc h HP hf D). Qed.

End wp.

Notation "a ↦ b" := (points_to a b) (at level 20) : bi_scope.
(** A fact, which owns nothing. *)
Notation "⟨ φ ⟩" := (bi_affinely (bi_pure φ%type%stdpp)) (format "⟨ φ ⟩") : bi_scope.

#[global] Typeclasses Opaque points_to.

(** ** Tactics

    Each steps over the command at the front: [wp_let] an allocation, [wp_read] and
    [wp_write] an access, [wp_del] a [free], [wp_pure] a computation; [wp_use] a call with
    a specification, to which the named assertions are given. *)
Tactic Notation "wp_front" := first [iApply wp_bind | idtac].
Tactic Notation "wp_let" simple_intropattern(a) "as" constr(H) :=
  wp_front; iApply wp_malloc; iIntros (a) H; simpl.
Tactic Notation "wp_read" constr(H) := wp_front; iApply wp_load; iFrame H; iIntros H; simpl.
Tactic Notation "wp_write" constr(H) := wp_front; iApply wp_store; iFrame H; iIntros H; simpl.
Tactic Notation "wp_del" constr(H) := wp_front; iApply wp_free; iFrame H; simpl.
Tactic Notation "wp_pure" := wp_front; first [iApply wp_ret | iApply wp_lift; [reflexivity|]]; simpl.
Tactic Notation "wp_use" uconstr(L) "with" constr(H) "as" "(" simple_intropattern(v) ")" constr(H') :=
  first [iApply wp_call; [eapply L|iFrame H; iIntros (v) H'; simpl]
        | iApply wp_tail; [eapply L|iFrame H; iIntros (v) H'; simpl]].
