(* ===== verification/Hash.v ===== *)
(** * The open-addressing hash table of the JSON-RPC library
    ([src/librpc/jrpc/hash.c], [hash.h])

    Keys are [void *]: [PInt w] is a pointer-sized integer ([PInt 0] is NULL),
    [PStr a s] a pointer at address [a] to a C string [s].  Values are [void *]
    with [None] for NULL.  Operations return the new table together with the
    trace of the free callbacks they called. *)
From S2P Require Import Prelude.

#[local] Open Scope Z_scope.

Inductive ptr : Type :=
  | PInt (w : Z)
  | PStr (addr : Z) (s : string).

#[export] Instance ptr_eq_dec : EqDecision ptr.
Proof. solve_decision. Defined.

Definition NULL : ptr := PInt 0.

Definition H_POINTER_TO_INT (p : ptr) : Z :=
  match p with PInt w => u64 w | PStr a _ => u64 a end.

Definition H_INT_TO_POINTER (i : Z) : ptr := PInt (u64 i).

(** Reading a C string through a [void *]. *)
Definition deref_str (p : ptr) : outcome string :=
  match p with PInt _ => Fault NullDeref | PStr _ s => Ok s end.

Inductive hash_table_type := HASH_KEY_STR | HASH_KEY_INT | HASH_KEY_PTR.

#[export] Instance hash_table_type_eq_dec : EqDecision hash_table_type.
Proof. solve_decision. Defined.

Inductive entry_state := EMPTY | REMOVED | OCCUPIED.

#[export] Instance entry_state_eq_dec : EqDecision entry_state.
Proof. solve_decision. Defined.

(** ** Hash functions *)

(** One iteration of the loop of [pjw32]: [h = (h << 4) + *p++], then the four
    high bits are folded back and cleared; all on [uint32_t]. *)
Definition pjw32_step (h : Z) (c : ascii) : Z :=
  let h := u32 (u32 (Z.shiftl h 4) + schar c) in
  let high := Z.land h 0xF0000000 in
  let h := if high =? 0 then h else Z.lxor h (Z.shiftr high 24) in
  Z.land h (u32 (Z.lnot high)).

Fixpoint pjw32_loop (s : string) (h : Z) : Z :=
  match s with
  | EmptyString => h
  | String c s' => pjw32_loop s' (pjw32_step h c)
  end.

Definition pjw32 (p : ptr) : outcome Z :=
  s ← deref_str p; Ok (pjw32_loop s 0).

Definition himult32 (p : ptr) : Z :=
  let k := H_POINTER_TO_INT p in u32 (u32 k * 2654435761).

Definition himult64 (p : ptr) : Z :=
  let k := H_POINTER_TO_INT p in u64 (k * 11400712997709160919).

Definition fmix32 (p : ptr) : Z :=
  let k := H_POINTER_TO_INT p in
  let h := u32 k in
  let h := Z.lxor h (Z.shiftr h 16) in
  let h := u32 (h * 0x85ebca6b) in
  let h := Z.lxor h (Z.shiftr h 13) in
  let h := u32 (h * 0xc2b2ae35) in
  Z.lxor h (Z.shiftr h 16).

Definition fmix64 (p : ptr) : Z :=
  let k := H_POINTER_TO_INT p in
  let k := Z.lxor k (Z.shiftr k 33) in
  let k := u64 (k * 0xff51afd7ed558ccd) in
  let k := Z.lxor k (Z.shiftr k 33) in
  let k := u64 (k * 0xc4ceb9fe1a85ec53) in
  Z.lxor k (Z.shiftr k 33).

Definition equal_str (k1 k2 : ptr) : outcome bool :=
  s1 ← deref_str k1; s2 ← deref_str k2; Ok (bool_decide (s1 = s2)).

Definition equal_pointer (k1 k2 : ptr) : outcome bool :=
  Ok (bool_decide (H_POINTER_TO_INT k1 = H_POINTER_TO_INT k2)).

Section table.
Context {V : Type}.

Record hash_table_entry := Entry {
  e_key : ptr;
  e_value : option V;
  e_state : entry_state;
}.

Definition empty_entry : hash_table_entry := Entry NULL None EMPTY.

Record hash_table := HashTable {
  ht_type : hash_table_type;
  ht_size : Z;
  ht_table : list hash_table_entry;
  ht_key_count : Z;
  ht_key_free_cb : bool;     (** is a key free callback installed? *)
  ht_value_free_cb : bool;   (** is a value free callback installed? *)
}.

(** A call of [ht_key_free_cb] or [ht_value_free_cb]. *)
Inductive free_call := FreeKey (k : ptr) | FreeValue (v : V).

Definition HASH_DEFAULT_SIZE : Z := 64.

Definition hash_table_new (t : hash_table_type) (kcb vcb : bool) : hash_table :=
  {| ht_type := t; ht_size := HASH_DEFAULT_SIZE;
     ht_table := replicate (Z.to_nat HASH_DEFAULT_SIZE) empty_entry;
     ht_key_count := 0; ht_key_free_cb := kcb; ht_value_free_cb := vcb |}.

(** [HASH(HT, K)]: the function installed by [hash_table_new]; [pjw32] returns
    32 bits, zero-extended to [size_t]. *)
Definition HASH (ht : hash_table) (k : ptr) : outcome Z :=
  match ht_type ht with
  | HASH_KEY_STR => pjw32 k
  | HASH_KEY_INT => Ok (himult64 k)
  | HASH_KEY_PTR => Ok (fmix64 k)
  end.

Definition EQUAL (ht : hash_table) (k1 k2 : ptr) : outcome bool :=
  match ht_type ht with
  | HASH_KEY_STR => equal_str k1 k2
  | HASH_KEY_INT | HASH_KEY_PTR => equal_pointer k1 k2
  end.

Definition free_key (ht : hash_table) (k : ptr) : list free_call :=
  if ht_key_free_cb ht && bool_decide (k <> NULL) then [FreeKey k] else [].

Definition free_value (ht : hash_table) (v : option V) : list free_call :=
  match v with
  | Some v => if ht_value_free_cb ht then [FreeValue v] else []
  | None => []
  end.

Definition hash_table_free (ht : hash_table) : list free_call :=
  flat_map (fun p => match e_state p with
                     | EMPTY | REMOVED => []
                     | OCCUPIED => free_key ht (e_key p) ++ free_value ht (e_value p)
                     end) (ht_table ht).

(** [T\[I\]] *)
Definition slot (tbl : list hash_table_entry) (w : Z) : outcome hash_table_entry :=
  match tbl !! Z.to_nat w with Some e => Ok e | None => Fault OutOfBounds end.

(** The probing loops all have the shape
    [for (i = 0; i < size; i++) { w = (h + i) % size; ... break ... }].
    [visit] says whether the entry stops the loop, and with which result; the
    answer is [Some (r, i, w)] after a [break], [None] when the loop ran to
    [i = size]. *)
Fixpoint probe {R} (visit : hash_table_entry -> outcome (option R))
    (tbl : list hash_table_entry) (sz h : Z) (fuel : nat) (i : Z)
    : outcome (option (R * Z * Z)) :=
  match fuel with
  | O => Ok None
  | S fuel =>
      let w := (h + i) mod sz in
      e ← slot tbl w;
      r ← visit e;
      match r with
      | Some r => Ok (Some (r, i, w))
      | None => probe visit tbl sz h fuel (i + 1)
      end
  end.

Definition probe_all {R} (visit : hash_table_entry -> outcome (option R))
    (tbl : list hash_table_entry) (sz h : Z) : outcome (option (R * Z * Z)) :=
  probe visit tbl sz h (Z.to_nat sz) 0.

Definition set_slot (tbl : list hash_table_entry) (w : Z) (e : hash_table_entry) :=
  <[Z.to_nat w := e]> tbl.

Definition rehash_visit (e : hash_table_entry) : outcome (option unit) :=
  match e_state e with EMPTY => Ok (Some tt) | _ => Ok None end.

(** The body of the [for (j = ...)] loop of [hash_table_rehash]: every old entry,
    whatever its state, is copied to the first EMPTY slot of the new table and
    marked OCCUPIED.  When no slot is EMPTY, [w] is the last slot probed. *)
Definition rehash_one (ht : hash_table) (e : hash_table_entry) : outcome hash_table :=
  h ← HASH ht (e_key e);
  let h := h mod ht_size ht in
  r ← probe_all rehash_visit (ht_table ht) (ht_size ht) h;
  let w := match r with
           | Some (_, _, w) => w
           | None => (h + (ht_size ht - 1)) mod ht_size ht
           end in
  Ok {| ht_type := ht_type ht; ht_size := ht_size ht;
        ht_table := set_slot (ht_table ht) w (Entry (e_key e) (e_value e) OCCUPIED);
        ht_key_count := ht_key_count ht;
        ht_key_free_cb := ht_key_free_cb ht; ht_value_free_cb := ht_value_free_cb ht |}.

Fixpoint rehash_loop (ht : hash_table) (old : list hash_table_entry) : outcome hash_table :=
  match old with
  | [] => Ok ht
  | e :: old => ht' ← rehash_one ht e; rehash_loop ht' old
  end.

Definition hash_table_rehash (ht : hash_table) : outcome hash_table :=
  let new_size := u64 (2 * ht_size ht) in
  rehash_loop
    {| ht_type := ht_type ht; ht_size := new_size;
       ht_table := replicate (Z.to_nat new_size) empty_entry;
       ht_key_count := ht_key_count ht;
       ht_key_free_cb := ht_key_free_cb ht; ht_value_free_cb := ht_value_free_cb ht |}
    (ht_table ht).

Definition hash_table_must_rehash (ht : hash_table) : bool :=
  u64 (16 * ht_size ht) <? u64 (23 * ht_key_count ht).

Definition hash_table_check_overflow (ht : hash_table) : outcome hash_table :=
  if hash_table_must_rehash ht then hash_table_rehash ht else Ok ht.

Definition insert_visit (ht : hash_table) (k : ptr) (e : hash_table_entry)
    : outcome (option unit) :=
  match e_state e with
  | OCCUPIED => b ← EQUAL ht (e_key e) k; Ok (if (b : bool) then Some tt else None)
  | _ => Ok (Some tt)
  end.

Definition hash_table_insert (ht : hash_table) (k : ptr) (v : option V)
    : outcome (Z * hash_table * list free_call) :=
  ht ← hash_table_check_overflow ht;
  h ← HASH ht k;
  r ← probe_all (insert_visit ht k) (ht_table ht) (ht_size ht) (h mod ht_size ht);
  match r with
  | None => Fault AssertFail            (* assert(i != ht->size) *)
  | Some (_, i, w) =>
      e ← slot (ht_table ht) w;
      Ok (1,
          {| ht_type := ht_type ht; ht_size := ht_size ht;
             ht_table := set_slot (ht_table ht) w (Entry k v OCCUPIED);
             ht_key_count := u64 (ht_key_count ht + 1);
             ht_key_free_cb := ht_key_free_cb ht; ht_value_free_cb := ht_value_free_cb ht |},
          free_key ht (e_key e) ++ free_value ht (e_value e))
  end.

(** [lookup_entry]: an EMPTY slot ends the search, a REMOVED one is skipped; the
    result is the index of the entry in the table. *)
Definition lookup_visit (ht : hash_table) (k : ptr) (e : hash_table_entry)
    : outcome (option bool) :=
  match e_state e with
  | EMPTY => Ok (Some false)
  | REMOVED => Ok None
  | OCCUPIED => b ← EQUAL ht (e_key e) k; Ok (if (b : bool) then Some true else None)
  end.

Definition lookup_entry (ht : hash_table) (k : ptr) : outcome (option Z) :=
  h ← HASH ht k;
  r ← probe_all (lookup_visit ht k) (ht_table ht) (ht_size ht) (h mod ht_size ht);
  match r with
  | Some (true, _, w) => Ok (Some w)
  | Some (false, _, _) | None => Ok None
  end.

Definition hash_table_search (ht : hash_table) (k : ptr) : outcome (option V) :=
  p ← lookup_entry ht k;
  match p with
  | Some w => e ← slot (ht_table ht) w; Ok (e_value e)
  | None => Ok None
  end.

Definition hash_table_remove (ht : hash_table) (k : ptr)
    : outcome (Z * hash_table * list free_call) :=
  p ← lookup_entry ht k;
  match p with
  | None => Ok (0, ht, [])
  | Some w =>
      e ← slot (ht_table ht) w;
      Ok (1,
          {| ht_type := ht_type ht; ht_size := ht_size ht;
             ht_table := set_slot (ht_table ht) w (Entry NULL None REMOVED);
             ht_key_count := u64 (ht_key_count ht - 1);
             ht_key_free_cb := ht_key_free_cb ht; ht_value_free_cb := ht_value_free_cb ht |},
          free_key ht (e_key e) ++ free_value ht (e_value e))
  end.

End table.
Arguments hash_table : clear implicits.
Arguments hash_table_entry : clear implicits.
Arguments free_call : clear implicits.

Example pjw32_ex : pjw32 (PStr 1 "scan") = Ok 498046. Proof. reflexivity. Qed.
