(* ===== verification/HashTheory.v ===== *)
(** * Correctness of the hash table: probe chains, occupancy, refinement to a
    finite map.

    [table_ok] is the representation invariant of the slot array, [ht_rep ht m]
    relates a table to the finite map it stores.  The map is indexed by the
    contents of keys ([skey]): the pointer's integer value, or the string. *)
From S2P Require Import Prelude Hash.

#[local] Open Scope Z_scope.

Definition skey : Type := Z + string.

Definition nullkey : skey := inl 0.

(** The contents of a key, when the hash function of the table can read it. *)
Definition canon (t : hash_table_type) (p : ptr) : option skey :=
  match t, p with
  | HASH_KEY_STR, PStr _ s => Some (inr s)
  | HASH_KEY_STR, PInt _ => None
  | _, _ => Some (inl (H_POINTER_TO_INT p))
  end.

Definition hash_of (t : hash_table_type) (c : skey) : Z :=
  match t, c with
  | HASH_KEY_STR, inr s => pjw32_loop s 0
  | HASH_KEY_STR, inl _ => 0
  | HASH_KEY_INT, inl w => himult64 (PInt w)
  | HASH_KEY_PTR, inl w => fmix64 (PInt w)
  | _, inr _ => 0
  end.

Section theory.
Context {V : Type}.
Implicit Types (ht : hash_table V) (e : hash_table_entry V)
  (tbl : list (hash_table_entry V)) (m : gmap skey (option V)).

Lemma HASH_canon ht p c :
  canon (ht_type ht) p = Some c -> HASH ht p = Ok (hash_of (ht_type ht) c).
Proof.
  unfold HASH, canon, hash_of.
  destruct (ht_type ht), p; intros; simplify_eq/=; try done.
  all: unfold himult64, fmix64, H_POINTER_TO_INT, u64;
    by rewrite ?wrap_wrap by lia.
Qed.

Lemma EQUAL_canon ht p1 p2 c1 c2 :
  canon (ht_type ht) p1 = Some c1 -> canon (ht_type ht) p2 = Some c2 ->
  EQUAL ht p1 p2 = Ok (bool_decide (c1 = c2)).
Proof.
  unfold EQUAL, canon.
  destruct (ht_type ht), p1, p2; intros; simplify_eq/=; try done.
  all: unfold equal_str, equal_pointer; simpl; f_equal;
    apply bool_decide_ext; split; congruence.
Qed.

(** ** Probe sequences *)

Definition at_probe (sz h i : Z) : nat := Z.to_nat ((h + i) mod sz).

Lemma at_probe_lt tbl sz h i :
  Z.of_nat (length tbl) = sz -> 0 < sz -> (at_probe sz h i < length tbl)%nat.
Proof.
  intros. unfold at_probe. pose proof (Z.mod_pos_bound (h + i) sz). lia.
Qed.

Lemma at_probe_cover sz h w :
  0 <= w < sz -> 0 <= h < sz -> exists i, 0 <= i < sz /\ (h + i) mod sz = w.
Proof.
  intros. exists ((w - h) mod sz). split.
  - apply Z.mod_pos_bound. lia.
  - rewrite Zplus_mod_idemp_r. replace (h + (w - h)) with w by lia.
    by apply Z.mod_small.
Qed.

(** What a terminated probing loop says about the entries it visited. *)
Lemma probe_spec {R} (visit : hash_table_entry V -> outcome (option R)) tbl sz h fuel i :
  Z.of_nat (length tbl) = sz -> 0 < sz ->
  (forall n e, tbl !! n = Some e -> exists r, visit e = Ok r) ->
  let passed lim := forall j, i <= j < lim ->
    exists e, tbl !! at_probe sz h j = Some e /\ visit e = Ok None in
  (probe visit tbl sz h fuel i = Ok None /\ passed (i + Z.of_nat fuel)) \/
  (exists r k e, probe visit tbl sz h fuel i = Ok (Some (r, k, (h + k) mod sz)) /\
     i <= k < i + Z.of_nat fuel /\ passed k /\
     tbl !! at_probe sz h k = Some e /\ visit e = Ok (Some r)).
Proof.
  intros Hlen Hsz Hvis. revert i. induction fuel as [|fuel IH]; intros i passed.
  { left. split; [done|]. intros j ?. lia. }
  assert (is_Some (tbl !! at_probe sz h i)) as [e He]
    by (apply lookup_lt_is_Some_2, at_probe_lt; done).
  destruct (Hvis _ _ He) as [r Hr].
  simpl. unfold slot. fold (at_probe sz h i). rewrite He; simpl. rewrite Hr; simpl.
  destruct r as [r|].
  { right. exists r, i, e. split_and!; try done; try lia. intros j ?. lia. }
  assert (forall lim, (forall j, i + 1 <= j < lim ->
    exists e, tbl !! at_probe sz h j = Some e /\ visit e = Ok None) -> passed lim) as Hp.
  { intros lim H j ?. destruct (decide (i = j)) as [<-|]; [eauto|]. apply H. lia. }
  destruct (IH (i + 1)) as [[-> H]|(r & k & e' & -> & ? & H & ? & ?)].
  - left. split; [done|]. apply Hp. intros j ?. apply H. lia.
  - right. exists r, k, e'. split_and!; try done; try lia. by apply Hp.
Qed.

Lemma probe_all_spec {R} (visit : hash_table_entry V -> outcome (option R)) tbl sz h :
  Z.of_nat (length tbl) = sz -> 0 < sz ->
  (forall n e, tbl !! n = Some e -> exists r, visit e = Ok r) ->
  let passed lim := forall j, 0 <= j < lim ->
    exists e, tbl !! at_probe sz h j = Some e /\ visit e = Ok None in
  (probe_all visit tbl sz h = Ok None /\ passed sz) \/
  (exists r k e, probe_all visit tbl sz h = Ok (Some (r, k, (h + k) mod sz)) /\
     0 <= k < sz /\ passed k /\
     tbl !! at_probe sz h k = Some e /\ visit e = Ok (Some r)).
Proof.
  intros Hlen Hsz Hvis passed.
  destruct (probe_spec visit tbl sz h (Z.to_nat sz) 0 Hlen Hsz Hvis)
    as [[H1 H2]|(r & k & e & ? & ? & ? & ? & ?)].
  - left. split; [done|]. intros j ?. apply H2. lia.
  - right. exists r, k, e. split_and!; try done; lia.
Qed.

(** ** The representation invariant *)

Definition occupied e : Prop := e_state e = OCCUPIED.
#[local] Instance occupied_dec e : Decision (occupied e).
Proof. unfold occupied. apply _. Defined.

(** Slot [n] can be reached by probing from [h] without meeting an EMPTY slot. *)
Definition reach tbl (sz h : Z) (n : nat) : Prop :=
  exists i, 0 <= i < sz /\ n = at_probe sz h i /\
    forall j, 0 <= j < i ->
      exists e, tbl !! at_probe sz h j = Some e /\ e_state e <> EMPTY.

(** Slot [n] holds the key of contents [c]. *)
Definition holds (t : hash_table_type) tbl (c : skey) (n : nat) e : Prop :=
  tbl !! n = Some e /\ occupied e /\ canon t (e_key e) = Some c.

Record table_ok (t : hash_table_type) (sz : Z) tbl : Prop := {
  ok_len : Z.of_nat (length tbl) = sz;
  ok_pos : 0 < sz;
  ok_clean : forall n e, tbl !! n = Some e -> ~ occupied e ->
    e_key e = NULL /\ e_value e = None;
  ok_chain : forall n e, tbl !! n = Some e -> occupied e ->
    exists c, canon t (e_key e) = Some c /\ reach tbl sz (hash_of t c mod sz) n;
  ok_uniq : forall c n1 n2 e1 e2, c <> nullkey ->
    holds t tbl c n1 e1 -> holds t tbl c n2 e2 -> n1 = n2;
}.

Definition tbl_rep t tbl m : Prop := forall c v,
  m !! c = Some v <-> c <> nullkey /\ exists n e, holds t tbl c n e /\ e_value e = v.

Lemma lookup_visit_ok ht sz k c n e :
  table_ok (ht_type ht) sz (ht_table ht) -> canon (ht_type ht) k = Some c ->
  ht_table ht !! n = Some e ->
  lookup_visit ht k e = Ok (match e_state e with
    | EMPTY => Some false
    | REMOVED => None
    | OCCUPIED => if bool_decide (canon (ht_type ht) (e_key e) = Some c)
                  then Some true else None
    end).
Proof.
  intros Hok Hk He. unfold lookup_visit. destruct (e_state e) eqn:Es; try done.
  destruct (ok_chain _ _ _ Hok n e He Es) as (c' & Hc' & _).
  rewrite (EQUAL_canon ht _ _ c' c) by done. simpl. rewrite Hc'.
  repeat case_bool_decide; naive_solver.
Qed.

(** [lookup_entry] finds the slot holding the key, and only it. *)
Lemma lookup_entry_spec ht k c :
  table_ok (ht_type ht) (ht_size ht) (ht_table ht) ->
  canon (ht_type ht) k = Some c ->
  (exists w e, lookup_entry ht k = Ok (Some w) /\ 0 <= w < ht_size ht /\
     holds (ht_type ht) (ht_table ht) c (Z.to_nat w) e) \/
  (lookup_entry ht k = Ok None /\
   forall n e, ~ holds (ht_type ht) (ht_table ht) c n e).
Proof.
  intros Hok Hk. unfold lookup_entry. rewrite (HASH_canon _ _ _ Hk); simpl.
  set (h := hash_of _ _ mod _). set (sz := ht_size ht) in *.
  pose proof (ok_pos _ _ _ Hok) as Hpos.
  assert (forall n e, holds (ht_type ht) (ht_table ht) c n e ->
    forall lim, (forall j, 0 <= j < lim -> exists e,
      ht_table ht !! at_probe sz h j = Some e /\ lookup_visit ht k e = Ok None) ->
    exists i, lim <= i < sz /\ n = at_probe sz h i /\
      forall j, 0 <= j < i -> exists e,
        ht_table ht !! at_probe sz h j = Some e /\ e_state e <> EMPTY) as Hfar.
  { intros n e (He & Hocc & Hc) lim Hpass.
    destruct (ok_chain _ _ _ Hok n e He Hocc) as (c' & Hc' & i & Hi & Hn & Hj).
    assert (c' = c) as -> by congruence. fold h in Hn, Hj.
    exists i. split_and!; try done; [|lia].
    destruct (decide (lim <= i)); [done|]. exfalso.
    destruct (Hpass i) as (e' & He' & Hv); [lia|].
    assert (e' = e) as -> by (subst n; congruence).
    erewrite lookup_visit_ok, Hocc, bool_decide_eq_true_2 in Hv by done. done. }
  destruct (probe_all_spec (lookup_visit ht k) (ht_table ht) sz h
    (ok_len _ _ _ Hok) Hpos) as [[-> Hpass]|(r & i & e & -> & Hi & Hpass & He & Hv)].
  - intros n e He. rewrite (lookup_visit_ok ht sz k c n e) by done. eauto.
  - right. split; [done|]. intros n e Hh.
    destruct (Hfar n e Hh sz Hpass) as (i & ? & _). lia.
  - erewrite lookup_visit_ok in Hv by done.
    destruct (e_state e) eqn:Es; simplify_eq.
    + right. split; [done|]. intros n e' Hh.
      destruct (Hfar n e' Hh i Hpass) as (i' & Hi' & -> & Hne).
      destruct (decide (i = i')) as [<-|].
      * destruct Hh as (? & ? & _). unfold occupied in *. congruence.
      * destruct (Hne i) as (e'' & ? & ?); [lia|]. congruence.
    + case_bool_decide; simplify_eq. left.
      exists ((h + i) mod sz), e. split_and!; try done.
      * apply Z.mod_pos_bound; lia.
      * apply Z.mod_pos_bound; lia.
Qed.

Lemma search_rep ht m k c :
  table_ok (ht_type ht) (ht_size ht) (ht_table ht) ->
  tbl_rep (ht_type ht) (ht_table ht) m ->
  canon (ht_type ht) k = Some c -> c <> nullkey ->
  hash_table_search ht k = Ok (m !! c ≫= id).
Proof.
  intros Hok Hrep Hk Hc. unfold hash_table_search.
  destruct (lookup_entry_spec ht k c Hok Hk) as [(w & e & -> & Hw & Hh)|[-> Hno]]; simpl.
  - unfold slot. destruct Hh as (He & Hocc & Hce). rewrite He; simpl.
    assert (m !! c = Some (e_value e)) as ->; [|done].
    apply Hrep. split; [done|]. by exists (Z.to_nat w), e.
  - destruct (m !! c) as [v|] eqn:E; [|done].
    apply Hrep in E as (_ & n & e & Hh & _). by destruct (Hno n e).
Qed.

(** ** Counting occupied slots *)

Definition occ tbl : Z := Z.of_nat (length (filter occupied tbl)).

Lemma occ_insert tbl n e e' :
  tbl !! n = Some e ->
  occ (<[n := e']> tbl) + (if bool_decide (occupied e) then 1 else 0) =
  occ tbl + (if bool_decide (occupied e') then 1 else 0).
Proof.
  unfold occ. revert n. induction tbl as [|e0 tbl IH]; intros [|n] He; simplify_eq/=.
  - rewrite !filter_cons. repeat case_decide; repeat case_bool_decide; simpl; naive_solver lia.
  - specialize (IH n He). rewrite !filter_cons. case_decide; simpl; lia.
Qed.

Lemma occ_bound tbl : 0 <= occ tbl <= Z.of_nat (length tbl).
Proof. unfold occ. pose proof (length_filter occupied tbl). lia. Qed.

Lemma occ_free_slot tbl :
  occ tbl < Z.of_nat (length tbl) -> exists n e, tbl !! n = Some e /\ ~ occupied e.
Proof.
  unfold occ. induction tbl as [|e tbl IH]; simpl; [lia|].
  rewrite filter_cons. case_decide.
  - simpl. intros. destruct IH as (n & e' & ? & ?); [lia|]. by exists (S n), e'.
  - intros _. by exists O, e.
Qed.

Lemma occ_replicate_empty n : occ (replicate n (empty_entry (V:=V))) = 0.
Proof. unfold occ. induction n; simpl; [done|]. rewrite filter_cons. by case_decide. Qed.

(** ** Storing an entry in the slot where a probe stopped *)

Lemma put_ok t sz tbl c (i : Z) k v :
  table_ok t sz tbl -> canon t k = Some c ->
  let h := hash_of t c mod sz in
  let n := at_probe sz h i in
  let e := Entry k v OCCUPIED in
  0 <= i < sz ->
  (forall j, 0 <= j < i ->
     exists e, tbl !! at_probe sz h j = Some e /\ e_state e <> EMPTY) ->
  (c <> nullkey -> forall n' e', holds t tbl c n' e' -> n' = n) ->
  table_ok t sz (<[n := e]> tbl) /\
  (forall c' n' e', holds t (<[n := e]> tbl) c' n' e' <->
     (n' = n /\ c' = c /\ e' = e) \/ (n' <> n /\ holds t tbl c' n' e')).
Proof.
  intros Hok Hk h n e Hi Hpass Huniq.
  assert (n < length tbl)%nat as Hn
    by (eapply at_probe_lt; [apply (ok_len _ _ _ Hok)|apply (ok_pos _ _ _ Hok)]).
  assert (forall c' n' e', holds t (<[n := e]> tbl) c' n' e' <->
     (n' = n /\ c' = c /\ e' = e) \/ (n' <> n /\ holds t tbl c' n' e')) as Hholds.
  { intros c' n' e'. unfold holds. destruct (decide (n' = n)) as [->|Hne].
    - rewrite list_lookup_insert_eq by done. split.
      + intros (? & ? & Hc'). left. simplify_eq. simpl in Hc'. split_and!; congruence.
      + intros [(_ & -> & ->)|[? _]]; done.
    - rewrite list_lookup_insert_ne by done. split; [by right|].
      intros [(? & _)|[_ ?]]; done. }
  split; [|done].
  assert (forall g q, reach tbl sz g q -> reach (<[n := e]> tbl) sz g q) as Hmono.
  { intros g q (i' & ? & ? & Hj). exists i'. split_and!; try done; try lia.
    intros j Hlt. destruct (Hj j Hlt) as (e' & ? & ?).
    destruct (decide (at_probe sz g j = n)) as [->|].
    - rewrite list_lookup_insert_eq by done. by exists e.
    - rewrite list_lookup_insert_ne by done. eauto. }
  split.
  - rewrite length_insert. apply Hok.
  - apply Hok.
  - intros n' e' He' Hno. destruct (decide (n' = n)) as [->|].
    + rewrite list_lookup_insert_eq in He' by done. simplify_eq. by destruct Hno.
    + rewrite list_lookup_insert_ne in He' by done. by eapply ok_clean.
  - intros n' e' He' Ho. destruct (decide (n' = n)) as [->|].
    + rewrite list_lookup_insert_eq in He' by done. simplify_eq. exists c.
      split; [done|]. apply Hmono. by exists i.
    + rewrite list_lookup_insert_ne in He' by done.
      destruct (ok_chain _ _ _ Hok n' e' He' Ho) as (c' & ? & ?). eauto.
  - intros c' n1 n2 e1 e2 Hc' H1 H2. apply Hholds in H1, H2.
    destruct H1 as [(-> & -> & ->)|[Hn1 H1]], H2 as [(-> & H & ->)|[Hn2 H2]]; subst; try done.
    + destruct Hn2. eauto.
    + destruct Hn1. eauto.
    + by eapply ok_uniq.
Qed.

(** The map after storing [(c, v)], for a key other than NULL. *)
Lemma put_rep t sz tbl c i k v m :
  table_ok t sz tbl -> tbl_rep t tbl m -> canon t k = Some c -> c <> nullkey ->
  let h := hash_of t c mod sz in
  let n := at_probe sz h i in
  let e := Entry k v OCCUPIED in
  (forall c' n' e', holds t (<[n := e]> tbl) c' n' e' <->
     (n' = n /\ c' = c /\ e' = e) \/ (n' <> n /\ holds t tbl c' n' e')) ->
  (forall c' n' e', holds t tbl c' n' e' -> n' = n -> c' = c) ->
  (forall n' e', holds t tbl c n' e' -> n' = n) ->
  tbl_rep t (<[n := e]> tbl) (<[c := v]> m).
Proof.
  intros Hok Hrep Hk Hc h n e Hholds Hsame Huniq c' v'.
  destruct (decide (c = c')) as [<-|Hne].
  - rewrite lookup_insert_eq. split.
    + intros [= <-]. split; [done|]. exists n, e. split; [|done]. apply Hholds. by left.
    + intros (_ & n' & e' & Hh & <-). apply Hholds in Hh as [(_ & _ & ->)|[Hn Hh]]; [done|].
      destruct Hn. eauto.
  - rewrite lookup_insert_ne, (Hrep c' v') by done. split.
    + intros (? & n' & e' & Hh & ?). split; [done|]. exists n', e'. split; [|done].
      apply Hholds. right. split; [|done]. intros ->. destruct Hne. symmetry. eauto.
    + intros (? & n' & e' & Hh & ?). split; [done|].
      apply Hholds in Hh as [(_ & -> & _)|[_ Hh]]; [done|]. eauto.
Qed.

(** ** The table-level invariant

    [key_count] may exceed the number of stored keys (overwriting a key counts
    it again); slots filled with NULL keys by a rehash make the number of
    occupied slots exceed [key_count], but by less than 7/46 of the size.  The
    three bounds keep an unoccupied slot available to every insertion. *)
Record ht_ok ht m : Prop := {
  hok_tbl : table_ok (ht_type ht) (ht_size ht) (ht_table ht);
  hok_rep : tbl_rep (ht_type ht) (ht_table ht) m;
  hok_size : 64 <= ht_size ht;
  hok_count : Z.of_nat (size m) <= ht_key_count ht;
  hok_load : 23 * ht_key_count ht <= 16 * ht_size ht + 23;
  hok_occ : 46 * occ (ht_table ht) <= 46 * ht_key_count ht + 7 * ht_size ht;
}.

(** The sizes reachable in a 64-bit address space ([calloc] of 24-byte entries). *)
Definition size_bound : Z := 2 ^ 58.

Lemma must_rehash_spec ht m :
  ht_ok ht m -> ht_size ht <= size_bound ->
  hash_table_must_rehash ht = true <-> 16 * ht_size ht < 23 * ht_key_count ht.
Proof.
  unfold size_bound. intros [] ?. unfold hash_table_must_rehash.
  rewrite !u64_small by lia. by rewrite Z.ltb_lt.
Qed.

Lemma table_ok_replicate t n :
  (0 < n)%nat -> table_ok t (Z.of_nat n) (replicate n (empty_entry (V:=V))).
Proof.
  intros Hn. split.
  - by rewrite length_replicate.
  - lia.
  - intros ?? [-> _]%lookup_replicate _. done.
  - intros ?? [-> _]%lookup_replicate ?. done.
  - intros c n1 n2 e1 e2 _ ([-> _]%lookup_replicate & ? & _). done.
Qed.

Lemma rep_replicate t n : tbl_rep t (replicate n (empty_entry (V:=V))) ∅.
Proof.
  intros c v. rewrite lookup_empty. split; [done|].
  by intros (_ & n' & e & ([-> _]%lookup_replicate & ? & _) & _).
Qed.

Lemma ht_ok_new t kcb vcb : ht_ok (hash_table_new t kcb vcb) ∅.
Proof.
  split.
  - apply (table_ok_replicate t 64). lia.
  - apply (rep_replicate t 64).
  - done.
  - by rewrite map_size_empty.
  - done.
  - done.
Qed.

(** ** Insertion without a rehash *)

Definition no_removed tbl : Prop :=
  forall n e, tbl !! n = Some e -> e_state e <> REMOVED.

Lemma insert_visit_ok ht sz k c n e :
  table_ok (ht_type ht) sz (ht_table ht) -> canon (ht_type ht) k = Some c ->
  ht_table ht !! n = Some e ->
  insert_visit ht k e = Ok (match e_state e with
    | OCCUPIED => if bool_decide (canon (ht_type ht) (e_key e) = Some c)
                  then Some tt else None
    | _ => Some tt
    end).
Proof.
  intros Hok Hk He. unfold insert_visit. destruct (e_state e) eqn:Es; try done.
  destruct (ok_chain _ _ _ Hok n e He Es) as (c' & Hc' & _).
  rewrite (EQUAL_canon ht _ _ c' c) by done. simpl. rewrite Hc'.
  repeat case_bool_decide; naive_solver.
Qed.

(** The slot an insertion stops at, when one slot is not OCCUPIED. *)
Lemma insert_probe_spec ht k c :
  let sz := ht_size ht in
  let h := hash_of (ht_type ht) c mod sz in
  table_ok (ht_type ht) sz (ht_table ht) -> canon (ht_type ht) k = Some c ->
  occ (ht_table ht) < sz ->
  exists i e, probe_all (insert_visit ht k) (ht_table ht) sz h
      = Ok (Some (tt, i, (h + i) mod sz)) /\
    0 <= i < sz /\ ht_table ht !! at_probe sz h i = Some e /\
    (occupied e -> canon (ht_type ht) (e_key e) = Some c) /\
    (forall j, 0 <= j < i -> exists e', ht_table ht !! at_probe sz h j = Some e' /\
       occupied e' /\ canon (ht_type ht) (e_key e') <> Some c).
Proof.
  intros sz h Hok Hk Hocc. pose proof (ok_len _ _ _ Hok) as Hlen.
  pose proof (ok_pos _ _ _ Hok) as Hpos.
  assert (forall lim, (forall j, 0 <= j < lim -> exists e,
      ht_table ht !! at_probe sz h j = Some e /\ insert_visit ht k e = Ok None) ->
    forall j, 0 <= j < lim -> exists e', ht_table ht !! at_probe sz h j = Some e' /\
       occupied e' /\ canon (ht_type ht) (e_key e') <> Some c) as Hconv.
  { intros lim H j Hj. destruct (H j Hj) as (e & He & Hv). exists e. split; [done|].
    erewrite insert_visit_ok in Hv by done. unfold occupied.
    destruct (e_state e); try done. by case_bool_decide. }
  destruct (probe_all_spec (insert_visit ht k) (ht_table ht) sz h Hlen Hpos)
    as [[_ Hpass]|([] & i & e & -> & Hi & Hpass & He & Hv)].
  - intros n e He. erewrite insert_visit_ok by done. eauto.
  - exfalso. destruct (occ_free_slot (ht_table ht)) as (n & e & He & Hno); [lia|].
    pose proof (lookup_lt_Some _ _ _ He).
    destruct (at_probe_cover sz h (Z.of_nat n)) as (i & Hi & Hn);
      [lia|by apply Z.mod_pos_bound|].
    destruct (Hconv sz Hpass i Hi) as (e' & He' & Ho & _).
    unfold at_probe in He'. rewrite Hn, Nat2Z.id in He'. congruence.
  - exists i, e. split_and!; try done; try lia; [|by apply Hconv].
    intros Ho. erewrite insert_visit_ok, Ho in Hv by done. by case_bool_decide.
Qed.

(** What [hash_table_insert] does to the slots once the load check is passed. *)
Definition stored ht (n : nat) (k : ptr) (v : option V) : hash_table V :=
  {| ht_type := ht_type ht; ht_size := ht_size ht;
     ht_table := <[n := Entry k v OCCUPIED]> (ht_table ht);
     ht_key_count := u64 (ht_key_count ht + 1);
     ht_key_free_cb := ht_key_free_cb ht; ht_value_free_cb := ht_value_free_cb ht |}.

Lemma set_slot_at ht n k v :
  set_slot (ht_table ht) (Z.of_nat n) (Entry k v OCCUPIED) =
  <[n := Entry k v OCCUPIED]> (ht_table ht).
Proof. unfold set_slot. by rewrite Nat2Z.id. Qed.

Lemma insert_core ht k c v m :
  table_ok (ht_type ht) (ht_size ht) (ht_table ht) ->
  tbl_rep (ht_type ht) (ht_table ht) m ->
  canon (ht_type ht) k = Some c -> c <> nullkey ->
  occ (ht_table ht) < ht_size ht ->
  m !! c = None \/ no_removed (ht_table ht) ->
  hash_table_must_rehash ht = false ->
  exists n e,
    hash_table_insert ht k v =
      Ok (1, stored ht n k v, free_key ht (e_key e) ++ free_value ht (e_value e)) /\
    table_ok (ht_type ht) (ht_size ht) (ht_table (stored ht n k v)) /\
    tbl_rep (ht_type ht) (ht_table (stored ht n k v)) (<[c := v]> m) /\
    occ (ht_table (stored ht n k v)) <= occ (ht_table ht) + 1 /\
    (no_removed (ht_table ht) -> no_removed (ht_table (stored ht n k v))) /\
    (m !! c = None -> e_key e = NULL /\ e_value e = None).
Proof.
  intros Hok Hrep Hk Hc Hocc Hcase Hnr.
  destruct (insert_probe_spec ht k c Hok Hk Hocc) as (i & e & Hp & Hi & He & Hown & Hpass).
  set (h := hash_of _ _ mod _) in *. set (n := at_probe (ht_size ht) h i) in *.
  assert (forall n' e', holds (ht_type ht) (ht_table ht) c n' e' -> n' = n) as Huniq.
  { intros n' e' Hh. destruct (decide (occupied e)) as [Ho|Hno].
    { eapply (ok_uniq _ _ _ Hok c); [done..|]. repeat split; eauto. }
    destruct Hcase as [Hnone|Hrem].
    { exfalso. assert (m !! c = Some (e_value e')) as ?; [|congruence].
      apply Hrep. eauto 10. }
    assert (e_state e = EMPTY) as Hempty.
    { specialize (Hrem _ _ He). unfold occupied in Hno. by destruct (e_state e). }
    destruct Hh as (He' & Ho' & Hc').
    destruct (ok_chain _ _ _ Hok n' e' He' Ho') as (c'' & ? & i' & Hi' & Hn' & Hj).
    assert (c'' = c) as -> by congruence. fold h in Hn', Hj.
    destruct (Z.lt_trichotomy i i') as [?|[->|?]]; [|done|].
    - destruct (Hj i) as (? & ? & ?); [lia|]. unfold n in He. congruence.
    - destruct (Hpass i') as (? & ? & ? & ?); [lia|]. subst n'. congruence. }
  destruct (put_ok (ht_type ht) (ht_size ht) (ht_table ht) c i k v Hok Hk Hi) as [Hok' Hholds].
  { intros j Hj. destruct (Hpass j Hj) as (e' & ? & Ho & _). exists e'.
    split; [done|]. unfold occupied in Ho. congruence. }
  { intros _. apply Huniq. }
  exists n, e. split_and!.
  - unfold hash_table_insert, hash_table_check_overflow. rewrite Hnr; simpl.
    rewrite (HASH_canon _ _ _ Hk); simpl. fold h. rewrite Hp; simpl.
    unfold slot, set_slot. fold (at_probe (ht_size ht) h i). fold n.
    by rewrite He.
  - exact Hok'.
  - eapply (put_rep _ _ _ c i); try done.
    intros c' n' e' (He' & ? & ?) ->. assert (e' = e) as -> by (subst n h; congruence).
    assert (canon (ht_type ht) (e_key e) = Some c) by eauto. congruence.
  - simpl. pose proof (occ_insert (ht_table ht) n e (Entry k v OCCUPIED) He) as Ho.
    rewrite (bool_decide_eq_true_2 (occupied (Entry _ _ _))) in Ho by done.
    case_bool_decide; lia.
  - intros Hrem q e' Hq. simpl in Hq.
    apply list_lookup_insert_Some in Hq as [(_ & <- & _)|[_ Hq]]; [done|]. eauto.
  - intros Hnone. destruct (decide (occupied e)) as [Ho|Hno];
      [|exact (ok_clean _ _ _ Hok n e He Hno)].
    exfalso. assert (m !! c = Some (e_value e)) as ?; [|congruence].
    apply Hrep. split; [done|]. exists n, e. repeat split; eauto.
Qed.

(** ** Rehashing *)

(** The keys of the entries of [old] are pairwise different, NULL apart. *)
Definition distinct_keys (t : hash_table_type) (old : list (hash_table_entry V)) : Prop :=
  forall c n1 n2 e1 e2, c <> nullkey ->
    old !! n1 = Some e1 -> old !! n2 = Some e2 ->
    canon t (e_key e1) = Some c -> canon t (e_key e2) = Some c -> n1 = n2.

Lemma table_ok_distinct t sz tbl : table_ok t sz tbl -> distinct_keys t tbl.
Proof.
  intros Hok c n1 n2 e1 e2 Hc H1 H2 Hc1 Hc2.
  assert (forall n e, tbl !! n = Some e -> canon t (e_key e) = Some c -> occupied e) as Ho.
  { intros n e He Hce. destruct (decide (occupied e)) as [|Hno]; [done|]. exfalso.
    destruct (ok_clean _ _ _ Hok n e He Hno) as [Hk _]. rewrite Hk in Hce.
    destruct t; simpl in Hce; simplify_eq; done. }
  eapply (ok_uniq _ _ _ Hok c); repeat split; eauto.
Qed.

(** State of the new table when the entries [done] have been moved. *)
Record rehash_inv ht (sz : Z) (moved : list (hash_table_entry V)) : Prop := {
  ri_ok : table_ok (ht_type ht) sz (ht_table ht);
  ri_size : ht_size ht = sz;
  ri_empty : forall n e, ht_table ht !! n = Some e -> ~ occupied e -> e_state e = EMPTY;
  ri_occ : occ (ht_table ht) = Z.of_nat (length moved);
  ri_rep : forall c v, c <> nullkey ->
    (exists n e, holds (ht_type ht) (ht_table ht) c n e /\ e_value e = v) <->
    (exists n e, moved !! n = Some e /\ canon (ht_type ht) (e_key e) = Some c /\ e_value e = v);
}.

(** A table that is being filled has an empty slot on every probe chain. *)
Lemma rehash_finds_empty ht sz moved h :
  rehash_inv ht sz moved -> Z.of_nat (length moved) < sz ->
  0 <= h < sz ->
  exists i e, probe_all rehash_visit (ht_table ht) sz h = Ok (Some (tt, i, (h + i) mod sz)) /\ 0 <= i < sz /\
    ht_table ht !! at_probe sz h i = Some e /\ e_state e = EMPTY /\
    (forall j, 0 <= j < i -> exists e, ht_table ht !! at_probe sz h j = Some e /\ e_state e <> EMPTY).
Proof.
  intros [Hok Hsz Hempty Hocc Hrep] Hlt Hh. pose proof (ok_len _ _ _ Hok) as Hlen. pose proof (ok_pos _ _ _ Hok) as Hpos.
  destruct (probe_all_spec rehash_visit (ht_table ht) sz h Hlen Hpos)
    as [[_ Hpass]|([] & i & e' & -> & Hi & Hpass & He' & Hv)].
  { intros n e' _. unfold rehash_visit. destruct (e_state e'); eauto. }
  { exfalso. destruct (occ_free_slot (ht_table ht)) as (n & e' & He' & Hno); [lia|].
    pose proof (lookup_lt_Some _ _ _ He').
    destruct (at_probe_cover sz h (Z.of_nat n)) as (i & Hi & Hn); [lia|done|].
    destruct (Hpass i Hi) as (e'' & He'' & Hv).
    unfold at_probe in He''. rewrite Hn, Nat2Z.id in He''. simplify_eq.
    unfold rehash_visit in Hv. rewrite (Hempty _ _ He' Hno) in Hv. done. }
  exists i, e'. split; [done|]. split; [done|]. split; [done|]. split.
  - unfold rehash_visit in Hv. by destruct (e_state e').
  - intros j Hj. destruct (Hpass j Hj) as (e0 & ? & Hv0). exists e0. split; [done|].
    intros Hs. unfold rehash_visit in Hv0. destruct (e_state e0); done.
Qed.

(** A key that is still to be moved is not there yet. *)
Lemma rehash_fresh ht sz moved e c :
  rehash_inv ht sz moved -> distinct_keys (ht_type ht) (moved ++ [e]) -> canon (ht_type ht) (e_key e) = Some c -> c <> nullkey ->
  forall n e', ~ holds (ht_type ht) (ht_table ht) c n e'.
Proof.
  intros Hinv Hdist Hk Hc n' e0 Hh. destruct (proj1 (ri_rep _ _ _ Hinv c (e_value e0) Hc)) as (q & e1 & Hq & Hc1 & _); [eauto|].
  pose proof (lookup_lt_Some _ _ _ Hq). enough (q = length moved) by lia.
  eapply (Hdist c); [done| | |exact Hc1|exact Hk].
  - by apply lookup_app_l_Some.
  - by rewrite lookup_app_r, Nat.sub_diag by lia.
Qed.

(** What a table holds once [e] is stored at [n], over an empty slot. *)
Lemma rehash_represents t tbl tbl' moved e c n e' :
  canon t (e_key e) = Some c -> tbl !! n = Some e' -> e_state e' = EMPTY ->
  (forall c v, c <> nullkey ->
    (exists n e, holds t tbl c n e /\ e_value e = v) <->
    (exists n e, moved !! n = Some e /\ canon t (e_key e) = Some c /\ e_value e = v)) ->
  (forall c' n' e', holds t tbl' c' n' e' <->
    (n' = n /\ c' = c /\ e' = Entry (V := V) (e_key e) (e_value e) OCCUPIED) \/ (n' <> n /\ holds t tbl c' n' e')) ->
  forall c v, c <> nullkey ->
    (exists n e, holds t tbl' c n e /\ e_value e = v) <->
    (exists n e0, (moved ++ [e]) !! n = Some e0 /\ canon t (e_key e0) = Some c /\ e_value e0 = v).
Proof.
  intros Hk He' Hst Hrep Hholds c' v' Hc'. split.
  - intros (q & e0 & Hh & <-). apply Hholds in Hh as [(-> & -> & ->)|[_ Hh]].
    + exists (length moved), e. by rewrite lookup_app_r, Nat.sub_diag by lia.
    + destruct (proj1 (Hrep c' (e_value e0) Hc')) as (q' & e1 & ? & ? & ?); [eauto|].
      exists q', e1. split_and!; try done. by apply lookup_app_l_Some.
  - intros (q & e0 & Hq & Hce & <-). apply lookup_app_Some in Hq as [Hq|[_ Hq]].
    + destruct (proj2 (Hrep c' (e_value e0) Hc')) as (q' & e1 & Hh & ?); [eauto|].
      exists q', e1. split; [|done]. apply Hholds. right. split; [|done].
      intros ->. destruct Hh as (Hh & Ho & _). unfold occupied in Ho. congruence.
    + apply list_lookup_singleton_Some in Hq as [_ <-]. assert (c' = c) as -> by congruence.
      exists n, (Entry (e_key e) (e_value e) OCCUPIED). split; [|done]. apply Hholds. by left.
Qed.

Lemma rehash_one_spec ht sz moved e :
  rehash_inv ht sz moved -> ht_type ht <> HASH_KEY_STR ->
  Z.of_nat (length moved) < sz -> distinct_keys (ht_type ht) (moved ++ [e]) ->
  exists ht', rehash_one ht e = Ok ht' /\ rehash_inv ht' sz (moved ++ [e]) /\
    ht_type ht' = ht_type ht /\ ht_key_count ht' = ht_key_count ht /\
    ht_key_free_cb ht' = ht_key_free_cb ht /\ ht_value_free_cb ht' = ht_value_free_cb ht.
Proof.
  intros Hinv Ht Hlt Hdist. pose proof Hinv as [Hok Hsz Hempty Hocc Hrep].
  assert (exists c, canon (ht_type ht) (e_key e) = Some c) as [c Hk]
    by (unfold canon; destruct (ht_type ht), (e_key e); eauto; done).
  unfold rehash_one. rewrite (HASH_canon _ _ _ Hk), Hsz; simpl. pose proof (ok_pos _ _ _ Hok) as Hpos.
  set (h := hash_of _ _ mod _).
  destruct (rehash_finds_empty ht sz moved h Hinv Hlt) as (i & e' & -> & Hi & He' & Hst & Hpass); [by apply Z.mod_pos_bound|].
  simpl. set (n := at_probe sz h i) in *.
  destruct (put_ok (ht_type ht) sz (ht_table ht) c i (e_key e) (e_value e) Hok Hk Hi Hpass) as [Hok' Hholds].
  { intros Hc n' e0 Hh. by destruct (rehash_fresh ht sz moved e c Hinv Hdist Hk Hc n' e0). }
  fold h n in Hok', Hholds. eexists. split; [done|]. unfold set_slot. fold (at_probe sz h i). fold n.
  split; [|done]. split; simpl; try done.
  - intros q e0 Hq Hno. apply list_lookup_insert_Some in Hq as [(_ & <- & _)|[_ Hq]]; [by destruct Hno|eauto].
  - pose proof (occ_insert (ht_table ht) n e' (Entry (e_key e) (e_value e) OCCUPIED) He') as Ho.
    rewrite (bool_decide_eq_true_2 (occupied (Entry _ _ _))) in Ho by done.
    rewrite bool_decide_eq_false_2 in Ho by (unfold occupied; congruence).
    rewrite length_app. simpl. lia.
  - exact (rehash_represents _ _ _ moved e c n e' Hk He' Hst Hrep Hholds).
Qed.

Lemma distinct_keys_app_l t l1 l2 : distinct_keys t (l1 ++ l2) -> distinct_keys t l1.
Proof.
  intros H c n1 n2 e1 e2 Hc H1 H2.
  eapply (H c); [done|by apply lookup_app_l_Some..].
Qed.

Lemma rehash_loop_spec ht sz moved old :
  rehash_inv ht sz moved -> ht_type ht <> HASH_KEY_STR ->
  Z.of_nat (length (moved ++ old)) <= sz -> distinct_keys (ht_type ht) (moved ++ old) ->
  exists ht', rehash_loop ht old = Ok ht' /\ rehash_inv ht' sz (moved ++ old) /\
    ht_type ht' = ht_type ht /\ ht_key_count ht' = ht_key_count ht /\
    ht_key_free_cb ht' = ht_key_free_cb ht /\ ht_value_free_cb ht' = ht_value_free_cb ht.
Proof.
  revert ht moved. induction old as [|e old IH]; intros ht moved Hinv Ht Hlen Hdist; simpl.
  { exists ht. by rewrite app_nil_r. }
  rewrite cons_middle, app_assoc in Hlen, Hdist.
  destruct (rehash_one_spec ht sz moved e Hinv Ht) as (ht1 & -> & Hinv1 & Et & Ek & Ec & Ev).
  { rewrite !length_app in Hlen. simpl in Hlen. lia. }
  { by eapply distinct_keys_app_l. }
  simpl. rewrite <- Et in Ht, Hdist.
  destruct (IH ht1 (moved ++ [e]) Hinv1 Ht Hlen Hdist) as (ht2 & -> & Hinv2 & ? & ? & ? & ?).
  exists ht2. rewrite cons_middle, app_assoc. split_and!; try done; congruence.
Qed.

Lemma rehash_spec ht m :
  ht_ok ht m -> ht_type ht <> HASH_KEY_STR -> ht_size ht <= size_bound ->
  16 * ht_size ht < 23 * ht_key_count ht ->
  exists ht', hash_table_rehash ht = Ok ht' /\ ht_ok ht' m /\ no_removed (ht_table ht') /\
    ht_type ht' = ht_type ht /\ ht_key_count ht' = ht_key_count ht /\
    ht_size ht' = 2 * ht_size ht /\
    ht_key_free_cb ht' = ht_key_free_cb ht /\ ht_value_free_cb ht' = ht_value_free_cb ht.
Proof.
  intros [Hok Hrep Hsize Hcount Hload Hocc] Ht Hbound Hmust.
  unfold size_bound in Hbound. unfold hash_table_rehash.
  rewrite u64_small by lia. set (sz := 2 * ht_size ht).
  set (ht0 := HashTable _ _ _ _ _ _).
  pose proof (ok_len _ _ _ Hok) as Hlen.
  assert (rehash_inv ht0 sz []) as Hinv0.
  { split; simpl; try done.
    - rewrite <- (Z2Nat.id sz) at 1 by lia. apply table_ok_replicate. lia.
    - intros n e [-> _]%lookup_replicate _. done.
    - by rewrite occ_replicate_empty.
    - intros c v _. split; [|by intros (? & ? & ? & _)].
      by intros (? & ? & ([-> _]%lookup_replicate & ? & _) & _). }
  destruct (rehash_loop_spec ht0 sz [] (ht_table ht) Hinv0 Ht) as
    (ht' & -> & [Hok' Hsz' Hempty' Hocc' Hrep'] & Et & Ek & Ec & Ev).
  { simpl. lia. }
  { by eapply table_ok_distinct. }
  exists ht'. simpl in *. rewrite Et in *.
  split_and!; try done.
  - split; rewrite ?Et, ?Hsz', ?Ek; try lia; try done.
    intros c v. rewrite (Hrep c v). split.
    + intros (Hc & n & e & (He & Ho & Hk) & Hv). split; [done|].
      apply Hrep'; [done|]. by exists n, e.
    + intros (Hc & Hh). split; [done|]. apply Hrep' in Hh as (n & e & He & Hk & Hv); [|done].
      exists n, e. split; [|done]. split; [done|]. split; [|done].
      destruct (decide (occupied e)) as [|Hno]; [done|]. exfalso.
      destruct (ok_clean _ _ _ Hok n e He Hno) as [Hn _]. rewrite Hn in Hk.
      unfold canon, NULL in Hk. destruct (ht_type ht); simplify_eq/=; done.
  - intros n e He Hs. specialize (Hempty' n e He). unfold occupied in Hempty'.
    rewrite Hs in Hempty'. by specialize (Hempty' ltac:(done)).
Qed.

(** ** The refinement: insert, search, remove on the abstract map *)

(** A rehash of a string table is outside the refinement (it dereferences the
    NULL key of an unoccupied entry); the other key types rehash freely. *)
Definition rehash_safe ht : Prop :=
  ht_type ht = HASH_KEY_STR -> hash_table_must_rehash ht = false.

Lemma check_overflow_spec ht m :
  ht_ok ht m -> ht_size ht <= size_bound -> rehash_safe ht ->
  exists ht', hash_table_check_overflow ht = Ok ht' /\ ht_ok ht' m /\
    ht_type ht' = ht_type ht /\ ht_key_count ht' = ht_key_count ht /\
    (ht_size ht' = ht_size ht \/ ht_size ht' = 2 * ht_size ht) /\
    23 * ht_key_count ht' <= 16 * ht_size ht' /\
    hash_table_must_rehash ht' = false /\
    (no_removed (ht_table ht) -> no_removed (ht_table ht')) /\
    ht_key_free_cb ht' = ht_key_free_cb ht /\ ht_value_free_cb ht' = ht_value_free_cb ht.
Proof.
  intros Hok Hb Hsafe. unfold hash_table_check_overflow.
  destruct (hash_table_must_rehash ht) eqn:Hm.
  - pose proof Hm as Hmust. rewrite must_rehash_spec in Hmust by done.
    destruct (rehash_spec ht m) as (ht' & -> & Hok' & Hnr & Et & Ek & Es & Ec & Ev); try done.
    { intros Ht. rewrite (Hsafe Ht) in Hm. done. }
    destruct Hok as [_ _ ? ? ? _]. unfold size_bound in Hb.
    exists ht'. split_and!; try done; [by right|lia|].
    unfold hash_table_must_rehash. rewrite !u64_small by lia. apply Z.ltb_ge. lia.
  - exists ht. split_and!; try done; [by left|].
    destruct (Z.lt_ge_cases (16 * ht_size ht) (23 * ht_key_count ht)) as [Hlt|]; [|lia].
    by rewrite <- must_rehash_spec, Hm in Hlt.
Qed.

Lemma insert_refines ht m k c v :
  ht_ok ht m -> ht_size ht <= size_bound -> rehash_safe ht ->
  canon (ht_type ht) k = Some c -> c <> nullkey ->
  m !! c = None \/ no_removed (ht_table ht) ->
  exists ht' tr, hash_table_insert ht k v = Ok (1, ht', tr) /\
    ht_ok ht' (<[c := v]> m) /\
    ht_type ht' = ht_type ht /\ ht_key_count ht' = ht_key_count ht + 1 /\
    (ht_size ht' = ht_size ht \/ ht_size ht' = 2 * ht_size ht) /\
    (no_removed (ht_table ht) -> no_removed (ht_table ht')) /\
    (m !! c = None -> tr = []).
Proof.
  intros Hht Hb Hsafe Hk Hc Hcase.
  destruct (check_overflow_spec ht m Hht Hb Hsafe) as
    (ht1 & Hchk & [Hok Hrep Hsize Hcount Hload Hocc] & Et & Ek & Es & Hle & Hmr & Hnr & _).
  rewrite <- Et in Hk. unfold size_bound in Hb.
  destruct (insert_core ht1 k c v m) as (n & e & Hins & Hok' & Hrep' & Hocc' & Hnr' & Hnew);
    try done; [lia|destruct Hcase; auto|].
  exists (stored ht1 n k v), (free_key ht1 (e_key e) ++ free_value ht1 (e_value e)).
  assert (u64 (ht_key_count ht1 + 1) = ht_key_count ht1 + 1) as Eu by (apply u64_small; lia).
  split_and!; try done.
  - rewrite <- Hins. unfold hash_table_insert, hash_table_check_overflow at 2.
    by rewrite Hchk, Hmr.
  - split; try done; cbn -[size]; rewrite ?Eu; try lia.
    + pose proof (map_size_insert c v m) as ->. unfold id. case_match; lia.
    + cbn in Hocc'. lia.
  - cbn. lia.
  - auto.
  - intros Hnone. destruct (Hnew Hnone) as [-> ->].
    unfold free_key. rewrite bool_decide_eq_false_2 by auto. by rewrite andb_false_r.
Qed.

(** Marking a slot REMOVED keeps every probe chain that passes through it. *)
Lemma unlink_ok t sz tbl c n e :
  table_ok t sz tbl -> holds t tbl c n e ->
  let tbl' := <[n := Entry NULL None REMOVED]> tbl in
  table_ok t sz tbl' /\
  (forall c' n' e', holds t tbl' c' n' e' <-> n' <> n /\ holds t tbl c' n' e').
Proof.
  intros Hok (He & Ho & Hce) tbl'.
  pose proof (lookup_lt_Some _ _ _ He) as Hn.
  assert (forall c' n' e', holds t tbl' c' n' e' <-> n' <> n /\ holds t tbl c' n' e') as Hholds.
  { intros c' n' e'. unfold holds, tbl'. destruct (decide (n' = n)) as [->|Hne].
    - rewrite list_lookup_insert_eq by done. split; [|by intros []].
      intros (? & Ho' & _). by simplify_eq.
    - rewrite list_lookup_insert_ne by done. split; [done|by intros [_ ?]]. }
  split; [|done]. split.
  - unfold tbl'. rewrite length_insert. apply Hok.
  - apply Hok.
  - intros n' e' [(_ & <- & _)|[_ He']]%list_lookup_insert_Some Hno; [done|].
    exact (ok_clean _ _ _ Hok n' e' He' Hno).
  - intros n' e' [(_ & <- & _)|[Hne He']]%list_lookup_insert_Some Ho'; [done|].
    destruct (ok_chain _ _ _ Hok n' e' He' Ho') as (c' & ? & i & ? & ? & Hj).
    exists c'. split; [done|]. exists i. split_and!; try done; try lia.
    intros j Hlt. destruct (Hj j Hlt) as (e0 & He0 & ?).
    destruct (decide (at_probe sz (hash_of t c' mod sz) j = n)) as [->|].
    + unfold tbl'. rewrite list_lookup_insert_eq by done. by eexists.
    + unfold tbl'. rewrite list_lookup_insert_ne by done. eauto.
  - intros c' n1 n2 e1 e2 Hc' [_ H1]%Hholds [_ H2]%Hholds. by eapply ok_uniq.
Qed.

Lemma remove_refines ht m k c :
  ht_ok ht m -> ht_size ht <= size_bound ->
  canon (ht_type ht) k = Some c -> c <> nullkey ->
  match m !! c with
  | None => hash_table_remove ht k = Ok (0, ht, [])
  | Some v => exists ht' k',
      hash_table_remove ht k = Ok (1, ht', free_key ht k' ++ free_value ht v) /\
      canon (ht_type ht) k' = Some c /\
      ht_ok ht' (delete c m) /\ ht_type ht' = ht_type ht /\ ht_size ht' = ht_size ht /\
      ht_key_count ht' = ht_key_count ht - 1
  end.
Proof.
  intros [Hok Hrep Hsize Hcount Hload Hocc] Hb Hk Hc. unfold hash_table_remove.
  unfold size_bound in Hb.
  destruct (lookup_entry_spec ht k c Hok Hk) as [(w & e & -> & Hw & Hh)|[-> Hno]]; simpl.
  2: { destruct (m !! c) as [v|] eqn:E; [|done].
       apply Hrep in E as (_ & n & e & Hh & _). by destruct (Hno n e). }
  set (n := Z.to_nat w) in *. pose proof Hh as (He & Ho & Hce).
  assert (m !! c = Some (e_value e)) as Hm by (apply Hrep; eauto).
  rewrite Hm. unfold slot, set_slot. fold n. rewrite He. simpl.
  pose proof (map_size_delete_Some c m (mk_is_Some _ _ Hm)) as Hms.
  assert (0 < size m)%nat.
  { destruct (size m) eqn:E; [|lia]. apply map_size_empty_inv in E. subst m.
    by rewrite lookup_empty in Hm. }
  assert (u64 (ht_key_count ht - 1) = ht_key_count ht - 1) as Eu by (apply u64_small; lia).
  destruct (unlink_ok _ _ _ _ _ _ Hok Hh) as [Hok' Hholds].
  eexists _, (e_key e). split; [done|]. split; [done|]. split; [|by rewrite Eu].
  split; cbn -[size]; rewrite ?Eu; try done; try lia.
  - intros c' v. destruct (decide (c = c')) as [<-|Hne].
    + rewrite lookup_delete_eq. split; [done|].
      intros (_ & n' & e' & [Hne Hh']%Hholds & _). destruct Hne.
      by eapply (ok_uniq _ _ _ Hok c).
    + rewrite lookup_delete_ne, (Hrep c' v) by done. split.
      * intros (? & n' & e' & Hh' & ?). split; [done|]. exists n', e'. split; [|done].
        apply Hholds. split; [|done]. intros ->. destruct Hh' as (? & _ & ?). congruence.
      * intros (? & n' & e' & [_ Hh']%Hholds & ?). eauto.
  - pose proof (occ_insert (ht_table ht) n e (Entry NULL None REMOVED) He) as Ho'.
    rewrite (bool_decide_eq_true_2 (occupied e)) in Ho' by done.
    rewrite bool_decide_eq_false_2 in Ho' by done. lia.
Qed.

Lemma search_refines ht m k c :
  ht_ok ht m -> canon (ht_type ht) k = Some c -> c <> nullkey ->
  hash_table_search ht k = Ok (m !! c ≫= id).
Proof. intros [Hok Hrep _ _ _ _]. by apply search_rep. Qed.

End theory.

(** ** The hash functions *)

(** The bits folded back by [pjw32] are the four bits it then clears. *)
Lemma pjw32_step_bound h c : 0 <= h -> 0 <= pjw32_step h c < 2 ^ 28.
Proof.
  intros Hh. unfold pjw32_step.
  set (x := u32 (_ + _)). assert (0 <= x < 2 ^ 32) as Hx by apply u32_bound.
  clearbody x. set (high := Z.land x 0xF0000000).
  set (y := if _ =? _ then _ else _).
  assert (0 <= high) as Hhigh by (apply Z.land_nonneg; lia).
  assert (0 <= y) as Hy.
  { unfold y. case_match; [lia|]. apply Z.lxor_nonneg.
    split; intros _; [|lia]. by apply Z.shiftr_nonneg. }
  assert (0 <= u32 (Z.lnot high)) as Hn by apply u32_bound.
  apply bits_bound; [done|apply Z.land_nonneg; lia|].
  intros i Hi. rewrite Z.land_spec.
  assert (forall j, 32 <= j -> Z.testbit high j = false) as Hhi.
  { intros j Hj. unfold high. by rewrite Z.land_spec, (bits_high 32 x) by lia. }
  assert (Z.testbit y i = Z.testbit x i) as ->.
  { unfold y. case_match; [done|].
    rewrite Z.lxor_spec, Z.shiftr_spec, Hhi by lia. apply xorb_false_r. }
  destruct (decide (i < 32)) as [Hlt|].
  - unfold u32, wrap. rewrite Z.mod_pow2_bits_low, Z.lnot_spec by lia.
    unfold high. rewrite Z.land_spec.
    assert (Z.testbit 0xF0000000 i = true) as ->.
    { assert (i = 28 \/ i = 29 \/ i = 30 \/ i = 31) as [->|[->|[->| ->]]] by lia; done. }
    by destruct (Z.testbit x i).
  - by rewrite (bits_high 32 x) by lia.
Qed.

Lemma pjw32_loop_bound s h : 0 <= h < 2 ^ 28 -> 0 <= pjw32_loop s h < 2 ^ 28.
Proof.
  revert h. induction s as [|c s IH]; intros h Hh; simpl; [done|].
  apply IH, pjw32_step_bound. lia.
Qed.

Lemma himult64_word_inj a b :
  0 <= a < 2 ^ 64 -> 0 <= b < 2 ^ 64 -> himult64 (PInt a) = himult64 (PInt b) -> a = b.
Proof.
  unfold himult64, H_POINTER_TO_INT. intros Ha Hb. rewrite !(u64_small a), !(u64_small b) by done.
  by apply (wrap_mul_inj 64 _ 16764672259175965159).
Qed.

Lemma xorshift33_inj a b :
  0 <= a < 2 ^ 64 -> 0 <= b < 2 ^ 64 ->
  Z.lxor a (Z.shiftr a 33) = Z.lxor b (Z.shiftr b 33) -> a = b.
Proof.
  intros Ha Hb E.
  pose proof (xorshift_involutive 64 33 a ltac:(lia) Ha) as Ea.
  pose proof (xorshift_involutive 64 33 b ltac:(lia) Hb) as Eb.
  simpl in Ea, Eb. by rewrite <- Ea, E.
Qed.

Lemma xorshift33_bound a : 0 <= a < 2 ^ 64 -> 0 <= Z.lxor a (Z.shiftr a 33) < 2 ^ 64.
Proof. intros. apply lxor_bound; [done..|]. by apply shiftr_bound. Qed.

Lemma mix_round_inj c c' a b :
  u64 (c * c') = 1 -> 0 <= a < 2 ^ 64 -> 0 <= b < 2 ^ 64 ->
  u64 (Z.lxor a (Z.shiftr a 33) * c) = u64 (Z.lxor b (Z.shiftr b 33) * c) -> a = b.
Proof.
  intros Hc Ha Hb E. apply xorshift33_inj; [done..|].
  apply (wrap_mul_inj 64 c c'); [done|done|by apply xorshift33_bound..|done].
Qed.

Lemma fmix64_word_inj a b :
  0 <= a < 2 ^ 64 -> 0 <= b < 2 ^ 64 -> fmix64 (PInt a) = fmix64 (PInt b) -> a = b.
Proof.
  unfold fmix64, H_POINTER_TO_INT. intros Ha Hb. rewrite !(u64_small a), !(u64_small b) by done.
  intros E. apply xorshift33_inj in E; [|apply u64_bound..].
  apply (mix_round_inj _ 11291846944257947611) in E; [|done|apply u64_bound..].
  by apply (mix_round_inj _ 5725274745694666757) in E.
Qed.

(** ** String tables and the load threshold *)

Section string_tables.
Context {V : Type}.
Implicit Types (ht : hash_table V).

Lemma probe_total {R} (visit : hash_table_entry V -> outcome (option R)) tbl sz h fuel i :
  Z.of_nat (length tbl) = sz -> 0 < sz ->
  (forall n e, tbl !! n = Some e -> exists r, visit e = Ok r) ->
  exists r, probe visit tbl sz h fuel i = Ok r.
Proof.
  intros Hl Hs Hv.
  destruct (probe_spec visit tbl sz h fuel i Hl Hs Hv) as [[? _]|(? & ? & ? & ? & _)]; eauto.
Qed.

(** Moving one entry either succeeds, keeping the shape of the table, or reads
    through a NULL key. *)
Lemma rehash_one_str ht e :
  ht_type ht = HASH_KEY_STR -> Z.of_nat (length (ht_table ht)) = ht_size ht -> 0 < ht_size ht ->
  (exists ht', rehash_one ht e = Ok ht' /\ ht_type ht' = HASH_KEY_STR /\
     Z.of_nat (length (ht_table ht')) = ht_size ht' /\ ht_size ht' = ht_size ht /\
     e_key e <> NULL) \/
  rehash_one ht e = Fault NullDeref.
Proof.
  intros Ht Hl Hs. unfold rehash_one, HASH. rewrite Ht.
  destruct (e_key e) as [w|a s] eqn:Ek; [by right|]. left. simpl.
  destruct (probe_total rehash_visit (ht_table ht) (ht_size ht)
    (pjw32_loop s 0 mod ht_size ht) (Z.to_nat (ht_size ht)) 0) as [r Hr]; [done..| |].
  { intros n e' _. unfold rehash_visit. destruct (e_state e'); eauto. }
  unfold probe_all. rewrite Hr. simpl. eexists. split; [done|]. simpl.
  split_and!; try done. unfold set_slot. by rewrite length_insert.
Qed.

Lemma rehash_loop_str_faults ht old n e :
  ht_type ht = HASH_KEY_STR -> Z.of_nat (length (ht_table ht)) = ht_size ht -> 0 < ht_size ht ->
  old !! n = Some e -> e_key e = NULL -> rehash_loop ht old = Fault NullDeref.
Proof.
  revert ht n. induction old as [|e0 old IH]; intros ht n Ht Hl Hs Hn Hk; [done|]. simpl.
  destruct (rehash_one_str ht e0 Ht Hl Hs) as [(ht' & -> & Ht' & Hl' & Hs' & Hne)| ->]; [|done].
  simpl. destruct n as [|n]; simplify_eq/=.
  apply (IH ht' n); try done. lia.
Qed.

Lemma str_insert_over_load ht m k v :
  ht_ok ht m -> ht_size ht <= size_bound -> ht_type ht = HASH_KEY_STR ->
  hash_table_must_rehash ht = true -> hash_table_insert ht k v = Fault NullDeref.
Proof.
  intros Hht Hb Ht Hm. unfold hash_table_insert, hash_table_check_overflow. rewrite Hm.
  rewrite (must_rehash_spec ht m) in Hm by done. unfold size_bound in Hb.
  destruct Hht as [Hok _ Hsize _ Hload Hocc]. pose proof (ok_len _ _ _ Hok) as Hl.
  destruct (occ_free_slot (ht_table ht)) as (n & e & He & Hno); [lia|].
  destruct (ok_clean _ _ _ Hok n e He Hno) as [Hk _].
  unfold hash_table_rehash. rewrite u64_small by lia.
  erewrite (rehash_loop_str_faults _ _ n e); try done; simpl; [|lia].
  rewrite length_replicate. lia.
Qed.

End string_tables.
