(* ===== verification/HashSpec.v ===== *)
(** * What the hash table promises, over whole histories of calls

    A history is a list of insertions, removals and searches on one table.  The
    theorems compare its run on [hash_table] with its run on a finite map, and
    say where the two part. *)
From S2P Require Import Prelude Hash HashTheory.

#[local] Open Scope Z_scope.

Section histories.
Context {V : Type}.
Implicit Types (ht : hash_table V) (m : gmap skey (option V)).

Inductive ht_op :=
  | OpInsert (k : ptr) (v : option V)
  | OpRemove (k : ptr)
  | OpSearch (k : ptr).

(** The C return value of a call: an [int] or the pointer found. *)
Inductive ht_ret :=
  | RetInt (r : Z)
  | RetValue (v : option V).

Definition ht_step ht (op : ht_op) : outcome (ht_ret * hash_table V) :=
  match op with
  | OpInsert k v => r ← hash_table_insert ht k v; Ok (RetInt r.1.1, r.1.2)
  | OpRemove k => r ← hash_table_remove ht k; Ok (RetInt r.1.1, r.1.2)
  | OpSearch k => v ← hash_table_search ht k; Ok (RetValue v, ht)
  end.

Fixpoint ht_run ht (ops : list ht_op) : outcome (list ht_ret) :=
  match ops with
  | [] => Ok []
  | op :: ops => r ← ht_step ht op; rs ← ht_run r.2 ops; Ok (r.1 :: rs)
  end.

Definition op_key (op : ht_op) : ptr :=
  match op with OpInsert k _ | OpRemove k | OpSearch k => k end.

(** The same calls on a finite map. *)
Definition map_step (t : hash_table_type) m (op : ht_op) : option (ht_ret * gmap skey (option V)) :=
  c ← canon t (op_key op);
  Some match op with
       | OpInsert _ v => (RetInt 1, <[c := v]> m)
       | OpRemove _ => (RetInt (match m !! c with Some _ => 1 | None => 0 end), delete c m)
       | OpSearch _ => (RetValue (m !! c ≫= id), m)
       end.

Fixpoint map_run (t : hash_table_type) m (ops : list ht_op) : option (list ht_ret) :=
  match ops with
  | [] => Some []
  | op :: ops => r ← map_step t m op; rs ← map_run t r.2 ops; Some (r.1 :: rs)
  end.

(** The histories the callers produce: keys are readable and not NULL, and a key
    is inserted only while it is absent. *)
Fixpoint fresh_history (t : hash_table_type) m (ops : list ht_op) : bool :=
  match ops with
  | [] => true
  | op :: ops =>
      match canon t (op_key op), map_step t m op with
      | Some c, Some (_, m') =>
          bool_decide (c <> nullkey) &&
          match op with OpInsert _ _ => bool_decide (m !! c = None) | _ => true end &&
          fresh_history t m' ops
      | _, _ => false
      end
  end.

Lemma insert_size ht k v r ht' tr m :
  ht_ok ht m -> ht_size ht <= size_bound -> ht_type ht <> HASH_KEY_STR ->
  hash_table_insert ht k v = Ok (r, ht', tr) ->
  ht_size ht' = ht_size ht \/ ht_size ht' <= 3 * ht_key_count ht.
Proof.
  intros Hok Hb Ht H. unfold hash_table_insert in H.
  apply bind_Ok_inv in H as (ht1 & H1 & H).
  assert (ht_size ht' = ht_size ht1) as ->.
  { apply bind_Ok_inv in H as (h & _ & H). apply bind_Ok_inv in H as ([[[[] ?] ?]|] & _ & H); [|done].
    apply bind_Ok_inv in H as (e & _ & H). by injection H as <- <- <-. }
  unfold hash_table_check_overflow in H1.
  destruct (hash_table_must_rehash ht) eqn:Hm; [|left; congruence]. right.
  rewrite (must_rehash_spec ht m) in Hm by done.
  destruct (rehash_spec ht m Hok Ht Hb Hm) as (ht2 & H2 & _ & _ & _ & _ & Hs & _).
  assert (ht1 = ht2) as -> by congruence. pose proof (hok_count _ _ Hok). lia.
Qed.

Lemma ht_step_refines ht m op n c ret m' :
  ht_ok ht m -> ht_type ht <> HASH_KEY_STR -> ht_size ht <= 64 + 3 * n -> ht_key_count ht <= n ->
  0 <= n < 2 ^ 56 ->
  canon (ht_type ht) (op_key op) = Some c -> c <> nullkey ->
  (match op with OpInsert _ _ => m !! c = None | _ => True end) ->
  map_step (ht_type ht) m op = Some (ret, m') ->
  exists ht', ht_step ht op = Ok (ret, ht') /\ ht_ok ht' m' /\ ht_type ht' = ht_type ht /\
    ht_size ht' <= 64 + 3 * (n + 1) /\ ht_key_count ht' <= n + 1.
Proof.
  intros Hok Ht Hs Hcnt Hn Hc Hnull Hfresh Hstep.
  assert (ht_size ht <= size_bound) as Hb by (unfold size_bound; lia).
  unfold map_step in Hstep. rewrite Hc in Hstep. simpl in Hstep.
  destruct op as [k v|k|k]; simpl in *; injection Hstep as <- <-.
  - destruct (insert_refines ht m k c v) as (ht' & tr & E & Hok' & Ht' & Hk & Hsz & _);
      try done; [by intros ?|by left|].
    pose proof (insert_size _ _ _ _ _ _ _ Hok Hb Ht E) as Hsize.
    exists ht'. rewrite E. split_and!; try done; lia.
  - pose proof (remove_refines ht m k c Hok Hb Hc Hnull) as Hr.
    destruct (m !! c) as [v|] eqn:E.
    + destruct Hr as (ht' & k' & -> & _ & Hok' & Ht' & Hs' & Hk'). exists ht'.
      split_and!; try done; lia.
    + rewrite Hr. exists ht. rewrite delete_id by done. split_and!; try done; lia.
  - rewrite (search_refines ht m k c) by done. exists ht. split_and!; try done; lia.
Qed.

Lemma ht_run_refines ht m ops n :
  ht_ok ht m -> ht_type ht <> HASH_KEY_STR -> ht_size ht <= 64 + 3 * n -> ht_key_count ht <= n ->
  0 <= n -> n + Z.of_nat (length ops) < 2 ^ 56 ->
  fresh_history (ht_type ht) m ops = true ->
  exists rs, ht_run ht ops = Ok rs /\ map_run (ht_type ht) m ops = Some rs.
Proof.
  revert ht m n. induction ops as [|op ops IH]; intros ht m n Hok Ht Hs Hc Hn Hl Hf.
  { by exists []. }
  simpl in *.
  destruct (canon (ht_type ht) (op_key op)) as [c|] eqn:Ec; [|done].
  destruct (map_step (ht_type ht) m op) as [[ret m']|] eqn:Em; [|done].
  rewrite !andb_true_iff, bool_decide_eq_true in Hf. destruct Hf as [[Hnull Hfr] Hf].
  destruct (ht_step_refines ht m op n c ret m') as (ht' & E & Hok' & Ht' & Hs' & Hc'); try done.
  { lia. }
  { destruct op; [|done..]. by apply bool_decide_eq_true in Hfr. }
  rewrite E. simpl.
  destruct (IH ht' m' (n + 1)) as (rs & E2 & E3); try done; try lia; rewrite Ht' in *; try done.
  rewrite E2, E3. simpl. eauto.
Qed.

(** C11: A table with integer or pointer keys is a finite map over every history
    that inserts a key only while it is absent: every call of [hash_table_insert],
    [hash_table_remove] and [hash_table_search] returns what the finite map
    returns, through any number of rehashes and deletions, with no fault. *)
Theorem hash_table_histories (t : hash_table_type) (kcb vcb : bool) (ops : list ht_op)
    (Ht : t <> HASH_KEY_STR) (Hlen : Z.of_nat (length ops) < 2 ^ 56)
    (Hfresh : fresh_history t ∅ ops = true) :
  exists rs, ht_run (hash_table_new t kcb vcb) ops = Ok rs /\ map_run t ∅ ops = Some rs.
Proof.
  apply (ht_run_refines (hash_table_new t kcb vcb) ∅ ops 0); try done. apply ht_ok_new.
Qed.

End histories.
Arguments ht_op : clear implicits.
Arguments ht_ret : clear implicits.

(** Insert the keys 1 ... n, then look them up from n down to 1, removing each. *)
Definition churn (n : nat) : list (ht_op Z) :=
  ((fun i => OpInsert (PInt (Z.of_nat i)) (Some (Z.of_nat i))) <$> seq 1 n) ++
  ((fun i => OpSearch (PInt (Z.of_nat i))) <$> seq 1 n) ++
  ((fun i => OpRemove (PInt (Z.of_nat i))) <$> seq 1 n).

Lemma hash_table_histories_witness :
  exists rs, ht_run (hash_table_new HASH_KEY_INT false false) (churn 50) = Ok rs /\
             map_run HASH_KEY_INT ∅ (churn 50) = Some rs.
Proof.
  apply (hash_table_histories HASH_KEY_INT false false (churn 50)).
  - discriminate.
  - vm_compute. reflexivity.
  - vm_compute. reflexivity.
Defined.

(** Overwriting a key is not safe once a removal has left a tombstone before
    it on its probe chain: keys 1 and 65 share a chain, and after inserting both,
    removing 1, storing a second value under 65 and removing 65, a search for 65
    answers with the first value. *)
Theorem stale_value_after_tombstone {V} (a b c : V) :
  exists rs, ht_run (hash_table_new HASH_KEY_INT false false)
    [OpInsert (PInt 1) (Some a); OpInsert (PInt 65) (Some b); OpRemove (PInt 1);
     OpInsert (PInt 65) (Some c); OpSearch (PInt 65); OpRemove (PInt 65);
     OpSearch (PInt 65)] = Ok (rs ++ [RetValue (Some c); RetInt 1; RetValue (Some b)]).
Proof. exists [RetInt 1; RetInt 1; RetInt 1; RetInt 1]. vm_compute. reflexivity. Qed.

(** A string-keyed table cannot grow: whatever it stores, the insertion that
    finds it over its load factor dereferences the NULL key of an unoccupied
    entry while rehashing. *)
Theorem string_table_cannot_grow {V} (ht : hash_table V) m (k : ptr) (v : option V)
    (Hok : ht_ok ht m) (Hsize : ht_size ht <= size_bound)
    (Hstr : ht_type ht = HASH_KEY_STR) (Hload : hash_table_must_rehash ht = true) :
  hash_table_insert ht k v = Fault NullDeref.
Proof. by apply (str_insert_over_load ht m). Qed.

(** The string keys "a", "aa", "aaa", ... *)
Definition a_key (n : nat) : ptr := PStr (Z.of_nat n + 1) (String.concat "" (replicate n "a"%string)).

Fixpoint fill {V} (ht : hash_table V) (n : nat) : outcome (hash_table V) :=
  match n with
  | O => Ok ht
  | S n => ht ← fill ht n; r ← hash_table_insert ht (a_key n) None; Ok r.1.2
  end.

Lemma fill_ok {V} (ht : hash_table V) n :
  ht_ok ht ∅ -> ht_type ht = HASH_KEY_STR -> ht_size ht = 64 -> ht_key_count ht = 0 ->
  no_removed (ht_table ht) -> (n <= 45)%nat ->
  exists ht' m, fill ht n = Ok ht' /\ ht_ok ht' m /\ ht_type ht' = HASH_KEY_STR /\
    ht_size ht' = 64 /\ ht_key_count ht' = Z.of_nat n /\ no_removed (ht_table ht').
Proof.
  intros Hok Ht Hs Hc Hr. induction n as [|n IH]; intros Hn; simpl.
  { exists ht, ∅. split_and!; done. }
  destruct IH as (ht' & m & -> & Hok' & Ht' & Hs' & Hc' & Hr'); [lia|]. simpl.
  assert (hash_table_must_rehash ht' = false) as Hm.
  { unfold hash_table_must_rehash. rewrite !u64_small by lia. apply Z.ltb_ge. lia. }
  destruct (insert_refines ht' m (a_key n) (inr (String.concat "" (replicate n "a"%string))) None)
    as (ht2 & tr & E & Hok2 & Ht2 & Hc2 & _ & Hr2 & _); try done.
  { unfold size_bound. lia. }
  { by intros ?. }
  { by rewrite Ht'. }
  { by right. }
  rewrite E. simpl. eexists ht2, _. split_and!; try done; [congruence| |lia|auto].
  unfold hash_table_insert, hash_table_check_overflow in E. rewrite Hm in E. simpl in E.
  apply bind_Ok_inv in E as (h & _ & E). apply bind_Ok_inv in E as ([[[[] ?] ?]|] & _ & E); [|done].
  apply bind_Ok_inv in E as (e & _ & E). by injection E as <- _.
Qed.

Lemma string_table_cannot_grow_witness :
  exists ht : hash_table unit,
    fill (hash_table_new HASH_KEY_STR false false) 45 = Ok ht /\
    hash_table_insert ht (PStr 99 "scan") None = Fault NullDeref.
Proof.
  destruct (fill_ok (hash_table_new (V:=unit) HASH_KEY_STR false false) 45) as
    (ht & m & E & Hok & Ht & Hs & Hc & _); try reflexivity.
  - apply ht_ok_new.
  - intros n e He. apply lookup_replicate in He as [-> _]. discriminate.
  - exists ht. split; [exact E|]. apply (string_table_cannot_grow ht m).
    + exact Hok.
    + unfold size_bound. lia.
    + exact Ht.
    + unfold hash_table_must_rehash. rewrite Hs, Hc. reflexivity.
Defined.
