(* ===== verification/Buffer.v ===== *)
(** * Growable byte buffers

    [JBuffer] models [src/librpc/jrpc/buffer.c] (the buffer a JSON-RPC message is
    dumped into), [MBuffer] the private buffer of [src/libmodule/string.c] behind
    [a6o_strcat] and [a6o_strdup].  The allocated block is a list of cells, [None]
    for a byte not yet written; writing outside the block is [OutOfBounds].
    [malloc] and [realloc] are assumed to succeed. *)
From S2P Require Import Prelude.

#[local] Open Scope Z_scope.

(** [realloc(p, n)]: the old contents, truncated or extended with fresh bytes. *)
Definition realloc (p : list (option ascii)) (n : Z) : list (option ascii) :=
  resize (Z.to_nat n) None p.

(** [memcpy(p + off, data, length data)]. *)
Definition memcpy_at (p : list (option ascii)) (off : Z) (data : list ascii)
    : outcome (list (option ascii)) :=
  if bool_decide (0 <= off /\ off + Z.of_nat (length data) <= Z.of_nat (length p))
  then Ok (take (Z.to_nat off) p ++ (Some <$> data) ++
           drop (Z.to_nat off + length data) p)
  else Fault OutOfBounds.

Record buffer := Buffer {
  b_p : list (option ascii);
  b_filled_size : Z;
  b_alloced_size : Z;
}.

(** The filled prefix holds [data]. *)
Record buf_ok (b : buffer) (data : list ascii) : Prop := {
  buf_len : Z.of_nat (length (b_p b)) = b_alloced_size b;
  buf_filled : b_filled_size b = Z.of_nat (length data);
  buf_fits : b_filled_size b <= b_alloced_size b;
  buf_pos : 0 < b_alloced_size b;
  buf_data : take (length data) (b_p b) = Some <$> data;
}.

Lemma memcpy_at_ok b data d :
  buf_ok b data -> b_filled_size b + Z.of_nat (length d) <= b_alloced_size b ->
  exists p, memcpy_at (b_p b) (b_filled_size b) d = Ok p /\
    length p = length (b_p b) /\
    take (length (data ++ d)) p = Some <$> (data ++ d).
Proof.
  intros [Hlen Hfill Hfits Hpos Hdata] Hroom. unfold memcpy_at.
  rewrite bool_decide_eq_true_2 by lia. eexists. split; [done|].
  rewrite Hfill, Nat2Z.id in *. split.
  - rewrite !length_app, length_fmap, length_take, length_drop. lia.
  - rewrite app_assoc, take_app_length'.
    + by rewrite Hdata, fmap_app.
    + rewrite !length_app, length_fmap, length_take. lia.
Qed.

Lemma buf_ok_realloc b data n :
  buf_ok b data -> b_alloced_size b <= n ->
  buf_ok {| b_p := realloc (b_p b) n; b_filled_size := b_filled_size b; b_alloced_size := n |} data.
Proof.
  intros [Hlen Hfill Hfits Hpos Hdata] Hn. unfold realloc.
  split; simpl; try lia.
  - rewrite length_resize. lia.
  - rewrite take_resize_le, resize_le by lia. done.
Qed.

Lemma buf_ok_fresh n :
  0 < n -> buf_ok {| b_p := replicate (Z.to_nat n) None; b_filled_size := 0; b_alloced_size := n |} [].
Proof. intros. split; simpl; try lia; [|done]. rewrite length_replicate. lia. Qed.

Module JBuffer.

Definition DEFAULT_INITIAL_SIZE : Z := 128.

Definition buffer_init (initial_size : Z) : buffer :=
  let alloced := if initial_size =? 0 then DEFAULT_INITIAL_SIZE else initial_size in
  {| b_filled_size := 0; b_alloced_size := alloced;
     b_p := replicate (Z.to_nat alloced) None |}.

(** [while (filled + needed >= alloced) alloced *= 2;] *)
Fixpoint grow_loop (fuel : nat) (target alloced : Z) : outcome Z :=
  match fuel with
  | O => Fault Diverges
  | S fuel => if alloced <=? target then grow_loop fuel target (u64 (alloced * 2)) else Ok alloced
  end.

Definition grow_fuel : nat := 65.

Definition buffer_grow (b : buffer) (needed : Z) : outcome buffer :=
  let target := u64 (b_filled_size b + needed) in
  if b_alloced_size b <=? target then
    alloced ← grow_loop grow_fuel target (b_alloced_size b);
    Ok {| b_p := realloc (b_p b) alloced; b_filled_size := b_filled_size b;
          b_alloced_size := alloced |}
  else Ok b.

Definition buffer_increment (b : buffer) (sz : Z) : buffer :=
  {| b_p := b_p b; b_filled_size := u64 (b_filled_size b + sz);
     b_alloced_size := b_alloced_size b |}.

Definition buffer_append (b : buffer) (data : list ascii) : outcome buffer :=
  b ← buffer_grow b (Z.of_nat (length data));
  p ← memcpy_at (b_p b) (b_filled_size b) data;
  Ok (buffer_increment {| b_p := p; b_filled_size := b_filled_size b;
                          b_alloced_size := b_alloced_size b |} (Z.of_nat (length data))).

Definition buffer_size (b : buffer) : Z := b_filled_size b.



Definition buffer_data (b : buffer) : list (option ascii) := b_p b.

Definition buffer_clear (b : buffer) : buffer :=
  {| b_p := b_p b; b_filled_size := 0; b_alloced_size := b_alloced_size b |}.

(** The doubling loop ends above [target], within twice what was needed. *)
Lemma grow_loop_spec fuel target alloced :
  0 < alloced -> target < 2 ^ 62 -> target < alloced * 2 ^ Z.of_nat fuel ->
  exists n, grow_loop (S fuel) target alloced = Ok n /\
    target < n /\ alloced <= n /\ n <= Z.max alloced (2 * target).
Proof.
  revert alloced. induction fuel as [|fuel IH]; intros alloced Hpos Ht Hpow.
  - exists alloced. simpl. rewrite (proj2 (Z.leb_gt _ _)) by lia. split_and!; try done; lia.
  - rewrite Nat2Z.inj_succ, Z.pow_succ_r in Hpow by lia.
    simpl. destruct (Z.leb_spec alloced target); [|exists alloced; split_and!; try done; lia].
    rewrite u64_small by lia.
    destruct (IH (alloced * 2)) as (n & Hn & ? & ? & ?); [lia|done|lia|].
    exists n. split; [exact Hn|]. lia.
Qed.

Lemma buffer_init_ok initial_size :
  0 <= initial_size -> buf_ok (buffer_init initial_size) [].
Proof.
  intros. apply buf_ok_fresh. unfold DEFAULT_INITIAL_SIZE. case_match; lia.
Qed.

Lemma buffer_grow_ok b data needed :
  buf_ok b data -> 0 <= needed -> b_filled_size b + needed < 2 ^ 62 ->
  exists b', buffer_grow b needed = Ok b' /\ buf_ok b' data /\
    b_filled_size b' + needed < b_alloced_size b' /\ b_alloced_size b <= b_alloced_size b' /\
    b_alloced_size b' <= Z.max (b_alloced_size b) (2 * (b_filled_size b + needed)).
Proof.
  intros Hok Hn Hb. pose proof Hok as [Hlen Hfill _ Hpos _].
  unfold buffer_grow, grow_fuel. rewrite u64_small by lia.
  destruct (Z.leb_spec (b_alloced_size b) (b_filled_size b + needed)).
  - destruct (grow_loop_spec 64 (b_filled_size b + needed) (b_alloced_size b))
      as (n & -> & ? & ? & ?); [lia..|]. simpl.
    eexists. split; [done|]. split; [by apply buf_ok_realloc|]. simpl. lia.
  - exists b. split; [done|]. split; [done|]. lia.
Qed.

Lemma buffer_append_ok b data d :
  buf_ok b data -> Z.of_nat (length data + length d) < 2 ^ 62 ->
  exists b', buffer_append b d = Ok b' /\ buf_ok b' (data ++ d) /\
    b_filled_size b' < b_alloced_size b'.
Proof.
  intros Hok Hb. pose proof (buf_filled _ _ Hok) as Hfill.
  unfold buffer_append.
  destruct (buffer_grow_ok b data (Z.of_nat (length d))) as (b1 & -> & Hok1 & Hroom & _ & _);
    [done|lia..|]. simpl.
  pose proof Hok1 as [Hlen1 Hfill1 _ Hpos1 _].
  destruct (memcpy_at_ok b1 data d Hok1) as (p & -> & Hp & Htake); [lia|]. simpl.
  eexists. split; [done|]. simpl. unfold buffer_increment; simpl.
  rewrite u64_small by lia. split; [|lia].
  split; simpl; rewrite ?length_app, ?Hp; try lia. by rewrite length_app in Htake.
Qed.

(** Appending a sequence of chunks. *)
Fixpoint buffer_append_all (b : buffer) (chunks : list (list ascii)) : outcome buffer :=
  match chunks with
  | [] => Ok b
  | c :: chunks => b ← buffer_append b c; buffer_append_all b chunks
  end.

Lemma buffer_append_all_ok b data chunks :
  buf_ok b data -> Z.of_nat (length data + length (concat chunks)) < 2 ^ 62 ->
  exists b', buffer_append_all b chunks = Ok b' /\ buf_ok b' (data ++ concat chunks).
Proof.
  revert b data. induction chunks as [|c chunks IH]; intros b data Hok Hb; simpl.
  { exists b. by rewrite app_nil_r. }
  simpl in Hb. rewrite length_app in Hb.
  destruct (buffer_append_ok b data c) as (b1 & -> & Hok1 & _); [done|lia|]. simpl.
  rewrite app_assoc. apply IH; [done|]. rewrite length_app. lia.
Qed.

End JBuffer.

Module MBuffer.

Definition DEFAULT_INITIAL_SIZE : Z := 128.

Definition init : buffer :=
  {| b_alloced_size := DEFAULT_INITIAL_SIZE; b_filled_size := 0;
     b_p := replicate (Z.to_nat DEFAULT_INITIAL_SIZE) None |}.

Definition grow_by_1 (b : buffer) : buffer :=
  if b_alloced_size b <=? b_filled_size b + 1 then
    let alloced := u64 (b_alloced_size b * 2) in
    {| b_p := realloc (b_p b) alloced; b_filled_size := b_filled_size b;
       b_alloced_size := alloced |}
  else b.

Definition append (b : buffer) (c : ascii) : outcome buffer :=
  let b := grow_by_1 b in
  p ← memcpy_at (b_p b) (b_filled_size b) [c];
  Ok {| b_p := p; b_filled_size := u64 (b_filled_size b + 1);
        b_alloced_size := b_alloced_size b |}.

(** [while ( *p ) { append(&b, *p); p++; }] on one argument. *)
Fixpoint append_string (b : buffer) (s : string) : outcome buffer :=
  match s with
  | EmptyString => Ok b
  | String c s => b ← append b c; append_string b s
  end.

Fixpoint append_args (b : buffer) (args : list string) : outcome buffer :=
  match args with
  | [] => Ok b
  | a :: args => b ← append_string b a; append_args b args
  end.

(** [a6o_strcat_(src, ...)]: the arguments up to the terminating NULL; the result
    is the block, whose filled part ends with the NUL byte. *)
Definition a6o_strcat_ (args : list string) : outcome (option (list (option ascii))) :=
  match args with
  | [] => Ok None
  | _ =>
      b ← append_args init args;
      b ← append b "000"%char;
      Ok (Some (b_p b))
  end.

Definition a6o_strdup (s : option string) : outcome (option (list (option ascii))) :=
  a6o_strcat_ (match s with None => [] | Some s => [s] end).

Lemma append_ok b data c :
  buf_ok b data -> b_filled_size b < b_alloced_size b -> b_alloced_size b < 2 ^ 62 ->
  exists b', append b c = Ok b' /\ buf_ok b' (data ++ [c]) /\
    b_filled_size b' < b_alloced_size b' /\
    b_alloced_size b' <= Z.max (b_alloced_size b) (2 * Z.of_nat (length data + 1)).
Proof.
  intros Hok Hlt Hb. pose proof Hok as [Hlen Hfill _ Hpos _].
  assert (exists b1, grow_by_1 b = b1 /\ buf_ok b1 data /\
    b_filled_size b1 + 1 < b_alloced_size b1 /\
    b_alloced_size b1 <= Z.max (b_alloced_size b) (2 * Z.of_nat (length data + 1)))
    as (b1 & E1 & Hok1 & Hroom & Hsize).
  { eexists. split; [done|]. unfold grow_by_1.
    destruct (Z.leb_spec (b_alloced_size b) (b_filled_size b + 1)); [|split; [done|lia]].
    rewrite u64_small by lia.
    split; [apply buf_ok_realloc; [done|lia]|]. simpl. lia. }
  unfold append. rewrite E1. pose proof Hok1 as [Hlen1 Hfill1 _ Hpos1 _].
  destruct (memcpy_at_ok b1 data [c] Hok1) as (p & -> & Hp & Htake); [simpl; lia|]. simpl.
  eexists. split; [done|]. simpl. rewrite u64_small by lia. split; [|lia].
  split; simpl; rewrite ?length_app, ?Hp; simpl; try lia. by rewrite length_app in Htake.
Qed.

(** The bound on what one call may concatenate, far below the address space. *)
Definition strcat_bound : Z := 2 ^ 60.

Lemma append_string_ok b data s :
  buf_ok b data -> b_filled_size b < b_alloced_size b ->
  b_alloced_size b <= Z.max 128 (2 * Z.of_nat (length data)) ->
  Z.of_nat (length data + String.length s) < strcat_bound ->
  exists b', append_string b s = Ok b' /\ buf_ok b' (data ++ bytes s) /\
    b_filled_size b' < b_alloced_size b' /\
    b_alloced_size b' <= Z.max 128 (2 * Z.of_nat (length (data ++ bytes s))).
Proof.
  unfold strcat_bound. revert b data.
  induction s as [|c s IH]; intros b data Hok Hlt Hsz Hb; simpl in *.
  { exists b. by rewrite app_nil_r. }
  destruct (append_ok b data c) as (b1 & -> & Hok1 & Hlt1 & Hsz1); [done|done|lia|]. simpl.
  destruct (IH b1 (data ++ [c])) as (b2 & -> & Hok2 & ? & ?);
    try done; rewrite ?length_app; simpl; [lia..|].
  exists b2. rewrite cons_middle, app_assoc. split_and!; try done. rewrite !length_app in *. simpl in *. lia.
Qed.

Definition bytes_of (args : list string) : list ascii :=
  concat (bytes <$> args).

Lemma append_args_ok b data args :
  buf_ok b data -> b_filled_size b < b_alloced_size b ->
  b_alloced_size b <= Z.max 128 (2 * Z.of_nat (length data)) ->
  Z.of_nat (length data + length (bytes_of args)) < strcat_bound ->
  exists b', append_args b args = Ok b' /\ buf_ok b' (data ++ bytes_of args) /\
    b_filled_size b' < b_alloced_size b' /\
    b_alloced_size b' <= Z.max 128 (2 * Z.of_nat (length (data ++ bytes_of args))).
Proof.
  revert b data. induction args as [|a args IH]; intros b data Hok Hlt Hsz Hb.
  { exists b. unfold bytes_of; simpl. by rewrite app_nil_r. }
  assert (bytes_of (a :: args) = bytes a ++ bytes_of args) as E by done.
  rewrite E, length_app in Hb. simpl.
  pose proof (length_bytes a) as El.
  destruct (append_string_ok b data a) as (b1 & -> & Hok1 & ? & ?); [done..|lia|]. simpl.
  rewrite E, app_assoc. apply IH; try done. rewrite length_app. lia.
Qed.

Lemma strcat_ok args :
  args <> [] -> Z.of_nat (length (bytes_of args)) < strcat_bound ->
  exists p, a6o_strcat_ args = Ok (Some p) /\
    take (S (length (bytes_of args))) p = Some <$> (bytes_of args ++ ["000"%char]).
Proof.
  intros Hne Hb. unfold strcat_bound in Hb.
  assert (buf_ok init []) as Hinit by (by apply buf_ok_fresh).
  destruct (append_args_ok init [] args Hinit) as (b1 & E1 & Hok1 & Hlt1 & Hsz1); [done..|].
  simpl in *.
  destruct (append_ok b1 (bytes_of args) "000"%char) as (b2 & E2 & Hok2 & _ & _); [done|done|lia|].
  exists (b_p b2). unfold a6o_strcat_. destruct args; [done|].
  rewrite E1. simpl. rewrite E2. split; [done|].
  pose proof (buf_data _ _ Hok2) as H. rewrite length_app in H. simpl in H.
  by rewrite Nat.add_1_r in H.
Qed.

End MBuffer.

(** Whatever the chunk sizes and the initial size, a buffer filled by
    [buffer_append] never writes out of bounds, its doubling loop always ends, and
    its first [buffer_size] bytes are the chunks in order. *)
Theorem buffer_collects_chunks (initial_size : Z) (chunks : list (list ascii))
    (Hinit : 0 <= initial_size) (Hlen : Z.of_nat (length (concat chunks)) < 2 ^ 62) :
  exists b, JBuffer.buffer_append_all (JBuffer.buffer_init initial_size) chunks = Ok b /\
    JBuffer.buffer_size b = Z.of_nat (length (concat chunks)) /\
    take (Z.to_nat (JBuffer.buffer_size b)) (JBuffer.buffer_data b) = Some <$> concat chunks.
Proof.
  destruct (JBuffer.buffer_append_all_ok (JBuffer.buffer_init initial_size) [] chunks)
    as (b & -> & Hok); [by apply JBuffer.buffer_init_ok|done|].
  exists b. split; [done|]. split; [apply Hok|].
  unfold JBuffer.buffer_size, JBuffer.buffer_data. rewrite (buf_filled _ _ Hok), Nat2Z.id. apply Hok.
Qed.

Lemma buffer_collects_chunks_witness :
  exists b, JBuffer.buffer_append_all (JBuffer.buffer_init 0)
              [replicate 100 "a"%char; replicate 200 "b"%char] = Ok b /\
    JBuffer.buffer_size b = 300 /\
    take (Z.to_nat (JBuffer.buffer_size b)) (JBuffer.buffer_data b) =
      Some <$> concat [replicate 100 "a"%char; replicate 200 "b"%char].
Proof.
  apply (buffer_collects_chunks 0 [replicate 100 "a"%char; replicate 200 "b"%char]).
  - lia.
  - vm_compute. reflexivity.
Defined.

(** [a6o_strcat] of at least one string returns a block that starts with the
    bytes of its arguments in order and a terminating NUL, all of them written and
    inside the block; with no string it returns NULL. *)
Theorem strcat_concatenates (args : list string)
    (Hlen : Z.of_nat (length (MBuffer.bytes_of args)) < MBuffer.strcat_bound) :
  match args with
  | [] => MBuffer.a6o_strcat_ args = Ok None
  | _ => exists p, MBuffer.a6o_strcat_ args = Ok (Some p) /\
           take (S (length (MBuffer.bytes_of args))) p =
             Some <$> (MBuffer.bytes_of args ++ ["000"%char])
  end.
Proof. destruct args; [done|]. by apply MBuffer.strcat_ok. Qed.

Lemma strcat_concatenates_witness :
  Z.of_nat (length (MBuffer.bytes_of ["/var"; "/spool/armadito"])) < MBuffer.strcat_bound /\
  exists p, MBuffer.a6o_strcat_ ["/var"; "/spool/armadito"] = Ok (Some p) /\
    take (S (length (MBuffer.bytes_of ["/var"; "/spool/armadito"]))) p =
      Some <$> (MBuffer.bytes_of ["/var"; "/spool/armadito"] ++ ["000"%char]).
Proof.
  split; [vm_compute; reflexivity|].
  apply (strcat_concatenates ["/var"; "/spool/armadito"]). vm_compute. reflexivity.
Defined.
