(* ===== verification/Status.v ===== *)
(** * File scan statuses, actions and scan reports
    ([src/libcore/status.c], [action.c], [report.c] and their headers) *)
From S2P Require Import Prelude.

#[local] Open Scope Z_scope.

(** ** [enum a6o_file_status] *)

Inductive a6o_file_status : Set :=
  | A6O_FILE_UNDECIDED
  | A6O_FILE_CLEAN
  | A6O_FILE_UNKNOWN_TYPE
  | A6O_FILE_EINVAL
  | A6O_FILE_IERROR
  | A6O_FILE_SUSPICIOUS
  | A6O_FILE_WHITE_LISTED
  | A6O_FILE_MALWARE.

#[export] Instance a6o_file_status_eq_dec : EqDecision a6o_file_status.
Proof. solve_decision. Defined.

(** The integer value of the enumerator. *)
Definition a6o_file_status_val (s : a6o_file_status) : Z :=
  match s with
  | A6O_FILE_UNDECIDED => 1
  | A6O_FILE_CLEAN => 2
  | A6O_FILE_UNKNOWN_TYPE => 3
  | A6O_FILE_EINVAL => 4
  | A6O_FILE_IERROR => 5
  | A6O_FILE_SUSPICIOUS => 6
  | A6O_FILE_WHITE_LISTED => 7
  | A6O_FILE_MALWARE => 8
  end.

(** Membership in the sets the [switch] of [a6o_file_status_cmp] tests [s2] against. *)
Definition one_of (s : a6o_file_status) (l : list a6o_file_status) : bool :=
  bool_decide (s ∈ l).

(** [A6O_FILE_UNKNOWN_TYPE] and [A6O_FILE_EINVAL] have no case for [s1]: control
    reaches [assert(1 == 0)]. *)
Definition a6o_file_status_cmp (s1 s2 : a6o_file_status) : outcome Z :=
  if bool_decide (s1 = s2) then Ok 0
  else match s1 with
  | A6O_FILE_UNDECIDED => Ok (-1)
  | A6O_FILE_CLEAN => Ok (if one_of s2 [A6O_FILE_UNDECIDED] then 1 else -1)
  | A6O_FILE_IERROR =>
      Ok (if one_of s2 [A6O_FILE_UNDECIDED; A6O_FILE_CLEAN] then 1 else -1)
  | A6O_FILE_SUSPICIOUS =>
      Ok (if one_of s2 [A6O_FILE_UNDECIDED; A6O_FILE_CLEAN; A6O_FILE_IERROR] then 1 else -1)
  | A6O_FILE_WHITE_LISTED =>
      Ok (if one_of s2 [A6O_FILE_UNDECIDED; A6O_FILE_CLEAN; A6O_FILE_IERROR;
                        A6O_FILE_SUSPICIOUS] then 1 else -1)
  | A6O_FILE_MALWARE => Ok 1
  | A6O_FILE_UNKNOWN_TYPE | A6O_FILE_EINVAL => Fault AssertFail
  end.

Definition a6o_file_status_str (s : a6o_file_status) : string :=
  match s with
  | A6O_FILE_UNDECIDED => "A6O_FILE_UNDECIDED"
  | A6O_FILE_CLEAN => "A6O_FILE_CLEAN"
  | A6O_FILE_UNKNOWN_TYPE => "A6O_FILE_UNKNOWN_TYPE"
  | A6O_FILE_EINVAL => "A6O_FILE_EINVAL"
  | A6O_FILE_IERROR => "A6O_FILE_IERROR"
  | A6O_FILE_SUSPICIOUS => "A6O_FILE_SUSPICIOUS"
  | A6O_FILE_WHITE_LISTED => "A6O_FILE_WHITE_LISTED"
  | A6O_FILE_MALWARE => "A6O_FILE_MALWARE"
  end.

Definition a6o_file_status_pretty_str (s : a6o_file_status) : string :=
  match s with
  | A6O_FILE_UNDECIDED => "undecided"
  | A6O_FILE_CLEAN => "clean"
  | A6O_FILE_UNKNOWN_TYPE => "ignored"
  | A6O_FILE_EINVAL => "invalid argument"
  | A6O_FILE_IERROR => "internal error"
  | A6O_FILE_SUSPICIOUS => "suspicious"
  | A6O_FILE_WHITE_LISTED => "white listed"
  | A6O_FILE_MALWARE => "malware"
  end.

(** ** [enum a6o_action] is a bit set *)

Definition A6O_ACTION_NONE : Z := 0.
Definition A6O_ACTION_ALERT : Z := Z.shiftl 1 1.
Definition A6O_ACTION_QUARANTINE : Z := Z.shiftl 1 2.
Definition A6O_ACTION_REMOVE : Z := Z.shiftl 1 3.

Definition a6o_action_pretty_str (action : Z) : string :=
  let a := Z.land action
    (Z.lor (Z.lor A6O_ACTION_ALERT A6O_ACTION_QUARANTINE) A6O_ACTION_REMOVE) in
  if a =? A6O_ACTION_ALERT then "alert"
  else if a =? Z.lor A6O_ACTION_ALERT A6O_ACTION_QUARANTINE then "alert+quarantine"
  else if a =? Z.lor A6O_ACTION_ALERT A6O_ACTION_REMOVE then "alert+removed"
  else "none".

(** ** [struct a6o_report] *)

Record a6o_report := Report {
  r_path : option string;
  r_status : a6o_file_status;
  r_action : Z;
  r_module_name : option string;
  r_module_report : option string;
}.

Definition a6o_report_init (path : option string) : a6o_report :=
  {| r_path := path; r_status := A6O_FILE_UNDECIDED; r_action := A6O_ACTION_NONE;
     r_module_name := None; r_module_report := None |}.

(** [a6o_report_destroy]: the heap strings it frees, in order. *)
Definition a6o_report_destroy (r : a6o_report) : list string :=
  option_list (r_path r) ++ option_list (r_module_report r).

(** The report takes ownership of [module_report]; the second component is the
    string it frees, the previous one. *)
Definition a6o_report_change (r : a6o_report) (status : a6o_file_status)
    (module_name module_report : option string) : a6o_report * list string :=
  ({| r_path := r_path r; r_status := status; r_action := r_action r;
      r_module_name := match module_name with Some n => Some n | None => r_module_name r end;
      r_module_report :=
        match module_report with Some m => Some m | None => r_module_report r end |},
   match module_report with Some _ => option_list (r_module_report r) | None => [] end).

(** ** The comparison is a total order on the comparable statuses *)

(** The order [a6o_file_status_cmp] means to decide; the two statuses without a
    case of their own have no rank. *)
Definition rank (s : a6o_file_status) : option Z :=
  match s with
  | A6O_FILE_UNDECIDED => Some 0
  | A6O_FILE_CLEAN => Some 1
  | A6O_FILE_IERROR => Some 2
  | A6O_FILE_SUSPICIOUS => Some 3
  | A6O_FILE_WHITE_LISTED => Some 4
  | A6O_FILE_MALWARE => Some 5
  | A6O_FILE_UNKNOWN_TYPE | A6O_FILE_EINVAL => None
  end.

Definition comparable (s : a6o_file_status) : Prop := is_Some (rank s).

#[export] Instance comparable_dec s : Decision (comparable s).
Proof. unfold comparable. apply _. Defined.

Definition sgn_of (c : comparison) : Z := match c with Lt => -1 | Eq => 0 | Gt => 1 end.

Lemma cmp_rank s1 s2 r1 r2 :
  rank s1 = Some r1 -> rank s2 = Some r2 ->
  a6o_file_status_cmp s1 s2 = Ok (sgn_of (r1 ?= r2)).
Proof. destruct s1, s2; intros; simplify_eq/=; reflexivity. Qed.

Lemma rank_inj s1 s2 r : rank s1 = Some r -> rank s2 = Some r -> s1 = s2.
Proof. destruct s1, s2; intros; simplify_eq/=; done. Qed.

(** Statuses without a rank abort the comparison on the left, except against
    themselves. *)
Lemma cmp_no_rank s1 s2 :
  rank s1 = None -> s1 <> s2 -> a6o_file_status_cmp s1 s2 = Fault AssertFail.
Proof. intros H Hne. unfold a6o_file_status_cmp. rewrite bool_decide_eq_false_2 by done. by destruct s1. Qed.

Lemma status_str_inj s1 s2 : a6o_file_status_str s1 = a6o_file_status_str s2 -> s1 = s2.
Proof. destruct s1, s2; done. Qed.

(** On the six statuses with a rank, [a6o_file_status_cmp] is a total order:
    it is the comparison of the ranks, hence antisymmetric, transitive and zero
    only on equal statuses.  A status without a rank on the left of a different
    status aborts the process at [assert(1 == 0)]. *)
Theorem status_cmp_total_order (s1 s2 : a6o_file_status) :
  a6o_file_status_cmp s1 s2 =
    match rank s1, rank s2 with
    | Some r1, Some r2 => Ok (sgn_of (r1 ?= r2))
    | Some r1, None => Ok (if bool_decide (s1 = A6O_FILE_MALWARE) then 1 else -1)
    | None, _ => if bool_decide (s1 = s2) then Ok 0 else Fault AssertFail
    end.
Proof. by destruct s1, s2. Qed.
