(* ===== verification/ConfVal.v ===== *)
(** * Configuration values ([src/libmodule/confval.c], [confval.h])

    The tagged union [struct a6o_conf_value]: the tag is the constructor.  A string
    value may be NULL (the copy of a NULL string); the elements of a list are
    strings. *)
From S2P Require Import Prelude.

#[local] Open Scope Z_scope.

Inductive a6o_conf_value_type : Set :=
  | CONF_TYPE_VOID
  | CONF_TYPE_INT
  | CONF_TYPE_STRING
  | CONF_TYPE_LIST.

#[export] Instance a6o_conf_value_type_eq_dec : EqDecision a6o_conf_value_type.
Proof. solve_decision. Defined.

(** The value of the enumerator, one bit per type. *)
Definition a6o_conf_value_type_val (t : a6o_conf_value_type) : Z :=
  match t with
  | CONF_TYPE_VOID => 0
  | CONF_TYPE_INT => Z.shiftl 1 0
  | CONF_TYPE_STRING => Z.shiftl 1 1
  | CONF_TYPE_LIST => Z.shiftl 1 2
  end.

Inductive a6o_conf_value : Set :=
  | CvVoid
  | CvInt (int_v : Z)
  | CvString (str_v : option string)
  | CvList (values : list string).

#[export] Instance a6o_conf_value_eq_dec : EqDecision a6o_conf_value.
Proof. solve_decision. Defined.

Definition a6o_conf_value_get_type (cv : a6o_conf_value) : a6o_conf_value_type :=
  match cv with
  | CvVoid => CONF_TYPE_VOID
  | CvInt _ => CONF_TYPE_INT
  | CvString _ => CONF_TYPE_STRING
  | CvList _ => CONF_TYPE_LIST
  end.

Definition a6o_conf_value_init : a6o_conf_value := CvVoid.

(** [a6o_conf_value_destroy]: the value left behind and the heap strings freed. *)
Definition a6o_conf_value_destroy (cv : a6o_conf_value) : a6o_conf_value * list string :=
  (CvVoid,
   match cv with
   | CvVoid | CvInt _ => []
   | CvString s => option_list s
   | CvList l => l
   end).

Definition a6o_conf_value_set_void : a6o_conf_value := CvVoid.

(** The [unsigned int] argument is stored in an [int]. *)
Definition a6o_conf_value_set_int (val : Z) : a6o_conf_value := CvInt (i32 val).

Definition a6o_conf_value_set_string (val : option string) : a6o_conf_value := CvString val.

(** [val] is read at the indices below [len]. *)
Definition a6o_conf_value_set_list (val : list string) (len : nat) : outcome a6o_conf_value :=
  if (len <=? length val)%nat then Ok (CvList (take len val)) else Fault OutOfBounds.

Definition a6o_conf_value_set (src : a6o_conf_value) : outcome a6o_conf_value :=
  match src with
  | CvVoid => Ok a6o_conf_value_set_void
  | CvInt z => Ok (a6o_conf_value_set_int z)
  | CvString s => Ok (a6o_conf_value_set_string s)
  | CvList l => a6o_conf_value_set_list l (length l)
  end.

(** An [int] field holds an [int]. *)
Definition conf_value_ok (cv : a6o_conf_value) : Prop :=
  match cv with CvInt z => - 2 ^ 31 <= z < 2 ^ 31 | _ => True end.

Lemma set_int_ok val : conf_value_ok (a6o_conf_value_set_int val).
Proof.
  simpl. unfold i32, signed, wrap.
  pose proof (Z.mod_pos_bound val (2 ^ 32) ltac:(lia)). case_match; lia.
Qed.

Lemma set_list_all l : a6o_conf_value_set_list l (length l) = Ok (CvList l).
Proof. unfold a6o_conf_value_set_list. by rewrite Nat.leb_refl, firstn_all. Qed.

(** Copying a value copies it. *)
Lemma conf_value_set_copy cv : conf_value_ok cv -> a6o_conf_value_set cv = Ok cv.
Proof.
  destruct cv as [|z|s|l]; intros H; simpl; try done.
  - unfold a6o_conf_value_set_int. by rewrite i32_small.
  - apply set_list_all.
Qed.
