(* ===== verification/ConfParser.v ===== *)
(** * The configuration file parser ([src/libcore/confparser.c])

    A hand-written scanner (a state machine over the characters of the file) and
    a recursive-descent parser for the grammar given in [conf.h].  The file is the
    list of its bytes; the character classes are those of the C locale.  The
    parser's error exit, [longjmp], is the [false] of [cmd].  Log messages are not
    modelled: they are all of level WARNING. *)
From S2P Require Import Prelude ConfVal.

#[local] Open Scope Z_scope.

(** ** <ctype.h> in the C locale *)

Definition isdigit (c : ascii) : bool := (48 <=? uchar c) && (uchar c <=? 57).
Definition isalpha (c : ascii) : bool :=
  ((65 <=? uchar c) && (uchar c <=? 90)) || ((97 <=? uchar c) && (uchar c <=? 122)).
Definition isalnum (c : ascii) : bool := isalpha c || isdigit c.
Definition isblank (c : ascii) : bool := (uchar c =? 32) || (uchar c =? 9).
Definition isspace (c : ascii) : bool :=
  (uchar c =? 32) || ((9 <=? uchar c) && (uchar c <=? 13)).

(** ** The scanner *)

Record scanner := Scanner {
  s_current_line : Z;
  s_current_column : Z;
  s_previous_column : Z;
  s_input : list ascii;       (** the bytes of the file not read yet *)
  s_token_text : list ascii;
}.

Inductive token_type : Set :=
  | TOKEN_EOF
  | TOKEN_LEFT_BRACE
  | TOKEN_RIGHT_BRACE
  | TOKEN_EQUAL_SIGN
  | TOKEN_COMMA
  | TOKEN_SEMI_COLON
  | TOKEN_NONE
  | TOKEN_STRING
  | TOKEN_INTEGER
  | TOKEN_ERROR.

#[export] Instance token_type_eq_dec : EqDecision token_type.
Proof. solve_decision. Defined.

Definition scanner_new (input : list ascii) : scanner :=
  {| s_current_line := 1; s_current_column := 1; s_previous_column := 1;
     s_input := input; s_token_text := [] |}.

(** The token as the C string [token_text->str]: it ends at the first NUL. *)
Definition scanner_token_text (s : scanner) : string := c_string (s_token_text s).

Definition is_first_identifier (c : ascii) : bool := isalpha c || (c =? "_")%char.

Definition is_identifier (c : ascii) : bool :=
  isalnum c || (c =? "-")%char || (c =? "_")%char.

Definition newline : ascii := "010"%char.
Definition dquote : ascii := "034"%char.

Definition scanner_getc (s : scanner) : option ascii * scanner :=
  let step (c : option ascii) (rest : list ascii) :=
    if bool_decide (c = Some newline) then
      {| s_current_line := s_current_line s + 1; s_current_column := 1;
         s_previous_column := s_current_column s; s_input := rest;
         s_token_text := s_token_text s |}
    else
      {| s_current_line := s_current_line s; s_current_column := s_current_column s + 1;
         s_previous_column := s_previous_column s; s_input := rest;
         s_token_text := s_token_text s |}
  in match s_input s with
     | [] => (None, step None [])
     | c :: rest => (Some c, step (Some c) rest)
     end.

Definition scanner_ungetc (s : scanner) (c : ascii) : scanner :=
  if (c =? newline)%char then
    {| s_current_line := s_current_line s - 1; s_current_column := s_previous_column s;
       s_previous_column := s_previous_column s; s_input := c :: s_input s;
       s_token_text := s_token_text s |}
  else
    {| s_current_line := s_current_line s; s_current_column := s_current_column s - 1;
       s_previous_column := s_previous_column s; s_input := c :: s_input s;
       s_token_text := s_token_text s |}.

Definition with_text (s : scanner) (t : list ascii) : scanner :=
  {| s_current_line := s_current_line s; s_current_column := s_current_column s;
     s_previous_column := s_previous_column s; s_input := s_input s; s_token_text := t |}.

(** [g_string_append_c(s->token_text, c)] *)
Definition append_c (s : scanner) (c : ascii) : scanner := with_text s (s_token_text s ++ [c]).

Inductive scan_state := S_INITIAL | S_SPACE | S_COMMENT | S_IDENTIFIER | S_INTEGER | S_STRING.

(** [return c;] for the characters that are tokens of their own. *)
Definition char_token (c : ascii) : option token_type :=
  if (c =? "[")%char then Some TOKEN_LEFT_BRACE
  else if (c =? "]")%char then Some TOKEN_RIGHT_BRACE
  else if (c =? "=")%char then Some TOKEN_EQUAL_SIGN
  else if (c =? ",")%char then Some TOKEN_COMMA
  else if (c =? ";")%char then Some TOKEN_SEMI_COLON
  else None.

(** The [while (1)] loop of [scanner_get_next_token]. *)
Fixpoint scan_loop (fuel : nat) (s : scanner) (state : scan_state) (previous : token_type)
    : outcome (token_type * scanner) :=
  match fuel with
  | O => Fault Diverges
  | S fuel =>
      let (c, s) := scanner_getc s in
      match c with
      | None => Ok (TOKEN_EOF, s)
      | Some c =>
          match state with
          | S_INITIAL =>
              if isblank c then scan_loop fuel s S_SPACE previous
              else if (c =? "#")%char then scan_loop fuel s S_COMMENT previous
              else if (c =? dquote)%char then scan_loop fuel s S_STRING previous
              else if is_first_identifier c then scan_loop fuel (append_c s c) S_IDENTIFIER previous
              else if isdigit c then scan_loop fuel (append_c s c) S_INTEGER previous
              else if bool_decide (previous = TOKEN_EQUAL_SIGN) then
                Ok (if (c =? newline)%char then TOKEN_NONE else TOKEN_ERROR, scanner_ungetc s c)
              else match char_token c with
                   | Some t => Ok (t, append_c s c)
                   | None => scan_loop fuel s S_INITIAL previous
                   end
          | S_SPACE =>
              if isspace c then scan_loop fuel s S_SPACE previous
              else scan_loop fuel (scanner_ungetc s c) S_INITIAL previous
          | S_COMMENT =>
              scan_loop fuel s (if (c =? newline)%char then S_INITIAL else S_COMMENT) previous
          | S_STRING =>
              if (c =? dquote)%char then Ok (TOKEN_STRING, s)
              else scan_loop fuel (append_c s c) S_STRING previous
          | S_IDENTIFIER =>
              if is_identifier c then scan_loop fuel (append_c s c) S_IDENTIFIER previous
              else Ok (TOKEN_STRING, scanner_ungetc s c)
          | S_INTEGER =>
              if isdigit c then scan_loop fuel (append_c s c) S_INTEGER previous
              else Ok (TOKEN_INTEGER, scanner_ungetc s c)
          end
      end
  end.

(** Every character is read at most twice: once more after the [ungetc] that
    leaves [S_SPACE]. *)
Definition scan_fuel (s : scanner) : nat := 2 * length (s_input s) + 2.

Definition scanner_get_next_token (s : scanner) (previous : token_type)
    : outcome (token_type * scanner) :=
  scan_loop (scan_fuel s) (with_text s []) S_INITIAL previous.

(** [atoi] on a token of digits: [strtol] saturates at [LONG_MAX], and the result
    is converted to [int]. *)
Fixpoint digits_val (l : list ascii) (acc : Z) : Z :=
  match l with
  | [] => acc
  | c :: l => if isdigit c then digits_val l (10 * acc + (uchar c - 48)) else acc
  end.

Definition LONG_MAX : Z := 2 ^ 63 - 1.

Definition atoi (s : string) : Z := i32 (Z.min (digits_val (bytes s) 0) LONG_MAX).

(** ** The parser *)

Section parser.
Context {U : Type}.
(** The callback given to [a6o_conf_parser_new], and what it does to [user_data]. *)
Variable callback : string -> string -> a6o_conf_value -> U -> outcome (Z * U).

Record a6o_conf_parser := Parser {
  cp_scanner : scanner;
  cp_lookahead_token : token_type;
  cp_current_section : option string;
  cp_current_key : option string;
  cp_current_value_type : a6o_conf_value_type;
  cp_current_value_int : Z;
  cp_current_value_string : option string;
  cp_current_value_list : list string;
  cp_user_data : U;
}.

Definition cp_token_text (cp : a6o_conf_parser) : string := scanner_token_text (cp_scanner cp).

(** A parser function: the boolean is [false] when it left by [longjmp]. *)
Definition cmd : Type := a6o_conf_parser -> outcome (a6o_conf_parser * bool).

Definition seq (c1 c2 : cmd) : cmd := fun cp =>
  r ← c1 cp;
  let '(cp, go) := r in
  if (go : bool) then c2 cp else Ok (cp, false).

Definition skip : cmd := fun cp => Ok (cp, true).
Definition longjmp : cmd := fun cp => Ok (cp, false).

Definition set_token (cp : a6o_conf_parser) (s : scanner) (t : token_type) : a6o_conf_parser :=
  {| cp_scanner := s; cp_lookahead_token := t; cp_current_section := cp_current_section cp;
     cp_current_key := cp_current_key cp; cp_current_value_type := cp_current_value_type cp;
     cp_current_value_int := cp_current_value_int cp;
     cp_current_value_string := cp_current_value_string cp;
     cp_current_value_list := cp_current_value_list cp; cp_user_data := cp_user_data cp |}.

Definition set_value (cp : a6o_conf_parser) (ty : a6o_conf_value_type) (i : Z)
    (str : option string) (lst : list string) : a6o_conf_parser :=
  {| cp_scanner := cp_scanner cp; cp_lookahead_token := cp_lookahead_token cp;
     cp_current_section := cp_current_section cp; cp_current_key := cp_current_key cp;
     cp_current_value_type := ty; cp_current_value_int := i;
     cp_current_value_string := str; cp_current_value_list := lst;
     cp_user_data := cp_user_data cp |}.

Definition set_section (cp : a6o_conf_parser) (s : option string) : a6o_conf_parser :=
  {| cp_scanner := cp_scanner cp; cp_lookahead_token := cp_lookahead_token cp;
     cp_current_section := s; cp_current_key := cp_current_key cp;
     cp_current_value_type := cp_current_value_type cp;
     cp_current_value_int := cp_current_value_int cp;
     cp_current_value_string := cp_current_value_string cp;
     cp_current_value_list := cp_current_value_list cp; cp_user_data := cp_user_data cp |}.

Definition set_key (cp : a6o_conf_parser) (k : option string) : a6o_conf_parser :=
  {| cp_scanner := cp_scanner cp; cp_lookahead_token := cp_lookahead_token cp;
     cp_current_section := cp_current_section cp; cp_current_key := k;
     cp_current_value_type := cp_current_value_type cp;
     cp_current_value_int := cp_current_value_int cp;
     cp_current_value_string := cp_current_value_string cp;
     cp_current_value_list := cp_current_value_list cp; cp_user_data := cp_user_data cp |}.

Definition set_user (cp : a6o_conf_parser) (u : U) : a6o_conf_parser :=
  {| cp_scanner := cp_scanner cp; cp_lookahead_token := cp_lookahead_token cp;
     cp_current_section := cp_current_section cp; cp_current_key := cp_current_key cp;
     cp_current_value_type := cp_current_value_type cp;
     cp_current_value_int := cp_current_value_int cp;
     cp_current_value_string := cp_current_value_string cp;
     cp_current_value_list := cp_current_value_list cp; cp_user_data := u |}.

(** [syntax_error] logs, then jumps. *)
Definition syntax_error : cmd := longjmp.

Definition token_accept (token : token_type) : cmd := fun cp =>
  if bool_decide (cp_lookahead_token cp = token) then
    if bool_decide (cp_lookahead_token cp <> TOKEN_EOF) then
      r ← scanner_get_next_token (cp_scanner cp) token;
      Ok (set_token cp r.2 r.1, true)
    else Ok (cp, true)
  else syntax_error cp.

Definition deref (s : option string) : outcome string :=
  match s with Some s => Ok s | None => Fault NullDeref end.

Definition call_callback : cmd := fun cp =>
  match cp_current_value_type cp with
  | CONF_TYPE_VOID => Ok (set_value cp CONF_TYPE_VOID (cp_current_value_int cp)
                            (cp_current_value_string cp) (cp_current_value_list cp), true)
  | ty =>
      sec ← deref (cp_current_section cp);
      key ← deref (cp_current_key cp);
      let value := match ty with
                   | CONF_TYPE_INT => CvInt (cp_current_value_int cp)
                   | CONF_TYPE_STRING => CvString (cp_current_value_string cp)
                   | _ => CvList (cp_current_value_list cp)
                   end in
      r ← callback sec key value (cp_user_data cp);
      let str := match ty with CONF_TYPE_STRING => None | _ => cp_current_value_string cp end in
      let lst := match ty with CONF_TYPE_LIST => [] | _ => cp_current_value_list cp end in
      Ok (set_value (set_user cp r.2) CONF_TYPE_VOID (cp_current_value_int cp) str lst,
          r.1 =? 0)
  end.

Definition r_section_name : cmd := fun cp =>
  token_accept TOKEN_STRING (set_section cp (Some (cp_token_text cp))).

Definition r_key : cmd := fun cp =>
  token_accept TOKEN_STRING (set_key cp (Some (cp_token_text cp))).

Definition r_int_value : cmd := fun cp =>
  token_accept TOKEN_INTEGER
    (set_value cp CONF_TYPE_INT (atoi (cp_token_text cp))
       (cp_current_value_string cp) (cp_current_value_list cp)).

Definition r_string_value : cmd := fun cp =>
  token_accept TOKEN_STRING
    (set_value cp CONF_TYPE_STRING (cp_current_value_int cp)
       (Some (cp_token_text cp)) (cp_current_value_list cp)).

(** The first string of a list was stored as a string value; it is moved to the
    list when the second one is met. *)
Definition r_list_string_value : cmd := fun cp =>
  let cp1 :=
    match cp_current_value_string cp with
    | Some s => set_value cp CONF_TYPE_LIST (cp_current_value_int cp) None
                  (cp_current_value_list cp ++ [s])
    | None => cp
    end in
  token_accept TOKEN_STRING
    (set_value cp1 (cp_current_value_type cp1) (cp_current_value_int cp1)
       (cp_current_value_string cp1) (cp_current_value_list cp1 ++ [cp_token_text cp])).

Definition r_list_sep : cmd := fun cp =>
  if bool_decide (cp_lookahead_token cp = TOKEN_COMMA) then token_accept TOKEN_COMMA cp
  else token_accept TOKEN_SEMI_COLON cp.

Fixpoint r_opt_string_list (fuel : nat) : cmd := fun cp =>
  match fuel with
  | O => Fault Diverges
  | S fuel =>
      if bool_decide (cp_lookahead_token cp = TOKEN_COMMA \/
                      cp_lookahead_token cp = TOKEN_SEMI_COLON)
      then seq r_list_sep (seq r_list_string_value (r_opt_string_list fuel)) cp
      else skip cp
  end.

Definition r_value (fuel : nat) : cmd := fun cp =>
  match cp_lookahead_token cp with
  | TOKEN_INTEGER => r_int_value cp
  | TOKEN_STRING => seq r_string_value (r_opt_string_list fuel) cp
  | _ => longjmp cp
  end.

Definition r_definition (fuel : nat) : cmd :=
  seq r_key (seq (token_accept TOKEN_EQUAL_SIGN) (seq (r_value fuel) call_callback)).

Fixpoint r_definition_list (fuel : nat) : cmd := fun cp =>
  match fuel with
  | O => Fault Diverges
  | S fuel =>
      if bool_decide (cp_lookahead_token cp = TOKEN_STRING)
      then seq (r_definition fuel) (r_definition_list fuel) cp
      else skip cp
  end.

Definition r_section (fuel : nat) : cmd :=
  seq (token_accept TOKEN_LEFT_BRACE)
    (seq r_section_name (seq (token_accept TOKEN_RIGHT_BRACE) (r_definition_list fuel))).

Fixpoint r_section_list (fuel : nat) : cmd := fun cp =>
  match fuel with
  | O => Fault Diverges
  | S fuel =>
      if bool_decide (cp_lookahead_token cp = TOKEN_LEFT_BRACE)
      then seq (r_section fuel) (r_section_list fuel) cp
      else skip cp
  end.

Definition r_configuration (fuel : nat) : cmd := r_section_list fuel.

(** [a6o_conf_parser_new] on a file that could be opened. *)
Definition a6o_conf_parser_new (input : list ascii) (user_data : U) : a6o_conf_parser :=
  {| cp_scanner := scanner_new input; cp_lookahead_token := TOKEN_EOF;
     cp_current_section := None; cp_current_key := None;
     cp_current_value_type := CONF_TYPE_VOID; cp_current_value_int := 0;
     cp_current_value_string := None; cp_current_value_list := [];
     cp_user_data := user_data |}.

(** Recursive calls consume a token; two tokens at most are read without consuming
    a character in between. *)
Definition parse_fuel (input : list ascii) : nat := 2 * length input + 2.

(** [a6o_conf_parser_parse]: [file] is [None] when the file could not be opened. *)
Definition a6o_conf_parser_parse (file : option (list ascii)) (user_data : U)
    : outcome (Z * U) :=
  match file with
  | None => Ok (-1, user_data)
  | Some input =>
      let cp := a6o_conf_parser_new input user_data in
      r ← scanner_get_next_token (cp_scanner cp) TOKEN_NONE;
      let cp := set_token cp r.2 r.1 in
      q ← seq (r_configuration (parse_fuel input)) (token_accept TOKEN_EOF) cp;
      let '(cp, done) := (q : a6o_conf_parser * bool) in
      Ok (if done then 0 else -2, cp_user_data cp)
  end.

End parser.
Arguments a6o_conf_parser : clear implicits.
Arguments cmd : clear implicits.
