(* ===== verification/ConfParserTheory.v ===== *)
(** * The configuration parser accepts the grammar of [conf.h]

    [yields] is the token stream the scanner produces from a point of the file;
    [doc] is the abstract syntax of the grammar and [doc_tokens] its words.  The
    parser is sound and complete for it, and always terminates. *)
From S2P Require Import Prelude ConfVal ConfParser.

#[local] Open Scope Z_scope.

(** ** The scanner terminates and makes progress *)

Definition input_length (s : scanner) : nat := length (s_input s).

Lemma getc_cases s :
  (s_input s = [] /\ exists s', scanner_getc s = (None, s') /\ s_input s' = [] /\
     s_token_text s' = s_token_text s) \/
  exists c rest s', s_input s = c :: rest /\ scanner_getc s = (Some c, s') /\
    s_input s' = rest /\ s_token_text s' = s_token_text s.
Proof.
  unfold scanner_getc. destruct (s_input s) as [|c rest] eqn:E.
  - left. split; [done|]. eexists. split; [reflexivity|]. by case_bool_decide.
  - right. exists c, rest. eexists. split; [done|]. split; [reflexivity|].
    by case_bool_decide.
Qed.

Lemma ungetc_input s c :
  s_input (scanner_ungetc s c) = c :: s_input s /\
  s_token_text (scanner_ungetc s c) = s_token_text s.
Proof. unfold scanner_ungetc. by case_match. Qed.

Definition scan_measure (s : scanner) (st : scan_state) : nat :=
  2 * input_length s + match st with S_SPACE => 2 | _ => 1 end.

(** Tokens that take at least one character out of the file. *)
Definition solid (t : token_type) : Prop :=
  t <> TOKEN_EOF /\ t <> TOKEN_NONE /\ t <> TOKEN_ERROR.

Lemma char_token_solid c t : char_token c = Some t -> solid t.
Proof. unfold char_token, solid. repeat case_match; intros; simplify_eq; done. Qed.

Definition scan_post (s : scanner) (st : scan_state) (prev t : token_type) (s' : scanner) : Prop :=
  (input_length s' <= input_length s)%nat /\
  match st with
  | S_INITIAL | S_SPACE | S_COMMENT => solid t -> (input_length s' < input_length s)%nat
  | _ => True
  end /\
  (~ solid t -> t = TOKEN_EOF \/ prev = TOKEN_EQUAL_SIGN).

Lemma scan_loop_spec fuel s st prev :
  (scan_measure s st <= fuel)%nat ->
  exists t s', scan_loop fuel s st prev = Ok (t, s') /\ scan_post s st prev t s'.
Proof.
  revert s st. induction fuel as [|fuel IH]; intros s st Hf.
  { unfold scan_measure in Hf. destruct st; lia. }
  simpl. destruct (getc_cases s) as [(Hnil & s' & -> & Hs' & _)|(c & rest & s' & Hin & -> & Hs' & _)].
  { exists TOKEN_EOF, s'. split; [done|]. unfold scan_post, input_length. rewrite Hs'.
    split; [simpl; lia|]. split; [|by left]. destruct st; try done; by intros []. }
  assert (input_length s = S (input_length s')) as Hlen
    by (unfold input_length; by rewrite Hin, Hs').
  assert (forall st2 s2, (input_length s2 = input_length s')%nat -> st2 <> S_SPACE ->
    exists t s'', scan_loop fuel s2 st2 prev = Ok (t, s'') /\ scan_post s st prev t s'') as Hgo.
  { intros st2 s2 Hl Hne. destruct (IH s2 st2) as (t & s'' & -> & H1 & H2 & H3).
    { unfold scan_measure in *. destruct st2, st; try done; lia. }
    exists t, s''. split; [done|]. split; [lia|]. split; [|done].
    destruct st; intros; try done; lia. }
  assert (exists t s'', scan_loop fuel s' S_SPACE prev = Ok (t, s'') /\ scan_post s st prev t s'')
    as Hspace.
  { destruct (IH s' S_SPACE) as (t & s'' & -> & H1 & H2 & H3).
    { unfold scan_measure in *. destruct st; lia. }
    exists t, s''. split; [done|]. split; [lia|]. split; [|done].
    destruct st; intros; try done; lia. }
  pose proof (ungetc_input s' c) as [Hu _].
  assert (input_length (scanner_ungetc s' c) = input_length s) as Hul
    by (unfold input_length in *; rewrite Hu; simpl; lia).
  assert (forall t s'', (input_length s'' <= input_length s)%nat -> solid t ->
     match st with S_INITIAL | S_SPACE | S_COMMENT => (input_length s'' < input_length s)%nat | _ => True end ->
     scan_post s st prev t s'') as Hdone.
  { intros t s'' Hle Hsol Hst. split; [done|]. split; [by destruct st|done]. }
  destruct st.
  - repeat case_match; try exact Hspace; try (by apply Hgo).
    + eexists _, _. split; [reflexivity|]. apply bool_decide_eq_true in H4.
      split; [lia|]. split; [intros [_ []]; done|by right].
    + eexists _, _. split; [reflexivity|]. apply bool_decide_eq_true in H4.
      split; [lia|]. split; [intros (_ & _ & []); done|by right].
    + eexists _, _. split; [reflexivity|]. apply Hdone.
      * unfold input_length, append_c in *; simpl in *; lia.
      * by eapply char_token_solid.
      * unfold input_length, append_c in *; simpl in *; lia.
  - case_match; [done|]. destruct (IH (scanner_ungetc s' c) S_INITIAL) as (t & s'' & -> & H1 & H2 & H3).
    { unfold scan_measure in *. lia. }
    exists t, s''. split; [done|]. split; [lia|]. split; [|done]. intros; lia || (specialize (H2 ltac:(done)); lia).
  - by apply Hgo; [|case_match].
  - case_match; [by apply Hgo|]. eexists _, _. split; [reflexivity|]. apply Hdone; [lia|by repeat split|done].
  - case_match; [by apply Hgo|]. eexists _, _. split; [reflexivity|]. apply Hdone; [lia|by repeat split|done].
  - case_match; [|by apply Hgo]. eexists _, _. split; [reflexivity|]. apply Hdone; [lia|by repeat split|done].
Qed.

Lemma next_token_spec s prev :
  exists t s', scanner_get_next_token s prev = Ok (t, s') /\
    (input_length s' <= input_length s)%nat /\
    (solid t -> (input_length s' < input_length s)%nat) /\
    (~ solid t -> t = TOKEN_EOF \/ prev = TOKEN_EQUAL_SIGN).
Proof.
  unfold scanner_get_next_token.
  destruct (scan_loop_spec (scan_fuel s) (with_text s []) S_INITIAL prev) as (t & s' & -> & H).
  { unfold scan_measure, scan_fuel, input_length. simpl. lia. }
  exists t, s'. split; [done|]. exact H.
Qed.

(** ** Token streams *)

Definition tok : Type := token_type * string.

(** The text matters for strings and integers only. *)
Definition tok_of (t : token_type) (s : scanner) : tok :=
  (t, match t with TOKEN_STRING | TOKEN_INTEGER => scanner_token_text s | _ => "" end).

Definition tok_eof : tok := (TOKEN_EOF, "").

Inductive yields : token_type -> scanner -> list tok -> Prop :=
  | yields_eof prev s s' :
      scanner_get_next_token s prev = Ok (TOKEN_EOF, s') -> yields prev s [tok_eof]
  | yields_tok prev s t s' l :
      scanner_get_next_token s prev = Ok (t, s') -> t <> TOKEN_EOF -> yields t s' l ->
      yields prev s (tok_of t s' :: l).

Lemma yields_det prev s l1 l2 : yields prev s l1 -> yields prev s l2 -> l1 = l2.
Proof.
  intros H1. revert l2. induction H1 as [prev s s1 E1|prev s t1 s1 l1 E1 Hne1 _ IH];
    intros l2 H2; inversion H2 as [? ? s2 E2|? ? t2 s2 l2' E2 Hne2 Hy2]; subst;
    rewrite E1 in E2; simplify_eq; try done.
  f_equal. auto.
Qed.

#[local] Instance solid_dec t : Decision (solid t).
Proof. unfold solid. apply _. Defined.

Lemma yields_total n prev s :
  (2 * input_length s + match prev with TOKEN_EQUAL_SIGN => 1 | _ => 0 end < n)%nat ->
  exists l, yields prev s l /\ (length l <= n)%nat.
Proof.
  revert prev s. induction n as [|n IH]; intros prev s Hn; [lia|].
  destruct (next_token_spec s prev) as (t & s' & E & Hle & Hlt & Hsol).
  destruct (decide (t = TOKEN_EOF)) as [->|Hne].
  { eexists. split; [by eapply yields_eof|]. simpl. lia. }
  destruct (IH t s') as (l & Hl & Hlen).
  { destruct (decide (solid t)) as [Hs|Hs].
    - specialize (Hlt Hs). destruct t; lia.
    - destruct (Hsol Hs) as [| ->]; [done|].
      assert (t <> TOKEN_EQUAL_SIGN) by (intros ->; by apply Hs). destruct t; try done; lia. }
  exists (tok_of t s' :: l). split; [by eapply yields_tok|]. simpl. lia.
Qed.

(** ** Abstract syntax and words of the grammar of [conf.h] *)

Inductive value_syntax :=
  | VInt (text : string)
  | VStr (first : string) (more : list (bool * string)).   (** [true] for the separator [','] *)

Definition doc : Type := list (string * list (string * value_syntax)).

Definition sep_token (comma : bool) : token_type := if comma then TOKEN_COMMA else TOKEN_SEMI_COLON.

Definition more_tokens (more : list (bool * string)) : list tok :=
  flat_map (fun '(b, x) => [(sep_token b, ""); (TOKEN_STRING, x)]) more.

Definition value_tokens (v : value_syntax) : list tok :=
  match v with
  | VInt n => [(TOKEN_INTEGER, n)]
  | VStr s more => (TOKEN_STRING, s) :: more_tokens more
  end.

Definition definition_tokens (d : string * value_syntax) : list tok :=
  (TOKEN_STRING, d.1) :: (TOKEN_EQUAL_SIGN, "") :: value_tokens d.2.

Definition section_tokens (s : string * list (string * value_syntax)) : list tok :=
  [(TOKEN_LEFT_BRACE, ""); (TOKEN_STRING, s.1); (TOKEN_RIGHT_BRACE, "")] ++
  flat_map definition_tokens s.2.

Definition doc_tokens (d : doc) : list tok := flat_map section_tokens d ++ [tok_eof].

Definition denote (v : value_syntax) : a6o_conf_value :=
  match v with
  | VInt n => CvInt (atoi n)
  | VStr s [] => CvString (Some s)
  | VStr s more => CvList (s :: more.*2)
  end.

(** What the parser must do with a document: call the callback on every
    definition in order, until one call returns a value other than zero. *)
Section meaning.
Context {U : Type} (callback : string -> string -> a6o_conf_value -> U -> outcome (Z * U)).

Fixpoint run_defs (sec : string) (defs : list (string * value_syntax)) (u : U) : outcome (U * bool) :=
  match defs with
  | [] => Ok (u, true)
  | (k, v) :: defs =>
      r ← callback sec k (denote v) u;
      if r.1 =? 0 then run_defs sec defs r.2 else Ok (r.2, false)
  end.

Fixpoint run_doc (d : doc) (u : U) : outcome (U * bool) :=
  match d with
  | [] => Ok (u, true)
  | (sec, defs) :: d =>
      r ← run_defs sec defs u;
      if (r.2 : bool) then run_doc d r.1 else Ok r
  end.
End meaning.

(** ** Parser functions against token streams *)

(** The tokens still to be parsed: the lookahead, then those of the scanner. *)
Inductive pending (s : scanner) : token_type -> list tok -> Prop :=
  | pending_eof : pending s TOKEN_EOF [tok_eof]
  | pending_tok t l : t <> TOKEN_EOF -> yields t s l -> pending s t (tok_of t s :: l).

Lemma yields_pending prev s t s' l :
  scanner_get_next_token s prev = Ok (t, s') -> yields prev s l -> pending s' t l.
Proof.
  intros E Hy. inversion Hy as [? ? s2 E2|? ? t2 s2 l2 E2 Hne Hy2]; subst;
    rewrite E in E2; simplify_eq; by constructor.
Qed.

Lemma pending_fst s t l : pending s t l -> exists l', l = tok_of t s :: l'.
Proof. destruct 1; by eexists. Qed.

Lemma pending_cons s t t' x l :
  pending s t ((t', x) :: l) -> t' = t /\ (t <> TOKEN_EOF -> yields t s l).
Proof. inversion 1; simplify_eq/=; done. Qed.

Lemma yields_nonempty prev s l : yields prev s l -> (0 < length l)%nat.
Proof. destruct 1; simpl; lia. Qed.

Section parser.
Context {U : Type} (callback : string -> string -> a6o_conf_value -> U -> outcome (Z * U)).
(** What the callback maintains of [user_data]. *)
Context (Inv : U -> Prop).
Hypothesis callback_inv : forall sec key v u r u',
  Inv u -> callback sec key v u = Ok (r, u') -> Inv u'.
Implicit Types (cp : a6o_conf_parser U) (c : cmd U).

Definition at_tokens cp (l : list tok) : Prop :=
  pending (cp_scanner cp) (cp_lookahead_token cp) l.

Definition callback_faults (f : fault) : Prop :=
  exists sec key v u, callback sec key v u = Fault f.

(** A run either ends normally in [Q], jumps, or stops at a fault of the callback;
    it keeps the invariant of the user data in the first two cases. *)
Definition run_spec (r : outcome (a6o_conf_parser U * bool)) (Q : a6o_conf_parser U -> Prop) : Prop :=
  match r with
  | Ok (cp', go) => Inv (cp_user_data cp') /\ (go = true -> Q cp')
  | Fault f => callback_faults f
  end.

Lemma run_seq c1 c2 cp (Q1 Q2 : a6o_conf_parser U -> Prop) :
  run_spec (c1 cp) Q1 ->
  (forall cp', Inv (cp_user_data cp') -> Q1 cp' -> run_spec (c2 cp') Q2) ->
  run_spec (seq c1 c2 cp) Q2.
Proof.
  unfold run_spec, seq. intros H1 H2. destruct (c1 cp) as [[cp' []]|f]; simpl; [|by destruct H1|done].
  destruct H1 as [Hi Hq]. apply H2; auto.
Qed.

Lemma run_conseq r (Q1 Q2 : a6o_conf_parser U -> Prop) :
  run_spec r Q1 -> (forall cp', Q1 cp' -> Q2 cp') -> run_spec r Q2.
Proof. unfold run_spec. destruct r as [[]|]; [|done]. intros [? H1] H2. auto. Qed.

(** Accepting the token in front moves to the next one and touches nothing else. *)
Lemma token_accept_ok token cp x l :
  at_tokens cp ((token, x) :: l) -> token <> TOKEN_EOF ->
  exists s t, token_accept token cp = Ok (set_token cp s t, true) /\
    at_tokens (set_token cp s t) l /\ (0 < length l)%nat.
Proof.
  unfold at_tokens. intros [-> Hy]%pending_cons Hne. specialize (Hy Hne).
  unfold token_accept. rewrite !bool_decide_eq_true_2 by done.
  destruct (next_token_spec (cp_scanner cp) (cp_lookahead_token cp)) as (t2 & s2 & E & _).
  rewrite E. simpl. exists s2, t2. split; [done|]. split; [by eapply yields_pending|].
  by eapply yields_nonempty.
Qed.

Lemma token_accept_spec token cp l :
  at_tokens cp l -> Inv (cp_user_data cp) -> token <> TOKEN_EOF ->
  run_spec (token_accept token cp) (fun cp' => exists x l', l = (token, x) :: l' /\
    (x = match token with TOKEN_STRING | TOKEN_INTEGER => cp_token_text cp | _ => "" end) /\
    exists s t, cp' = set_token cp s t /\ at_tokens cp' l').
Proof.
  intros Hp Hi Hne. destruct (decide (cp_lookahead_token cp = token)) as [E|E].
  - destruct (pending_fst _ _ _ Hp) as [l' ->]. rewrite E in *.
    destruct (token_accept_ok token cp _ l' Hp Hne) as (s & t & -> & Hp' & _).
    split; [done|]. intros _. eexists _, l'. split; [reflexivity|]. split; [done|]. by exists s, t.
  - unfold token_accept. rewrite bool_decide_eq_false_2 by done. by split.
Qed.

(** No value is being collected. *)
Definition clean cp : Prop :=
  cp_current_value_string cp = None /\ cp_current_value_list cp = [].

Definition is_sep (t : token_type) : Prop := t = TOKEN_COMMA \/ t = TOKEN_SEMI_COLON.

(** The kind of the next token. *)
Definition kind_of (l : list tok) : token_type :=
  match l with [] => TOKEN_EOF | (t, _) :: _ => t end.

(** The collected value after [more] list elements. *)
Definition collect cp (more : list (bool * string)) : a6o_conf_parser U :=
  match more with
  | [] => cp
  | _ =>
      set_value cp
        (match cp_current_value_string cp with Some _ => CONF_TYPE_LIST | None => cp_current_value_type cp end)
        (cp_current_value_int cp) None
        (cp_current_value_list cp ++ option_list (cp_current_value_string cp) ++ more.*2)
  end.

Lemma collect_cons cp b x more s t :
  collect (set_token (collect cp [(b, x)]) s t) more = set_token (collect cp ((b, x) :: more)) s t.
Proof.
  destruct cp as [? ? ? ? ? ? str ? ?], str, more as [|[b' x'] more]; simpl; try done;
  unfold set_token, set_value; simpl; f_equal; by rewrite <- ?app_assoc.
Qed.

Lemma list_string_value_eq cp b :
  r_list_string_value cp = token_accept TOKEN_STRING (collect cp [(b, cp_token_text cp)]).
Proof.
  unfold r_list_string_value. f_equal. destruct cp as [? ? ? ? ? ? [str|] ? ?]; simpl; [|done].
  unfold set_value; simpl. by rewrite <- app_assoc.
Qed.

Lemma r_list_sep_spec cp l :
  at_tokens cp l -> Inv (cp_user_data cp) ->
  run_spec (r_list_sep cp) (fun cp' => exists b l', l = (sep_token b, "") :: l' /\
    exists s t, cp' = set_token cp s t /\ at_tokens cp' l').
Proof.
  intros Hp Hi. unfold r_list_sep. case_bool_decide as E.
  - eapply run_conseq; [by apply token_accept_spec|]. intros cp' (x & l' & -> & -> & H). by exists true, l'.
  - eapply run_conseq; [by apply token_accept_spec|]. intros cp' (x & l' & -> & -> & H). by exists false, l'.
Qed.

Lemma r_opt_string_list_spec fuel cp l :
  at_tokens cp l -> Inv (cp_user_data cp) -> (length l < fuel)%nat ->
  run_spec (r_opt_string_list fuel cp) (fun cp' => exists more l', l = more_tokens more ++ l' /\
    exists s t, cp' = set_token (collect cp more) s t /\ at_tokens cp' l').
Proof.
  revert cp l. induction fuel as [|fuel IH]; intros cp l Hp Hi Hf; [lia|]. simpl.
  case_bool_decide as Hsep.
  - eapply run_seq; [by apply r_list_sep_spec|].
    intros cp1 Hi1 (b & l1 & -> & s1 & t1 & -> & Hp1). simpl in Hf.
    eapply run_seq; [rewrite (list_string_value_eq _ b); by apply token_accept_spec; [..|done]|].
    intros cp2 Hi2 (x & l2 & -> & -> & s2 & t2 & -> & Hp2). simpl in Hf.
    eapply run_conseq; [apply IH; [done|done|lia]|].
    intros cp3 (more & l3 & -> & s3 & t3 & -> & Hp3).
    exists ((b, cp_token_text (set_token cp s1 t1)) :: more), l3. split; [done|].
    exists s3, t3. split; [|done].
    rewrite collect_cons. by destruct cp as [? ? ? ? ? ? [] ? ?].
  - split; [done|]. intros _. exists [], l. split; [done|].
    exists (cp_scanner cp), (cp_lookahead_token cp). split; [by destruct cp|done].
Qed.

(** The parser state once the value [v] has been collected. *)
Definition vset cp (v : value_syntax) : a6o_conf_parser U :=
  match v with
  | VInt n => set_value cp CONF_TYPE_INT (atoi n) (cp_current_value_string cp) (cp_current_value_list cp)
  | VStr s more =>
      collect (set_value cp CONF_TYPE_STRING (cp_current_value_int cp) (Some s)
                 (cp_current_value_list cp)) more
  end.

Lemma collect_token cp s t more : collect (set_token cp s t) more = set_token (collect cp more) s t.
Proof. by destruct more. Qed.

Lemma set_token_twice cp s t s' t' : set_token (set_token cp s t) s' t' = set_token cp s' t'.
Proof. done. Qed.

Lemma r_value_spec fuel cp l :
  at_tokens cp l -> Inv (cp_user_data cp) -> (length l <= fuel)%nat ->
  run_spec (r_value fuel cp) (fun cp' => exists v l', l = value_tokens v ++ l' /\
    exists s t, cp' = set_token (vset cp v) s t /\ at_tokens cp' l').
Proof.
  intros Hp Hi Hf. unfold r_value. destruct (cp_lookahead_token cp) eqn:E; try by split.
  - eapply run_seq.
    { unfold r_string_value. by apply token_accept_spec. }
    intros cp1 Hi1 (x & l1 & -> & -> & s1 & t1 & -> & Hp1). simpl in Hf.
    eapply run_conseq; [apply r_opt_string_list_spec; [done|done|lia]|].
    intros cp2 (more & l2 & -> & s2 & t2 & -> & Hp2).
    exists (VStr (cp_token_text cp) more), l2. split; [done|]. exists s2, t2. split; [|done].
    by rewrite collect_token.
  - unfold r_int_value. eapply run_conseq; [by apply token_accept_spec|].
    intros cp1 (x & l1 & -> & -> & s1 & t1 & -> & Hp1).
    exists (VInt (cp_token_text cp)), l1. split; [done|]. by exists s1, t1.
Qed.

(** The callback is called once, on the value that was collected. *)
Lemma call_callback_eq cp v s t sec key :
  clean cp -> cp_current_section cp = Some sec -> cp_current_key cp = Some key ->
  exists cp0, clean cp0 /\ cp_current_section cp0 = Some sec /\
    cp_scanner cp0 = s /\ cp_lookahead_token cp0 = t /\
    call_callback callback (set_token (vset cp v) s t) =
      (r ← callback sec key (denote v) (cp_user_data cp); Ok (set_user cp0 r.2, r.1 =? 0)).
Proof.
  intros [Hs Hl] Hsec Hkey. destruct cp as [sc la csec ckey ty i str lst u]. simpl in *. subst.
  destruct v as [n|first [|[b x] more]]; simpl.
  - by exists (Parser s t (Some sec) (Some key) CONF_TYPE_VOID (atoi n) None [] u).
  - by exists (Parser s t (Some sec) (Some key) CONF_TYPE_VOID i None [] u).
  - by exists (Parser s t (Some sec) (Some key) CONF_TYPE_VOID i None [] u).
Qed.

Lemma call_callback_spec cp v s t sec key :
  clean cp -> cp_current_section cp = Some sec -> cp_current_key cp = Some key ->
  Inv (cp_user_data cp) ->
  run_spec (call_callback callback (set_token (vset cp v) s t)) (fun cp' =>
    clean cp' /\ cp_current_section cp' = Some sec /\
    cp_scanner cp' = s /\ cp_lookahead_token cp' = t /\
    callback sec key (denote v) (cp_user_data cp) = Ok (0, cp_user_data cp')).
Proof.
  intros Hc Hs Hk Hi.
  destruct (call_callback_eq cp v s t sec key Hc Hs Hk) as (cp0 & Hc0 & Hs0 & Hsc & Hla & ->).
  destruct (callback _ _ _ _) as [[r u']|f] eqn:E; simpl.
  - split; [by eapply callback_inv|]. intros Hr%Z.eqb_eq. split_and!; try done. by subst r.
  - by exists sec, key, (denote v), (cp_user_data cp).
Qed.

Lemma r_definition_list_spec fuel cp l sec :
  at_tokens cp l -> Inv (cp_user_data cp) -> clean cp -> cp_current_section cp = Some sec ->
  (length l < fuel)%nat ->
  run_spec (r_definition_list callback fuel cp) (fun cp' => exists defs l',
    l = flat_map definition_tokens defs ++ l' /\ clean cp' /\ at_tokens cp' l' /\
    run_defs callback sec defs (cp_user_data cp) = Ok (cp_user_data cp', true)).
Proof.
  revert cp l. induction fuel as [|fuel IH]; intros cp l Hp Hi Hc Hs Hf; [lia|]. simpl.
  case_bool_decide as E.
  2: { split; [done|]. intros _. by exists [], l. }
  eapply (run_seq _ _ _ (fun cp1 => exists k v l1, l = definition_tokens (k, v) ++ l1 /\
    clean cp1 /\ cp_current_section cp1 = Some sec /\ at_tokens cp1 l1 /\
    callback sec k (denote v) (cp_user_data cp) = Ok (0, cp_user_data cp1))).
  - unfold r_definition. eapply run_seq; [by apply token_accept_spec|].
    intros cp1 Hi1 (k & l1 & -> & -> & s1 & t1 & -> & Hp1). simpl in Hf.
    eapply run_seq; [by apply token_accept_spec|].
    intros cp2 Hi2 (x & l2 & -> & -> & s2 & t2 & -> & Hp2). simpl in Hf.
    eapply run_seq; [apply r_value_spec; [done|done|lia]|].
    intros cp3 Hi3 (v & l3 & -> & s3 & t3 & -> & Hp3).
    eapply run_conseq; [by apply call_callback_spec|].
    intros cp4 (Hc4 & Hs4 & Hsc & Hla & Hcb). eexists _, v, l3. split; [done|].
    split; [done|]. split; [done|]. split; [|exact Hcb].
    unfold at_tokens in *. by rewrite Hsc, Hla.
  - intros cp1 Hi1 (k & v & l1 & -> & Hc1 & Hs1 & Hp1 & Hcb).
    eapply run_conseq.
    { apply IH; try done. rewrite length_app in Hf. simpl in Hf. lia. }
    intros cp2 (defs & l2 & -> & Hc2 & Hp2 & Hrun). exists ((k, v) :: defs), l2.
    split; [cbn [flat_map]; by rewrite <- app_assoc|]. split; [done|]. split; [done|].
    simpl. by rewrite Hcb.
Qed.

Lemma r_section_list_spec fuel cp l :
  at_tokens cp l -> Inv (cp_user_data cp) -> clean cp -> (length l < fuel)%nat ->
  run_spec (r_section_list callback fuel cp) (fun cp' => exists d l',
    l = flat_map section_tokens d ++ l' /\ at_tokens cp' l' /\
    run_doc callback d (cp_user_data cp) = Ok (cp_user_data cp', true)).
Proof.
  revert cp l. induction fuel as [|fuel IH]; intros cp l Hp Hi Hc Hf; [lia|]. simpl.
  case_bool_decide as E.
  2: { split; [done|]. intros _. by exists [], l. }
  eapply (run_seq _ _ _ (fun cp1 => exists sec defs l1, l = section_tokens (sec, defs) ++ l1 /\
    clean cp1 /\ at_tokens cp1 l1 /\
    run_defs callback sec defs (cp_user_data cp) = Ok (cp_user_data cp1, true))).
  - unfold r_section. eapply run_seq; [by apply token_accept_spec|].
    intros cp1 Hi1 (x & l1 & -> & -> & s1 & t1 & -> & Hp1). simpl in Hf.
    eapply run_seq; [by apply token_accept_spec|].
    intros cp2 Hi2 (sec & l2 & -> & -> & s2 & t2 & -> & Hp2). simpl in Hf.
    eapply run_seq; [by apply token_accept_spec|].
    intros cp3 Hi3 (x & l3 & -> & -> & s3 & t3 & -> & Hp3). simpl in Hf.
    eapply run_conseq; [apply r_definition_list_spec; try done; lia|].
    intros cp4 (defs & l4 & -> & Hc4 & Hp4 & Hrun). eexists _, defs, l4. split; [done|].
    split; [done|]. split; [done|]. exact Hrun.
  - intros cp1 Hi1 (sec & defs & l1 & -> & Hc1 & Hp1 & Hrun).
    eapply run_conseq.
    { apply IH; try done. rewrite length_app in Hf. simpl in Hf. lia. }
    intros cp2 (d & l2 & -> & Hp2 & Hrun2). exists ((sec, defs) :: d), l2.
    split; [cbn [flat_map]; by rewrite <- app_assoc|]. split; [done|]. cbn [run_doc]. rewrite Hrun. simpl. by rewrite Hrun2.
Qed.

(** ** Completeness: a word of the grammar is parsed to its meaning *)

Lemma seq_go c1 c2 cp cp1 : c1 cp = Ok (cp1, true) -> seq c1 c2 cp = c2 cp1.
Proof. unfold seq. by intros ->. Qed.

Lemma at_tokens_kind cp l : at_tokens cp l -> cp_lookahead_token cp = kind_of l.
Proof. destruct 1; done. Qed.

Lemma at_tokens_text cp t x l :
  at_tokens cp ((t, x) :: l) -> t = TOKEN_STRING \/ t = TOKEN_INTEGER -> cp_token_text cp = x.
Proof.
  unfold at_tokens. intros H Ht. inversion H as [|t' l' ? ? E]; [simplify_eq; by destruct Ht|].
  unfold tok_of in *. simplify_eq/=. by destruct Ht as [E'|E']; rewrite E'.
Qed.

Lemma r_opt_string_list_complete fuel cp more l :
  at_tokens cp (more_tokens more ++ l) -> ~ is_sep (kind_of l) -> (length more < fuel)%nat ->
  exists s t, r_opt_string_list fuel cp = Ok (set_token (collect cp more) s t, true) /\
    at_tokens (set_token (collect cp more) s t) l.
Proof.
  revert cp more. induction fuel as [|fuel IH]; intros cp more Hp Hl Hf; [lia|]. simpl.
  pose proof (at_tokens_kind _ _ Hp) as Hk.
  destruct more as [|[b x] more]; simpl in *.
  { rewrite bool_decide_eq_false_2 by (by rewrite Hk).
    exists (cp_scanner cp), (cp_lookahead_token cp). split; [by destruct cp|done]. }
  rewrite bool_decide_eq_true_2 by (rewrite Hk; destruct b; auto).
  destruct (token_accept_ok (sep_token b) cp _ _ Hp) as (s1 & t1 & E1 & Hp1 & _); [by destruct b|].
  rewrite (seq_go _ _ _ (set_token cp s1 t1)).
  2: { unfold r_list_sep. rewrite Hk. destruct b; simpl in *; [|exact E1]. exact E1. }
  pose proof (at_tokens_text _ _ _ _ Hp1 ltac:(by left)) as Hx.
  destruct (token_accept_ok TOKEN_STRING (collect (set_token cp s1 t1) [(b, x)]) _ _ Hp1)
    as (s2 & t2 & E2 & Hp2 & _); [done|].
  rewrite (seq_go _ _ _ _ (eq_trans (list_string_value_eq (set_token cp s1 t1) b) ltac:(rewrite Hx; exact E2))).
  destruct (IH _ more Hp2 Hl ltac:(lia)) as (s3 & t3 & E3 & Hp3).
  exists s3, t3. rewrite E3. by rewrite collect_cons, (collect_token cp) in Hp3 |- *.
Qed.

Lemma r_value_complete fuel cp v l :
  at_tokens cp (value_tokens v ++ l) -> ~ is_sep (kind_of l) ->
  (length (value_tokens v) < fuel)%nat ->
  exists s t, r_value fuel cp = Ok (set_token (vset cp v) s t, true) /\
    at_tokens (set_token (vset cp v) s t) l.
Proof.
  intros Hp Hl Hf. pose proof (at_tokens_kind _ _ Hp) as Hk. unfold r_value.
  destruct v as [n|first more]; simpl in *; rewrite Hk.
  - pose proof (at_tokens_text _ _ _ _ Hp ltac:(by right)) as <-.
    edestruct (token_accept_ok TOKEN_INTEGER) as (s1 & t1 & E1 & Hp1 & _); [|done|by exists s1, t1].
    exact Hp.
  - pose proof (at_tokens_text _ _ _ _ Hp ltac:(by left)) as <-.
    edestruct (token_accept_ok TOKEN_STRING
      (set_value cp CONF_TYPE_STRING (cp_current_value_int cp) (Some (cp_token_text cp)) (cp_current_value_list cp)))
      as (s1 & t1 & E1 & Hp1 & _); [exact Hp|done|].
    rewrite (seq_go r_string_value _ cp _ E1).
    destruct (r_opt_string_list_complete fuel _ more l Hp1 Hl) as (s2 & t2 & E2 & Hp2).
    { enough (length more <= length (more_tokens more))%nat by lia.
      clear. induction more as [|[] more IH]; simpl; [done|lia]. }
    rewrite collect_token in *. by exists s2, t2.
Qed.

(** The run [r] does what the meaning [m] says and stops in front of [l]. *)
Definition completes (r : outcome (a6o_conf_parser U * bool)) (m : outcome (U * bool))
    (P : a6o_conf_parser U -> Prop) (l : list tok) : Prop :=
  match m with
  | Fault f => r = Fault f
  | Ok (u, go) => exists cp', r = Ok (cp', go) /\ cp_user_data cp' = u /\
      (go = true -> at_tokens cp' l /\ clean cp' /\ P cp')
  end.

Lemma r_definition_complete fuel cp sec k v l :
  at_tokens cp (definition_tokens (k, v) ++ l) -> ~ is_sep (kind_of l) -> clean cp ->
  cp_current_section cp = Some sec -> (length (value_tokens v) < fuel)%nat ->
  completes (r_definition callback fuel cp)
    (r ← callback sec k (denote v) (cp_user_data cp); Ok (r.2, r.1 =? 0))
    (fun cp' => cp_current_section cp' = Some sec) l.
Proof.
  intros Hp Hl Hc Hs Hf. unfold definition_tokens in Hp. simpl in Hp.
  pose proof (at_tokens_text _ _ _ _ Hp ltac:(by left)) as Hx.
  unfold r_definition.
  edestruct (token_accept_ok TOKEN_STRING (set_key cp (Some (cp_token_text cp)))) as (s1 & t1 & E1 & Hp1 & _);
    [exact Hp|done|].
  rewrite (seq_go r_key _ cp _ E1).
  destruct (token_accept_ok _ _ _ _ Hp1) as (s2 & t2 & E2 & Hp2 & _); [done|].
  rewrite (seq_go _ _ _ _ E2).
  destruct (r_value_complete fuel _ v l Hp2 Hl Hf) as (s3 & t3 & E3 & Hp3).
  rewrite (seq_go _ _ _ _ E3).
  edestruct (call_callback_eq (set_token (set_token (set_key cp (Some (cp_token_text cp))) s1 t1) s2 t2) v s3 t3 sec k)
    as (cp0 & Hc0 & Hs0 & Hsc & Hla & ->); [done|done|by rewrite <- Hx|].
  simpl. destruct (callback _ _ _ _) as [[r u']|f]; simpl; [|done].
  eexists. split; [done|]. split; [done|]. intros _. split; [|done].
  unfold at_tokens in *. simpl in *. by rewrite Hsc, Hla.
Qed.

Lemma r_definition_list_complete fuel cp sec defs l :
  at_tokens cp (flat_map definition_tokens defs ++ l) -> ~ is_sep (kind_of l) ->
  kind_of l <> TOKEN_STRING -> clean cp -> cp_current_section cp = Some sec ->
  (length (flat_map definition_tokens defs) < fuel)%nat ->
  completes (r_definition_list callback fuel cp) (run_defs callback sec defs (cp_user_data cp))
    (fun _ => True) l.
Proof.
  revert cp defs. induction fuel as [|fuel IH]; intros cp defs Hp Hl Hstr Hc Hs Hf; [lia|]. simpl.
  pose proof (at_tokens_kind _ _ Hp) as Hk.
  destruct defs as [|[k v] defs]; cbn [flat_map run_defs] in *.
  { rewrite bool_decide_eq_false_2 by (by rewrite Hk). by exists cp. }
  rewrite bool_decide_eq_true_2 by (by rewrite Hk).
  rewrite <- app_assoc in Hp. rewrite length_app in Hf. simpl in Hf.
  pose proof (r_definition_complete fuel cp sec k v _ Hp) as H.
  unfold completes in H. destruct (callback _ _ _ _) as [[r u']|f]; simpl in *.
  - destruct H as (cp1 & E1 & <- & H1); [by destruct defs as [|[]]; [|intros [|]]|done|done|lia|].
    destruct (r =? 0).
    + rewrite (seq_go _ _ _ _ E1). destruct (H1 eq_refl) as (Hp1 & Hc1 & Hs1).
      apply IH; try done. lia.
    + unfold seq. rewrite E1. simpl. by exists cp1.
  - unfold seq. rewrite H; [done|by destruct defs as [|[]]; [|intros [|]]|done|done|lia].
Qed.

Lemma r_section_complete fuel cp sec defs l :
  at_tokens cp (section_tokens (sec, defs) ++ l) -> ~ is_sep (kind_of l) ->
  kind_of l <> TOKEN_STRING -> clean cp ->
  (length (flat_map definition_tokens defs) < fuel)%nat ->
  completes (r_section callback fuel cp) (run_defs callback sec defs (cp_user_data cp))
    (fun _ => True) l.
Proof.
  intros Hp Hl Hstr Hc Hf. unfold section_tokens in Hp. simpl in Hp. unfold r_section.
  destruct (token_accept_ok _ _ _ _ Hp) as (s1 & t1 & E1 & Hp1 & _); [done|].
  rewrite (seq_go _ _ _ _ E1).
  pose proof (at_tokens_text _ _ _ _ Hp1 ltac:(by left)) as Hx.
  edestruct (token_accept_ok TOKEN_STRING
    (set_section (set_token cp s1 t1) (Some (cp_token_text (set_token cp s1 t1))))) as (s2 & t2 & E2 & Hp2 & _);
    [exact Hp1|done|].
  rewrite (seq_go r_section_name _ (set_token cp s1 t1) _ E2).
  destruct (token_accept_ok _ _ _ _ Hp2) as (s3 & t3 & E3 & Hp3 & _); [done|].
  rewrite (seq_go _ _ _ _ E3). rewrite Hx in *.
  by apply (r_definition_list_complete fuel _ sec defs l Hp3).
Qed.

Lemma r_section_list_complete fuel cp d l :
  at_tokens cp (flat_map section_tokens d ++ l) -> ~ is_sep (kind_of l) ->
  kind_of l <> TOKEN_STRING -> kind_of l <> TOKEN_LEFT_BRACE -> clean cp ->
  (length (flat_map section_tokens d) < fuel)%nat ->
  completes (r_section_list callback fuel cp) (run_doc callback d (cp_user_data cp))
    (fun _ => True) l.
Proof.
  revert cp d. induction fuel as [|fuel IH]; intros cp d Hp Hl Hstr Hlb Hc Hf; [lia|]. simpl.
  pose proof (at_tokens_kind _ _ Hp) as Hk.
  destruct d as [|[sec defs] d]; cbn [flat_map run_doc] in *.
  { rewrite bool_decide_eq_false_2 by (by rewrite Hk). by exists cp. }
  rewrite bool_decide_eq_true_2 by (by rewrite Hk).
  rewrite <- app_assoc in Hp. rewrite length_app in Hf. cbn [section_tokens length app] in Hf.
  pose proof (r_section_complete fuel cp sec defs _ Hp) as H.
  unfold completes in H. destruct (run_defs _ _ _ _) as [[u' go]|f]; simpl in *.
  - destruct H as (cp1 & E1 & <- & H1); [by destruct d as [|[]]; [|intros [|]]|by destruct d as [|[]]|done|lia|].
    destruct go; simpl.
    + rewrite (seq_go _ _ _ _ E1). destruct (H1 eq_refl) as (Hp1 & Hc1 & _).
      apply IH; try done. lia.
    + unfold seq. rewrite E1. simpl. by exists cp1.
  - unfold seq. rewrite H; [done|by destruct d as [|[]]; [|intros [|]]|by destruct d as [|[]]|done|lia].
Qed.

(** ** A whole file *)

Lemma parse_start (input : list ascii) (u : U) :
  exists s t l, scanner_get_next_token (scanner_new input) TOKEN_NONE = Ok (t, s) /\
    yields TOKEN_NONE (scanner_new input) l /\
    at_tokens (set_token (a6o_conf_parser_new input u) s t) l /\ (length l < parse_fuel input)%nat.
Proof.
  destruct (next_token_spec (scanner_new input) TOKEN_NONE) as (t & s & E & _).
  destruct (yields_total (2 * length input + 1) TOKEN_NONE (scanner_new input)) as (l & Hl & Hlen).
  { unfold input_length. simpl. lia. }
  exists s, t, l. split; [done|]. split; [done|]. split; [by eapply yields_pending|].
  unfold parse_fuel. lia.
Qed.

Lemma doc_tokens_length (d : doc) : (length (flat_map section_tokens d) < length (doc_tokens d))%nat.
Proof. unfold doc_tokens. rewrite length_app. simpl. lia. Qed.

(** The result of a parse that ends without a fault. *)
Definition parse_status (go : bool) : Z := if go then 0 else -2.

Lemma parse_complete (input : list ascii) (d : doc) (u : U) :
  yields TOKEN_NONE (scanner_new input) (doc_tokens d) ->
  a6o_conf_parser_parse callback (Some input) u =
    (r ← run_doc callback d u; Ok (parse_status r.2, r.1)).
Proof.
  intros Hy. destruct (parse_start input u) as (s & t & l & E & Hl & Hp & Hf).
  rewrite (yields_det _ _ _ _ Hl Hy) in Hp, Hf. unfold a6o_conf_parser_parse.
  cbn [cp_scanner a6o_conf_parser_new]. rewrite E. simpl.
  pose proof (r_section_list_complete (parse_fuel input) _ d [tok_eof] Hp) as H.
  unfold completes in H. pose proof (doc_tokens_length d).
  cbn [cp_user_data set_token a6o_conf_parser_new] in H. unfold seq, r_configuration, set_token in *.
  destruct (run_doc callback d u) as [[u' go]|f]; simpl in *.
  - destruct H as (cp' & E' & Eu & H'); [by intros [|]|done|done|done|lia|]. rewrite E'. simpl.
    destruct go; simpl; [|by rewrite Eu].
    destruct (H' eq_refl) as (Hp' & _). pose proof (at_tokens_kind _ _ Hp') as Hk. simpl in Hk.
    unfold token_accept. rewrite Hk. simpl. by rewrite Eu.
  - rewrite H; [done|by intros [|]|done|done|done|lia].
Qed.

Lemma parse_sound (input : list ascii) (u : U) :
  Inv u ->
  match a6o_conf_parser_parse callback (Some input) u with
  | Ok (r, u') => Inv u' /\
      (r = -2 \/ r = 0 /\ exists d, yields TOKEN_NONE (scanner_new input) (doc_tokens d) /\
                   run_doc callback d u = Ok (u', true))
  | Fault f => callback_faults f
  end.
Proof.
  intros Hi. destruct (parse_start input u) as (s & t & l & E & Hl & Hp & Hf).
  unfold a6o_conf_parser_parse. cbn [cp_scanner a6o_conf_parser_new]. rewrite E. cbn [mbind outcome_bind].
  set (cp0 := set_token _ _ _) in *.
  enough (run_spec (seq (r_configuration callback (parse_fuel input)) (token_accept TOKEN_EOF) cp0)
    (fun cp' => exists d, yields TOKEN_NONE (scanner_new input) (doc_tokens d) /\
       run_doc callback d u = Ok (cp_user_data cp', true))) as H.
  { unfold run_spec in H. destruct (seq _ _ _) as [[cp' []]|f]; cbn; [| |done].
    - destruct H as [Hi' H]. split; [done|]. right. split; [done|]. by apply H.
    - destruct H as [Hi' _]. split; [done|by left]. }
  eapply run_seq; [by apply r_section_list_spec|].
  intros cp1 Hi1 (d & l1 & -> & Hp1 & Hrun). unfold token_accept.
  case_bool_decide as Hk; [|by split]. rewrite bool_decide_eq_false_2 by (intros []; done).
  split; [done|]. intros _. exists d. split; [|exact Hrun].
  enough (l1 = [tok_eof]) as -> by done.
  unfold at_tokens in Hp1. rewrite Hk in Hp1. by inversion Hp1.
Qed.

End parser.
