(* ===== verification/ConfScan.v ===== *)
(** * What the scanner makes of well-formed text

    [tokenizes prev w t x rest]: in front of [w ++ rest], after the token [prev],
    the scanner reads exactly [w] and returns the token [t] with text [x].  The
    lemmas cover the words the configuration writer produces. *)
From S2P Require Import Prelude ConfVal ConfParser ConfParserTheory.

#[local] Open Scope Z_scope.

Definition scans (st : scan_state) (prev : token_type) (w acc : list ascii) (t : token_type)
    (x rest : list ascii) : Prop :=
  forall s fuel, s_input s = w ++ rest -> s_token_text s = acc -> (scan_measure s st <= fuel)%nat ->
    exists s', scan_loop fuel s st prev = Ok (t, s') /\ s_input s' = rest /\ s_token_text s' = x.

Definition tokenizes (prev : token_type) (w : list ascii) (t : token_type) (x rest : list ascii) : Prop :=
  scans S_INITIAL prev w [] t x rest.

Lemma getc_cons s c rest :
  s_input s = c :: rest ->
  exists s', scanner_getc s = (Some c, s') /\ s_input s' = rest /\ s_token_text s' = s_token_text s.
Proof.
  intros H. destruct (getc_cases s) as [(E & _)|(c' & rest' & s' & E & H1 & H2 & H3)]; [congruence|].
  rewrite H in E. simplify_eq. by exists s'.
Qed.

(** Unfold one step of the loop on the first character of [w]. *)
Ltac scan_step s fuel Hin Hf s1 :=
  let E := fresh "E" in let Hi := fresh "Hi" in let Ht := fresh "Ht" in
  destruct fuel as [|fuel]; [unfold scan_measure in Hf; lia|]; simpl;
  destruct (getc_cons s _ _ Hin) as (s1 & E & Hi & Ht); rewrite E; clear E;
  assert (input_length s = S (input_length s1)) by (unfold input_length; rewrite Hin, Hi; done).

Lemma scans_identifier prev w acc c rest :
  forallb is_identifier w = true -> is_identifier c = false ->
  scans S_IDENTIFIER prev w acc TOKEN_STRING (acc ++ w) (c :: rest).
Proof.
  intros Hw Hc. revert acc. induction w as [|d w IH]; intros acc s fuel Hin Hacc Hf; simpl in *.
  - scan_step s fuel Hin Hf s1. rewrite Hc. eexists. split; [done|].
    destruct (ungetc_input s1 c) as [-> ->]. split; [congruence|]. by rewrite app_nil_r, <- Hacc.
  - apply andb_true_iff in Hw as [Hd Hw].
    scan_step s fuel Hin Hf s1. rewrite Hd.
    destruct (IH Hw (acc ++ [d]) (append_c s1 d) fuel) as (s' & -> & ? & Htxt);
      [done|simpl; congruence|unfold scan_measure, append_c, input_length in *; simpl in *; lia|].
    exists s'. split; [done|]. split; [done|]. by rewrite Htxt, <- app_assoc.
Qed.

Lemma scans_integer prev w acc c rest :
  forallb isdigit w = true -> isdigit c = false ->
  scans S_INTEGER prev w acc TOKEN_INTEGER (acc ++ w) (c :: rest).
Proof.
  intros Hw Hc. revert acc. induction w as [|d w IH]; intros acc s fuel Hin Hacc Hf; simpl in *.
  - scan_step s fuel Hin Hf s1. rewrite Hc. eexists. split; [done|].
    destruct (ungetc_input s1 c) as [-> ->]. split; [congruence|]. by rewrite app_nil_r, <- Hacc.
  - apply andb_true_iff in Hw as [Hd Hw].
    scan_step s fuel Hin Hf s1. rewrite Hd.
    destruct (IH Hw (acc ++ [d]) (append_c s1 d) fuel) as (s' & -> & ? & Htxt);
      [done|simpl; congruence|unfold scan_measure, append_c, input_length in *; simpl in *; lia|].
    exists s'. split; [done|]. split; [done|]. by rewrite Htxt, <- app_assoc.
Qed.

Definition not_quote (c : ascii) : bool := negb (c =? dquote)%char.

Lemma scans_string prev w acc rest :
  forallb not_quote w = true ->
  scans S_STRING prev (w ++ [dquote]) acc TOKEN_STRING (acc ++ w) rest.
Proof.
  intros Hw. revert acc. induction w as [|d w IH]; intros acc s fuel Hin Hacc Hf; simpl in *.
  - scan_step s fuel Hin Hf s1. rewrite Ascii.eqb_refl. exists s1.
    split; [done|]. split; [done|]. rewrite app_nil_r. congruence.
  - apply andb_true_iff in Hw as [Hd Hw]. unfold not_quote in Hd. apply negb_true_iff in Hd.
    scan_step s fuel Hin Hf s1. rewrite Hd.
    destruct (IH Hw (acc ++ [d]) (append_c s1 d) fuel) as (s' & -> & ? & Htxt);
      [done|simpl; congruence|unfold scan_measure, append_c, input_length in *; simpl in *; lia|].
    exists s'. split; [done|]. split; [done|]. by rewrite Htxt, <- app_assoc.
Qed.

(** ** From the initial state *)

Lemma uchar_inj c1 c2 : uchar c1 = uchar c2 -> c1 = c2.
Proof.
  unfold uchar. intros H%N2Z.inj. rewrite <- (ascii_N_embedding c1), <- (ascii_N_embedding c2).
  by rewrite H.
Qed.

Lemma eqb_uchar c d : (c =? d)%char = (uchar c =? uchar d).
Proof.
  apply eq_true_iff_eq. rewrite Z.eqb_eq, Ascii.eqb_eq. split; [by intros ->|apply uchar_inj].
Qed.

Lemma first_identifier_classes c :
  is_first_identifier c = true -> isblank c = false /\ (c =? "#")%char = false /\ (c =? dquote)%char = false.
Proof.
  unfold is_first_identifier, isalpha, isblank. rewrite !eqb_uchar.
  change (uchar "_"%char) with 95. change (uchar "#"%char) with 35. change (uchar dquote) with 34. lia.
Qed.

Lemma digit_classes c :
  isdigit c = true ->
  isblank c = false /\ (c =? "#")%char = false /\ (c =? dquote)%char = false /\
  is_first_identifier c = false.
Proof.
  unfold is_first_identifier, isalpha, isdigit, isblank. rewrite !eqb_uchar.
  change (uchar "_"%char) with 95. change (uchar "#"%char) with 35. change (uchar dquote) with 34. lia.
Qed.

Definition is_name (w : list ascii) : bool :=
  match w with [] => false | c :: w => is_first_identifier c && forallb is_identifier w end.

Lemma tokenizes_name prev w c rest :
  is_name w = true -> is_identifier c = false -> tokenizes prev w TOKEN_STRING w (c :: rest).
Proof.
  destruct w as [|d w]; [done|]. simpl. intros [Hd Hw]%andb_true_iff Hc s fuel Hin Hacc Hf. simpl in Hin.
  scan_step s fuel Hin Hf s1. destruct (first_identifier_classes d Hd) as (-> & -> & ->). rewrite Hd.
  eapply (scans_identifier prev w [d] c rest Hw Hc); simpl; [done|by rewrite Ht, Hacc|].
  unfold scan_measure, append_c, input_length in *; simpl in *; lia.
Qed.

Lemma tokenizes_digits prev w c rest :
  w <> [] -> forallb isdigit w = true -> isdigit c = false -> tokenizes prev w TOKEN_INTEGER w (c :: rest).
Proof.
  destruct w as [|d w]; [done|]. simpl. intros _ [Hd Hw]%andb_true_iff Hc s fuel Hin Hacc Hf. simpl in Hin.
  scan_step s fuel Hin Hf s1. destruct (digit_classes d Hd) as (-> & -> & -> & ->). rewrite Hd.
  eapply (scans_integer prev w [d] c rest Hw Hc); simpl; [done|by rewrite Ht, Hacc|].
  unfold scan_measure, append_c, input_length in *; simpl in *; lia.
Qed.

Lemma tokenizes_quoted prev w rest :
  forallb not_quote w = true -> tokenizes prev (dquote :: w ++ [dquote]) TOKEN_STRING w rest.
Proof.
  intros Hw s fuel Hin Hacc Hf. simpl in Hin.
  scan_step s fuel Hin Hf s1.
  eapply (scans_string prev w [] rest Hw); [done|congruence|].
  unfold scan_measure, input_length in *; simpl in *; lia.
Qed.

(** The punctuation of the grammar, except after ['=']. *)
Lemma tokenizes_char prev c t rest :
  char_token c = Some t -> prev <> TOKEN_EQUAL_SIGN -> tokenizes prev [c] t [c] rest.
Proof.
  intros Hc Hprev s fuel Hin Hacc Hf. simpl in Hin.
  scan_step s fuel Hin Hf s1. rewrite bool_decide_eq_false_2, Hc by done.
  assert (isblank c = false /\ (c =? "#")%char = false /\ (c =? dquote)%char = false /\
          is_first_identifier c = false /\ isdigit c = false) as (-> & -> & -> & -> & ->).
  { clear -Hc. unfold char_token in Hc.
    repeat (case_match; [match goal with H : (_ =? _)%char = true |- _ => apply Ascii.eqb_eq in H as -> end; done|]).
    done. }
  eexists. split; [done|]. simpl. split; [done|]. by rewrite Ht, Hacc.
Qed.

Lemma tokenizes_newline prev w t x rest :
  prev <> TOKEN_EQUAL_SIGN -> tokenizes prev w t x rest -> tokenizes prev (newline :: w) t x rest.
Proof.
  intros Hprev H s fuel Hin Hacc Hf. simpl in Hin.
  scan_step s fuel Hin Hf s1. rewrite bool_decide_eq_false_2 by done.
  apply H; [done|congruence|]. unfold scan_measure in *. lia.
Qed.

Lemma tokenizes_space prev c w t x rest :
  isspace c = false -> tokenizes prev (c :: w) t x rest -> tokenizes prev (" "%char :: c :: w) t x rest.
Proof.
  intros Hc H s fuel Hin Hacc Hf. simpl in Hin.
  scan_step s fuel Hin Hf s1.
  assert (scan_measure s1 S_SPACE <= fuel)%nat as Hf1 by (unfold scan_measure in *; lia).
  destruct fuel as [|fuel]; [unfold scan_measure in Hf1; lia|]. simpl.
  destruct (getc_cons s1 _ _ Hi) as (s2 & -> & Hi2 & Ht2). rewrite Hc.
  destruct (ungetc_input s2 c) as [Hi3 Ht3].
  apply H; [by rewrite Hi3, Hi2|congruence|].
  unfold scan_measure, input_length in *. rewrite Hi3, Hi2. rewrite Hi in Hf1. simpl in *. lia.
Qed.

(** The end of the file: only newlines are left. *)
Lemma scans_end prev n s fuel :
  prev <> TOKEN_EQUAL_SIGN -> s_input s = replicate n newline -> (scan_measure s S_INITIAL <= fuel)%nat ->
  exists s', scan_loop fuel s S_INITIAL prev = Ok (TOKEN_EOF, s').
Proof.
  intros Hprev. revert s fuel. induction n as [|n IH]; intros s fuel Hin Hf.
  - destruct fuel as [|fuel]; [unfold scan_measure in Hf; lia|]. simpl.
    destruct (getc_cases s) as [(_ & s' & -> & _)|(c & rest & s' & E & _)]; [by exists s'|by rewrite Hin in E].
  - simpl in Hin. scan_step s fuel Hin Hf s1. rewrite bool_decide_eq_false_2 by done.
    apply IH; [done|]. unfold scan_measure in *. lia.
Qed.

(** ** Chaining into token streams *)

Definition scan_tok (t : token_type) (x : list ascii) : tok :=
  (t, match t with TOKEN_STRING | TOKEN_INTEGER => c_string x | _ => "" end).

(** The stream of every scanner in front of [input]. *)
Definition lexes (prev : token_type) (input : list ascii) (l : list tok) : Prop :=
  forall s, s_input s = input -> yields prev s l.

Lemma lexes_cons prev w t x rest l :
  tokenizes prev w t x rest -> t <> TOKEN_EOF -> lexes t rest l ->
  lexes prev (w ++ rest) (scan_tok t x :: l).
Proof.
  intros Hw Ht Hl s Hin.
  destruct (Hw (with_text s []) (scan_fuel s)) as (s' & E & Hi & Hx); [done|done|..].
  { unfold scan_measure, scan_fuel, input_length. simpl. lia. }
  assert (scan_tok t x = tok_of t s') as ->.
  { unfold scan_tok, tok_of, scanner_token_text. by rewrite Hx. }
  eapply yields_tok; [exact E|done|]. by apply Hl.
Qed.

Lemma lexes_end prev n : prev <> TOKEN_EQUAL_SIGN -> lexes prev (replicate n newline) [tok_eof].
Proof.
  intros Hprev s Hin.
  destruct (scans_end prev n (with_text s []) (scan_fuel s)) as (s' & E); [done|done|..].
  { unfold scan_measure, scan_fuel, input_length. simpl. lia. }
  by eapply yields_eof.
Qed.
