(* ===== verification/Conf.v ===== *)
(** * The configuration store ([src/libcore/conf.c])

    Sections and keys are kept in the order they were added, in growable arrays of
    heap entries; a pointer to an entry is its index.  [a6o_conf_save_file] is
    modelled by the bytes it writes. *)
From S2P Require Import Prelude ConfVal ConfParser.

#[local] Open Scope Z_scope.

Record key_entry := KeyEntry {
  k_key : string;
  k_value : a6o_conf_value;
}.

Record section_entry := SectionEntry {
  s_section : string;
  s_keys : list key_entry;
}.

Record a6o_conf := Conf { sections : list section_entry }.

#[export] Instance key_entry_eq_dec : EqDecision key_entry.
Proof. solve_decision. Defined.
#[export] Instance section_entry_eq_dec : EqDecision section_entry.
Proof. solve_decision. Defined.
#[export] Instance a6o_conf_eq_dec : EqDecision a6o_conf.
Proof. solve_decision. Defined.

(** The first element for which the comparison returns 0. *)
Definition array_search {A} (array : list A) (cmp_fun : A -> string -> bool) (name : string)
    : option nat :=
  fst <$> list_find (fun element => cmp_fun element name = true) array.

Definition section_entry_new (section : string) : section_entry :=
  {| s_section := section; s_keys := [] |}.

Definition section_entry_cmp (s : section_entry) (name : string) : bool :=
  bool_decide (s_section s = name).

Definition section_entry_get (conf : a6o_conf) (section : string) : option nat :=
  array_search (sections conf) section_entry_cmp section.

Definition section_entry_add (conf : a6o_conf) (section : string) : a6o_conf * nat :=
  ({| sections := sections conf ++ [section_entry_new section] |}, length (sections conf)).

(** The value field is left unset by the code; every caller sets it at once. *)
Definition key_entry_new (key : string) : key_entry :=
  {| k_key := key; k_value := CvVoid |}.

Definition key_entry_cmp (k : key_entry) (name : string) : bool :=
  bool_decide (k_key k = name).

Definition key_entry_get_sect (s : section_entry) (key : string) : option nat :=
  array_search (s_keys s) key_entry_cmp key.

Definition key_entry_get (conf : a6o_conf) (section key : string) : option (nat * nat) :=
  i ← section_entry_get conf section;
  s ← sections conf !! i;
  j ← key_entry_get_sect s key;
  Some (i, j).

Definition key_entry_add_sect (s : section_entry) (key : string) : section_entry * nat :=
  ({| s_section := s_section s; s_keys := s_keys s ++ [key_entry_new key] |}, length (s_keys s)).

Definition key_entry_add (conf : a6o_conf) (section key : string) : a6o_conf * option (nat * nat) :=
  let (conf, i) :=
    match section_entry_get conf section with
    | None => section_entry_add conf section
    | Some i => (conf, i)
    end in
  match sections conf !! i with
  | None => (conf, None)                     (* not reached: [i] is an entry *)
  | Some s =>
      match key_entry_get_sect s key with
      | Some _ => (conf, None)               (* duplicate key *)
      | None =>
          let (s', j) := key_entry_add_sect s key in
          ({| sections := <[i := s']> (sections conf) |}, Some (i, j))
      end
  end.

(** The entry behind a pointer, and an assignment through it. *)
Definition entry_value (conf : a6o_conf) (p : nat * nat) : option a6o_conf_value :=
  s ← sections conf !! p.1; k ← s_keys s !! p.2; Some (k_value k).

Definition entry_set (conf : a6o_conf) (p : nat * nat) (v : a6o_conf_value) : a6o_conf :=
  {| sections :=
       alter (fun s => {| s_section := s_section s;
                          s_keys := alter (fun k => {| k_key := k_key k; k_value := v |}) p.2 (s_keys s) |})
             p.1 (sections conf) |}.

Definition a6o_conf_new : a6o_conf := {| sections := [] |}.

(** [a6o_conf_apply]: [fun] on every key, section by section; [user_data] is threaded. *)
Definition a6o_conf_apply {U} (conf : a6o_conf) (f : string -> string -> a6o_conf_value -> U -> U)
    (user_data : U) : U :=
  fold_left (fun u s => fold_left (fun u k => f (s_section s) (k_key k) (k_value k) u) (s_keys s) u)
    (sections conf) user_data.

(** ** Readers *)

Definition a6o_conf_get_sections (conf : a6o_conf) : list string := s_section <$> sections conf.

Definition a6o_conf_get_keys (conf : a6o_conf) (section : string) : option (list string) :=
  i ← section_entry_get conf section; s ← sections conf !! i; Some (k_key <$> s_keys s).

(** The value of a key, [None] when [key_entry_get] returns NULL. *)
Definition key_value (conf : a6o_conf) (section key : string) : option a6o_conf_value :=
  p ← key_entry_get conf section key; entry_value conf p.

Definition a6o_conf_has_key (conf : a6o_conf) (section key : string) : bool :=
  bool_decide (key_entry_get conf section key <> None).

Definition a6o_conf_get_type (conf : a6o_conf) (section key : string) : a6o_conf_value_type :=
  match key_value conf section key with
  | None => CONF_TYPE_VOID
  | Some v => a6o_conf_value_get_type v
  end.

Definition is_type (t : a6o_conf_value_type) (conf : a6o_conf) (section key : string) : bool :=
  match key_value conf section key with
  | None => false
  | Some v => bool_decide (a6o_conf_value_get_type v = t)
  end.

Definition a6o_conf_is_int := is_type CONF_TYPE_INT.
Definition a6o_conf_is_string := is_type CONF_TYPE_STRING.
Definition a6o_conf_is_list := is_type CONF_TYPE_LIST.

(** Returns 0 for a missing key, else 1 and a copy of the value. *)
Definition a6o_conf_get_value (conf : a6o_conf) (section key : string)
    : outcome (Z * option a6o_conf_value) :=
  match key_value conf section key with
  | None => Ok (0, None)
  | Some v => cv ← a6o_conf_value_set v; Ok (1, Some cv)
  end.

Definition a6o_conf_get_uint (conf : a6o_conf) (section key : string) : Z :=
  match key_value conf section key with Some (CvInt z) => z | _ => -1 end.

Definition a6o_conf_get_string (conf : a6o_conf) (section key : string) : option string :=
  match key_value conf section key with Some (CvString s) => s | _ => None end.

Definition a6o_conf_get_list (conf : a6o_conf) (section key : string) : option (list string) :=
  match key_value conf section key with Some (CvList l) => Some l | _ => None end.

(** ** Writers: 0 on success, 1 on failure *)

(** The common shape of [a6o_conf_set_*]: the key must exist with the same type. *)
Definition conf_set (conf : a6o_conf) (section key : string) (t : a6o_conf_value_type)
    (new : outcome a6o_conf_value) : outcome (Z * a6o_conf) :=
  match key_entry_get conf section key with
  | None => Ok (1, conf)
  | Some p =>
      if bool_decide ((a6o_conf_value_get_type <$> entry_value conf p) = Some t)
      then v ← new; Ok (0, entry_set conf p v)
      else Ok (1, conf)
  end.

Definition a6o_conf_set_value (conf : a6o_conf) (section key : string) (value : a6o_conf_value) :=
  conf_set conf section key (a6o_conf_value_get_type value) (a6o_conf_value_set value).

Definition a6o_conf_set_uint (conf : a6o_conf) (section key : string) (val : Z) :=
  conf_set conf section key CONF_TYPE_INT (Ok (a6o_conf_value_set_int val)).

Definition a6o_conf_set_string (conf : a6o_conf) (section key : string) (val : option string) :=
  conf_set conf section key CONF_TYPE_STRING (Ok (a6o_conf_value_set_string val)).

Definition a6o_conf_set_list (conf : a6o_conf) (section key : string) (val : list string) (len : nat) :=
  conf_set conf section key CONF_TYPE_LIST (a6o_conf_value_set_list val len).

(** The common shape of [a6o_conf_add_*]: the key must not exist. *)
Definition conf_add (conf : a6o_conf) (section key : string) (new : outcome a6o_conf_value)
    : outcome (Z * a6o_conf) :=
  let (conf, k) := key_entry_add conf section key in
  match k with
  | None => Ok (1, conf)
  | Some p => v ← new; Ok (0, entry_set conf p v)
  end.

Definition a6o_conf_add_value (conf : a6o_conf) (section key : string) (value : a6o_conf_value) :=
  conf_add conf section key (a6o_conf_value_set value).

Definition a6o_conf_add_uint (conf : a6o_conf) (section key : string) (val : Z) :=
  conf_add conf section key (Ok (a6o_conf_value_set_int val)).

Definition a6o_conf_add_string (conf : a6o_conf) (section key : string) (val : option string) :=
  conf_add conf section key (Ok (a6o_conf_value_set_string val)).

Definition a6o_conf_add_list (conf : a6o_conf) (section key : string) (val : list string) (len : nat) :=
  conf_add conf section key (a6o_conf_value_set_list val len).

(** ** Loading and saving *)

Definition conf_load_parser_cb (section key : string) (value : a6o_conf_value) (conf : a6o_conf)
    : outcome (Z * a6o_conf) :=
  a6o_conf_add_value conf section key value.

(** The result of the parser is dropped: the return value is always 0. *)
Definition a6o_conf_load_file (conf : a6o_conf) (file : option (list ascii)) : outcome (Z * a6o_conf) :=
  r ← a6o_conf_parser_parse conf_load_parser_cb file conf; Ok (0, r.2).

(** [fprintf] of ["%d"] on an [int]. *)
Definition digit_char (d : Z) : ascii := ascii_of_N (Z.to_N (48 + d)).

Fixpoint dec (fuel : nat) (n : Z) (acc : list ascii) : list ascii :=
  match fuel with
  | O => acc
  | S fuel =>
      let acc := digit_char (n mod 10) :: acc in
      if n <? 10 then acc else dec fuel (n / 10) acc
  end.

(** An [int] has at most ten digits. *)
Definition print_int (z : Z) : list ascii :=
  if z <? 0 then "-"%char :: dec 10 (- z) [] else dec 10 z [].

(** ["%s"] on NULL prints ["(null)"] (glibc). *)
Definition print_string (s : option string) : list ascii :=
  bytes (match s with Some s => s | None => "(null)" end).

Record conf_save_data := SaveData {
  save_f : list ascii;          (** what was written to [f] *)
  save_p : option string;       (** the section of the previous key *)
}.

Definition save_list (l : list string) : list ascii :=
  match l with
  | [] => []
  | s :: l => " "%char :: dquote :: bytes s ++ [dquote] ++
      flat_map (fun s => bytes "; " ++ [dquote] ++ bytes s ++ [dquote]) l
  end.

Definition save_value (value : a6o_conf_value) : list ascii :=
  match value with
  | CvVoid => []
  | CvInt z => " "%char :: print_int z
  | CvString s => " "%char :: dquote :: print_string s ++ [dquote]
  | CvList l => save_list l
  end.

Definition conf_save_fun (section key : string) (value : a6o_conf_value) (data : conf_save_data)
    : conf_save_data :=
  let data :=
    if bool_decide (save_p data = Some section) then data
    else {| save_f := save_f data ++ newline :: bytes ("[" +:+ section +:+ "]") ++ [newline; newline];
            save_p := Some section |} in
  {| save_f := save_f data ++ bytes (key +:+ " =") ++ save_value value ++ [newline];
     save_p := save_p data |}.

(** [opened] says whether [os_fopen] succeeded; its failure is not tested, and
    [fclose(NULL)] is undefined. *)
Definition a6o_conf_save_file (conf : a6o_conf) (path : string) (opened : bool)
    : outcome (Z * list ascii) :=
  if bool_decide (path = "-") || opened then
    Ok (0, save_f (a6o_conf_apply conf conf_save_fun {| save_f := []; save_p := None |}))
  else Fault NullDeref.
