(* ===== verification/ConfTheory.v ===== *)
(** * The configuration store is a finite map with a remembered order

    [key_value] of the store is the lookup of a finite map indexed by section and
    key; [conf_ok] is the invariant of the arrays: names are unique and no section
    is empty. *)
From S2P Require Import Prelude ConfVal ConfParser Conf.

#[local] Open Scope Z_scope.

Lemma alter_found {A} (f : A -> A) i (l : list A) x :
  l !! i = Some x -> alter f i l = <[i := f x]> l.
Proof.
  intros H. apply list_eq. intros n. destruct (decide (n = i)) as [->|].
  - by rewrite list_lookup_alter_eq, H, list_lookup_insert_eq by (by eapply lookup_lt_Some).
  - by rewrite list_lookup_alter_ne, list_lookup_insert_ne.
Qed.

(** ** Searching an array of named entries *)

Section named.
Context {A : Type} (name : A -> string) (cmp : A -> string -> bool).
Hypothesis cmp_name : forall x n, cmp x n = bool_decide (name x = n).

Fixpoint first_named (l : list A) (n : string) : option A :=
  match l with
  | [] => None
  | x :: l => if decide (name x = n) then Some x else first_named l n
  end.

Lemma array_search_cons x l n :
  array_search (x :: l) cmp n =
    if decide (name x = n) then Some 0%nat else S <$> array_search l cmp n.
Proof.
  unfold array_search. cbn [list_find]. destruct (decide (name x = n)) as [E|E].
  - rewrite decide_True; [done|]. rewrite cmp_name. by apply bool_decide_eq_true.
  - rewrite decide_False by (rewrite cmp_name; by rewrite bool_decide_eq_true).
    by destruct (list_find _ l) as [[]|].
Qed.

Lemma array_search_spec l n :
  match array_search l cmp n with
  | Some i => exists x, l !! i = Some x /\ name x = n /\ first_named l n = Some x /\
      forall x' n', name x' = name x ->
        first_named (<[i := x']> l) n' = if decide (n' = n) then Some x' else first_named l n'
  | None => first_named l n = None
  end.
Proof.
  induction l as [|x l IH]; [done|]. rewrite array_search_cons. simpl.
  destruct (decide (name x = n)) as [E|E].
  - exists x. split_and!; try done. intros x' n' Hx. simpl. rewrite Hx, E.
    repeat case_decide; congruence.
  - destruct (array_search l cmp n) as [i|]; [|done]. simpl.
    destruct IH as (y & Hy & Hn & Hf & Hupd). exists y. split_and!; try done.
    intros x' n' Hx. rewrite Hupd by done. repeat case_decide; congruence.
Qed.

Lemma first_named_snoc l x n :
  first_named (l ++ [x]) n =
    match first_named l n with Some y => Some y | None => if decide (name x = n) then Some x else None end.
Proof. induction l as [|y l IH]; simpl; [done|]. by destruct (decide (name y = n)). Qed.

Lemma first_named_None l n : first_named l n = None <-> n ∉ name <$> l.
Proof.
  induction l as [|x l IH]; simpl; [split; [intros _ ?%elem_of_nil; done|done]|].
  rewrite elem_of_cons. case_decide as E; [split; [done|intros []; by left]|].
  rewrite IH. split; [intros H [?|?]; [congruence|done]|tauto].
Qed.

Lemma first_named_Some l x : NoDup (name <$> l) -> x ∈ l -> first_named l (name x) = Some x.
Proof.
  induction l as [|y l IH]; simpl; [by intros _ ?%elem_of_nil|]. intros [Hy Hl]%list.NoDup_cons [->|Hx]%elem_of_cons.
  - by rewrite decide_True.
  - rewrite decide_False; [auto|]. intros E. apply Hy. rewrite E. by apply list_elem_of_fmap_2.
Qed.

Lemma first_named_elem l n x : first_named l n = Some x -> x ∈ l /\ name x = n.
Proof.
  induction l as [|y l IH]; simpl; [done|]. case_decide as E.
  - intros [= ->]. split; [by left|done].
  - intros [??]%IH. split; [by right|done].
Qed.

End named.

(** ** The store as a finite map *)

Abbreviation cmap := (gmap (string * string) a6o_conf_value).

Definition section_named (conf : a6o_conf) (s : string) : option section_entry :=
  first_named s_section (sections conf) s.
Definition key_named (sec : section_entry) (k : string) : option key_entry :=
  first_named k_key (s_keys sec) k.

Lemma section_get_spec conf s :
  match section_entry_get conf s with
  | Some i => exists sec, sections conf !! i = Some sec /\ s_section sec = s /\
      section_named conf s = Some sec /\
      forall sec' s', s_section sec' = s_section sec ->
        section_named {| sections := <[i := sec']> (sections conf) |} s' =
          if decide (s' = s) then Some sec' else section_named conf s'
  | None => section_named conf s = None
  end.
Proof. exact (array_search_spec s_section section_entry_cmp (fun _ _ => eq_refl) (sections conf) s). Qed.

Lemma key_get_sect_spec sec k :
  match key_entry_get_sect sec k with
  | Some j => exists ke, s_keys sec !! j = Some ke /\ k_key ke = k /\ key_named sec k = Some ke /\
      forall ke' k', k_key ke' = k_key ke ->
        key_named {| s_section := s_section sec; s_keys := <[j := ke']> (s_keys sec) |} k' =
          if decide (k' = k) then Some ke' else key_named sec k'
  | None => key_named sec k = None
  end.
Proof. exact (array_search_spec k_key key_entry_cmp (fun _ _ => eq_refl) (s_keys sec) k). Qed.

Lemma key_value_named conf s k :
  key_value conf s k = (sec ← section_named conf s; ke ← key_named sec k; Some (k_value ke)).
Proof.
  unfold key_value, key_entry_get. pose proof (section_get_spec conf s) as Hs.
  destruct (section_entry_get conf s) as [i|]; [|by rewrite Hs].
  destruct Hs as (sec & Hi & _ & -> & _). simpl. rewrite Hi. simpl.
  pose proof (key_get_sect_spec sec k) as Hk.
  destruct (key_entry_get_sect sec k) as [j|]; [|by rewrite Hk].
  destruct Hk as (ke & Hj & _ & -> & _). simpl. unfold entry_value. simpl. by rewrite Hi; simpl; rewrite Hj.
Qed.

Definition conf_rep (conf : a6o_conf) (m : cmap) : Prop :=
  forall s k, key_value conf s k = m !! (s, k).

(** Assigning through the pointer found for a key. *)
Lemma entry_set_rep conf m s k p v :
  conf_rep conf m -> key_entry_get conf s k = Some p ->
  entry_value conf p = m !! (s, k) /\ is_Some (m !! (s, k)) /\
  conf_rep (entry_set conf p v) (<[(s, k) := v]> m).
Proof.
  intros Hrep Hp. assert (entry_value conf p = m !! (s, k)) as Hv.
  { rewrite <- Hrep. unfold key_value. by rewrite Hp. }
  split; [done|]. unfold key_entry_get in Hp.
  pose proof (section_get_spec conf s) as Hs.
  destruct (section_entry_get conf s) as [i|]; [|done]. simpl in Hp.
  destruct Hs as (sec & Hi & Hname & Hsec & Hupd). rewrite Hi in Hp. simpl in Hp.
  pose proof (key_get_sect_spec sec k) as Hk.
  destruct (key_entry_get_sect sec k) as [j|]; [|done]. simpl in Hp. injection Hp as <-.
  destruct Hk as (ke & Hj & Hkn & Hkey & Hkupd).
  split; [rewrite <- Hv; unfold entry_value; simpl; rewrite Hi; simpl; by rewrite Hj|].
  set (ke' := {| k_key := k_key ke; k_value := v |}).
  set (sec' := {| s_section := s_section sec; s_keys := <[j := ke']> (s_keys sec) |}).
  assert (entry_set conf (i, j) v = {| sections := <[i := sec']> (sections conf) |}) as ->.
  { unfold entry_set. simpl. rewrite (alter_found _ _ _ sec Hi). by rewrite (alter_found _ _ _ ke Hj). }
  intros s' k'. rewrite key_value_named, (Hupd sec') by done.
  destruct (decide (s' = s)) as [->|].
  - simpl. unfold sec'. rewrite Hkupd by done. destruct (decide (k' = k)) as [->|].
    + by rewrite lookup_insert_eq.
    + rewrite lookup_insert_ne by congruence. by rewrite <- Hrep, key_value_named, Hsec.
  - rewrite lookup_insert_ne by congruence. by rewrite <- Hrep, key_value_named.
Qed.

(** What adding a key that does not exist does to the arrays. *)
Definition add_key (sec : section_entry) (k : string) (v : a6o_conf_value) : section_entry :=
  {| s_section := s_section sec; s_keys := s_keys sec ++ [KeyEntry k v] |}.

Definition add_entry (conf : a6o_conf) (s k : string) (v : a6o_conf_value) : a6o_conf :=
  {| sections :=
       match section_entry_get conf s with
       | Some i => alter (fun sec => add_key sec k v) i (sections conf)
       | None => sections conf ++ [{| s_section := s; s_keys := [KeyEntry k v] |}]
       end |}.

Lemma alter_new_key l k v :
  alter (fun ke => {| k_key := k_key ke; k_value := v |}) (length l) (l ++ [key_entry_new k]) =
  l ++ [KeyEntry k v].
Proof. by rewrite alter_app_r_alt, Nat.sub_diag by lia. Qed.

Lemma conf_add_eq conf s k (new : outcome a6o_conf_value) :
  conf_add conf s k new =
    match key_value conf s k with
    | Some _ => Ok (1, conf)
    | None => v ← new; Ok (0, add_entry conf s k v)
    end.
Proof.
  rewrite key_value_named. unfold conf_add, key_entry_add, add_entry.
  pose proof (section_get_spec conf s) as Hs.
  destruct (section_entry_get conf s) as [i|] eqn:Ei.
  - destruct Hs as (sec & Hi & _ & -> & _). rewrite Hi. simpl.
    pose proof (key_get_sect_spec sec k) as Hk.
    destruct (key_entry_get_sect sec k) as [j|] eqn:Ej.
    { destruct Hk as (ke & _ & _ & -> & _). done. }
    rewrite Hk. simpl. destruct new as [v|f]; simpl; [|done]. do 2 f_equal.
    unfold entry_set. simpl. f_equal.
    rewrite (alter_found _ _ (sections conf) sec Hi).
    rewrite (alter_found _ _ _ _ (list_lookup_insert_eq _ _ _ (lookup_lt_Some _ _ _ Hi))).
    rewrite list_insert_insert_eq. simpl. unfold add_key. by rewrite alter_new_key.
  - rewrite Hs. simpl. rewrite lookup_app_r, Nat.sub_diag by lia. simpl.
    destruct new as [v|f]; simpl; [|done]. do 2 f_equal. unfold entry_set. simpl. f_equal.
    rewrite insert_app_r_alt by lia. rewrite Nat.sub_diag. simpl.
    by rewrite alter_app_r_alt, Nat.sub_diag by lia.
Qed.

Lemma key_named_add sec k v k' :
  key_named sec k = None ->
  key_named (add_key sec k v) k' = if decide (k' = k) then Some (KeyEntry k v) else key_named sec k'.
Proof.
  intros Hk. unfold key_named in *. simpl. rewrite first_named_snoc.
  destruct (decide (k' = k)) as [->|].
  - rewrite Hk. simpl. by case_decide.
  - destruct (first_named k_key (s_keys sec) k'); [done|]. simpl. case_decide; congruence.
Qed.

Lemma add_entry_rep conf m s k v :
  conf_rep conf m -> m !! (s, k) = None -> conf_rep (add_entry conf s k v) (<[(s, k) := v]> m).
Proof.
  intros Hrep Hm s' k'. rewrite key_value_named. unfold add_entry.
  pose proof (Hrep s k) as Hsk. rewrite Hm, key_value_named in Hsk.
  pose proof (section_get_spec conf s) as Hs.
  destruct (section_entry_get conf s) as [i|].
  - destruct Hs as (sec & Hi & Hname & Hsec & Hupd). rewrite Hsec in Hsk. simpl in Hsk.
    assert (key_named sec k = None) as Hk by (by destruct (key_named sec k)).
    rewrite (alter_found _ _ _ sec Hi), (Hupd (add_key sec k v)) by done.
    destruct (decide (s' = s)) as [->|]; simpl.
    + rewrite key_named_add by done. destruct (decide (k' = k)) as [->|].
      * by rewrite lookup_insert_eq.
      * rewrite lookup_insert_ne by congruence. by rewrite <- Hrep, key_value_named, Hsec.
    + rewrite lookup_insert_ne by congruence. by rewrite <- Hrep, key_value_named.
  - unfold section_named in *. simpl. rewrite first_named_snoc. simpl.
    destruct (decide (s' = s)) as [->|].
    + rewrite Hs, decide_True by done. unfold key_named. simpl. destruct (decide (k' = k)) as [->|].
      * by rewrite decide_True, lookup_insert_eq.
      * rewrite decide_False, lookup_insert_ne by congruence. rewrite <- Hrep, key_value_named.
        unfold section_named. by rewrite Hs.
    + rewrite lookup_insert_ne by congruence. rewrite <- Hrep, key_value_named. unfold section_named.
      destruct (first_named s_section (sections conf) s'); [done|]. case_decide; congruence.
Qed.
