(* ===== verification/ConfSave.v ===== *)
(** * A saved configuration loads back

    The bytes written by [a6o_conf_save_file] are scanned, parsed and re-added. *)
From S2P Require Import Prelude ConfVal ConfParser ConfParserTheory ConfScan Conf ConfTheory.

#[local] Open Scope Z_scope.

(** ** Printing and reading integers *)

Lemma digit_char_spec d : 0 <= d < 10 -> isdigit (digit_char d) = true /\ uchar (digit_char d) - 48 = d.
Proof.
  intros Hd. assert (uchar (digit_char d) = 48 + d) as E.
  { unfold uchar, digit_char. rewrite N_ascii_embedding by lia. lia. }
  unfold isdigit. rewrite E. split; [lia|lia].
Qed.

Lemma dec_spec fuel n acc :
  0 <= n < 10 ^ Z.of_nat fuel -> (0 < fuel)%nat -> forallb isdigit acc = true ->
  forallb isdigit (dec fuel n acc) = true /\ dec fuel n acc <> [] /\
  digits_val (dec fuel n acc) 0 = digits_val acc n.
Proof.
  revert n acc. induction fuel as [|fuel IH]; intros n acc Hn Hf Hacc; [lia|]. simpl.
  destruct (digit_char_spec (n mod 10)) as [Hd Hv]; [by apply Z.mod_pos_bound|].
  assert (forallb isdigit (digit_char (n mod 10) :: acc) = true) as Hacc' by (simpl; by rewrite Hd).
  destruct (Z.ltb_spec n 10).
  - split; [done|]. split; [done|]. cbn [digits_val]. rewrite Hd, Hv. f_equal. rewrite Z.mod_small; lia.
  - rewrite Nat2Z.inj_succ, Z.pow_succ_r in Hn by lia.
    destruct (IH (n / 10) (digit_char (n mod 10) :: acc)) as (? & ? & ->); try done.
    + split; [apply Z.div_pos; lia|apply Z.div_lt_upper_bound; lia].
    + destruct fuel; [simpl in Hn; lia|lia].
    + split; [done|]. split; [done|]. cbn [digits_val]. rewrite Hd, Hv. f_equal.
      pose proof (Z_div_mod_eq_full n 10). lia.
Qed.

Lemma print_int_spec z :
  0 <= z < 2 ^ 31 ->
  forallb isdigit (print_int z) = true /\ print_int z <> [] /\ atoi (of_bytes (print_int z)) = z.
Proof.
  intros Hz. unfold print_int. rewrite (proj2 (Z.ltb_ge _ _)) by lia.
  destruct (dec_spec 10 z []) as (H1 & H2 & H3); [simpl; lia|lia|done|].
  split; [done|]. split; [done|]. unfold atoi. rewrite bytes_of_bytes, H3. cbn [digits_val].
  unfold LONG_MAX. rewrite Z.min_l by lia. apply i32_small. lia.
Qed.

(** ** What can be saved and read back *)

Definition has_nul (s : string) : bool := existsb (fun c => (c =? "000")%char) (bytes s).

(** A string between double quotes. *)
Definition quotable (s : string) : bool := forallb not_quote (bytes s) && negb (has_nul s).

Definition saveable_value (v : a6o_conf_value) : bool :=
  match v with
  | CvInt z => (0 <=? z) && (z <? 2 ^ 31)
  | CvString (Some s) => quotable s
  | CvList (s1 :: s2 :: l) => forallb quotable (s1 :: s2 :: l)
  | _ => false
  end.

Definition saveable_key (ke : key_entry) : bool :=
  is_name (bytes (k_key ke)) && saveable_value (k_value ke).

Definition saveable_section (sec : section_entry) : bool :=
  is_name (bytes (s_section sec)) && forallb saveable_key (s_keys sec).

Definition saveable (conf : a6o_conf) : bool := forallb saveable_section (sections conf).

Lemma no_nul_c_string s : has_nul s = false -> c_string (bytes s) = s.
Proof.
  intros H. apply c_string_bytes. intros Hin. unfold has_nul in H.
  apply not_true_iff_false in H. apply H. apply existsb_exists.
  exists "000"%char. split; [by apply list_elem_of_In|done].
Qed.

Lemma quotable_spec s : quotable s = true -> forallb not_quote (bytes s) = true /\ c_string (bytes s) = s.
Proof.
  unfold quotable. intros [H1 H2]%andb_true_iff. split; [done|].
  apply no_nul_c_string. by destruct (has_nul s).
Qed.

Lemma identifiers_c_string w : forallb is_identifier w = true -> c_string w = of_bytes w.
Proof.
  induction w as [|c w IH]; simpl; [done|]. intros [Hc Hw]%andb_true_iff. rewrite IH by done.
  case_match eqn:E; [|done]. apply Ascii.eqb_eq in E. by subst c.
Qed.

Lemma digits_c_string w : forallb isdigit w = true -> c_string w = of_bytes w.
Proof.
  induction w as [|c w IH]; simpl; [done|]. intros [Hc Hw]%andb_true_iff. rewrite IH by done.
  case_match eqn:E; [|done]. apply Ascii.eqb_eq in E. by subst c.
Qed.

Lemma first_identifier_identifier c : is_first_identifier c = true -> is_identifier c = true.
Proof. unfold is_first_identifier, is_identifier, isalnum. by destruct (isalpha c), (c =? "_")%char, (isdigit c), (c =? "-")%char. Qed.

Lemma name_spec s : is_name (bytes s) = true -> c_string (bytes s) = s.
Proof.
  intros H. rewrite identifiers_c_string; [apply of_bytes_bytes|].
  destruct (bytes s) as [|c w]; [done|]. simpl in *. apply andb_true_iff in H as [H1 H2].
  by rewrite (first_identifier_identifier c H1), H2.
Qed.

(** ** The document behind a store *)

Definition syntax_of (v : a6o_conf_value) : value_syntax :=
  match v with
  | CvInt z => VInt (of_bytes (print_int z))
  | CvString (Some s) => VStr s []
  | CvList (s :: l) => VStr s ((fun x => (false, x)) <$> l)
  | _ => VStr "" []
  end.

Definition defs_of (l : list key_entry) : list (string * value_syntax) :=
  (fun ke => (k_key ke, syntax_of (k_value ke))) <$> l.

Definition doc_of (l : list section_entry) : doc :=
  (fun sec => (s_section sec, defs_of (s_keys sec))) <$> l.

Lemma denote_syntax_of v : saveable_value v = true -> denote (syntax_of v) = v.
Proof.
  destruct v as [|z|[s|]|[|s1 [|s2 l]]]; simpl; try done.
  - intros H. f_equal. apply print_int_spec. lia.
  - intros _. do 3 f_equal. rewrite <- list_fmap_compose. apply list_fmap_id.
Qed.

(** ** The saved text *)

Definition key_text (ke : key_entry) : list ascii :=
  bytes (k_key ke +:+ " =") ++ save_value (k_value ke) ++ [newline].

Definition section_text (sec : section_entry) : list ascii :=
  newline :: bytes ("[" +:+ s_section sec +:+ "]") ++ [newline; newline] ++
  flat_map key_text (s_keys sec).

Lemma save_keys s keys f :
  fold_left (fun u k => conf_save_fun s (k_key k) (k_value k) u) keys {| save_f := f; save_p := Some s |} =
  {| save_f := f ++ flat_map key_text keys; save_p := Some s |}.
Proof.
  revert f. induction keys as [|k keys IH]; intros f; simpl; [by rewrite app_nil_r|].
  unfold conf_save_fun at 2. rewrite bool_decide_eq_true_2 by done. simpl. rewrite IH.
  unfold key_text at 2. by rewrite <- !app_assoc.
Qed.

Lemma save_section sec f p :
  s_keys sec <> [] -> p <> Some (s_section sec) ->
  fold_left (fun u k => conf_save_fun (s_section sec) (k_key k) (k_value k) u) (s_keys sec)
    {| save_f := f; save_p := p |} =
  {| save_f := f ++ section_text sec; save_p := Some (s_section sec) |}.
Proof.
  intros Hne Hp. unfold section_text. destruct (s_keys sec) as [|k keys]; [done|].
  cbn [fold_left flat_map]. unfold conf_save_fun at 2. rewrite bool_decide_eq_false_2 by done.
  cbn [save_f save_p]. rewrite save_keys. f_equal. unfold key_text at 2.
  rewrite <- !app_assoc. f_equal. simpl. by rewrite <- !app_assoc.
Qed.

Lemma save_sections l f p :
  NoDup (s_section <$> l) -> Forall (fun sec => s_keys sec <> []) l ->
  (forall s, p = Some s -> s ∉ s_section <$> l) ->
  save_f (a6o_conf_apply {| sections := l |} conf_save_fun {| save_f := f; save_p := p |}) =
  f ++ flat_map section_text l.
Proof.
  unfold a6o_conf_apply. simpl. revert f p.
  induction l as [|sec l IH]; intros f p Hnd Hne Hp; simpl; [by rewrite app_nil_r|].
  apply list.Forall_cons in Hne as [Hne1 Hne]. destruct (proj1 (list.NoDup_cons _ _) Hnd) as [Hnot Hnd'].
  rewrite save_section; [|done|].
  - rewrite (IH _ _ Hnd' Hne); [by rewrite <- app_assoc|]. intros s [= <-]. exact Hnot.
  - intros E. apply (Hp _ E). apply list_elem_of_here.
Qed.

(** ** Scanning the saved text *)

Lemma scan_loop_mono fuel s st prev r :
  scan_loop fuel s st prev = Ok r -> scan_loop (S fuel) s st prev = Ok r.
Proof.
  revert s st. induction fuel as [|fuel IH]; intros s st H; [done|].
  remember (S fuel) as fuel'. simpl. rewrite Heqfuel' in H. simpl in H. subst fuel'.
  destruct (scanner_getc s) as [[c|] s']; [|done].
  destruct st; repeat case_match; auto.
Qed.

Lemma lexes_newline prev input l :
  prev <> TOKEN_EQUAL_SIGN -> lexes prev input l -> lexes prev (newline :: input) l.
Proof.
  intros Hprev H s Hin.
  destruct (getc_cons (with_text s []) newline input Hin) as (s1 & Eg & Hi & Ht). simpl in Ht.
  assert (with_text s1 [] = s1) as Es1 by (rewrite <- Ht; by destruct s1).
  assert (forall r, scanner_get_next_token s1 prev = Ok r -> scanner_get_next_token s prev = Ok r) as Hstep.
  { intros r Hr. unfold scanner_get_next_token in *. rewrite Es1 in Hr.
    apply scan_loop_mono in Hr. unfold scan_fuel in *. rewrite Hin. rewrite Hi in Hr.
    replace (2 * length (newline :: input) + 2)%nat with (S (S (2 * length input + 2)))
      by (cbn [length]; lia).
    revert Hr. generalize (S (2 * length input + 2)) as fuel. intros fuel Hr.
    simpl. rewrite Eg. simpl. by rewrite bool_decide_eq_false_2. }
  pose proof (H s1 Hi) as Hy. inversion Hy; subst.
  - eapply yields_eof, Hstep. eassumption.
  - eapply yields_tok; [by apply Hstep|done|done].
Qed.

(** Text after any complete definition. *)
Definition lexes_any (input : list ascii) (l : list tok) : Prop :=
  forall prev, prev <> TOKEN_EQUAL_SIGN -> lexes prev input l.

Lemma lexes_any_newline input l : lexes_any input l -> lexes_any (newline :: input) l.
Proof. intros H prev Hprev. by apply lexes_newline, H. Qed.

Lemma lexes_quoted prev s rest l :
  quotable s = true -> lexes_any rest l ->
  lexes prev ((" "%char :: dquote :: bytes s ++ [dquote]) ++ rest) ((TOKEN_STRING, s) :: l).
Proof.
  intros [Hq Hs]%quotable_spec Hl.
  replace (TOKEN_STRING, s) with (scan_tok TOKEN_STRING (bytes s)) by (unfold scan_tok; by rewrite Hs).
  apply lexes_cons; [|done|by apply Hl].
  apply tokenizes_space; [done|]. by apply tokenizes_quoted.
Qed.

Lemma lexes_list_rest xs rest l :
  forallb quotable xs = true -> lexes_any rest l ->
  lexes_any (flat_map (fun s => bytes "; " ++ [dquote] ++ bytes s ++ [dquote]) xs ++ rest)
    (more_tokens ((fun x => (false, x)) <$> xs) ++ l).
Proof.
  intros Hq Hl. induction xs as [|x xs IH]; [done|].
  apply andb_true_iff in Hq as [Hx Hq]. intros prev Hprev.
  cbn [flat_map fmap list_fmap more_tokens]. rewrite <- !app_assoc.
  apply (lexes_cons prev [";"%char] TOKEN_SEMI_COLON [";"%char]); [by apply tokenizes_char|done|].
  pose proof (lexes_quoted TOKEN_SEMI_COLON x _ _ Hx (IH Hq)) as H.
  simpl in H |- *. rewrite <- app_assoc in H. exact H.
Qed.

Lemma save_list_cons s l :
  save_list (s :: l) = (" "%char :: dquote :: bytes s ++ [dquote]) ++
    flat_map (fun s => bytes "; " ++ [dquote] ++ bytes s ++ [dquote]) l.
Proof. cbn [save_list]. cbn [app]. by rewrite <- app_assoc. Qed.

Lemma lexes_value v rest l :
  saveable_value v = true -> lexes_any rest l ->
  lexes TOKEN_EQUAL_SIGN (save_value v ++ newline :: rest) (value_tokens (syntax_of v) ++ l).
Proof.
  intros Hv Hl. destruct v as [|z|[s|]|[|s1 [|s2 xs]]]; try done.
  - simpl in Hv. destruct (print_int_spec z) as (Hd & Hne & _); [lia|].
    cbn [syntax_of value_tokens app save_value]. rewrite app_comm_cons.
    replace (TOKEN_INTEGER, of_bytes (print_int z)) with (scan_tok TOKEN_INTEGER (print_int z))
      by (unfold scan_tok; by rewrite digits_c_string).
    apply lexes_cons; [|done|by apply lexes_any_newline].
    destruct (print_int z) as [|c w] eqn:E; [done|].
    assert (isspace c = false).
    { simpl in Hd. apply andb_true_iff in Hd as [Hc _]. revert Hc. unfold isdigit, isspace. lia. }
    apply tokenizes_space; [done|]. by apply tokenizes_digits.
  - cbn [syntax_of value_tokens more_tokens flat_map app save_value print_string].
    by apply (lexes_quoted _ s (newline :: rest) l), lexes_any_newline.
  - change (forallb quotable (s1 :: s2 :: xs) = true) in Hv.
    apply andb_true_iff in Hv as [H1 H2].
    cbn [syntax_of value_tokens save_value]. rewrite save_list_cons, <- app_assoc.
    apply lexes_quoted; [done|]. apply lexes_list_rest; [done|]. by apply lexes_any_newline.
Qed.

Lemma lexes_key ke rest l :
  saveable_key ke = true -> lexes_any rest l ->
  lexes_any (key_text ke ++ rest) (definition_tokens (k_key ke, syntax_of (k_value ke)) ++ l).
Proof.
  unfold saveable_key. intros [Hk Hv]%andb_true_iff Hl prev Hprev.
  unfold key_text, definition_tokens. cbn [fst snd]. rewrite bytes_app, <- !app_assoc.
  replace (TOKEN_STRING, k_key ke) with (scan_tok TOKEN_STRING (bytes (k_key ke)))
    by (unfold scan_tok; by rewrite name_spec).
  change ((scan_tok TOKEN_STRING (bytes (k_key ke)) :: (TOKEN_EQUAL_SIGN, "") ::
    value_tokens (syntax_of (k_value ke))) ++ l)
    with (scan_tok TOKEN_STRING (bytes (k_key ke)) :: scan_tok TOKEN_EQUAL_SIGN ["="%char] ::
    (value_tokens (syntax_of (k_value ke)) ++ l)).
  apply lexes_cons; [by apply tokenizes_name|done|].
  apply (lexes_cons _ (bytes " =")); [by apply tokenizes_space, tokenizes_char|done|].
  by apply lexes_value.
Qed.

Lemma lexes_keys keys rest l :
  forallb saveable_key keys = true -> lexes_any rest l ->
  lexes_any (flat_map key_text keys ++ rest) (flat_map definition_tokens (defs_of keys) ++ l).
Proof.
  intros Hk Hl. induction keys as [|k keys IH]; [done|].
  apply andb_true_iff in Hk as [Hk Hks]. cbn [flat_map defs_of fmap list_fmap].
  rewrite <- !app_assoc. apply lexes_key; [done|]. by apply IH.
Qed.

Lemma lexes_section sec rest l :
  saveable_section sec = true -> lexes_any rest l ->
  lexes_any (section_text sec ++ rest) (section_tokens (s_section sec, defs_of (s_keys sec)) ++ l).
Proof.
  unfold saveable_section. intros [Hn Hk]%andb_true_iff Hl. unfold section_text, section_tokens.
  cbn [fst snd app]. apply lexes_any_newline. intros prev Hprev.
  rewrite !bytes_app. cbn [bytes app]. rewrite <- !app_assoc. cbn [app].
  apply (lexes_cons prev ["["%char] TOKEN_LEFT_BRACE ["["%char]); [by apply tokenizes_char|done|].
  replace (TOKEN_STRING, s_section sec) with (scan_tok TOKEN_STRING (bytes (s_section sec)))
    by (unfold scan_tok; by rewrite name_spec).
  apply lexes_cons; [by apply tokenizes_name|done|].
  apply (lexes_cons TOKEN_STRING ["]"%char] TOKEN_RIGHT_BRACE ["]"%char]); [by apply tokenizes_char|done|].
  apply lexes_any_newline; [|done]. apply lexes_any_newline. by apply lexes_keys.
Qed.

Lemma lexes_sections secs :
  forallb saveable_section secs = true ->
  lexes_any (flat_map section_text secs) (doc_tokens (doc_of secs)).
Proof.
  unfold doc_tokens. induction secs as [|sec secs IH].
  - intros _ prev Hprev. by apply (lexes_end prev 0).
  - intros [Hs Hss]%andb_true_iff. cbn [flat_map doc_of fmap list_fmap].
    rewrite <- app_assoc. apply lexes_section; [done|]. by apply IH.
Qed.

(** ** Re-adding every key rebuilds the store *)

Lemma section_get_app pre name keys :
  name ∉ s_section <$> pre ->
  section_entry_get {| sections := pre ++ [SectionEntry name keys] |} name = Some (length pre).
Proof.
  intros Hn. unfold section_entry_get. simpl. induction pre as [|x pre IH]; simpl.
  - rewrite (array_search_cons s_section section_entry_cmp (fun _ _ => eq_refl)). by rewrite decide_True.
  - rewrite (array_search_cons s_section section_entry_cmp (fun _ _ => eq_refl)).
    simpl in Hn. rewrite not_elem_of_cons in Hn. destruct Hn as [Hx Hn]. rewrite decide_False by (intros E; by apply Hx).
    by rewrite IH.
Qed.

Lemma section_named_app pre name keys :
  name ∉ s_section <$> pre ->
  section_named {| sections := pre ++ [SectionEntry name keys] |} name = Some (SectionEntry name keys).
Proof.
  intros Hn. unfold section_named. simpl. rewrite first_named_snoc.
  rewrite (proj2 (first_named_None s_section pre name)) by done. by rewrite decide_True.
Qed.

Lemma add_key_last pre name keys k v :
  name ∉ s_section <$> pre -> k ∉ k_key <$> keys ->
  conf_add {| sections := pre ++ [SectionEntry name keys] |} name k (Ok v) =
    Ok (0, {| sections := pre ++ [SectionEntry name (keys ++ [KeyEntry k v])] |}).
Proof.
  intros Hn Hk. rewrite conf_add_eq, key_value_named, section_named_app by done. simpl.
  unfold key_named. simpl. rewrite (proj2 (first_named_None k_key keys k)) by done. simpl.
  unfold add_entry. rewrite section_get_app by done. simpl.
  by rewrite alter_app_r_alt, Nat.sub_diag by lia.
Qed.

Lemma add_section_last pre name k v :
  name ∉ s_section <$> pre ->
  conf_add {| sections := pre |} name k (Ok v) =
    Ok (0, {| sections := pre ++ [SectionEntry name [KeyEntry k v]] |}).
Proof.
  intros Hn. rewrite conf_add_eq, key_value_named. unfold add_entry.
  pose proof (section_get_spec {| sections := pre |} name) as Hs.
  assert (section_named {| sections := pre |} name = None) as E
    by (unfold section_named; by apply first_named_None).
  rewrite E. destruct (section_entry_get _ name) as [i|]; [|done].
  destruct Hs as (sec & _ & _ & ? & _). congruence.
Qed.

Lemma saveable_copy v : saveable_value v = true -> a6o_conf_value_set v = Ok v.
Proof. intros H. apply conf_value_set_copy. destruct v; simpl in *; [done|lia|done|done]. Qed.

Lemma load_saveable s k v conf :
  saveable_value v = true ->
  conf_load_parser_cb s k (denote (syntax_of v)) conf = conf_add conf s k (Ok v).
Proof.
  intros H. unfold conf_load_parser_cb, a6o_conf_add_value. by rewrite denote_syntax_of, saveable_copy.
Qed.

Lemma run_keys pre name done_ keys :
  name ∉ s_section <$> pre -> NoDup (k_key <$> (done_ ++ keys)) ->
  forallb saveable_key keys = true ->
  run_defs conf_load_parser_cb name (defs_of keys) {| sections := pre ++ [SectionEntry name done_] |} =
    Ok ({| sections := pre ++ [SectionEntry name (done_ ++ keys)] |}, true).
Proof.
  intros Hn. revert done_. induction keys as [|[k v] keys IH]; intros done_ Hnd Hsv; simpl.
  { by rewrite app_nil_r. }
  apply andb_true_iff in Hsv as [Hkv Hsv]. unfold saveable_key in Hkv.
  apply andb_true_iff in Hkv as [_ Hv]. simpl in Hv.
  rewrite load_saveable by done. rewrite add_key_last; [|done|].
  - simpl. rewrite IH; [by rewrite <- app_assoc|by rewrite <- app_assoc|done].
  - rewrite fmap_app in Hnd. apply list.NoDup_app in Hnd as (_ & Hd & _). intros Hin.
    apply (Hd k Hin). simpl. apply list_elem_of_here.
Qed.

Lemma run_sections pre secs :
  NoDup (s_section <$> (pre ++ secs)) ->
  Forall (fun sec => s_keys sec <> [] /\ NoDup (k_key <$> s_keys sec)) secs ->
  forallb saveable_section secs = true ->
  run_doc conf_load_parser_cb (doc_of secs) {| sections := pre |} =
    Ok ({| sections := pre ++ secs |}, true).
Proof.
  revert pre. induction secs as [|[name keys] secs IH]; intros pre Hnd Hk Hsv; simpl.
  { by rewrite app_nil_r. }
  apply list.Forall_cons in Hk as [[Hne Hkn] Hk]. simpl in Hne, Hkn.
  apply andb_true_iff in Hsv as [Hs Hsv]. unfold saveable_section in Hs.
  apply andb_true_iff in Hs as [_ Hks]. simpl in Hks.
  assert (name ∉ s_section <$> pre) as Hn.
  { rewrite fmap_app in Hnd. apply list.NoDup_app in Hnd as (_ & Hd & _). intros Hin.
    apply (Hd name Hin). simpl. apply list_elem_of_here. }
  assert (run_defs conf_load_parser_cb name (defs_of keys) {| sections := pre |} =
    Ok ({| sections := pre ++ [SectionEntry name keys] |}, true)) as ->.
  { destruct keys as [|[k v] keys]; [done|]. simpl in Hks |- *.
    apply andb_true_iff in Hks as [Hkv Hks]. unfold saveable_key in Hkv.
    apply andb_true_iff in Hkv as [_ Hv]. simpl in Hv.
    rewrite load_saveable, add_section_last by done. simpl. by rewrite (run_keys pre name [KeyEntry k v] keys). }
  simpl. rewrite IH; [by rewrite <- app_assoc|by rewrite <- app_assoc|done|done].
Qed.
