(* ===== verification/ConfSpec.v ===== *)
(** * What the configuration code promises

    The theorems on the parser, the store, loading and saving. *)
From S2P Require Import Prelude ConfVal ConfParser ConfParserTheory ConfScan Conf ConfTheory ConfSave.

#[local] Open Scope Z_scope.

(** ** The array invariant *)

Record conf_ok (conf : a6o_conf) : Prop := {
  ok_sections : NoDup (s_section <$> sections conf);
  ok_keys : Forall (fun sec => s_keys sec <> [] /\ NoDup (k_key <$> s_keys sec)) (sections conf);
}.

Lemma conf_ok_new : conf_ok a6o_conf_new.
Proof. split; [apply base.NoDup_nil_2|constructor]. Qed.

Lemma add_entry_ok conf s k v :
  conf_ok conf -> key_value conf s k = None -> conf_ok (add_entry conf s k v).
Proof.
  intros [Hs Hk] Hnew. rewrite key_value_named in Hnew. unfold add_entry.
  pose proof (section_get_spec conf s) as Hget.
  destruct (section_entry_get conf s) as [i|].
  - destruct Hget as (sec & Hi & Hname & Hsec & _). rewrite Hsec in Hnew. simpl in Hnew.
    rewrite (alter_found _ _ _ sec Hi).
    assert (s_section <$> <[i := add_key sec k v]> (sections conf) = s_section <$> sections conf) as E.
    { rewrite list_fmap_insert. simpl. apply list_insert_id. by rewrite list_lookup_fmap, Hi. }
    split; simpl; [by rewrite E|]. apply Forall_insert; [done|].
    rewrite Forall_lookup in Hk. destruct (Hk i sec Hi) as [Hne Hnd]. unfold add_key. simpl.
    split; [by destruct (s_keys sec)|]. rewrite fmap_app. apply list.NoDup_app.
    split; [done|]. split; [|apply list.NoDup_singleton].
    intros x Hx Hx'. simpl in Hx'. apply list_elem_of_singleton in Hx' as ->.
    assert (key_named sec k = None) as Hkn by (by destruct (key_named sec k)).
    by apply (first_named_None k_key (s_keys sec) k) in Hkn.
  - assert (s ∉ s_section <$> sections conf) as Hnot by (by apply first_named_None).
    split; simpl.
    + rewrite fmap_app. apply list.NoDup_app. split; [done|]. split; [|apply list.NoDup_singleton].
      intros x Hx Hx'. simpl in Hx'. by apply list_elem_of_singleton in Hx' as ->.
    + apply Forall_app_2; [done|]. constructor; [|done]. simpl.
      split; [done|]. apply list.NoDup_singleton.
Qed.

Lemma add_entry_keeps conf s k v s' k' w :
  key_value conf s k = None -> key_value conf s' k' = Some w ->
  key_value (add_entry conf s k v) s' k' = Some w.
Proof.
  intros Hnew Hold.
  rewrite key_value_named in *. unfold add_entry.
  pose proof (section_get_spec conf s) as Hget.
  destruct (section_entry_get conf s) as [i|].
  - destruct Hget as (sec & Hi & Hname & Hsec & Hupd). rewrite Hsec in Hnew. simpl in Hnew.
    assert (key_named sec k = None) as Hkn by (by destruct (key_named sec k)).
    rewrite (alter_found _ _ _ sec Hi), (Hupd (add_key sec k v)) by done.
    destruct (decide (s' = s)) as [->|]; [|done]. rewrite Hsec in Hold. simpl in *.
    rewrite key_named_add by done. destruct (decide (k' = k)) as [->|]; [|done].
    by rewrite Hkn in Hold.
  - unfold section_named in *. simpl. rewrite first_named_snoc.
    destruct (first_named s_section (sections conf) s'); done.
Qed.

Lemma set_total v : exists v', a6o_conf_value_set v = Ok v'.
Proof. destruct v as [| | |l]; simpl; eauto. rewrite set_list_all. eauto. Qed.

(** The callback given to the parser never faults and only adds keys. *)
Lemma load_cb_spec s k v conf :
  exists r conf', conf_load_parser_cb s k v conf = Ok (r, conf') /\
    (conf_ok conf -> conf_ok conf') /\
    (forall s' k' w, key_value conf s' k' = Some w -> key_value conf' s' k' = Some w).
Proof.
  unfold conf_load_parser_cb, a6o_conf_add_value. rewrite conf_add_eq.
  destruct (key_value conf s k) as [w|] eqn:E; [by exists 1, conf|].
  destruct (set_total v) as [v' ->]. simpl. exists 0, (add_entry conf s k v'). split; [done|].
  split; [by intros; apply add_entry_ok|]. intros. by apply add_entry_keeps.
Qed.

(** ** The parser *)

(** C10: [a6o_conf_parser_parse] succeeds exactly on the files whose token stream is
    a word of the grammar documented in [conf.h] and whose definitions the
    callback all accepts; the callback then has been called once per definition, in
    file order, with the section, the key and the denoted value. *)
Theorem parser_accepts_grammar {U} (callback : string -> string -> a6o_conf_value -> U -> outcome (Z * U))
    (input : list ascii) (u u' : U) :
  a6o_conf_parser_parse callback (Some input) u = Ok (0, u') <->
  exists d : doc, yields TOKEN_NONE (scanner_new input) (doc_tokens d) /\
    run_doc callback d u = Ok (u', true).
Proof.
  split.
  - intros E. pose proof (parse_sound callback (fun _ => True) ltac:(done) input u I) as H.
    rewrite E in H. destruct H as [_ [?|[_ H]]]; [lia|exact H].
  - intros (d & Hy & Hd). by rewrite (parse_complete callback input d u Hy), Hd.
Qed.

(** C30: The parser terminates on every file: with a callback that returns, scanner
    loops and recursive descent all end, the result is 0 or -2, and no state outside
    the bounds given to the loops is reached. *)
Theorem parser_terminates {U} (callback : string -> string -> a6o_conf_value -> U -> outcome (Z * U))
    (Hcb : forall s k v u, is_ok (callback s k v u) = true) (input : list ascii) (u : U) :
  exists r u', a6o_conf_parser_parse callback (Some input) u = Ok (r, u') /\ (r = 0 \/ r = -2).
Proof.
  pose proof (parse_sound callback (fun _ => True) ltac:(done) input u I) as H.
  destruct (a6o_conf_parser_parse _ _ _) as [[r u']|f].
  - exists r, u'. split; [done|]. destruct H as [_ [?|[? _]]]; auto.
  - destruct H as (s & k & v & w & E). specialize (Hcb s k v w). by rewrite E in Hcb.
Qed.

Lemma parser_terminates_witness :
  exists r conf, a6o_conf_parser_parse conf_load_parser_cb (Some (bytes "[a] x = ; y ] = 3")) a6o_conf_new
                   = Ok (r, conf) /\ (r = 0 \/ r = -2).
Proof.
  apply (parser_terminates conf_load_parser_cb).
  intros s k v u. destruct (load_cb_spec s k v u) as (r & c & -> & _). reflexivity.
Defined.

Lemma lexes_unterminated w s prev :
  forallb isdigit w = true -> s_input s = " "%char :: w ->
  exists s', scanner_get_next_token s prev = Ok (TOKEN_EOF, s').
Proof.
  intros Hw Hin.
  assert (forall w acc s fuel, forallb isdigit w = true -> s_input s = w -> s_token_text s = acc ->
    (scan_measure s S_INTEGER <= fuel)%nat ->
    exists s', scan_loop fuel s S_INTEGER prev = Ok (TOKEN_EOF, s')) as Hdig.
  { clear. intros w. induction w as [|d w IH]; intros acc s fuel Hw Hin Hacc Hf.
    - destruct fuel as [|fuel]; [unfold scan_measure in Hf; lia|]. simpl.
      destruct (getc_cases s) as [(_ & s' & -> & _)|(c & rest & s' & E & _)]; [by exists s'|by rewrite Hin in E].
    - simpl in Hw. apply andb_true_iff in Hw as [Hd Hw].
      scan_step s fuel Hin Hf s1. rewrite Hd. apply (IH (acc ++ [d])); [done|done|simpl; congruence|].
      unfold scan_measure, append_c, input_length in *; simpl in *; lia. }
  unfold scanner_get_next_token, scan_fuel. rewrite Hin. cbn [length].
  replace (2 * S (length w) + 2)%nat with (S (S (S (2 * length w + 1)))) by lia.
  generalize (eq_refl : (2 * length w + 1 = 2 * length w + 1)%nat).
  generalize (2 * length w + 1)%nat at 1 3 as n. intros n Hn.
  assert (s_input (with_text s []) = " "%char :: w) as Hin' by done.
  cbn [scan_loop]. destruct (getc_cons _ _ _ Hin') as (s1 & -> & Hi & Ht). cbn.
  destruct w as [|d w].
  - destruct (getc_cases s1) as [(_ & s' & -> & _)|(c & rest & s' & E & _)]; [by exists s'|by rewrite Hi in E].
  - simpl in Hw. apply andb_true_iff in Hw as [Hd Hw].
    destruct (getc_cons _ _ _ Hi) as (s2 & -> & Hi2 & Ht2).
    assert (isspace d = false) as -> by (revert Hd; unfold isdigit, isspace; lia).
    destruct (ungetc_input s2 d) as [Hi3 Ht3].
    assert (s_input (scanner_ungetc s2 d) = d :: w) as Hi4 by congruence.
    destruct (getc_cons _ _ _ Hi4) as (s4 & -> & Hi5 & Ht5).
    destruct (digit_classes d Hd) as (-> & -> & -> & ->). rewrite Hd.
    apply (Hdig w (s_token_text (append_c s4 d))); [done|done|done|].
    unfold scan_measure, input_length. simpl. rewrite Hi5. simpl in Hn. lia.
Qed.

(** A number at the very end of the file, with no newline after it, is lost: the
    scanner returns the end of file from the middle of the token, and the parser
    rejects the definition although it matches the grammar. *)
Theorem unterminated_value_rejected {U}
    (callback : string -> string -> a6o_conf_value -> U -> outcome (Z * U))
    (sec key : string) (ds : list ascii) (u : U)
    (Hcb : forall s k v u, is_ok (callback s k v u) = true)
    (Hsec : is_name (bytes sec) = true) (Hkey : is_name (bytes key) = true)
    (Hds : forallb isdigit ds = true) :
  exists u', a6o_conf_parser_parse callback
    (Some ((["["%char] ++ bytes sec ++ ["]"%char]) ++ newline :: bytes key ++ bytes " =" ++ " "%char :: ds)) u
    = Ok (-2, u').
Proof.
  set (input := _ ++ _ :: _).
  assert (lexes TOKEN_NONE input
    [(TOKEN_LEFT_BRACE, ""); (TOKEN_STRING, sec); (TOKEN_RIGHT_BRACE, "");
     (TOKEN_STRING, key); (TOKEN_EQUAL_SIGN, ""); tok_eof]) as Hlex.
  { unfold input. rewrite <- !app_assoc.
    apply (lexes_cons TOKEN_NONE ["["%char] TOKEN_LEFT_BRACE ["["%char]); [by apply tokenizes_char|done|].
    rewrite <- (name_spec sec) at 2 by done.
    apply (lexes_cons _ (bytes sec) TOKEN_STRING (bytes sec)); [by apply tokenizes_name|done|].
    apply (lexes_cons TOKEN_STRING ["]"%char] TOKEN_RIGHT_BRACE ["]"%char]); [by apply tokenizes_char|done|].
    apply lexes_newline; [done|]. rewrite <- (name_spec key) at 2 by done.
    apply (lexes_cons _ (bytes key) TOKEN_STRING (bytes key)); [by apply tokenizes_name|done|].
    apply (lexes_cons _ (bytes " =") TOKEN_EQUAL_SIGN ["="%char]);
      [by apply tokenizes_space, tokenizes_char|done|].
    intros s Hin. destruct (lexes_unterminated ds s TOKEN_EQUAL_SIGN Hds Hin) as (s' & E).
    by eapply yields_eof. }
  pose proof (parse_sound callback (fun _ => True) ltac:(done) input u I) as H.
  destruct (a6o_conf_parser_parse _ _ _) as [[r u']|f].
  - exists u'. destruct H as [_ [->|[_ (d & Hy & _)]]]; [done|]. exfalso.
    pose proof (yields_det _ _ _ _ (Hlex (scanner_new input) eq_refl) Hy) as E.
    unfold doc_tokens in E. destruct d as [|[s' [|[k' v'] defs]] d]; [done| |].
    + destruct d as [|[]]; done.
    + destruct v'; done.
  - destruct H as (s' & k' & v' & w' & E). specialize (Hcb s' k' v' w'). by rewrite E in Hcb.
Qed.

Lemma unterminated_value_rejected_witness :
  exists u', a6o_conf_parser_parse conf_load_parser_cb
    (Some ((["["%char] ++ bytes "alert" ++ ["]"%char]) ++ newline :: bytes "port" ++ bytes " =" ++
           " "%char :: bytes "8080")) a6o_conf_new = Ok (-2, u').
Proof.
  apply (unterminated_value_rejected conf_load_parser_cb "alert" "port" (bytes "8080")); try reflexivity.
  intros s k v u. destruct (load_cb_spec s k v u) as (r & c & -> & _). reflexivity.
Defined.

(** ** The store as a map, over histories of calls *)

Inductive conf_op :=
  | AddValue (s k : string) (v : a6o_conf_value)
  | AddUint (s k : string) (val : Z)
  | AddString (s k : string) (val : option string)
  | AddList (s k : string) (val : list string) (len : nat)
  | SetValue (s k : string) (v : a6o_conf_value)
  | SetUint (s k : string) (val : Z)
  | SetString (s k : string) (val : option string)
  | SetList (s k : string) (val : list string) (len : nat).

Definition conf_step (conf : a6o_conf) (op : conf_op) : outcome (Z * a6o_conf) :=
  match op with
  | AddValue s k v => a6o_conf_add_value conf s k v
  | AddUint s k z => a6o_conf_add_uint conf s k z
  | AddString s k v => a6o_conf_add_string conf s k v
  | AddList s k l n => a6o_conf_add_list conf s k l n
  | SetValue s k v => a6o_conf_set_value conf s k v
  | SetUint s k z => a6o_conf_set_uint conf s k z
  | SetString s k v => a6o_conf_set_string conf s k v
  | SetList s k l n => a6o_conf_set_list conf s k l n
  end.

Definition map_add (m : cmap) (s k : string) (new : outcome a6o_conf_value) : outcome (Z * cmap) :=
  match m !! (s, k) with
  | Some _ => Ok (1, m)
  | None => v ← new; Ok (0, <[(s, k) := v]> m)
  end.

Definition map_set (m : cmap) (s k : string) (t : a6o_conf_value_type) (new : outcome a6o_conf_value)
    : outcome (Z * cmap) :=
  if bool_decide ((a6o_conf_value_get_type <$> m !! (s, k)) = Some t)
  then v ← new; Ok (0, <[(s, k) := v]> m)
  else Ok (1, m).

(** The specification: adding needs an absent key, setting a key of the same type. *)
Definition cmap_step (m : cmap) (op : conf_op) : outcome (Z * cmap) :=
  match op with
  | AddValue s k v => map_add m s k (a6o_conf_value_set v)
  | AddUint s k z => map_add m s k (Ok (CvInt (i32 z)))
  | AddString s k v => map_add m s k (Ok (CvString v))
  | AddList s k l n => map_add m s k (a6o_conf_value_set_list l n)
  | SetValue s k v => map_set m s k (a6o_conf_value_get_type v) (a6o_conf_value_set v)
  | SetUint s k z => map_set m s k CONF_TYPE_INT (Ok (CvInt (i32 z)))
  | SetString s k v => map_set m s k CONF_TYPE_STRING (Ok (CvString v))
  | SetList s k l n => map_set m s k CONF_TYPE_LIST (a6o_conf_value_set_list l n)
  end.

Fixpoint run_steps {S Op} (step : S -> Op -> outcome (Z * S)) (st : S) (ops : list Op)
    : outcome (list Z * S) :=
  match ops with
  | [] => Ok ([], st)
  | op :: ops => r ← step st op; q ← run_steps step r.2 ops; Ok (r.1 :: q.1, q.2)
  end.

(** Two runs that fault together, or return the same codes in related states. *)
Definition agree {R S T} (rel : S -> T -> Prop) (x : outcome (R * S)) (y : outcome (R * T)) : Prop :=
  match x, y with
  | Ok (r, s), Ok (r', t) => r = r' /\ rel s t
  | Fault f, Fault f' => f = f'
  | _, _ => False
  end.

Lemma conf_add_agree conf m s k new :
  conf_rep conf m -> agree conf_rep (conf_add conf s k new) (map_add m s k new).
Proof.
  intros Hrep. rewrite conf_add_eq, (Hrep s k). unfold map_add.
  destruct (m !! (s, k)) eqn:E; [done|]. destruct new; [|done]. simpl. split; [done|].
  by apply add_entry_rep.
Qed.

Lemma conf_set_agree conf m s k t new :
  conf_rep conf m -> agree conf_rep (conf_set conf s k t new) (map_set m s k t new).
Proof.
  intros Hrep. unfold conf_set, map_set. pose proof (Hrep s k) as Hk. unfold key_value in Hk.
  destruct (key_entry_get conf s k) as [p|] eqn:E.
  - destruct new as [v|f].
    + destruct (entry_set_rep conf m s k p v Hrep E) as (Ev & _ & Hrep').
      rewrite Ev. case_bool_decide; simpl; done.
    + simpl in Hk. rewrite Hk. by case_bool_decide.
  - simpl in Hk. by rewrite <- Hk.
Qed.

Lemma conf_step_agree conf m op : conf_rep conf m -> agree conf_rep (conf_step conf op) (cmap_step m op).
Proof. intros H. destruct op; first [by apply conf_add_agree | by apply conf_set_agree]. Qed.

Lemma run_steps_agree {S T Op} (rel : S -> T -> Prop) (f : S -> Op -> outcome (Z * S)) g ops s t :
  (forall s t op, rel s t -> agree rel (f s op) (g t op)) -> rel s t ->
  agree rel (run_steps f s ops) (run_steps g t ops).
Proof.
  intros Hstep. revert s t. induction ops as [|op ops IH]; intros s t H; simpl; [done|].
  specialize (Hstep s t op H). unfold agree in Hstep.
  destruct (f s op) as [[r s']|], (g t op) as [[r' t']|]; simpl in *; try done.
  destruct Hstep as [-> H']. specialize (IH s' t' H'). unfold agree in IH.
  destruct (run_steps f s' ops) as [[rs s2]|], (run_steps g t' ops) as [[rs' t2]|]; simpl in *; try done.
  destruct IH as [-> ?]. done.
Qed.

(** What the readers of the store return for a value. *)
Definition reads_as (conf : a6o_conf) (s k : string) (v : option a6o_conf_value) : Prop :=
  a6o_conf_has_key conf s k = bool_decide (is_Some v) /\
  a6o_conf_get_type conf s k = match v with Some v => a6o_conf_value_get_type v | None => CONF_TYPE_VOID end /\
  a6o_conf_get_uint conf s k = match v with Some (CvInt z) => z | _ => -1 end /\
  a6o_conf_get_string conf s k = match v with Some (CvString t) => t | _ => None end /\
  a6o_conf_get_list conf s k = match v with Some (CvList l) => Some l | _ => None end.

Lemma rep_reads_as conf m s k : conf_rep conf m -> reads_as conf s k (m !! (s, k)).
Proof.
  intros Hrep. pose proof (Hrep s k) as H. unfold reads_as, a6o_conf_get_type, a6o_conf_get_uint,
    a6o_conf_get_string, a6o_conf_get_list. rewrite H. split_and!; try done.
  unfold a6o_conf_has_key. apply bool_decide_ext. unfold key_value in H.
  destruct (key_entry_get conf s k) as [p|] eqn:E.
  - destruct (entry_set_rep conf m s k p CvVoid Hrep E) as (_ & Hs & _). done.
  - simpl in H. rewrite <- H. split; [done|by intros []].
Qed.

(** C8: The store refines a finite map from (section, key) to typed values, over
    every history of additions and assignments: additions of an existing key and
    assignments with another type are refused with 1 and change nothing, all other
    calls return 0, an out-of-range list length faults in both, and all readers
    answer from the map. *)
Theorem conf_refines_map (ops : list conf_op) :
  match run_steps cmap_step ∅ ops with
  | Ok (rs, m) => exists conf, run_steps conf_step a6o_conf_new ops = Ok (rs, conf) /\
      forall s k, reads_as conf s k (m !! (s, k))
  | Fault f => run_steps conf_step a6o_conf_new ops = Fault f
  end.
Proof.
  pose proof (run_steps_agree conf_rep conf_step cmap_step ops a6o_conf_new ∅ conf_step_agree) as H.
  unfold agree in H. destruct (run_steps conf_step _ _) as [[rs conf]|], (run_steps cmap_step _ _) as [[rs' m]|];
    try (by destruct H; intros ??; rewrite lookup_empty).
  - destruct H as [-> Hrep]; [by intros ??; rewrite lookup_empty|].
    exists conf. split; [done|]. intros s k. by apply rep_reads_as.
  - rewrite H; [done|by intros ??; rewrite lookup_empty].
Qed.

(** Loading always reports success: for an unreadable, a malformed or a valid
    file [a6o_conf_load_file] returns 0, never faults, keeps section and key names
    unique and every section non-empty, and never overwrites a setting that was
    already there. *)
Theorem load_file_any (conf : a6o_conf) (file : option (list ascii)) (Hok : conf_ok conf) :
  exists conf', a6o_conf_load_file conf file = Ok (0, conf') /\ conf_ok conf' /\
    forall s k v, key_value conf s k = Some v -> key_value conf' s k = Some v.
Proof.
  unfold a6o_conf_load_file. destruct file as [input|]; [|by exists conf].
  set (Inv := fun c => conf_ok c /\ forall s k v, key_value conf s k = Some v -> key_value c s k = Some v).
  assert (forall sec key v u r u', Inv u -> conf_load_parser_cb sec key v u = Ok (r, u') -> Inv u') as Hinv.
  { intros sec key v u r u' [Hu1 Hu2] E. destruct (load_cb_spec sec key v u) as (r2 & c2 & E2 & H1 & H2).
    assert (c2 = u') as <- by congruence. split; [auto|]. intros. apply H2. auto. }
  pose proof (parse_sound conf_load_parser_cb Inv Hinv input conf ltac:(done)) as H.
  destruct (a6o_conf_parser_parse _ _ _) as [[r u']|f]; simpl.
  - exists u'. split; [done|]. apply H.
  - destruct H as (s & k & v & w & E). destruct (load_cb_spec s k v w) as (r & c & E' & _). congruence.
Qed.

Lemma load_file_any_witness :
  exists conf', a6o_conf_load_file a6o_conf_new None = Ok (0, conf') /\ conf_ok conf' /\
    forall s k v, key_value a6o_conf_new s k = Some v -> key_value conf' s k = Some v.
Proof. apply (load_file_any a6o_conf_new None). apply conf_ok_new. Defined.

(** C7: Round trip: saving a configuration whose names are identifiers and whose
    values are non-negative integers, strings without double quote or NUL, or lists
    of at least two such strings, and loading the bytes into an empty configuration
    gives back the same sections, keys and values in the same order. *)
Theorem save_load_roundtrip (conf : a6o_conf) (path : string)
    (Hok : conf_ok conf) (Hsave : saveable conf = true) :
  exists text, a6o_conf_save_file conf path true = Ok (0, text) /\
    a6o_conf_load_file a6o_conf_new (Some text) = Ok (0, conf).
Proof.
  destruct conf as [secs]. destruct Hok as [Hs Hk]. simpl in Hs, Hk.
  exists (flat_map section_text secs). split.
  - unfold a6o_conf_save_file. rewrite orb_true_r. do 2 f_equal.
    apply (save_sections secs [] None); [done| |done].
    eapply list.Forall_impl; [exact Hk|]. by intros ? [].
  - unfold a6o_conf_load_file.
    rewrite (parse_complete conf_load_parser_cb _ (doc_of secs)).
    + unfold a6o_conf_new. by rewrite (run_sections [] secs).
    + by apply lexes_sections.
Qed.

Definition sample_conf : a6o_conf :=
  {| sections :=
       [SectionEntry "daemon" [KeyEntry "port" (CvInt 8080); KeyEntry "ipc" (CvString (Some "unix socket"))];
        SectionEntry "on-access" [KeyEntry "mount" (CvList ["/home"; "/media"; "/tmp"])]] |}.

Lemma save_load_roundtrip_witness :
  exists text, a6o_conf_save_file sample_conf "conf" true = Ok (0, text) /\
    a6o_conf_load_file a6o_conf_new (Some text) = Ok (0, sample_conf).
Proof.
  apply (save_load_roundtrip sample_conf "conf").
  - split; [refine (bool_decide_unpack _ _); vm_compute; exact I|].
    repeat constructor; try discriminate; refine (bool_decide_unpack _ _); vm_compute; exact I.
  - reflexivity.
Defined.

(** The values outside the round trip: an [unsigned int] of 2^31 or more is printed
    as a negative number and lost, a list of one string comes back as a string. *)
Definition save_and_load (conf : a6o_conf) : outcome (Z * a6o_conf) :=
  r ← a6o_conf_save_file conf "conf" true; a6o_conf_load_file a6o_conf_new (Some r.2).

Example big_uint_lost :
  (r ← a6o_conf_add_uint a6o_conf_new "a" "b" (2 ^ 31); save_and_load r.2) = Ok (0, a6o_conf_new).
Proof. vm_compute. reflexivity. Qed.

Example singleton_list_becomes_string :
  (r ← a6o_conf_add_list a6o_conf_new "a" "b" ["x"] 1; save_and_load r.2) =
    Ok (0, {| sections := [SectionEntry "a" [KeyEntry "b" (CvString (Some "x"))]] |}).
Proof. vm_compute. reflexivity. Qed.
