(* ===== verification/Dir.v ===== *)
(** * Directory traversal and file flags
    ([src/libcore/arch/linux/os/dir.c], [file.c] and their headers)

    What the operating system answers during a walk is a tree: for each directory
    the failure of [opendir], or the sequence of [readdir] results, each with the
    answer of [realpath] and, for a directory entry, the tree below it.
    [asprintf] is assumed to succeed; a failing [closedir] is only logged. *)
From S2P Require Import Prelude.

#[local] Open Scope Z_scope.

(** ** Flags ([enum os_file_flag]) and the types reported by [readdir] *)

Definition FILE_FLAG_IS_ERROR : Z := Z.shiftl 1 0.
Definition FILE_FLAG_IS_DIRECTORY : Z := Z.shiftl 1 1.
Definition FILE_FLAG_IS_PLAIN_FILE : Z := Z.shiftl 1 2.
Definition FILE_FLAG_IS_LINK : Z := Z.shiftl 1 3.
Definition FILE_FLAG_IS_DEVICE : Z := Z.shiftl 1 4.
Definition FILE_FLAG_IS_IPC : Z := Z.shiftl 1 5.
Definition FILE_FLAG_IS_UNKNOWN : Z := Z.shiftl 1 6.

(** [flags & f] as a C condition. *)
Definition has_flag (flags f : Z) : bool := negb (Z.land flags f =? 0).

Inductive d_type := DT_DIR | DT_BLK | DT_CHR | DT_SOCK | DT_FIFO | DT_LNK | DT_REG | DT_UNKNOWN.

#[export] Instance d_type_eq_dec : EqDecision d_type.
Proof. solve_decision. Defined.

Definition dirent_flags (t : d_type) : Z :=
  match t with
  | DT_DIR => FILE_FLAG_IS_DIRECTORY
  | DT_BLK | DT_CHR => FILE_FLAG_IS_DEVICE
  | DT_SOCK | DT_FIFO => FILE_FLAG_IS_IPC
  | DT_LNK => FILE_FLAG_IS_LINK
  | DT_REG => FILE_FLAG_IS_PLAIN_FILE
  | DT_UNKNOWN => FILE_FLAG_IS_UNKNOWN
  end.

(** ** [stat] *)

Inductive st_fmt := S_IFBLK | S_IFCHR | S_IFDIR | S_IFIFO | S_IFSOCK | S_IFLNK | S_IFREG | S_IFOTHER.

Record os_file_stat := FileStat { stat_flags : Z; stat_file_size : Z }.

(** [fill_stat] on the file type and size of a [struct stat]. *)
Definition fill_stat (fmt : st_fmt) (st_size : Z) : os_file_stat :=
  {| stat_flags :=
       match fmt with
       | S_IFBLK | S_IFCHR => FILE_FLAG_IS_DEVICE
       | S_IFDIR => FILE_FLAG_IS_DIRECTORY
       | S_IFIFO | S_IFSOCK => FILE_FLAG_IS_IPC
       | S_IFLNK => FILE_FLAG_IS_LINK
       | S_IFREG => FILE_FLAG_IS_PLAIN_FILE
       | S_IFOTHER => FILE_FLAG_IS_UNKNOWN
       end;
     stat_file_size := st_size |}.

(** [os_file_stat] and [os_file_stat_fd]: [stat] answers a type and a size, or an
    [errno]; the size field is left alone on error. *)
Definition os_file_stat_of (answer : (st_fmt * Z) + Z) (old_size : Z) : Z * os_file_stat * option Z :=
  match answer with
  | inl (fmt, size) => (0, fill_stat fmt size, None)
  | inr errno => (-1, {| stat_flags := FILE_FLAG_IS_ERROR; stat_file_size := old_size |}, Some errno)
  end.

(** ** [os_dir_map] *)

Inductive dir_tree : Set :=
  | Unreadable (errno : Z)                                   (** [opendir] fails *)
  | Readable (entries : dir_entries)
with dir_entries : Set :=
  | EndOfDir (errno : Z)                                     (** [readdir] returns NULL *)
  | Entry (name : string) (type : d_type) (real_path : option string)
      (below : dir_tree) (next : dir_entries).

Scheme dir_tree_ind2 := Induction for dir_tree Sort Prop
  with dir_entries_ind2 := Induction for dir_entries Sort Prop.
Combined Scheme dir_mutind from dir_tree_ind2, dir_entries_ind2.

Section walk.
Context {D : Type}.
(** [dirent_cb(full_path, flags, entry_errno, data)] *)
Variable dirent_cb : option string -> Z -> Z -> D -> outcome (Z * D).
Variable recurse : bool.

(** The entries [.] and [..] are skipped. *)
Definition is_dot (type : d_type) (name : string) : bool :=
  bool_decide (type = DT_DIR) && (bool_decide (name = ".") || bool_decide (name = "..")).

Definition descends (type : d_type) : bool := bool_decide (type = DT_DIR) && recurse.

Fixpoint os_dir_map (path : string) (t : dir_tree) (data : D) : outcome (Z * D) :=
  match t with
  | Unreadable errno => dirent_cb (Some path) FILE_FLAG_IS_ERROR errno data
  | Readable entries => data ← read_entries path entries data; Ok (0, data)
  end
(** The [while (1)] loop over [readdir], up to the end or a [break]. *)
with read_entries (path : string) (es : dir_entries) (data : D) : outcome D :=
  match es with
  | EndOfDir errno =>
      if errno =? 0 then Ok data
      else r ← dirent_cb (Some path) FILE_FLAG_IS_ERROR errno data; Ok r.2
  | Entry name type real_path below next =>
      if is_dot type name then read_entries path next data
      else if descends type then
        r ← os_dir_map (path +:+ "/" +:+ name) below data;
        if r.1 =? 0 then read_entries path next r.2 else Ok r.2
      else
        r ← dirent_cb real_path (dirent_flags type) 0 data;
        read_entries path next r.2
  end.

End walk.

(** ** The plain files of a tree *)

Section files.
Variable recurse : bool.

(** Every plain file of the tree outside unreadable directories. *)
Fixpoint all_files (t : dir_tree) : list (option string) :=
  match t with
  | Unreadable _ => []
  | Readable es => all_entries es
  end
with all_entries (es : dir_entries) : list (option string) :=
  match es with
  | EndOfDir _ => []
  | Entry name type real below next =>
      if is_dot type name then all_entries next
      else if descends recurse type then all_files below ++ all_entries next
      else if bool_decide (type = DT_REG) then real :: all_entries next
      else all_entries next
  end.

(** A callback that only acts on plain files, and always returns 0, is applied to
    each of them in order. *)
Lemma walk_all_files {D} (cb : option string -> Z -> Z -> D -> outcome (Z * D)) (step : D -> option string -> D) :
  (forall p d, cb p FILE_FLAG_IS_PLAIN_FILE 0 d = Ok (0, step d p)) ->
  (forall p flags errno d, has_flag flags FILE_FLAG_IS_PLAIN_FILE = false -> cb p flags errno d = Ok (0, d)) ->
  (forall t path d, os_dir_map cb recurse path t d = Ok (0, fold_left step (all_files t) d)) /\
  (forall es path d, read_entries cb recurse path es d = Ok (fold_left step (all_entries es) d)).
Proof.
  intros Hfile Hother. apply dir_mutind; cbn [os_dir_map read_entries all_files all_entries].
  - intros errno path d. by apply Hother.
  - intros es IH path d. by rewrite IH.
  - intros errno path d. destruct (errno =? 0); [done|]. by rewrite Hother.
  - intros name type real below IHt next IHe path d. destruct (is_dot type name); [apply IHe|].
    destruct (descends recurse type).
    + rewrite IHt. simpl. rewrite IHe. by rewrite fold_left_app.
    + case_bool_decide as Ht.
      * subst type. simpl dirent_flags. rewrite Hfile. simpl. apply IHe.
      * rewrite Hother by (by destruct type). simpl. apply IHe.
Qed.

End files.

(** ** [os_file_do_not_scan] *)

Definition do_not_scan_paths : list string := ["/proc"; "/run"; "/sys"].

(** [while ( *prefix && *s && *prefix++ == *s++) ;] on what is left of the two
    strings: both pointers move past the characters that differ. *)
Fixpoint strprefix_loop (s prefix : list ascii) {struct prefix} : list ascii * list ascii :=
  match prefix, s with
  | c :: prefix', d :: s' => if (c =? d)%char then strprefix_loop s' prefix' else (s', prefix')
  | _, _ => (s, prefix)
  end.

(** The character at the pointer ends a path component. *)
Definition at_separator (seps : list ascii) (s : list ascii) : bool :=
  match s with [] => true | c :: _ => existsb (fun d => c =? d)%char seps end.

Definition strprefix (seps : list ascii) (s prefix : string) : bool :=
  match strprefix_loop (bytes s) (bytes prefix) with
  | (s', []) => at_separator seps s'
  | _ => false
  end.

(** [realpath] failing is logged at level ERROR, and [a6o_log] then calls [abort]. *)
Definition os_file_do_not_scan (real_path : option string) : outcome bool :=
  match real_path with
  | None => Fault Aborted
  | Some p => Ok (existsb (fun d => strprefix ["/"%char] p d) do_not_scan_paths)
  end.

(** ** What the prefix test accepts *)

(** [strprefix] holds exactly when [s] and [prefix] agree on all but the last
    character of [prefix] (and [s] has one there) and a separator or the end
    follows. *)
Lemma strprefix_loop_spec s prefix seps :
  (match strprefix_loop s prefix with (s', []) => at_separator seps s' | _ => false end) = true <->
  prefix = [] /\ at_separator seps s = true \/
  exists p0 c d rest, prefix = p0 ++ [c] /\ s = p0 ++ d :: rest /\ at_separator seps rest = true.
Proof.
  revert s. induction prefix as [|c prefix IH]; intros s.
  { simpl. split; [by left|]. intros [[_ ?]|(p0 & ? & ? & ? & E & _)]; [done|by destruct p0]. }
  simpl. destruct s as [|d s].
  { split; [done|]. intros [[? _]|(p0 & ? & ? & ? & _ & E & _)]; [done|by destruct p0]. }
  destruct (Ascii.eqb_spec c d) as [->|Hne].
  - rewrite IH. split.
    + intros [[-> H]|(p0 & c' & d' & rest & -> & -> & H)]; right.
      * by exists [], d, d, s.
      * by exists (d :: p0), c', d', rest.
    + intros [[? _]|([|x p0] & c' & d' & rest & E1 & E2 & H)]; [done| |]; simplify_eq/=.
      * by left.
      * right. by exists p0, c', d', rest.
  - destruct prefix as [|c2 prefix].
    + split.
      * intros H. right. by exists [], c, d, s.
      * intros [[? _]|([|x [|y p0]] & c' & d' & rest & E1 & E2 & H)]; simplify_eq/=; done.
    + split; [done|]. intros [[? _]|([|x p0] & c' & d' & rest & E1 & E2 & H)]; simplify_eq/=; done.
Qed.

Lemma strprefix_spec seps s prefix :
  strprefix seps s prefix = true <->
  bytes prefix = [] /\ at_separator seps (bytes s) = true \/
  exists p0 c d rest, bytes prefix = p0 ++ [c] /\ bytes s = p0 ++ d :: rest /\
    at_separator seps rest = true.
Proof. apply strprefix_loop_spec. Qed.
