(* ===== verification/Mkdir.v ===== *)
(** * Creating a directory and its parents ([src/libcore/arch/linux/os/dir.c], [os_mkdir_p])

    The path is cut at each [/] in turn, and each cut that names something is created when
    it is missing.  [stat] and [mkdir] are those of the system: the class [FileSystem]
    states what POSIX promises of them. *)
From S2P Require Import Prelude.

#[local] Open Scope Z_scope.

Definition ENOENT : Z := 2.
Definition EEXIST : Z := 17.

(** What [stat] finds. *)
Inductive stat_answer := IsDir | NotDir | NoStat (errno : Z).

Class FileSystem (W : Type) := {
  fs_stat : list ascii -> W -> stat_answer;
  (** with mode 0777: [None], or the [errno] of the failure *)
  fs_mkdir : list ascii -> W -> option Z * W;
}.

Class FileSystemLaws (W : Type) `{FileSystem W} : Prop := {
  mkdir_makes p w w' : fs_mkdir p w = (None, w') -> fs_stat p w' = IsDir;
  mkdir_keeps p w e w' q : fs_mkdir p w = (e, w') -> fs_stat q w = IsDir -> fs_stat q w' = IsDir;
  mkdir_fails p w e w' : fs_mkdir p w = (Some e, w') -> w' = w;
  mkdir_exists p w : fs_stat p w = NotDir -> (fs_mkdir p w).1 = Some EEXIST;
}.

Section mkdir.
Context {W : Type} `{FileSystem W}.

(** The result, and [errno]: a [stat] that succeeds leaves it as it was. *)
Definition stat_dir (path : list ascii) (errno : Z) (w : W) : Z * Z :=
  match fs_stat path w with
  | IsDir => (1, errno)
  | NotDir => (if errno =? ENOENT then 0 else -1, errno)
  | NoStat errno => (if errno =? ENOENT then 0 else -1, errno)
  end.

(** The body of the [if]: [ret], [errno] and the file system after it. *)
Definition make_one (full : list ascii) (errno : Z) (w : W) : Z * Z * W :=
  let '(ret, errno) := stat_dir full errno w in
  if ret =? 0 then
    match fs_mkdir full w with
    | (None, w) => (0, errno, w)
    | (Some errno, w) => (-1, errno, w)
    end
  else (ret, errno, w).

(** [full] up to [token], what [strchr] has gone through of [token], and what is left. *)
Fixpoint mkdir_loop (before token rest : list ascii) (ret errno : Z) (w : W) : Z * Z * W :=
  match rest with
  | [] => make_one (before ++ token) errno w
  | c :: rest =>
      if (c =? "/")%char then
        let '(ret, errno, w) :=
          match token with [] => (ret, errno, w) | _ => make_one (before ++ token) errno w end in
        if 0 <=? ret then mkdir_loop (before ++ token ++ ["/"%char]) [] rest ret errno w else (ret, errno, w)
      else mkdir_loop before (token ++ [c]) rest ret errno w
  end.

Definition os_mkdir_p (path : list ascii) (errno : Z) (w : W) : Z * Z * W := mkdir_loop [] [] path 0 errno w.

(** ** What it does *)

(** The path itself, and what stands before a [/] unless that is a [/] or nothing. *)
Definition named_prefix (path p : list ascii) : Prop :=
  p = path \/ exists rest, path = p ++ "/"%char :: rest /\ list.last p <> None /\ list.last p <> Some "/"%char.

Context `{!FileSystemLaws W}.

Definition is_dir (w : W) (p : list ascii) : Prop := fs_stat p w = IsDir.

(** What the loop does to the cuts [P] it still has to look at. *)
Definition makes (P : list ascii -> Prop) (w : W) (run : Z -> Z * Z * W) : Prop :=
  exists ret' w', (forall errno, exists errno', run errno = (ret', errno', w')) /\
    (0 <= ret' <-> forall p, P p -> is_dir w' p) /\ (ret' < 0 -> ret' = -1) /\
    (forall q, is_dir w q -> is_dir w' q) /\ ((forall p, P p -> is_dir w p) -> ret' = 1 /\ w' = w).

(** One cut: the answer does not depend on [errno], and says whether the directory is there. *)
Lemma make_one_spec full w : makes (eq full) w (fun errno => make_one full errno w).
Proof.
  unfold make_one, stat_dir, makes, is_dir. destruct (fs_stat full w) as [| |e] eqn:Es; cbn [Z.eqb].
  - exists 1, w. split_and!; try done; try lia; [by eexists|]. split; [|lia]. by intros _ p <-.
  - pose proof (mkdir_exists full w Es) as He. destruct (fs_mkdir full w) as [o w'] eqn:Em. cbn in He. subst o.
    apply mkdir_fails in Em as ->. exists (-1), w. split_and!; try done.
    + intros errno. destruct (errno =? ENOENT); by eexists.
    + split; [lia|]. intros H'. specialize (H' _ eq_refl). congruence.
    + intros H'. specialize (H' _ eq_refl). congruence.
  - assert ((forall p, full = p -> fs_stat p w = IsDir) -> False) as Hno by (intros H'; specialize (H' _ eq_refl); congruence).
    destruct (e =? ENOENT); cbn [Z.eqb]; [destruct (fs_mkdir full w) as [[e'|] w'] eqn:Em|].
    + apply mkdir_fails in Em as ->. exists (-1), w. split_and!; [by eexists|split; [lia|by intros ?%Hno]|done|done|by intros ?%Hno].
    + exists 0, w'. split_and!; [by eexists| |lia| |by intros ?%Hno].
      * split; [|lia]. intros _ p <-. by eapply mkdir_makes.
      * intros q. by apply (mkdir_keeps _ _ _ _ q Em).
    + exists (-1), w. split_and!; [by eexists|split; [lia|by intros ?%Hno]|done|done|by intros ?%Hno].
Qed.

(** The cuts that the loop still has to look at. *)
Definition cut (before token rest p : list ascii) : Prop :=
  p = before ++ token ++ rest \/
  exists r1 r2, rest = r1 ++ "/"%char :: r2 /\ p = before ++ token ++ r1 /\ list.last (token ++ r1) <> None /\ list.last (token ++ r1) <> Some "/"%char.

Lemma cut_end before token p : cut before token [] p <-> p = before ++ token.
Proof.
  unfold cut. rewrite app_nil_r. split; [|by left]. by intros [?|(r1 & r2 & Hr & _)]; [|destruct r1].
Qed.

Lemma cut_char before token c rest p : c <> "/"%char -> cut before token (c :: rest) p <-> cut before (token ++ [c]) rest p.
Proof.
  intros Hc. unfold cut. rewrite <- (assoc_L (++) token [c] rest). split; (intros [?|(r1 & r2 & Hr & Hp)]; [by left|right]).
  - destruct r1 as [|c' r1]; simplify_eq/=. exists r1, r2. by rewrite <- (assoc_L (++) token [_] r1).
  - exists (c :: r1), r2. rewrite <- (assoc_L (++) token [_] r1) in Hp. by subst.
Qed.

Lemma last_token token : "/"%char ∉ token -> list.last token <> Some "/"%char.
Proof. intros Hn [l ->]%list.last_Some. set_solver. Qed.

Lemma cut_slash before token rest p :
  "/"%char ∉ token ->
  cut before token ("/"%char :: rest) p <->
  token <> [] /\ p = before ++ token \/ cut (before ++ token ++ ["/"%char]) [] rest p.
Proof.
  intros Hn. unfold cut. cbn [app]. rewrite <- !(assoc_L (++)). cbn [app]. split.
  - intros [?|(r1 & r2 & Hr & -> & H1 & H2)]; [by right; left|]. destruct r1 as [|c r1]; simplify_eq/=.
    + left. rewrite app_nil_r in *. split; [by intros ->|done].
    + right; right. exists r1, r2. rewrite list.last_app_cons in H1, H2. destruct (decide (r1 = [])) as [->|Hne]; [done|].
      rewrite list.last_cons in H1, H2. destruct (list.last r1) eqn:E; [by rewrite <- !(assoc_L (++))|].
      by apply list.last_None in E.
  - intros [[Ht ->]|[?|(r1 & r2 & -> & -> & H1 & H2)]]; [right| by left|right].
    + exists [], rest. rewrite app_nil_r. split_and!; [done..|by rewrite list.last_None|by apply last_token].
    + exists ("/"%char :: r1), r2. rewrite <- !(assoc_L (++)), list.last_app_cons, list.last_cons.
      destruct (list.last r1); by split_and!.
Qed.

Lemma makes_iff P Q w run : (forall p, P p <-> Q p) -> makes P w run -> makes Q w run.
Proof.
  intros HPQ (ret & w' & Hr & H1 & H2 & H3 & H4). exists ret, w'. split_and!; try done.
  - rewrite H1. split; intros H' p Hp; by apply H', HPQ.
  - intros H'. apply H4. intros p Hp. by apply H', HPQ.
Qed.

(** The work stops at the first failure. *)
Lemma makes_seq P Q w run1 (run2 : Z -> W -> Z -> Z * Z * W) :
  makes P w run1 -> (forall ret1 w1, 0 <= ret1 -> makes Q w1 (run2 ret1 w1)) ->
  makes (fun p => P p \/ Q p) w (fun errno =>
    let '(ret, errno, w) := run1 errno in if 0 <=? ret then run2 ret w errno else (ret, errno, w)).
Proof.
  intros (ret1 & w1 & Hr1 & Hd1 & Hn1 & Hk1 & He1) Hrun2. unfold makes. destruct (Z.leb_spec 0 ret1) as [Hle|Hlt].
  - destruct (Hrun2 ret1 w1 Hle) as (ret2 & w2 & Hr2 & Hd2 & Hn2 & Hk2 & He2). exists ret2, w2. split_and!.
    + intros errno. destruct (Hr1 errno) as [errno1 ->]. rewrite (proj2 (Z.leb_le 0 ret1)) by done. apply Hr2.
    + rewrite Hd2. split; [|by auto]. intros H2 p [Hp|Hp]; [|by auto]. apply Hk2. by apply Hd1.
    + done.
    + auto.
    + intros H'. destruct He1 as [-> ->]; [by auto|]. by apply He2; auto.
  - exists ret1, w1. split_and!.
    + intros errno. destruct (Hr1 errno) as [errno1 ->]. rewrite (proj2 (Z.leb_gt 0 ret1)) by done. by eexists.
    + rewrite Hd1. split; [|by auto]. intros H' p [Hp|Hp]; [by auto|]. exfalso. apply Hd1 in H'. lia.
    + done.
    + done.
    + intros H'. destruct He1 as [-> _]; [by auto|]. lia.
Qed.

Lemma mkdir_loop_spec rest before token ret w :
  0 <= ret -> "/"%char ∉ token ->
  makes (cut before token rest) w (fun errno => mkdir_loop before token rest ret errno w).
Proof.
  revert before token ret w. induction rest as [|c rest IH]; intros before token ret w Hret Ht; cbn [mkdir_loop].
  { eapply makes_iff, make_one_spec. intros p. rewrite cut_end. split; by intros ->. }
  destruct (Ascii.eqb_spec c "/") as [->|Hc].
  2: { eapply makes_iff, IH; [by intros p; rewrite cut_char|done|set_solver]. }
  destruct token as [|t token].
  { rewrite (proj2 (Z.leb_le 0 ret)) by done. eapply makes_iff, IH; [|done|set_solver].
    intros p. rewrite cut_slash by done. naive_solver. }
  eapply makes_iff, (makes_seq _ _ _ _ (fun ret w errno => mkdir_loop (before ++ (t :: token) ++ ["/"%char]) [] rest ret errno w)).
  - intros p. rewrite cut_slash by done. split; (intros [Hp|?]; [left|by right]); [by subst|by destruct Hp].
  - apply make_one_spec.
  - intros ret1 w1 Hret1. by apply IH; [|set_solver].
Qed.

(** C40: [os_mkdir_p] returns a value that is not negative exactly when the path and all the
    directories named on the way to it are directories afterwards; it never removes one, it
    does nothing and returns 1 when they were all there, and neither the result nor what is
    made depends on the stale [errno] that [stat_dir] reads when a component is not a
    directory. *)
Theorem mkdir_p_makes_ancestors (path : list ascii) (w : W) :
  exists ret w', (forall errno, exists errno', os_mkdir_p path errno w = (ret, errno', w')) /\
    (0 <= ret <-> forall p, named_prefix path p -> is_dir w' p) /\ (ret < 0 -> ret = -1) /\
    (forall q, is_dir w q -> is_dir w' q) /\
    ((forall p, named_prefix path p -> is_dir w p) -> ret = 1 /\ w' = w).
Proof.
  apply (makes_iff (cut [] [] path)); [|apply mkdir_loop_spec; [lia|by apply not_elem_of_nil]].
  intros p. unfold cut, named_prefix. cbn [app]. split; (intros [?|H']; [by left|right]).
  - destruct H' as (r1 & r2 & -> & -> & ?). by exists r2.
  - destruct H' as (rest & -> & ?). by exists p, rest.
Qed.

End mkdir.

(** ** A file system *)

Module Disk.

(** The paths that exist, without slashes at the end: directories and other files. *)
Definition disk : Type := list (list ascii * bool).

Fixpoint skip (stop : bool) (l : list ascii) : list ascii :=
  match l with
  | [] => []
  | c :: l' => if Bool.eqb (c =? "/")%char stop then skip stop l' else l
  end.

Definition strip (p : list ascii) : list ascii := rev (skip true (rev p)).
Definition parent (p : list ascii) : list ascii := strip (rev (skip false (rev p))).

Fixpoint find (d : disk) (p : list ascii) : option bool :=
  match d with [] => None | (q, b) :: d => if decide (p = q) then Some b else find d p end.

Definition stat (p : list ascii) (d : disk) : stat_answer :=
  if decide (p = []) then NoStat ENOENT
  else match find d (strip p) with Some true => IsDir | Some false => NotDir | None => NoStat ENOENT end.

Definition mkdir (p : list ascii) (d : disk) : option Z * disk :=
  if decide (p = []) then (Some ENOENT, d)
  else match find d (strip p) with
  | Some _ => (Some EEXIST, d)
  | None => match find d (parent (strip p)) with Some true => (None, (strip p, true) :: d) | _ => (Some ENOENT, d) end
  end.

#[global] Instance disk_fs : FileSystem disk := {| fs_stat := stat; fs_mkdir := mkdir |}.

#[global] Instance disk_laws : FileSystemLaws disk.
Proof.
  split; cbn [fs_stat fs_mkdir disk_fs]; unfold mkdir, stat.
  - intros p w w'. case_decide; [done|]. destruct (find w (strip p)); [done|].
    destruct (find w (parent _)) as [[]|]; try done. intros [= <-]. cbn [find]. by rewrite decide_True.
  - intros p w e w' q. case_decide; [by intros [= <- <-]|]. destruct (find w (strip p)) eqn:Ef; [by intros [= <- <-]|].
    destruct (find w (parent _)) as [[]|]; intros [= <- <-]; try done. case_decide; [done|]. cbn [find]. by case_decide.
  - intros p w e w'. by repeat case_match; intros [= ? ?].
  - intros p w. by repeat case_match.
Qed.

End Disk.

Definition sample_disk : Disk.disk := [([], true); (bytes "/f", false)].

(** Two directories are made; a file stands in the way. *)
Lemma mkdir_p_makes_ancestors_witness :
  (exists w', (exists e, os_mkdir_p (bytes "/a//b/") 0 sample_disk = (1, e, w')) /\
    is_dir w' (bytes "/a") /\ is_dir w' (bytes "/a//b")) /\
  (exists e, os_mkdir_p (bytes "/f/x") ENOENT sample_disk = (-1, e, sample_disk)).
Proof.
  split.
  - destruct (mkdir_p_makes_ancestors (bytes "/a//b/") sample_disk) as (ret & w' & Hr & Hd & _).
    exists w'. assert (os_mkdir_p (bytes "/a//b/") 0 sample_disk =
      (1, ENOENT, [(bytes "/a//b", true); (bytes "/a", true); ([], true); (bytes "/f", false)])) as Hrun by (vm_compute; reflexivity).
    destruct (Hr 0) as [e He]. rewrite He in Hrun. injection Hrun as -> -> Hw.
    split; [by exists ENOENT|].
    assert (forall p, named_prefix (bytes "/a//b/") p -> is_dir w' p) as Hall by (apply Hd; lia).
    split; apply Hall; right; [exists (bytes "/b/")|exists []]; by split_and!.
  - destruct (mkdir_p_makes_ancestors (bytes "/f/x") sample_disk) as (ret & w' & Hr & _).
    destruct (Hr ENOENT) as [e He]. exists e. rewrite He.
    assert (os_mkdir_p (bytes "/f/x") ENOENT sample_disk = (-1, EEXIST, sample_disk)) as Hrun by (vm_compute; reflexivity).
    rewrite He in Hrun. by injection Hrun as -> _ ->.
Defined.
