(* ===== verification/Module.v ===== *)
(** * Modules and their manager
    ([src/libcore/module.c], [src/libmodule/include/libarmadito/module.h],
    [src/libcore/armadito.c])

    A module's functions are code of the module: here they are functions on an
    abstract world [W] (the module's private data and everything else they touch).
    The [armadito] back pointer of a module gives its configuration functions access
    to [a6o_get_module_by_name], passed to them as an argument.  A pointer to a
    module of the manager is its index in the array. *)
From S2P Require Import Prelude Status ConfVal Conf Dir.

#[local] Open Scope Z_scope.

Inductive a6o_mod_status := A6O_MOD_OK | A6O_MOD_INIT_ERROR | A6O_MOD_CONF_ERROR | A6O_MOD_CLOSE_ERROR.

#[export] Instance a6o_mod_status_eq_dec : EqDecision a6o_mod_status.
Proof. solve_decision. Defined.

Definition a6o_mod_status_val (s : a6o_mod_status) : Z :=
  match s with
  | A6O_MOD_OK => 0 | A6O_MOD_INIT_ERROR => 1 | A6O_MOD_CONF_ERROR => 2 | A6O_MOD_CLOSE_ERROR => 3
  end.

(** ** Update information ([info.h]) *)

Inductive a6o_update_status :=
  | A6O_UPDATE_OK | A6O_UPDATE_LATE | A6O_UPDATE_CRITICAL | A6O_UPDATE_NON_AVAILABLE.

#[export] Instance a6o_update_status_eq_dec : EqDecision a6o_update_status.
Proof. solve_decision. Defined.

Record a6o_base_info := BaseInfo {
  base_name : option string;
  base_update_ts : Z;
  base_version : option string;
  base_signature_count : Z;
  base_full_path : option string;
}.

Record a6o_module_info := ModuleInfo {
  mi_name : option string;
  mi_mod_status : a6o_update_status;
  mi_mod_update_ts : Z;
  mi_base_infos : option (list a6o_base_info);
}.

Section modules.
Context {W : Type}.

Record a6o_conf_entry := ConfEntry {
  ce_key : string;
  ce_type : Z;                (** a mask of [a6o_conf_value_type] bits *)
  ce_conf_fun : option ((string -> option nat) -> string -> a6o_conf_value -> W ->
                        outcome (a6o_mod_status * W));
}.

Record a6o_module := Module_ {
  mod_init_fun : option (W -> a6o_mod_status * W);
  mod_conf_table : option (list a6o_conf_entry);
  mod_post_init_fun : option (W -> a6o_mod_status * W);
  (** file descriptor, path and mime type; the status and the module report *)
  mod_scan_fun : option (Z -> option string -> string -> W ->
                         (a6o_file_status * option string) * W);
  mod_close_fun : option (W -> a6o_mod_status * W);
  mod_info_fun : option (a6o_module_info -> W -> (a6o_update_status * a6o_module_info) * W);
  mod_supported_mime_types : option (list string);
  mod_name : string;
  mod_size : Z;
  mod_status : a6o_mod_status;
  mod_data_allocated : bool;
}.

Definition set_status (m : a6o_module) (s : a6o_mod_status) : a6o_module :=
  {| mod_init_fun := mod_init_fun m; mod_conf_table := mod_conf_table m;
     mod_post_init_fun := mod_post_init_fun m; mod_scan_fun := mod_scan_fun m;
     mod_close_fun := mod_close_fun m; mod_info_fun := mod_info_fun m;
     mod_supported_mime_types := mod_supported_mime_types m; mod_name := mod_name m;
     mod_size := mod_size m; mod_status := s; mod_data_allocated := mod_data_allocated m |}.

Definition module_new (src : a6o_module) : a6o_module :=
  {| mod_init_fun := mod_init_fun src; mod_conf_table := mod_conf_table src;
     mod_post_init_fun := mod_post_init_fun src; mod_scan_fun := mod_scan_fun src;
     mod_close_fun := mod_close_fun src; mod_info_fun := mod_info_fun src;
     mod_supported_mime_types := mod_supported_mime_types src; mod_name := mod_name src;
     mod_size := mod_size src; mod_status := A6O_MOD_OK;
     mod_data_allocated := 0 <? mod_size src |}.

Record module_manager := Manager { mm_modules : list a6o_module }.

Definition module_manager_new : module_manager := {| mm_modules := [] |}.

Definition module_manager_add (mm : module_manager) (m : a6o_module) : module_manager :=
  {| mm_modules := mm_modules mm ++ [module_new m] |}.

Definition module_manager_get_modules (mm : module_manager) : list a6o_module := mm_modules mm.

(** The index of the first module of that name. *)
Definition module_manager_get_module_by_name (mm : module_manager) (name : string) : option nat :=
  fst <$> list_find (fun m => mod_name m = name) (mm_modules mm).

(** ** Loading *)

(** What [g_module_open] and [g_module_symbol] answer for a path. *)
Inductive dl_result := DlFailed | DlNoSymbol | DlModule (m : a6o_module).

(** [module_load]: the return value and [*pmodule]. *)
Definition module_load (dl : dl_result) : Z * option a6o_module :=
  match dl with
  | DlFailed => (0, None)
  | DlNoSymbol => (a6o_mod_status_val A6O_MOD_INIT_ERROR, None)
  | DlModule m => (0, Some m)
  end.

Variable dlopen : option string -> dl_result.

Definition module_load_dirent_cb (full_path : option string) (flags entry_errno : Z)
    (mm : module_manager) : outcome (Z * module_manager) :=
  if has_flag flags FILE_FLAG_IS_PLAIN_FILE then
    match module_load (dlopen full_path) with
    | (0, Some m) => Ok (0, module_manager_add mm m)
    | _ => Ok (0, mm)
    end
  else Ok (0, mm).

Definition module_manager_load_path (mm : module_manager) (path : string) (t : dir_tree)
    : outcome (Z * module_manager) :=
  os_dir_map module_load_dirent_cb false path t mm.

(** ** Applying a function to the modules whose status is OK *)

Fixpoint all_loop (module_fun : a6o_module -> W -> Z * a6o_module * W) (mods : list a6o_module)
    (global_ret : Z) (w : W) : Z * list a6o_module * W :=
  match mods with
  | [] => (global_ret, [], w)
  | m :: mods =>
      if bool_decide (mod_status m <> A6O_MOD_OK) then
        let '(ret, ms, w) := all_loop module_fun mods global_ret w in (ret, m :: ms, w)
      else
        let '(mod_ret, m, w) := module_fun m w in
        let global_ret := if mod_ret =? 0 then global_ret else mod_ret in
        let '(ret, ms, w) := all_loop module_fun mods global_ret w in (ret, m :: ms, w)
  end.

Definition module_manager_all (mm : module_manager) (module_fun : a6o_module -> W -> Z * a6o_module * W)
    (w : W) : Z * module_manager * W :=
  let '(ret, ms, w) := all_loop module_fun (mm_modules mm) 0 w in (ret, {| mm_modules := ms |}, w).

Definition module_init (m : a6o_module) (w : W) : Z * a6o_module * W :=
  match mod_init_fun m with
  | None => (0, m, w)
  | Some f =>
      let (status, w) := f w in
      (if bool_decide (status <> A6O_MOD_OK) then a6o_mod_status_val A6O_MOD_INIT_ERROR else 0,
       set_status m status, w)
  end.

Definition module_manager_init_all (mm : module_manager) (w : W) := module_manager_all mm module_init w.

Definition module_post_init (m : a6o_module) (w : W) : Z * a6o_module * W :=
  match mod_post_init_fun m with
  | None => (0, m, w)
  | Some f =>
      let (status, w) := f w in
      (if bool_decide (status <> A6O_MOD_OK) then a6o_mod_status_val A6O_MOD_INIT_ERROR else 0,
       set_status m status, w)
  end.

Definition module_manager_post_init_all (mm : module_manager) (w : W) :=
  module_manager_all mm module_post_init w.

Definition module_close (m : a6o_module) (w : W) : Z * a6o_module * W :=
  match mod_close_fun m with
  | None => (0, m, w)
  | Some f =>
      let (status, w) := f w in
      (if bool_decide (status <> A6O_MOD_OK) then a6o_mod_status_val A6O_MOD_CLOSE_ERROR else 0,
       set_status m status, w)
  end.

Definition module_manager_close_all (mm : module_manager) (w : W) := module_manager_all mm module_close w.

(** ** Configuration *)

Definition find_conf_entry (table : list a6o_conf_entry) (key : string) : option a6o_conf_entry :=
  snd <$> list_find (fun e => ce_key e = key) table.

(** [module_conf_fun]; the manager is not changed by it (its status field is not
    assigned). *)
Definition module_conf_fun (mm : module_manager) (section key : string) (value : a6o_conf_value)
    (w : W) : outcome W :=
  match module_manager_get_module_by_name mm section ≫= (fun i => mm_modules mm !! i) with
  | None => Ok w
  | Some m =>
      match mod_conf_table m with
      | None => Ok w
      | Some table =>
          match find_conf_entry table key with
          | None => Ok w
          | Some e =>
              match ce_conf_fun e with
              | None => Ok w
              | Some f =>
                  if Z.land (a6o_conf_value_type_val (a6o_conf_value_get_type value)) (ce_type e) =? 0
                  then Ok w
                  else r ← f (module_manager_get_module_by_name mm) key value w; Ok r.2
              end
          end
      end
  end.

Definition module_manager_configure_all (mm : module_manager) (conf : a6o_conf) (w : W) : outcome (Z * W) :=
  w ← a6o_conf_apply conf (fun s k v r => w ← r; module_conf_fun mm s k v w) (Ok w);
  Ok (0, w).

(** ** [a6o_open] and [a6o_close] *)

Variable builtin_modules : list a6o_module.

Definition a6o_add_builtin_modules (mm : module_manager) : module_manager :=
  fold_left module_manager_add builtin_modules mm.

(** [modules_dir]: the modules directory and what walking it answers, [None] when
    [a6o_std_path] returns NULL.  Errors of the phases are logged and ignored. *)
Definition a6o_open (conf : a6o_conf) (modules_dir : option (string * dir_tree)) (w : W)
    : outcome (module_manager * W) :=
  let mm := a6o_add_builtin_modules module_manager_new in
  mm ← match modules_dir with
       | None => Ok mm
       | Some (path, t) => r ← module_manager_load_path mm path t; Ok r.2
       end;
  let '(_, mm, w) := module_manager_init_all mm w in
  r ← module_manager_configure_all mm conf w;
  let '(_, mm, w) := module_manager_post_init_all mm r.2 in
  Ok (mm, w).

Definition a6o_close (mm : module_manager) (w : W) : Z * module_manager * W :=
  module_manager_close_all mm w.

End modules.
Arguments a6o_conf_entry : clear implicits.
Arguments a6o_module : clear implicits.
Arguments module_manager : clear implicits.
Arguments dl_result : clear implicits.
