(* ===== verification/ModuleSpec.v ===== *)
(** * Loading, initialising, configuring and closing modules *)
From S2P Require Import Prelude Status ConfVal Conf Dir Module.

#[local] Open Scope Z_scope.

Section lifecycle.
Context {W : Type}.

(** ** One phase over all the modules

    What [module_manager_all] does for a function of the modules that may be NULL:
    modules whose status is not OK are left alone, the others are called once, in
    order, and take the status answered. *)
Inductive phase (fun_of : a6o_module W -> option (W -> a6o_mod_status * W)) :
    list (a6o_module W) -> W -> list (a6o_module W) -> W -> Prop :=
  | phase_nil w : phase fun_of [] w [] w
  | phase_failed m ms ms' w w' :
      mod_status m <> A6O_MOD_OK -> phase fun_of ms w ms' w' -> phase fun_of (m :: ms) w (m :: ms') w'
  | phase_no_fun m ms ms' w w' :
      mod_status m = A6O_MOD_OK -> fun_of m = None -> phase fun_of ms w ms' w' ->
      phase fun_of (m :: ms) w (m :: ms') w'
  | phase_call m f s ms ms' w w1 w' :
      mod_status m = A6O_MOD_OK -> fun_of m = Some f -> f w = (s, w1) -> phase fun_of ms w1 ms' w' ->
      phase fun_of (m :: ms) w (set_status m s :: ms') w'.

(** The function [module_fun] calls what [fun_of] gives and reports a failure as [err]. *)
Definition calls (module_fun : a6o_module W -> W -> Z * a6o_module W * W)
    (fun_of : a6o_module W -> option (W -> a6o_mod_status * W)) (err : Z) : Prop :=
  forall m w, module_fun m w =
    match fun_of m with
    | None => (0, m, w)
    | Some f => let (s, w) := f w in (if bool_decide (s <> A6O_MOD_OK) then err else 0, set_status m s, w)
    end.

Lemma init_calls : calls module_init mod_init_fun (a6o_mod_status_val A6O_MOD_INIT_ERROR).
Proof. done. Qed.

Lemma post_init_calls : calls module_post_init mod_post_init_fun (a6o_mod_status_val A6O_MOD_INIT_ERROR).
Proof. done. Qed.

Lemma close_calls : calls module_close mod_close_fun (a6o_mod_status_val A6O_MOD_CLOSE_ERROR).
Proof. done. Qed.

Definition failed (m : a6o_module W) : Prop := mod_status m <> A6O_MOD_OK.

#[local] Instance failed_dec m : Decision (failed m).
Proof. unfold failed. apply _. Defined.

(** The value returned: [err] when a module that was OK no longer is. *)
Lemma all_loop_phase module_fun fun_of err ms g w :
  calls module_fun fun_of err -> err <> 0 ->
  exists ret ms' w', all_loop module_fun ms g w = (ret, ms', w') /\ phase fun_of ms w ms' w' /\
    (ret = g \/ ret = err) /\
    (Forall2 (fun m m' => failed m' -> failed m) ms ms' -> ret = g) /\
    (~ Forall2 (fun m m' => failed m' -> failed m) ms ms' -> ret = err).
Proof.
  intros Hcalls Herr. revert g w. induction ms as [|m ms IH]; intros g w; simpl.
  { exists g, [], w. split_and!; try done; [constructor|by left|].
    intros H. by destruct H. }
  case_bool_decide as Hst.
  - destruct (IH g w) as (ret & ms' & w' & -> & Hph & Hret & Hg & He).
    exists ret, (m :: ms'), w'. split_and!; try done; [by apply phase_failed| |].
    + intros H. apply Hg. by inversion H.
    + intros H. apply He. intros H2. apply H. by constructor.
  - assert (mod_status m = A6O_MOD_OK) as Hok by (destruct (mod_status m); by try destruct Hst).
    rewrite (Hcalls m w). destruct (fun_of m) as [f|] eqn:Ef.
    + destruct (f w) as [s w1] eqn:Es. case_bool_decide as Hs.
      * replace (err =? 0) with false by lia.
        destruct (IH err w1) as (ret & ms' & w' & -> & Hph & Hret & _).
        assert (ret = err) as -> by tauto.
        exists err, (set_status m s :: ms'), w'. split_and!; try done.
        -- by eapply phase_call.
        -- by right.
        -- intros H. inversion H as [|???? H1]; subst. by destruct (H1 Hs).
      * assert (s = A6O_MOD_OK) as -> by (destruct s; by try destruct Hs).
        change (0 =? 0) with true. cbn iota.
        destruct (IH g w1) as (ret & ms' & w' & -> & Hph & Hret & Hg & He).
        exists ret, (set_status m A6O_MOD_OK :: ms'), w'. split_and!; try done.
        -- by eapply phase_call.
        -- intros H. apply Hg. by inversion H.
        -- intros H. apply He. intros H2. apply H. by constructor.
    + change (0 =? 0) with true. cbn iota.
      destruct (IH g w) as (ret & ms' & w' & -> & Hph & Hret & Hg & He).
      exists ret, (m :: ms'), w'. split_and!; try done; [by apply phase_no_fun| |].
      * intros H. apply Hg. by inversion H.
      * intros H. apply He. intros H2. apply H. by constructor.
Qed.

Lemma manager_phase module_fun fun_of err mm w :
  calls module_fun fun_of err -> err <> 0 ->
  exists ret ms' w', module_manager_all mm module_fun w = (ret, {| mm_modules := ms' |}, w') /\
    phase fun_of (mm_modules mm) w ms' w' /\
    (ret = 0 \/ ret = err) /\
    (ret = 0 <-> Forall2 (fun m m' => failed m' -> failed m) (mm_modules mm) ms').
Proof.
  intros Hcalls Herr. unfold module_manager_all.
  destruct (all_loop_phase module_fun fun_of err (mm_modules mm) 0 w Hcalls Herr)
    as (ret & ms' & w' & -> & Hph & Hret & Hg & He).
  exists ret, ms', w'. split_and!; try done. split; [|done]. intros ->.
  destruct (decide (Forall2 (fun m m' => failed m' -> failed m) (mm_modules mm) ms')) as [|Hn]; [done|].
  by destruct Herr; rewrite (He Hn).
Qed.

(** A phase changes nothing but statuses. *)
Lemma phase_status fun_of ms w ms' w' :
  phase fun_of ms w ms' w' ->
  Forall2 (fun m m' => exists s, m' = set_status m s /\
    (failed m -> s = mod_status m) /\
    (mod_status m = A6O_MOD_OK -> match fun_of m with None => s = A6O_MOD_OK | Some f => exists w, (f w).1 = s end))
    ms ms'.
Proof.
  assert (forall m : a6o_module W, m = set_status m (mod_status m)) as Hid by (by intros []).
  induction 1 as [|m ms ms' w w' Hst Hph IH|m ms ms' w w' Hst Hf Hph IH|m f s ms ms' w w1 w' Hst Hf Hcall Hph IH];
    constructor; try done.
  - exists (mod_status m). split_and!; done.
  - exists (mod_status m). rewrite Hf. by split_and!.
  - exists s. rewrite Hf. split_and!; [done|by intros []|]. intros _. exists w. by rewrite Hcall.
Qed.

(** ** Loading *)

Section load.
Variable dlopen : option string -> dl_result W.

(** The modules found in a directory: the plain files in it that are shared objects
    with a module. *)
Definition plugins (t : dir_tree) : list (a6o_module W) :=
  omap (fun p => match dlopen p with DlModule m => Some m | _ => None end) (all_files false t).

Lemma load_path_plugins mm path t :
  module_manager_load_path dlopen mm path t =
    Ok (0, {| mm_modules := mm_modules mm ++ (module_new <$> plugins t) |}).
Proof.
  unfold module_manager_load_path.
  edestruct (walk_all_files false (module_load_dirent_cb dlopen)
    (fun mm p => match dlopen p with DlModule m => module_manager_add mm m | _ => mm end)) as [-> _].
  - intros p d. unfold module_load_dirent_cb. simpl. by destruct (dlopen p).
  - intros p flags errno d Hflag. unfold module_load_dirent_cb. by rewrite Hflag.
  - do 2 f_equal. unfold plugins. generalize (all_files false t). intros l. revert mm.
    induction l as [|p l IH]; intros mm; simpl.
    { destruct mm. by rewrite app_nil_r. }
    rewrite IH. destruct (dlopen p); simpl; [done|done|]. by rewrite <- app_assoc.
Qed.

Lemma builtin_modules_new (l : list (a6o_module W)) (mm : module_manager W) :
  fold_left module_manager_add l mm = {| mm_modules := mm_modules mm ++ (module_new <$> l) |}.
Proof.
  revert mm. induction l as [|m l IH]; intros mm; simpl; [destruct mm; by rewrite app_nil_r|].
  rewrite IH. simpl. by rewrite <- app_assoc.
Qed.

End load.

(** ** Configuration *)

Lemma conf_apply_ind {U} (P : U -> Prop) conf f u :
  P u ->
  (forall s k u, s ∈ sections conf -> k ∈ s_keys s -> P u -> P (f (s_section s) (k_key k) (k_value k) u)) ->
  P (a6o_conf_apply conf f u).
Proof.
  intros Hu Hf. unfold a6o_conf_apply. revert u Hu Hf. induction (sections conf) as [|s l IH]; intros u Hu Hf; [done|].
  simpl. apply IH; [|intros; apply Hf; [by right|done|done]].
  assert (forall k u, k ∈ s_keys s -> P u -> P (f (s_section s) (k_key k) (k_value k) u)) as Hs
    by (intros; apply Hf; [by left|done|done]).
  clear Hf IH. revert u Hu Hs. induction (s_keys s) as [|k ks IH]; intros u Hu Hs; [done|].
  simpl. apply IH; [apply Hs; [by left|done]|]. intros. apply Hs; [by right|done].
Qed.

(** The setting [key] of [section] is passed to [f], entry of a module of that name. *)
Definition declared_call (mm : module_manager W) (conf : a6o_conf) (key : string) (value : a6o_conf_value)
    (f : (string -> option nat) -> string -> a6o_conf_value -> W -> outcome (a6o_mod_status * W)) : Prop :=
  exists s k m table e,
    s ∈ sections conf /\ k ∈ s_keys s /\ key = k_key k /\ value = k_value k /\
    m ∈ mm_modules mm /\ mod_name m = s_section s /\ mod_conf_table m = Some table /\ e ∈ table /\
    ce_key e = key /\ ce_conf_fun e = Some f /\
    Z.land (a6o_conf_value_type_val (a6o_conf_value_get_type value)) (ce_type e) <> 0.

Lemma configure_all_rule (I : W -> Prop) mm conf w :
  (forall key value f w, declared_call mm conf key value f -> I w ->
     exists st w', f (module_manager_get_module_by_name mm) key value w = Ok (st, w') /\ I w') ->
  I w -> exists w', module_manager_configure_all mm conf w = Ok (0, w') /\ I w'.
Proof.
  intros Hf Hw. unfold module_manager_configure_all.
  assert (exists w', a6o_conf_apply conf (fun s k v r => w ← r; module_conf_fun mm s k v w) (Ok w) = Ok w' /\ I w')
    as (w' & -> & Hw'); [|by exists w'].
  apply (conf_apply_ind (fun r => exists w', r = Ok w' /\ I w')); [by exists w|].
  intros s k r Hs Hk (w0 & -> & Hw0). simpl. unfold module_conf_fun.
  destruct (module_manager_get_module_by_name mm (s_section s)) as [i|] eqn:Ei; simpl; [|by exists w0].
  unfold module_manager_get_module_by_name in Ei.
  apply fmap_Some in Ei as ([i' m] & Hfind & ->). apply list_find_Some in Hfind as (Hm & Hname & _).
  simpl. rewrite Hm. destruct (mod_conf_table m) as [table|] eqn:Et; [|by exists w0].
  destruct (find_conf_entry table (k_key k)) as [e|] eqn:Ee; [|by exists w0].
  apply fmap_Some in Ee as ([j e'] & Hfind & ->). apply list_find_Some in Hfind as (He & Hkey & _).
  simpl. destruct (ce_conf_fun e') as [f|] eqn:Ef; [|by exists w0].
  destruct (Z.land _ _ =? 0) eqn:El; [by exists w0|].
  destruct (Hf (k_key k) (k_value k) f w0) as (st & w1 & -> & Hw1); [|done|by exists w1].
  exists s, k, m, table, e'. split_and!; try done; try (by eapply list_elem_of_lookup_2).
  by apply Z.eqb_neq in El.
Qed.

End lifecycle.

(** What opening the library does to one module: it is initialised, then, if that went
    well, post-initialised; its status is the answer of the last function called. *)
Definition opened {W} (m m' : a6o_module W) : Prop :=
  exists s1 s2, m' = set_status (module_new m) s2 /\
    (match mod_init_fun m with None => s1 = A6O_MOD_OK | Some f => exists w, (f w).1 = s1 end) /\
    (s1 <> A6O_MOD_OK -> s2 = s1) /\
    (s1 = A6O_MOD_OK ->
     match mod_post_init_fun m with None => s2 = A6O_MOD_OK | Some f => exists w, (f w).1 = s2 end).

(** The modules the library opens. *)
Definition loaded_modules {W} (dlopen : option string -> dl_result W) (builtin : list (a6o_module W))
    (dir : option (string * dir_tree)) : list (a6o_module W) :=
  builtin ++ match dir with None => [] | Some (_, t) => plugins dlopen t end.

Lemma opened_phases {W} (ms ms1 ms2 : list (a6o_module W)) w0 w1 w2 w3 :
  phase mod_init_fun (module_new <$> ms) w0 ms1 w1 -> phase mod_post_init_fun ms1 w2 ms2 w3 ->
  Forall2 opened ms ms2.
Proof.
  intros H1%phase_status H2%phase_status. apply Forall2_fmap_l in H1.
  revert ms2 H2. induction H1 as [|m m1 ms ms1 (s1 & -> & _ & Hs1) H1 IH]; intros ms2 H2;
    inversion H2 as [|? m2 ? ms2' (s2 & -> & Hf & Hok) H2']; subst; constructor; [|by apply IH].
  exists s1, s2. split; [by destruct m|]. split; [by apply Hs1|]. by split.
Qed.

(** C17: Opening the library.  When no configuration function crashes, [a6o_open]
    succeeds: the builtin modules come first, then those found in the modules
    directory (its plain files only, without descending); each is initialised once, in
    order, then the settings are applied, then each module that was initialised without
    error is post-initialised once, in order.  A module ends with status OK exactly when
    both functions, where it has them, answered OK, and otherwise with the answer of the
    first that did not; nothing else in it changes, and a failing module does not
    prevent the others from being opened. *)
Theorem open_lifecycle {W} (dlopen : option string -> dl_result W) (builtin : list (a6o_module W))
    (conf : a6o_conf) (dir : option (string * dir_tree)) (w : W)
    (Hconf : forall m table e f by_name value w, m ∈ loaded_modules dlopen builtin dir ->
       mod_conf_table m = Some table -> e ∈ table -> ce_conf_fun e = Some f ->
       Z.land (a6o_conf_value_type_val (a6o_conf_value_get_type value)) (ce_type e) <> 0 ->
       exists r, f by_name (ce_key e) value w = Ok r) :
  exists ms1 w1 w2 mm w',
    a6o_open dlopen builtin conf dir w = Ok (mm, w') /\
    phase mod_init_fun (module_new <$> loaded_modules dlopen builtin dir) w ms1 w1 /\
    module_manager_configure_all {| mm_modules := ms1 |} conf w1 = Ok (0, w2) /\
    phase mod_post_init_fun ms1 w2 (mm_modules mm) w' /\
    Forall2 opened (loaded_modules dlopen builtin dir) (mm_modules mm).
Proof.
  unfold a6o_open, a6o_add_builtin_modules. rewrite builtin_modules_new. cbn [module_manager_new mm_modules app].
  set (mm0 := {| mm_modules := module_new <$> loaded_modules dlopen builtin dir |}).
  assert (match dir with
    | None => Ok {| mm_modules := module_new <$> builtin |}
    | Some (path, t) => r ← module_manager_load_path dlopen {| mm_modules := module_new <$> builtin |} path t; Ok r.2
    end = Ok mm0) as ->.
  { subst mm0. unfold loaded_modules. destruct dir as [[path t]|]; [|by rewrite app_nil_r].
    rewrite load_path_plugins. by rewrite fmap_app. }
  cbn [mbind outcome_bind]. unfold module_manager_init_all.
  destruct (manager_phase module_init mod_init_fun _ mm0 w init_calls) as (ret & ms1 & w1 & -> & Hph1 & _); [done|].
  cbn iota. destruct (configure_all_rule (fun _ => True) {| mm_modules := ms1 |} conf w1) as (w2 & Ew2 & _); [|done|].
  { intros key value f w0 (s & k & m & table & e & _ & _ & _ & _ & Hm & _ & Ht & He & <- & Hf & Hland) _.
    apply phase_status, Forall2_fmap_l in Hph1. simpl in Hm.
    apply list_elem_of_lookup_1 in Hm as [i Hi].
    destruct (Forall2_lookup_r _ _ _ _ _ Hph1 Hi) as (m0 & Hm0 & s1 & -> & _). simpl in Ht.
    destruct (Hconf m0 table e f (module_manager_get_module_by_name {| mm_modules := ms1 |}) value w0)
      as [[st w'] Er]; [by eapply list_elem_of_lookup_2|done..|]. by exists st, w'. }
  rewrite Ew2. cbn [mbind outcome_bind snd]. unfold module_manager_post_init_all.
  destruct (manager_phase module_post_init mod_post_init_fun _ {| mm_modules := ms1 |} w2 post_init_calls)
    as (ret2 & ms2 & w' & -> & Hph2 & _); [done|].
  exists ms1, w1, w2, {| mm_modules := ms2 |}, w'. split_and!; try done. by eapply opened_phases.
Qed.

(** ** A concrete opening: the world is the list of calls made *)

(** Every element of a concrete list. *)
Ltac elem_cases H :=
  repeat (apply elem_of_cons in H as [->|H]); try (by apply not_elem_of_nil in H).

Definition log_fun (what : string) (s : a6o_mod_status) : list string -> a6o_mod_status * list string :=
  fun w => (s, w ++ [what]).

Definition log_conf (what : string) (_ : string -> option nat) (key : string) (_ : a6o_conf_value)
    (w : list string) : outcome (a6o_mod_status * list string) :=
  Ok (A6O_MOD_OK, w ++ [(what +:+ " conf " +:+ key)%string]).

Definition log_module (name : string) (init post : a6o_mod_status) : a6o_module (list string) :=
  {| mod_init_fun := Some (log_fun (name +:+ " init") init);
     mod_conf_table := Some [{| ce_key := "dir"; ce_type := 4; ce_conf_fun := Some (log_conf name) |};
                             {| ce_key := "n"; ce_type := 1; ce_conf_fun := Some (log_conf name) |}];
     mod_post_init_fun := Some (log_fun (name +:+ " post") post); mod_scan_fun := None;
     mod_close_fun := None; mod_info_fun := None; mod_supported_mime_types := None;
     mod_name := name; mod_size := 8; mod_status := A6O_MOD_OK; mod_data_allocated := false |}.

Definition log_builtin : list (a6o_module (list string)) :=
  [log_module "on-demand" A6O_MOD_OK A6O_MOD_OK; log_module "broken" A6O_MOD_INIT_ERROR A6O_MOD_OK].

Definition log_dlopen (p : option string) : dl_result (list string) :=
  if bool_decide (p = Some "/lib/clamav.so") then DlModule (log_module "clamav" A6O_MOD_OK A6O_MOD_INIT_ERROR)
  else DlFailed.

Definition log_dir : dir_tree :=
  Readable (Entry "README" DT_REG (Some "/lib/README") (Unreadable 0)
           (Entry "clamav.so" DT_REG (Some "/lib/clamav.so") (Unreadable 0) (EndOfDir 0))).

Definition log_setting (name : string) : section_entry :=
  {| s_section := name;
     s_keys := [{| k_key := "dir"; k_value := CvList ["/tmp"] |}; {| k_key := "n"; k_value := CvString None |}] |}.

Definition log_settings : a6o_conf :=
  {| sections := log_setting <$> ["on-demand"; "broken"; "clamav"; "unknown"] |}.

(** Which calls are made: every module is configured, the one whose initialisation
    failed included; the setting of the wrong type and the unknown section are ignored. *)
Example open_calls :
  (fun r => ((fun m => (mod_name m, mod_status m)) <$> mm_modules r.1, r.2)) <$>
    match a6o_open log_dlopen log_builtin log_settings (Some ("/lib", log_dir)) [] with
    | Ok r => Some r | Fault _ => None
    end =
  Some ([("on-demand", A6O_MOD_OK); ("broken", A6O_MOD_INIT_ERROR); ("clamav", A6O_MOD_INIT_ERROR)],
        ["on-demand init"; "broken init"; "clamav init";
         "on-demand conf dir"; "broken conf dir"; "clamav conf dir"; "on-demand post"; "clamav post"])%string.
Proof. reflexivity. Qed.

Lemma open_lifecycle_witness :
  exists ms1 w1 w2 mm w',
    a6o_open log_dlopen log_builtin log_settings (Some ("/lib", log_dir)) [] = Ok (mm, w') /\
    phase mod_init_fun (module_new <$> loaded_modules log_dlopen log_builtin (Some ("/lib", log_dir))) [] ms1 w1 /\
    module_manager_configure_all {| mm_modules := ms1 |} log_settings w1 = Ok (0, w2) /\
    phase mod_post_init_fun ms1 w2 (mm_modules mm) w' /\
    Forall2 opened (loaded_modules log_dlopen log_builtin (Some ("/lib", log_dir))) (mm_modules mm).
Proof.
  apply (open_lifecycle log_dlopen log_builtin log_settings (Some ("/lib", log_dir)) []).
  intros m table e f by_name value w Hm Ht He Hf _.
  change (loaded_modules _ _ _) with
    (log_builtin ++ [log_module "clamav" A6O_MOD_OK A6O_MOD_INIT_ERROR]) in Hm.
  unfold log_builtin in Hm. cbn [app] in Hm.
  elem_cases Hm;
    cbn in Ht; injection Ht as <-;
    elem_cases He;
    cbn in Hf; injection Hf as <-; by eexists.
Defined.

(** Configuration functions are only called the way they were declared: with a
    setting of the configuration that is in a section with the name of the module,
    under the key of the entry and with a value of a type in the mask of the entry.
    So whatever those calls preserve, applying the whole configuration preserves, and
    it returns 0.  The status of the module plays no part. *)
Theorem configure_only_declared {W} (I : W -> Prop) (mm : module_manager W) (conf : a6o_conf) (w : W)
    (Hcalls : forall key value f w, declared_call mm conf key value f -> I w ->
       exists st w', f (module_manager_get_module_by_name mm) key value w = Ok (st, w') /\ I w')
    (Hw : I w) :
  exists w', module_manager_configure_all mm conf w = Ok (0, w') /\ I w'.
Proof. by apply configure_all_rule. Qed.

(** The log of a configuration only grows. *)
Lemma configure_only_declared_witness :
  exists w', module_manager_configure_all {| mm_modules := log_builtin |} log_settings ["start"%string] = Ok (0, w') /\
    "start"%string ∈ w'.
Proof.
  apply (configure_only_declared (fun w => "start"%string ∈ w)); [|by left].
  intros key value f w (s & k & m & table & e & _ & _ & _ & _ & Hm & _ & Ht & He & _ & Hf & _) Hw.
  unfold log_builtin in Hm. cbn [mm_modules] in Hm.
  elem_cases Hm;
    cbn in Ht; injection Ht as <-;
    elem_cases He;
    cbn in Hf; injection Hf as <-; (eexists _, _; split; [reflexivity|]; apply elem_of_app; by left).
Defined.

(** Closing calls the close function of every module whose status is OK, once and
    in order, and of no other; it returns 0 exactly when none of them answers an
    error, and the code of a close error otherwise, after having closed them all. *)
Theorem close_all_modules {W} (mm : module_manager W) (w : W) :
  exists ret ms w', a6o_close mm w = (ret, {| mm_modules := ms |}, w') /\
    phase mod_close_fun (mm_modules mm) w ms w' /\
    (ret = 0 \/ ret = a6o_mod_status_val A6O_MOD_CLOSE_ERROR) /\
    (ret = 0 <-> Forall2 (fun m m' => failed m' -> failed m) (mm_modules mm) ms).
Proof. by apply manager_phase; [apply close_calls|]. Qed.
