(* ===== verification/ScanConf.v ===== *)
(** * Scan configurations ([src/libcore/scanconf.c])

    White-listed directories, scanned mime types, modules, and the cache from mime
    types to applicable modules.  A module is its index in the manager's array.
    The two configurations of the program (on-demand and on-access) are created on
    first use. *)
From S2P Require Import Prelude Dir Module.

#[local] Open Scope Z_scope.

Record a6o_scan_conf := ScanConf {
  sc_name : string;
  sc_max_file_size : Z;
  sc_mime_types : list string;
  sc_modules : list nat;
  sc_mime_type_cache : gmap string (option (list nat));
  sc_directories_white_list : list string;
}.

Definition a6o_scan_conf_new (name : string) : a6o_scan_conf :=
  {| sc_name := name; sc_max_file_size := 0; sc_mime_types := []; sc_modules := [];
     sc_mime_type_cache := ∅; sc_directories_white_list := [] |}.

(** The static variables [on_demand_conf] and [on_access_conf]. *)
Record scan_confs := ScanConfs {
  on_demand_conf : option a6o_scan_conf;
  on_access_conf : option a6o_scan_conf;
}.

Definition no_confs : scan_confs := {| on_demand_conf := None; on_access_conf := None |}.

Definition get_conf (pc : option a6o_scan_conf) (name : string) : a6o_scan_conf :=
  match pc with None => a6o_scan_conf_new name | Some c => c end.

(** [a6o_scan_conf_on_demand()] followed by an update of what it points to. *)
Definition a6o_scan_conf_on_demand (cs : scan_confs) (f : a6o_scan_conf -> a6o_scan_conf) : scan_confs :=
  {| on_demand_conf := Some (f (get_conf (on_demand_conf cs) "on-demand scan configuration"));
     on_access_conf := on_access_conf cs |}.

Definition a6o_scan_conf_on_access (cs : scan_confs) (f : a6o_scan_conf -> a6o_scan_conf) : scan_confs :=
  {| on_demand_conf := on_demand_conf cs;
     on_access_conf := Some (f (get_conf (on_access_conf cs) "on-access scan configuration")) |}.

Definition a6o_scan_conf_white_list_directory (c : a6o_scan_conf) (path : string) : a6o_scan_conf :=
  {| sc_name := sc_name c; sc_max_file_size := sc_max_file_size c; sc_mime_types := sc_mime_types c;
     sc_modules := sc_modules c; sc_mime_type_cache := sc_mime_type_cache c;
     sc_directories_white_list := sc_directories_white_list c ++ [path] |}.

(** [strprefix] of this file also takes a backslash for a separator. *)
Definition wl_separators : list ascii := ["/"%char; "\"%char].

Definition a6o_scan_conf_is_white_listed (c : a6o_scan_conf) (path : string) : bool :=
  existsb (fun p => strprefix wl_separators path p) (sc_directories_white_list c).

Definition a6o_scan_conf_add_mime_type (c : a6o_scan_conf) (mime_type : string) : a6o_scan_conf :=
  {| sc_name := sc_name c; sc_max_file_size := sc_max_file_size c;
     sc_mime_types := sc_mime_types c ++ [mime_type];
     sc_modules := sc_modules c; sc_mime_type_cache := sc_mime_type_cache c;
     sc_directories_white_list := sc_directories_white_list c |}.

(** [by_name] is [a6o_get_module_by_name]. *)
Definition a6o_scan_conf_add_module (c : a6o_scan_conf) (module_name : string)
    (by_name : string -> option nat) : a6o_scan_conf :=
  match by_name module_name with
  | None => c
  | Some md =>
      {| sc_name := sc_name c; sc_max_file_size := sc_max_file_size c;
         sc_mime_types := sc_mime_types c; sc_modules := sc_modules c ++ [md];
         sc_mime_type_cache := sc_mime_type_cache c;
         sc_directories_white_list := sc_directories_white_list c |}
  end.

Definition a6o_scan_conf_max_file_size (c : a6o_scan_conf) (max_file_size : Z) : a6o_scan_conf :=
  {| sc_name := sc_name c; sc_max_file_size := u64 max_file_size; sc_mime_types := sc_mime_types c;
     sc_modules := sc_modules c; sc_mime_type_cache := sc_mime_type_cache c;
     sc_directories_white_list := sc_directories_white_list c |}.

Definition mime_type_contains (p_mime_type : list string) (mime_type : string) : bool :=
  existsb (fun p => bool_decide (p = mime_type) || bool_decide (p = "*")) p_mime_type.

Section applicable.
Context {W : Type}.
(** The manager's modules. *)
Variable modules : list (a6o_module W).

(** The supported types of a module of the array; a NULL array is dereferenced. *)
Definition supports (md : nat) (mime_type : string) : outcome bool :=
  match modules !! md with
  | None => Fault OutOfBounds
  | Some m =>
      match mod_supported_mime_types m with
      | None => Fault NullDeref
      | Some l => Ok (mime_type_contains l mime_type)
      end
  end.

Fixpoint select_modules (mods : list nat) (mime_type : string) : outcome (list nat) :=
  match mods with
  | [] => Ok []
  | m :: mods =>
      b ← supports m mime_type;
      rest ← select_modules mods mime_type;
      Ok (if (b : bool) then m :: rest else rest)
  end.

(** [None] is the NULL returned when no module was added. *)
Definition build_module_array (c : a6o_scan_conf) (mime_type : string) : outcome (option (list nat)) :=
  l ← select_modules (sc_modules c) mime_type;
  Ok (match l with [] => None | _ => Some l end).

Definition cache_insert (c : a6o_scan_conf) (mime_type : string) (mods : option (list nat)) : a6o_scan_conf :=
  {| sc_name := sc_name c; sc_max_file_size := sc_max_file_size c; sc_mime_types := sc_mime_types c;
     sc_modules := sc_modules c;
     sc_mime_type_cache := <[mime_type := mods]> (sc_mime_type_cache c);
     sc_directories_white_list := sc_directories_white_list c |}.

Definition get_applicable_modules (c : a6o_scan_conf) (mime_type : string)
    : outcome (option (list nat) * a6o_scan_conf) :=
  match sc_mime_type_cache c !! mime_type with
  | Some mods => Ok (mods, c)
  | None =>
      if negb (mime_type_contains (sc_mime_types c) mime_type)
      then Ok (None, cache_insert c mime_type None)
      else mods ← build_module_array c mime_type; Ok (mods, cache_insert c mime_type mods)
  end.

(** The public function only adds log messages. *)
Definition a6o_scan_conf_get_applicable_modules (c : a6o_scan_conf) (mime_type : string) :=
  get_applicable_modules c mime_type.

(** ** The cache is transparent while the configuration is not changed *)

(** What the configuration says, without the cache. *)
Definition applicable_spec (c : a6o_scan_conf) (mime_type : string) : outcome (option (list nat)) :=
  if mime_type_contains (sc_mime_types c) mime_type then build_module_array c mime_type else Ok None.

Definition same_settings (c c' : a6o_scan_conf) : Prop :=
  sc_name c = sc_name c' /\ sc_max_file_size c = sc_max_file_size c' /\
  sc_mime_types c = sc_mime_types c' /\ sc_modules c = sc_modules c' /\
  sc_directories_white_list c = sc_directories_white_list c'.

Definition cache_ok (c : a6o_scan_conf) : Prop :=
  forall mime mods, sc_mime_type_cache c !! mime = Some mods -> applicable_spec c mime = Ok mods.

Lemma same_settings_spec c c' mime :
  same_settings c c' -> applicable_spec c mime = applicable_spec c' mime.
Proof.
  intros (_ & _ & E1 & E2 & _). unfold applicable_spec, build_module_array. by rewrite E1, E2.
Qed.

Lemma cache_insert_ok c mime mods :
  cache_ok c -> applicable_spec c mime = Ok mods ->
  same_settings c (cache_insert c mime mods) /\ cache_ok (cache_insert c mime mods).
Proof.
  intros Hc Hs. split; [done|]. intros mime' mods'. simpl.
  rewrite <- (same_settings_spec c) by done.
  destruct (decide (mime = mime')) as [<-|].
  - rewrite lookup_insert_eq. by intros [= <-].
  - rewrite lookup_insert_ne by done. apply Hc.
Qed.

Lemma get_applicable_modules_spec c mime :
  cache_ok c ->
  match applicable_spec c mime with
  | Ok mods => exists c', get_applicable_modules c mime = Ok (mods, c') /\
      same_settings c c' /\ cache_ok c'
  | Fault f => get_applicable_modules c mime = Fault f
  end.
Proof.
  intros Hc. unfold get_applicable_modules.
  destruct (sc_mime_type_cache c !! mime) as [mods|] eqn:E.
  - rewrite (Hc mime mods E). by exists c.
  - unfold applicable_spec. destruct (mime_type_contains _ _) eqn:Em; simpl.
    + destruct (build_module_array c mime) as [mods|f] eqn:Eb; simpl; [|done].
      eexists. split; [done|]. apply cache_insert_ok; [done|]. unfold applicable_spec. by rewrite Em.
    + eexists. split; [done|]. apply cache_insert_ok; [done|]. unfold applicable_spec. by rewrite Em.
Qed.

(** The modules selected are exactly the configured ones that support the type, in
    configuration order. *)
Lemma select_modules_spec mods mime l :
  select_modules mods mime = Ok l -> l = filter (fun m => supports m mime = Ok true) mods.
Proof.
  revert l. induction mods as [|m mods IH]; intros l H; simpl in H; [by simplify_eq|].
  destruct (supports m mime) as [b|] eqn:E; simpl in H; [|done].
  destruct (select_modules mods mime) as [rest|]; simpl in H; [|done].
  rewrite filter_cons, <- (IH rest) by done. destruct b; simplify_eq.
  - by rewrite decide_True.
  - rewrite decide_False; congruence.
Qed.

End applicable.
