(* ===== verification/ScanCtx.v ===== *)
(** * Scanning one file ([src/libcore/scanctx.c], [mimetype.c])

    The operating system is a parameter: what [open], [read], [lseek] and libmagic
    answer.  The scan works on a state made of the scan configuration (its cache
    changes), the world of the modules, and the trace of the file descriptors
    opened and closed. *)
From S2P Require Import Prelude Status Dir Module ScanConf.

#[local] Open Scope Z_scope.

Inductive a6o_scan_context_status :=
  | A6O_SC_MUST_SCAN
  | A6O_SC_WHITE_LISTED_DIRECTORY
  | A6O_SC_FILE_TOO_BIG
  | A6O_SC_FILE_CACHED
  | A6O_SC_FILE_TYPE_NOT_SCANNED
  | A6O_SC_FILE_OPEN_ERROR.

#[export] Instance a6o_scan_context_status_eq_dec : EqDecision a6o_scan_context_status.
Proof. solve_decision. Defined.

(** [A6O_SC_FILE_OPEN_ERROR] has no case. *)
Definition a6o_scan_context_status_str (s : a6o_scan_context_status) : string :=
  match s with
  | A6O_SC_MUST_SCAN => "A6O_SC_MUST_SCAN"
  | A6O_SC_WHITE_LISTED_DIRECTORY => "A6O_SC_WHITE_LISTED_DIRECTORY"
  | A6O_SC_FILE_TOO_BIG => "A6O_SC_FILE_TOO_BIG"
  | A6O_SC_FILE_CACHED => "A6O_SC_FILE_CACHED"
  | A6O_SC_FILE_TYPE_NOT_SCANNED => "A6O_SC_FILE_TYPE_NOT_SCANNED"
  | A6O_SC_FILE_OPEN_ERROR => "UNKNOWN STATUS"
  end.

Record ctx_fields := CtxFields {
  ctx_fd : Z;
  ctx_path : option string;
  ctx_mime_type : option string;
  ctx_applicable_modules : option (list nat);
}.

(** [struct a6o_scan_context]; [ctx_rest] is [None] while only the status field has
    been assigned. *)
Record a6o_scan_context := ScanContext {
  ctx_status : a6o_scan_context_status;
  ctx_rest : option ctx_fields;
}.

Inductive fd_event := FdOpened (fd : Z) | FdClosed (fd : Z).

(** What the operating system and libmagic answer. *)
Record os_answers := OsAnswers {
  os_open : string -> Z;                  (** a descriptor, or -1 *)
  os_read : Z -> Z;                       (** bytes read, or -1 *)
  magic_buffer : Z -> option string;      (** libmagic on the bytes read *)
  os_lseek_ok : Z -> bool;
}.

Section scan.
Context {W : Type}.
Variable os : os_answers.
Variable modules : list (a6o_module W).

Record scan_state := ScanState {
  st_conf : a6o_scan_conf;
  st_world : W;
  st_fds : list fd_event;
}.

(** [strdup] of the NULL that libmagic returns on error is a NULL dereference. *)
Definition os_mime_type_guess_fd (fd : Z) : outcome (option string) :=
  if os_read os fd <? 0 then Ok None
  else match magic_buffer os fd with
       | None => Fault NullDeref
       | Some m => Ok (Some m)
       end.

(** [if (report != NULL) a6o_report_change(report, status, NULL, NULL)] *)
Definition report_status (report : option a6o_report) (s : a6o_file_status) : option a6o_report :=
  (fun r => (a6o_report_change r s None None).1) <$> report.

Definition a6o_scan_context_get (fd : Z) (path : option string) (report : option a6o_report)
    (st : scan_state) : outcome (a6o_scan_context * option a6o_report * scan_state) :=
  let stop (s : a6o_scan_context_status) (fs : option ctx_fields) (rs : a6o_file_status) (st : scan_state) :=
    Ok ({| ctx_status := s; ctx_rest := fs |}, report_status report rs, st) in
  let fields fd := {| ctx_fd := fd; ctx_path := None; ctx_mime_type := None; ctx_applicable_modules := None |} in
  if (fd <? 0) && bool_decide (path = None) then stop A6O_SC_FILE_OPEN_ERROR None A6O_FILE_IERROR st
  else
  if match path with Some p => a6o_scan_conf_is_white_listed (st_conf st) p | None => false end
  then stop A6O_SC_WHITE_LISTED_DIRECTORY (Some (fields fd)) A6O_FILE_WHITE_LISTED st
  else
  let '(fd, st) :=
    if fd <? 0 then
      let fd := match path with Some p => os_open os p | None => -1 end in
      (fd, if fd <? 0 then st
           else {| st_conf := st_conf st; st_world := st_world st; st_fds := st_fds st ++ [FdOpened fd] |})
    else (fd, st) in
  if fd <? 0 then stop A6O_SC_FILE_OPEN_ERROR (Some (fields fd)) A6O_FILE_IERROR st
  else
  mime ← os_mime_type_guess_fd fd;
  match mime with
  | None => stop A6O_SC_FILE_TYPE_NOT_SCANNED (Some (fields fd)) A6O_FILE_UNKNOWN_TYPE st
  | Some mime =>
      r ← a6o_scan_conf_get_applicable_modules modules (st_conf st) mime;
      let st := {| st_conf := r.2; st_world := st_world st; st_fds := st_fds st |} in
      match r.1 with
      | None => stop A6O_SC_FILE_TYPE_NOT_SCANNED (Some (fields fd)) A6O_FILE_UNKNOWN_TYPE st
      | Some mods =>
          Ok ({| ctx_status := A6O_SC_MUST_SCAN;
                 ctx_rest := Some {| ctx_fd := fd; ctx_path := path; ctx_mime_type := Some mime;
                                     ctx_applicable_modules := Some mods |} |}, report, st)
      end
  end.

Definition authoritative (s : a6o_file_status) : bool :=
  bool_decide (s = A6O_FILE_WHITE_LISTED) || bool_decide (s = A6O_FILE_MALWARE).

(** The loop of [scan_apply_modules]. *)
Fixpoint apply_loop (fd : Z) (path : option string) (mime_type : string) (mods : list nat)
    (current_status : a6o_file_status) (report : option a6o_report) (w : W)
    : outcome (a6o_file_status * option a6o_report * W) :=
  match mods with
  | [] => Ok (current_status, report, w)
  | i :: mods =>
      match modules !! i with
      | None => Fault OutOfBounds
      | Some m =>
          if bool_decide (mod_status m <> A6O_MOD_OK)
          then apply_loop fd path mime_type mods current_status report w
          else if negb (os_lseek_ok os fd) then Ok (A6O_FILE_IERROR, report, w)
          else
          match mod_scan_fun m with
          | None => Fault NullDeref
          | Some f =>
              let '(status, module_report, w) := f fd path mime_type w in
              c ← a6o_file_status_cmp current_status status;
              let '(current_status, report) :=
                if c <? 0
                then (status, (fun r => (a6o_report_change r status (Some (mod_name m)) module_report).1) <$> report)
                else (current_status, report) in
              if authoritative current_status then Ok (current_status, report, w)
              else apply_loop fd path mime_type mods current_status report w
          end
      end
  end.

Definition scan_apply_modules (fd : Z) (path : option string) (mime_type : string) (mods : list nat)
    (report : option a6o_report) (w : W) :=
  apply_loop fd path mime_type mods A6O_FILE_UNDECIDED report w.

Definition a6o_scan_context_scan (ctx : a6o_scan_context) (report : option a6o_report) (st : scan_state)
    : outcome (a6o_file_status * option a6o_report * scan_state) :=
  match ctx_rest ctx with
  | None => Fault UninitRead
  | Some c =>
      match ctx_applicable_modules c, ctx_mime_type c with
      | Some mods, Some mime =>
          r ← scan_apply_modules (ctx_fd c) (ctx_path c) mime mods report (st_world st);
          let '(status, report, w) := r in
          Ok (status, report, {| st_conf := st_conf st; st_world := w; st_fds := st_fds st |})
      | _, _ =>
          match report with
          | None => Fault NullDeref
          | Some _ => Ok (A6O_FILE_UNKNOWN_TYPE, report_status report A6O_FILE_UNKNOWN_TYPE, st)
          end
      end
  end.

Definition a6o_scan_context_close (ctx : a6o_scan_context) (st : scan_state)
    : outcome (a6o_scan_context * scan_state) :=
  match ctx_rest ctx with
  | None => Fault UninitRead
  | Some c =>
      if ctx_fd c <? 0 then Ok (ctx, st)
      else Ok ({| ctx_status := ctx_status ctx;
                  ctx_rest := Some {| ctx_fd := -1; ctx_path := ctx_path c; ctx_mime_type := ctx_mime_type c;
                                      ctx_applicable_modules := ctx_applicable_modules c |} |},
               {| st_conf := st_conf st; st_world := st_world st; st_fds := st_fds st ++ [FdClosed (ctx_fd c)] |})
  end.

(** Closes, then frees the path and the mime type. *)
Definition a6o_scan_context_destroy (ctx : a6o_scan_context) (st : scan_state) : outcome scan_state :=
  r ← a6o_scan_context_close ctx st; Ok r.2.

End scan.
Arguments scan_state : clear implicits.
