(* ===== verification/ScanSpec.v ===== *)
(** * Scanning: which modules apply, and what verdict they give *)
From S2P Require Import Prelude Status Dir Module ScanConf ScanCtx.

#[local] Open Scope Z_scope.

(** ** White list *)

(** Exactly what the white list lets through: a path is white-listed by a
    directory when they agree on all but the last character of the directory, a
    character stands in the place of that last one, and a separator or the end of
    the path follows.  The last character itself is not compared, so white-listing
    /hom also white-lists everything below /hox. *)
Theorem white_list_exact (c : a6o_scan_conf) (path : string) :
  a6o_scan_conf_is_white_listed c path = true <->
  exists d, d ∈ sc_directories_white_list c /\
    (d = "" /\ at_separator wl_separators (bytes path) = true \/
     exists p0 last other rest, bytes d = p0 ++ [last] /\ bytes path = p0 ++ other :: rest /\
       at_separator wl_separators rest = true).
Proof.
  unfold a6o_scan_conf_is_white_listed. rewrite existsb_exists. split.
  - intros (d & Hd & H). exists d. split; [by apply list_elem_of_In|].
    apply strprefix_spec in H as [[E H]|H]; [left|by right].
    split; [|done]. rewrite <- (of_bytes_bytes d), E. done.
  - intros (d & Hd & H). exists d. split; [by apply list_elem_of_In|].
    apply strprefix_spec. destruct H as [[-> H]|H]; [by left|by right].
Qed.

(** ** Mime types and the cache *)

Section lookups.
Context {W : Type} (modules : list (a6o_module W)).

(** Successive lookups on one configuration. *)
Fixpoint lookups (c : a6o_scan_conf) (mimes : list string) : outcome (list (option (list nat))) :=
  match mimes with
  | [] => Ok []
  | m :: mimes =>
      r ← a6o_scan_conf_get_applicable_modules modules c m;
      rs ← lookups r.2 mimes; Ok (r.1 :: rs)
  end.

(** The configured modules that are configured for the type, when the type is
    scanned at all; NULL when there is none. *)
Definition modules_for (c : a6o_scan_conf) (mime : string) : option (list nat) :=
  if mime_type_contains (sc_mime_types c) mime then
    match filter (fun m => supports modules m mime = Ok true) (sc_modules c) with
    | [] => None
    | l => Some l
    end
  else None.

(** Every configured module exists and declares its types. *)
Definition modules_declared (c : a6o_scan_conf) : Prop :=
  Forall (fun i => exists m l, modules !! i = Some m /\ mod_supported_mime_types m = Some l) (sc_modules c).

Lemma declared_select c mime :
  modules_declared c -> is_ok (select_modules modules (sc_modules c) mime) = true.
Proof.
  unfold modules_declared. induction 1 as [|i l (m & ty & Hm & Hty) Hl IH]; [done|]. simpl.
  unfold supports. rewrite Hm, Hty. simpl. by destruct (select_modules modules l mime).
Qed.

Lemma applicable_spec_modules_for c mime :
  modules_declared c -> applicable_spec modules c mime = Ok (modules_for c mime).
Proof.
  intros Hd. unfold applicable_spec, modules_for, build_module_array.
  destruct (mime_type_contains _ _); [|done].
  pose proof (declared_select c mime Hd) as Hok.
  destruct (select_modules modules (sc_modules c) mime) as [l|] eqn:E; [|done].
  apply select_modules_spec in E as ->. simpl. by destruct (filter _ _).
Qed.

Lemma same_settings_declared c c' : same_settings c c' -> modules_declared c -> modules_declared c'.
Proof. intros (_ & _ & _ & E & _). unfold modules_declared. by rewrite E. Qed.

Lemma same_settings_modules_for c c' mime :
  same_settings c c' -> modules_for c mime = modules_for c' mime.
Proof. intros (_ & _ & E1 & E2 & _). unfold modules_for. by rewrite E1, E2. Qed.

Lemma lookups_ok c mimes :
  cache_ok modules c -> modules_declared c -> lookups c mimes = Ok (modules_for c <$> mimes).
Proof.
  revert c. induction mimes as [|m mimes IH]; intros c Hc Hd; [done|]. simpl.
  pose proof (get_applicable_modules_spec modules c m Hc) as H.
  rewrite applicable_spec_modules_for in H by done.
  destruct H as (c' & E & Hs & Hc'). unfold a6o_scan_conf_get_applicable_modules.
  rewrite E. simpl. rewrite IH; [|done|by eapply same_settings_declared].
  simpl. do 2 f_equal. apply list_fmap_ext. intros. symmetry. by apply same_settings_modules_for.
Qed.

End lookups.

(** Looking up the modules of a mime type goes through the cache without
    changing the answer: from a configuration whose cache is empty, any sequence of
    lookups returns for each type the configured modules that support it, in
    configuration order, or NULL when the type is not scanned or no module supports
    it. *)
Theorem mime_cache_transparent {W} (modules : list (a6o_module W)) (c : a6o_scan_conf) (mimes : list string)
    (Hfresh : sc_mime_type_cache c = ∅) (Hdecl : modules_declared modules c) :
  lookups modules c mimes = Ok (modules_for modules c <$> mimes).
Proof.
  apply lookups_ok; [|done]. intros mime mods. by rewrite Hfresh, lookup_empty.
Qed.

Definition plain_module (name : string) (types : option (list string))
    (scan : option (Z -> option string -> string -> unit -> (a6o_file_status * option string) * unit))
    : a6o_module unit :=
  {| mod_init_fun := None; mod_conf_table := None; mod_post_init_fun := None; mod_scan_fun := scan;
     mod_close_fun := None; mod_info_fun := None; mod_supported_mime_types := types;
     mod_name := name; mod_size := 0; mod_status := A6O_MOD_OK; mod_data_allocated := false |}.

Definition verdict (s : a6o_file_status) (r : option string) :
    option (Z -> option string -> string -> unit -> (a6o_file_status * option string) * unit) :=
  Some (fun _ _ _ w => ((s, r), w)).

Definition sample_modules : list (a6o_module unit) :=
  [plain_module "moduleH1" (Some ["application/x-executable"]) (verdict A6O_FILE_SUSPICIOUS (Some "packed"));
   plain_module "clamav" (Some ["*"]) (verdict A6O_FILE_CLEAN None);
   plain_module "yara" (Some ["*"]) (verdict A6O_FILE_MALWARE (Some "EICAR"))].

Definition sample_scan_conf : a6o_scan_conf :=
  {| sc_name := "sample"; sc_max_file_size := 0; sc_mime_types := ["application/x-executable"; "text/plain"];
     sc_modules := [0; 1; 2]%nat; sc_mime_type_cache := ∅; sc_directories_white_list := ["/home"] |}.

Lemma mime_cache_transparent_witness :
  lookups sample_modules sample_scan_conf ["text/plain"; "image/png"; "text/plain"] =
    Ok (modules_for sample_modules sample_scan_conf <$> ["text/plain"; "image/png"; "text/plain"]).
Proof.
  apply (mime_cache_transparent sample_modules sample_scan_conf); [reflexivity|].
  repeat constructor; eexists _, _; split; reflexivity.
Defined.

(** ** The verdict *)

Section verdict.
Context {W : Type} (os : os_answers) (modules : list (a6o_module W)).
Variables (fd : Z) (path : option string) (mime : string).

(** One call of a module's scan function. *)
Record module_result := Result {
  res_module : string;
  res_status : a6o_file_status;
  res_report : option string;
}.

(** The modules called, in order: those whose status is OK, up to and including
    the first that answers white-listed or malware. *)
Fixpoint module_calls (mods : list nat) (w : W) : outcome (list module_result * W) :=
  match mods with
  | [] => Ok ([], w)
  | i :: mods =>
      match modules !! i with
      | None => Fault OutOfBounds
      | Some m =>
          if bool_decide (mod_status m <> A6O_MOD_OK) then module_calls mods w
          else match mod_scan_fun m with
               | None => Fault NullDeref
               | Some f =>
                   let '(status, rep, w) := f fd path mime w in
                   if authoritative status then Ok ([Result (mod_name m) status rep], w)
                   else r ← module_calls mods w; Ok (Result (mod_name m) status rep :: r.1, r.2)
               end
      end
  end.

Definition rank_le (s1 s2 : a6o_file_status) : Prop :=
  exists r1 r2, rank s1 = Some r1 /\ rank s2 = Some r2 /\ r1 <= r2.

(** [st] is the highest-ranked answer, first given by module [name]. *)
Definition is_verdict (start : a6o_file_status) (rs : list module_result) (st : a6o_file_status)
    (first : option module_result) : Prop :=
  Forall (fun r => rank_le (res_status r) st) rs /\ rank_le start st /\
  match first with
  | None => st = start
  | Some r => st = res_status r /\ exists before after, rs = before ++ r :: after /\
      Forall (fun r' => ~ rank_le st (res_status r')) before /\ ~ rank_le st start
  end.

(** The report after the scan, when there is one. *)
Definition report_of (report : option a6o_report) (st : a6o_file_status) (first : option module_result)
    (report' : option a6o_report) : Prop :=
  match report, report' with
  | None, None => True
  | Some r, Some r' =>
      r_path r' = r_path r /\ r_action r' = r_action r /\
      match first with
      | None => r' = r
      | Some res => r_status r' = st /\ r_module_name r' = Some (res_module res) /\
          (forall text, res_report res = Some text -> r_module_report r' = Some text)
      end
  | _, _ => False
  end.

Lemma rank_le_refl s : comparable s -> rank_le s s.
Proof. intros [r Hr]. exists r, r. split; [done|]. split; [done|lia]. Qed.

Lemma rank_le_trans s1 s2 s3 : rank_le s1 s2 -> rank_le s2 s3 -> rank_le s1 s3.
Proof. intros (r1 & r2 & ? & ? & ?) (r2' & r3 & ? & ? & ?). simplify_eq. exists r1, r3. split_and!; try done; lia. Qed.

Lemma not_rank_le s1 s2 : comparable s1 -> comparable s2 -> ~ rank_le s2 s1 -> rank_le s1 s2.
Proof.
  intros [r1 H1] [r2 H2] Hgt. exists r1, r2. split_and!; try done.
  destruct (Z.le_gt_cases r1 r2); [done|]. exfalso. apply Hgt. exists r2, r1. split_and!; try done; lia.
Qed.

Lemma cmp_less s1 s2 :
  comparable s1 -> comparable s2 ->
  exists c, a6o_file_status_cmp s1 s2 = Ok c /\ ((c <? 0) = true <-> ~ rank_le s2 s1) /\
    ((c <? 0) = false <-> rank_le s2 s1).
Proof.
  intros [r1 H1] [r2 H2]. rewrite (cmp_rank s1 s2 r1 r2) by done.
  eexists. split; [done|].
  assert (rank_le s2 s1 <-> r2 <= r1) as ->.
  { split; [intros (? & ? & ? & ? & ?); by simplify_eq|intros; by exists r2, r1]. }
  unfold sgn_of. destruct (Z.compare_spec r1 r2); lia.
Qed.

Lemma authoritative_top s s' : authoritative s = true -> s <> A6O_FILE_WHITE_LISTED -> comparable s' -> rank_le s' s.
Proof.
  unfold authoritative. intros H Hne [r' Hr']. destruct s; try done.
  exists r', 5. split_and!; try done. by destruct s'; simplify_eq/=.
Qed.

(** What the report becomes when an answer is adopted. *)
Definition adopted (res : module_result) (report : option a6o_report) : option a6o_report :=
  (fun r => (a6o_report_change r (res_status res) (Some (res_module res)) (res_report res)).1) <$> report.

(** The verdict on the answers after one that is adopted, and with it. *)
Lemma verdict_adopted cur res rs st first report report' :
  comparable (res_status res) -> rank_le cur (res_status res) -> ~ rank_le (res_status res) cur ->
  is_verdict (res_status res) rs st first -> report_of (adopted res report) st first report' ->
  exists first', is_verdict cur (res :: rs) st first' /\ report_of report st first' report'.
Proof.
  intros Hst Hle Hgt (Hall & Hs & Hf) Hrep. destruct first as [r|].
  - exists (Some r). destruct Hf as (-> & before & after & -> & Hb & Hnst). split.
    { split_and!; [constructor; done|by eapply rank_le_trans|done|].
      exists (res :: before), after. split_and!; [done|by constructor|].
      intros Hbad. apply Hnst. by eapply rank_le_trans. }
    { destruct report as [r0|], report' as [r1|]; simpl in *; done. }
  - exists (Some res). subst st. split.
    { split_and!; [constructor; [by apply rank_le_refl|done]|done|done|].
      exists [], rs. split_and!; try done; constructor. }
    { destruct report as [r0|], report' as [r1|]; simpl in *; try done.
      destruct Hrep as (? & ? & ->). split_and!; try done. by intros text ->. }
Qed.

(** The same, after one that is not. *)
Lemma verdict_kept cur res rs st first :
  rank_le (res_status res) cur -> is_verdict cur rs st first -> is_verdict cur (res :: rs) st first.
Proof.
  intros Hle (Hall & Hs & Hf). split_and!; [constructor; [by eapply rank_le_trans|done]|done|].
  destruct first as [r|]; [|done]. destruct Hf as (-> & before & after & -> & Hb & Hnst).
  split; [done|]. exists (res :: before), after. split_and!; [done| |done].
  constructor; [|done]. simpl. intros Hbad. apply Hnst. by eapply rank_le_trans.
Qed.

Lemma verdict_none st : comparable st -> is_verdict st [] st None.
Proof. intros H. split_and!; [constructor|by apply rank_le_refl|done]. Qed.

Lemma report_none st report : report_of report st None report.
Proof. by destruct report. Qed.

Lemma apply_loop_spec mods cur report w rs w' :
  os_lseek_ok os fd = true -> comparable cur -> authoritative cur = false ->
  module_calls mods w = Ok (rs, w') -> Forall (fun r => comparable (res_status r)) rs ->
  exists st first report', apply_loop os modules fd path mime mods cur report w = Ok (st, report', w') /\
    is_verdict cur rs st first /\ report_of report st first report'.
Proof.
  intros Hseek. revert cur report w rs. induction mods as [|i mods IH];
    intros cur report w rs Hcur Hauth Hcalls Hcmp; simpl in *.
  { simplify_eq. exists cur, None, report. split; [done|]. split; [by apply verdict_none|by apply report_none]. }
  destruct (modules !! i) as [m|]; [|done].
  case_bool_decide; [by apply IH|]. rewrite Hseek. simpl.
  destruct (mod_scan_fun m) as [f|]; [|done].
  destruct (f fd path mime w) as [[status rep] w1].
  set (res := Result (mod_name m) status rep).
  assert (exists rs', (if authoritative status then rs' = [] /\ w1 = w'
            else module_calls mods w1 = Ok (rs', w')) /\ rs = res :: rs') as (rs' & Hrest & ->).
  { destruct (authoritative status); [simplify_eq; by exists []|].
    destruct (module_calls mods w1) as [[rs' w2]|]; simpl in Hcalls; [|done].
    simplify_eq. by exists rs'. }
  apply list.Forall_cons in Hcmp as [Hst Hcmp']. simpl in Hst.
  destruct (cmp_less cur status Hcur Hst) as (c & -> & Hlt & Hge). simpl.
  destruct (c <? 0) eqn:Ec; simpl.
  - assert (~ rank_le status cur) as Hgt by tauto. pose proof (not_rank_le _ _ Hcur Hst Hgt) as Hle.
    destruct (authoritative status) eqn:Ea.
    + destruct Hrest as [-> ->].
      destruct (verdict_adopted cur res [] status None report (adopted res report)) as (first & Hv & Hrep); try done;
        [by apply verdict_none|by apply report_none|]. by exists status, first, (adopted res report).
    + destruct (IH status (adopted res report) w1 rs') as (st & first & report' & E & Hv & Hrep); [done..|].
      destruct (verdict_adopted cur res rs' st first report report') as (first' & Hv' & Hrep'); try done.
      exists st, first', report'. by split.
  - assert (rank_le status cur) as Hle by tauto. rewrite Hauth.
    destruct (authoritative status) eqn:Ea.
    { exfalso. destruct Hle as (r1 & r2 & E1 & E2 & ?). destruct status; try done; simpl in E1; simplify_eq;
        destruct cur; simplify_eq/=; done. }
    destruct (IH cur report w1 rs') as (st & first & report' & -> & Hv & Hrep); [done..|].
    exists st, first, report'. split; [done|]. split; [by apply verdict_kept|done].
Qed.

(** A module answering a status without a rank poisons the scan: any later answer
    makes the comparison abort. *)
Lemma apply_loop_poisoned i mods m f status rep report cur w w1 :
  os_lseek_ok os fd = true -> modules !! i = Some m -> mod_status m = A6O_MOD_OK ->
  mod_scan_fun m = Some f -> f fd path mime w = ((status, rep), w1) ->
  rank cur = None -> status <> cur ->
  apply_loop os modules fd path mime (i :: mods) cur report w = Fault AssertFail.
Proof.
  intros Hseek Hm Hok Hf E Hr Hne. simpl. rewrite Hm, bool_decide_eq_false_2 by (by intros []).
  rewrite Hseek. simpl. rewrite Hf, E. rewrite cmp_no_rank; [done|done|congruence].
Qed.

End verdict.

(** C6: The verdict of a scan: when the file can be rewound and every module
    answers a ranked status, [scan_apply_modules] calls the modules whose status is
    OK in order up to the first authoritative answer, returns the highest-ranked
    answer (UNDECIDED when there is none), and the report carries that status and
    the name and text of the first module that gave it. *)
Theorem scan_verdict {W} (os : os_answers) (modules : list (a6o_module W)) (fd : Z) (path : option string)
    (mime : string) (mods : list nat) (report : option a6o_report) (w w' : W) (rs : list module_result)
    (Hseek : os_lseek_ok os fd = true)
    (Hcalls : module_calls modules fd path mime mods w = Ok (rs, w'))
    (Hranked : Forall (fun r => comparable (res_status r)) rs) :
  exists st first report',
    scan_apply_modules os modules fd path mime mods report w = Ok (st, report', w') /\
    is_verdict A6O_FILE_UNDECIDED rs st first /\ report_of report st first report'.
Proof. apply (apply_loop_spec os modules fd path mime mods _ report w rs w'); try done. by exists 0. Qed.

Definition sample_os : os_answers :=
  {| os_open := fun _ => 3; os_read := fun _ => 1024;
     magic_buffer := fun _ => Some "application/x-executable"; os_lseek_ok := fun _ => true |}.

Lemma scan_verdict_witness :
  exists st first report',
    scan_apply_modules sample_os sample_modules 3 (Some "/bin/ls") "application/x-executable" [0; 1; 2]%nat
      (Some (a6o_report_init (Some "/bin/ls"))) tt = Ok (st, report', tt) /\
    is_verdict A6O_FILE_UNDECIDED
      [Result "moduleH1" A6O_FILE_SUSPICIOUS (Some "packed"); Result "clamav" A6O_FILE_CLEAN None;
       Result "yara" A6O_FILE_MALWARE (Some "EICAR")] st first /\
    report_of (Some (a6o_report_init (Some "/bin/ls"))) st first report'.
Proof.
  apply (scan_verdict sample_os sample_modules 3 (Some "/bin/ls") "application/x-executable" [0; 1; 2]%nat).
  - reflexivity.
  - reflexivity.
  - repeat constructor; eexists; reflexivity.
Defined.

(** A module that answers UNKNOWN_TYPE or EINVAL to a file for which no
    authoritative answer was given becomes the current status, and the next module
    that answers something else brings the process down at the [assert] of
    [a6o_file_status_cmp]. *)
Theorem unranked_answer_aborts {W} (os : os_answers) (modules : list (a6o_module W)) (fd : Z)
    (path : option string) (mime : string) (i j : nat) (mods : list nat) (m1 m2 : a6o_module W) f1 f2
    (s1 s2 : a6o_file_status) (rep1 rep2 : option string) (report : option a6o_report) (w w1 w2 : W)
    (Hseek : os_lseek_ok os fd = true)
    (Hm1 : modules !! i = Some m1) (Hm2 : modules !! j = Some m2)
    (Hok1 : mod_status m1 = A6O_MOD_OK) (Hok2 : mod_status m2 = A6O_MOD_OK)
    (Hf1 : mod_scan_fun m1 = Some f1) (Hf2 : mod_scan_fun m2 = Some f2)
    (Hr1 : f1 fd path mime w = ((s1, rep1), w1)) (Hr2 : f2 fd path mime w1 = ((s2, rep2), w2))
    (Hs1 : rank s1 = None) (Hs2 : s2 <> s1) :
  scan_apply_modules os modules fd path mime (i :: j :: mods) report w = Fault AssertFail.
Proof.
  unfold scan_apply_modules. remember (j :: mods) as rest eqn:Erest. cbn [apply_loop].
  rewrite Hm1, (bool_decide_eq_false_2 (mod_status m1 <> _)) by (by intros []).
  rewrite Hseek. cbn [negb]. rewrite Hf1, Hr1.
  assert (a6o_file_status_cmp A6O_FILE_UNDECIDED s1 = Ok (-1)) as -> by (by destruct s1).
  cbn. assert (authoritative s1 = false) as -> by (by destruct s1). subst rest.
  by apply (apply_loop_poisoned os modules fd path mime j mods m2 f2 s2 rep2 _ s1 w1 w2).
Qed.

Definition odd_modules : list (a6o_module unit) :=
  [plain_module "a" (Some ["*"]) (verdict A6O_FILE_UNKNOWN_TYPE None);
   plain_module "b" (Some ["*"]) (verdict A6O_FILE_CLEAN None)].

Lemma unranked_answer_aborts_witness :
  scan_apply_modules sample_os odd_modules 3 None "text/plain" [0; 1]%nat None tt = Fault AssertFail.
Proof. by eapply (unranked_answer_aborts sample_os odd_modules 3 None "text/plain" 0 1 []). Defined.
