(* ===== verification/Info.v ===== *)
(** * Update information ([src/libcore/info.c])

    What the antivirus knows about its signature bases, gathered from the modules. *)
From S2P Require Import Prelude Status ConfVal Conf Dir Module.

#[local] Open Scope Z_scope.

Definition a6o_update_status_str (s : a6o_update_status) : string :=
  match s with
  | A6O_UPDATE_OK => "A6O_UPDATE_OK"
  | A6O_UPDATE_LATE => "A6O_UPDATE_LATE"
  | A6O_UPDATE_CRITICAL => "A6O_UPDATE_CRITICAL"
  | A6O_UPDATE_NON_AVAILABLE => "A6O_UPDATE_NON_AVAILABLE"
  end.

Definition update_status_compare (s1 s2 : a6o_update_status) : Z :=
  if bool_decide (s1 = s2) then 0
  else match s1 with
  | A6O_UPDATE_NON_AVAILABLE => -1
  | A6O_UPDATE_OK => if bool_decide (s2 = A6O_UPDATE_NON_AVAILABLE) then 1 else -1
  | A6O_UPDATE_LATE =>
      if bool_decide (s2 = A6O_UPDATE_NON_AVAILABLE) || bool_decide (s2 = A6O_UPDATE_OK) then 1 else -1
  | A6O_UPDATE_CRITICAL =>
      if bool_decide (s2 = A6O_UPDATE_NON_AVAILABLE) || bool_decide (s2 = A6O_UPDATE_OK)
         || bool_decide (s2 = A6O_UPDATE_LATE) then 1 else -1
  end.

Record a6o_info := Info {
  in_antivirus_version : string;
  in_global_status : a6o_update_status;
  in_global_update_ts : Z;
  in_module_infos : list a6o_module_info;
}.

Section info.
Context {W : Type}.
(** [VERSION], and the value malloc left in the [mod_status] field. *)
Variable VERSION : string.
Variable junk : a6o_update_status.

(** One turn of the loop over the modules. *)
Definition info_step (r : a6o_info * W) (m : a6o_module W) : a6o_info * W :=
  let '(info, w) := r in
  match mod_info_fun m with
  | None => (info, w)
  | Some f =>
      let '(mod_status, mod_info, w) :=
        f {| mi_name := None; mi_mod_status := junk; mi_mod_update_ts := 0; mi_base_infos := None |} w in
      if bool_decide (mod_status = A6O_UPDATE_NON_AVAILABLE) then (info, w)
      else
        let mod_info := {| mi_name := Some (mod_name m); mi_mod_status := mod_status;
                           mi_mod_update_ts := mi_mod_update_ts mod_info;
                           mi_base_infos := mi_base_infos mod_info |} in
        ({| in_antivirus_version := in_antivirus_version info;
            in_global_status :=
              if update_status_compare (in_global_status info) mod_status <? 0 then mod_status
              else in_global_status info;
            in_global_update_ts :=
              if in_global_update_ts info <? mi_mod_update_ts mod_info then mi_mod_update_ts mod_info
              else in_global_update_ts info;
            in_module_infos := in_module_infos info ++ [mod_info] |}, w)
  end.

Definition a6o_info_new (modules : list (a6o_module W)) (w : W) : a6o_info * W :=
  fold_left info_step modules
    ({| in_antivirus_version := VERSION; in_global_status := A6O_UPDATE_NON_AVAILABLE;
        in_global_update_ts := 0; in_module_infos := [] |}, w).

(** ** The severity order *)

Definition severity (s : a6o_update_status) : Z :=
  match s with
  | A6O_UPDATE_NON_AVAILABLE => 0 | A6O_UPDATE_OK => 1 | A6O_UPDATE_LATE => 2 | A6O_UPDATE_CRITICAL => 3
  end.

Lemma update_status_compare_sgn s1 s2 :
  update_status_compare s1 s2 = Z.sgn (severity s1 - severity s2).
Proof. by destruct s1, s2. Qed.

Lemma severity_inj s1 s2 : severity s1 = severity s2 -> s1 = s2.
Proof. by destruct s1, s2. Qed.

(** What the modules answered, in order: those that have a function and information. *)
Inductive answers : list (a6o_module W) -> W -> list a6o_module_info -> W -> Prop :=
  | answers_nil w : answers [] w [] w
  | answers_none m ms w infos w' :
      mod_info_fun m = None -> answers ms w infos w' -> answers (m :: ms) w infos w'
  | answers_unavailable m f mi ms w w1 infos w' :
      mod_info_fun m = Some f -> f (ModuleInfo None junk 0 None) w = ((A6O_UPDATE_NON_AVAILABLE, mi), w1) ->
      answers ms w1 infos w' -> answers (m :: ms) w infos w'
  | answers_some m f st mi ms w w1 infos w' :
      mod_info_fun m = Some f -> f (ModuleInfo None junk 0 None) w = ((st, mi), w1) ->
      st <> A6O_UPDATE_NON_AVAILABLE -> answers ms w1 infos w' ->
      answers (m :: ms) w (ModuleInfo (Some (mod_name m)) st (mi_mod_update_ts mi) (mi_base_infos mi) :: infos) w'.

(** [st] and [ts] are the most severe status and the latest time of [infos], starting
    from [st0] and [ts0]. *)
Definition summary (st0 : a6o_update_status) (ts0 : Z) (infos : list a6o_module_info)
    (st : a6o_update_status) (ts : Z) : Prop :=
  severity st = foldr Z.max (severity st0) (severity ∘ mi_mod_status <$> infos) /\
  ts = foldr Z.max ts0 (mi_mod_update_ts <$> infos).

Lemma foldr_max_l x y l : foldr Z.max (Z.max x y) l = Z.max y (foldr Z.max x l).
Proof. induction l as [|z l IH]; simpl; [apply Z.max_comm|]. rewrite IH. lia. Qed.

Lemma info_loop ms info w :
  exists st ts infos w', fold_left info_step ms (info, w) =
      ({| in_antivirus_version := in_antivirus_version info; in_global_status := st; in_global_update_ts := ts;
          in_module_infos := in_module_infos info ++ infos |}, w') /\
    answers ms w infos w' /\ summary (in_global_status info) (in_global_update_ts info) infos st ts.
Proof.
  revert info w. induction ms as [|m ms IH]; intros info w; simpl.
  { exists (in_global_status info), (in_global_update_ts info), [], w.
    rewrite app_nil_r. split; [by destruct info|]. by repeat constructor. }
  destruct (mod_info_fun m) as [f|] eqn:Ef.
  2: { destruct (IH info w) as (st & ts & infos & w' & -> & Ha & Hs).
       exists st, ts, infos, w'. split_and!; [done|by apply answers_none|apply Hs..]. }
  destruct (f _ w) as [[s mi] w1] eqn:Ecall. case_bool_decide as Hs.
  { subst s. destruct (IH info w1) as (st & ts & infos & w' & -> & Ha & Hsum).
    exists st, ts, infos, w'. split_and!; [done|by eapply answers_unavailable|apply Hsum..]. }
  match goal with |- context [fold_left info_step ms (?i, w1)] =>
    destruct (IH i w1) as (st & ts & infos & w' & -> & Ha & [Hst Hts]) end.
  eexists st, ts, (_ :: infos), w'. split; [|split; [by eapply answers_some|]].
  { cbn [in_module_infos in_antivirus_version]. rewrite <- app_assoc. reflexivity. }
  cbn [in_global_status in_global_update_ts mi_mod_update_ts] in Hst, Hts.
  rewrite update_status_compare_sgn in Hst.
  split; simpl; [rewrite Hst|rewrite Hts]; rewrite <- foldr_max_l; f_equal.
  - destruct (Z.ltb_spec (Z.sgn (severity (in_global_status info) - severity s)) 0); lia.
  - destruct (Z.ltb_spec (in_global_update_ts info) (mi_mod_update_ts mi)); lia.
Qed.

End info.

(** The update information.  [a6o_info_new] asks every module that has an
    information function, once and in order, whatever its status; the modules that
    answer NON_AVAILABLE are left out and the others listed in order under their own
    name.  The global status is the most severe answer in the order NON_AVAILABLE, OK,
    LATE, CRITICAL, and the global time the latest time, both the neutral value when
    no module answered. *)
Theorem info_summarises {W} (VERSION : string) (junk : a6o_update_status) (modules : list (a6o_module W)) (w : W) :
  exists st ts infos w',
    a6o_info_new VERSION junk modules w = ({| in_antivirus_version := VERSION; in_global_status := st;
                                      in_global_update_ts := ts; in_module_infos := infos |}, w') /\
    answers junk modules w infos w' /\ summary A6O_UPDATE_NON_AVAILABLE 0 infos st ts.
Proof. apply info_loop. Qed.
