(* ===== verification/Blocks.v ===== *)
(** * Blocks, strings and arrays on the heap

    The blocks that the configuration ([src/libcore/conf.c], [confparser.c]) and the update
    information ([src/libcore/info.c]) are made of, the functions of the C library that
    work on them, and what is used of the arrays and strings of GLib, which is a parameter
    (class [GLib]). *)
From S2P Require Import Prelude ConfVal ConfParser Module Heap.
From iris.proofmode Require Import proofmode.

(** [struct a6o_conf_value], as it is inside another structure.  [HUnset] is a field that
    nothing was stored in yet. *)
Inductive hvalue : Set :=
  | HUnset
  | HVoid
  | HInt (int_v : Z)
  | HString (str_v : ptr)
  | HList (values : addr) (len : nat).

(** [struct a6o_conf_parser], without its callback. *)
Record parser_block := ParserBlock {
  pb_filename : ptr;
  pb_input : ptr;
  pb_scanner : ptr;
  pb_lookahead_token : token_type;
  pb_current_section : ptr;
  pb_current_key : ptr;
  pb_current_value_type : a6o_conf_value_type;
  pb_current_value_int : Z;
  pb_current_value_string : ptr;
  pb_current_value_list : ptr;
}.

Inductive mblock : Set :=
  | BString (s : string)                         (** [char *], up to its NUL *)
  | BPointers (l : list ptr)                     (** an array of pointers *)
  | BKeyEntry (key : ptr) (value : hvalue)       (** [struct key_entry] *)
  | BSectionEntry (section keys : ptr)           (** [struct section_entry] *)
  | BConf (sections : ptr)                       (** [struct a6o_conf] *)
  | BFile (input : list ascii)                   (** [FILE], open for reading *)
  | BScanner (line column previous : Z) (input token_text : ptr)   (** [struct scanner] *)
  | BParser (cp : parser_block)
  | BInfo (version : ptr) (status : a6o_update_status) (ts : Z) (module_infos : ptr)
                                                 (** [struct a6o_info] *)
  | BModuleInfo (name : ptr) (status : a6o_update_status) (ts : Z) (base_infos : ptr)
                                                 (** [struct a6o_module_info] *)
  | BBaseInfo (name : ptr) (ts : Z) (version : ptr) (signatures : Z) (full_path : ptr)
                                                 (** [struct a6o_base_info] *)
  | BArray (pdata : addr)                        (** [GPtrArray] *)
  | BText (str : list ascii).                    (** [GString] *)

Section strings.
Context `{Allocator}.

(** A string that is read: NULL and freed strings are faults. *)
Definition get_string (p : ptr) : cmd mblock string :=
  a ← deref_ptr p; b ← load a;
  match b with BString s => mret s | _ => fault_cmd UninitRead end.

Definition get_pointers (a : addr) : cmd mblock (list ptr) :=
  b ← load a; match b with BPointers l => mret l | _ => fault_cmd UninitRead end.

Definition array_get (a : addr) (i : nat) : cmd mblock ptr :=
  l ← get_pointers a;
  match l !! i with Some p => mret p | None => fault_cmd OutOfBounds end.

Definition array_set (a : addr) (i : nat) (p : ptr) : cmd mblock unit :=
  l ← get_pointers a;
  match l !! i with Some _ => store a (BPointers (<[i := p]> l)) | None => fault_cmd OutOfBounds end.

Definition strdup (p : ptr) : cmd mblock ptr :=
  s ← get_string p; a ← malloc (BString s); mret (Some a).

(** The copy of a NULL string is NULL. *)
Definition a6o_strdup (p : ptr) : cmd mblock ptr :=
  match p with None => mret None | Some _ => strdup p end.

(** [!strcmp(p, q)] *)
Definition streq (p q : ptr) : cmd mblock bool :=
  s ← get_string p; t ← get_string q; mret (bool_decide (s = t)).

(** [f] on the elements of an array of pointers, up to the NULL that ends it. *)
Fixpoint until_null (f : addr -> cmd mblock unit) (l : list ptr) : cmd mblock unit :=
  match l with
  | [] => fault_cmd OutOfBounds
  | None :: _ => mret tt
  | Some p :: l => f p;; until_null f l
  end.

End strings.

(** ** GLib

    A [GPtrArray] with its [pdata], a [GString].  The functions that free elements are
    given here where the code gives them to [g_ptr_array_new_with_free_func]. *)
Class GLib := {
  g_ptr_array_new : cmd mblock addr;
  g_ptr_array_add : addr -> ptr -> cmd mblock unit;
  g_ptr_array_pdata : addr -> cmd mblock addr;
  g_ptr_array_clear : (ptr -> cmd mblock unit) -> addr -> cmd mblock unit;  (** [g_ptr_array_set_size(a, 0)] *)
  g_ptr_array_free : (ptr -> cmd mblock unit) -> addr -> cmd mblock unit;
  g_string_new : cmd mblock addr;
  g_string_str : addr -> cmd mblock (list ascii);
  g_string_assign : addr -> list ascii -> cmd mblock unit;
  g_string_free : addr -> cmd mblock unit;
}.

(** What GLib documents: [is_array a d] is the part of the array [a] that belongs to GLib,
    [d] its [pdata], whose elements anyone may read. *)
Class GLibLaws (GL : GLib) := {
  is_array : addr -> addr -> hprop mblock;
  is_text : addr -> list ascii -> hprop mblock;
  array_new_spec : ⊢ wp g_ptr_array_new (fun a => ∃ d, is_array a d ∗ d ↦ BPointers []);
  array_add_spec a d l p :
    is_array a d ∗ d ↦ BPointers l ⊢
    wp (g_ptr_array_add a p) (fun _ => ∃ d', is_array a d' ∗ d' ↦ BPointers (l ++ [p]));
  array_pdata_spec a d : is_array a d ⊢ wp (g_ptr_array_pdata a) (fun r => ⟨r = d⟩ ∗ is_array a d);
  array_clear_spec f Φ a d l :
    (forall p, Φ p ⊢ wp (f p) (fun _ => emp)) ->
    is_array a d ∗ d ↦ BPointers l ∗ ([∗ list] p ∈ l, Φ p) ⊢
    wp (g_ptr_array_clear f a) (fun _ => ∃ d', is_array a d' ∗ d' ↦ BPointers []);
  array_free_spec f Φ a d l :
    (forall p, Φ p ⊢ wp (f p) (fun _ => emp)) ->
    is_array a d ∗ d ↦ BPointers l ∗ ([∗ list] p ∈ l, Φ p) ⊢
    wp (g_ptr_array_free f a) (fun _ => emp);
  text_new_spec : ⊢ wp g_string_new (fun a => is_text a []);
  text_str_spec a t : is_text a t ⊢ wp (g_string_str a) (fun r => ⟨r = t⟩ ∗ is_text a t);
  text_assign_spec a t t' : is_text a t ⊢ wp (g_string_assign a t') (fun _ => is_text a t');
  text_free_spec a t : is_text a t ⊢ wp (g_string_free a) (fun _ => emp);
}.

(** ** Specifications of the strings and arrays *)

(** A string owned through a pointer that may be NULL. *)
Definition string_at (p : ptr) (s : option string) : hprop mblock :=
  match p, s with
  | None, None => emp
  | Some a, Some s => a ↦ BString s
  | _, _ => False
  end.

Lemma get_string_spec a s : a ↦ BString s ⊢ wp (get_string (Some a)) (fun r => ⟨r = s⟩ ∗ a ↦ BString s).
Proof. iIntros "H". wp_pure. wp_read "H". wp_pure. by iFrame. Qed.

Lemma get_pointers_spec a l : a ↦ BPointers l ⊢ wp (get_pointers a) (fun r => ⟨r = l⟩ ∗ a ↦ BPointers l).
Proof. iIntros "H". wp_read "H". wp_pure. by iFrame. Qed.

Lemma array_get_spec a l i p :
  l !! i = Some p -> a ↦ BPointers l ⊢ wp (array_get a i) (fun r => ⟨r = p⟩ ∗ a ↦ BPointers l).
Proof.
  iIntros (Hi) "H". wp_use get_pointers_spec with "H" as (r) "[-> H]". rw Hi. wp_pure. by iFrame.
Qed.

Lemma array_set_spec a l i p q :
  l !! i = Some q -> a ↦ BPointers l ⊢ wp (array_set a i p) (fun _ => a ↦ BPointers (<[i := p]> l)).
Proof.
  iIntros (Hi) "H". wp_use get_pointers_spec with "H" as (r) "[-> H]". rw Hi. wp_write "H". iFrame.
Qed.

Lemma strdup_spec `{Allocator} a s :
  a ↦ BString s ⊢ wp (strdup (Some a)) (fun p => a ↦ BString s ∗ ∃ c, ⟨p = Some c⟩ ∗ c ↦ BString s).
Proof.
  iIntros "H". wp_use get_string_spec with "H" as (r) "[-> H]". wp_let c as "Hc". wp_pure.
  iFrame "H". iExists c. by iFrame.
Qed.

Lemma a6o_strdup_spec `{Allocator} p s :
  string_at p s ⊢ wp (a6o_strdup p) (fun r => string_at p s ∗ string_at r s).
Proof.
  destruct p as [a|], s as [s|]; simpl.
  - iIntros "H". wp_use strdup_spec with "H" as (r) "(H & %c & -> & Hc)". iFrame.
  - iIntros "[]".
  - iIntros "[]".
  - iIntros "_". wp_pure. by iFrame.
Qed.

Lemma streq_spec a b s t :
  a ↦ BString s ∗ b ↦ BString t ⊢
  wp (streq (Some a) (Some b)) (fun r => ⟨r = bool_decide (s = t)⟩ ∗ a ↦ BString s ∗ b ↦ BString t).
Proof.
  iIntros "[Ha Hb]". wp_use get_string_spec with "Ha" as (r) "[-> Ha]".
  wp_use get_string_spec with "Hb" as (r) "[-> Hb]". wp_pure. by iFrame.
Qed.

Lemma free_string_spec p s : string_at p s ⊢ wp (free p) (fun _ => emp).
Proof.
  destruct p as [a|], s as [s|]; simpl; [|iIntros "[]"|iIntros "[]"|].
  - iIntros "H". by wp_del "H".
  - iIntros "_". by iApply wp_free_null.
Qed.

(** The blocks of a NULL-terminated array, freed by [f] one by one. *)
Lemma until_null_spec {A} (R : addr -> A -> hprop mblock) f ps l :
  (forall p x, R p x ⊢ wp (f p) (fun _ => emp)) ->
  ([∗ list] p;x ∈ ps;l, R p x) ⊢ wp (until_null f ((Some <$> ps) ++ [None])) (fun _ => emp).
Proof.
  iIntros (Hf) "H". iInduction ps as [|p ps IH] forall (l); destruct l as [|x l]; simpl; try done.
  - by wp_pure.
  - iDestruct "H" as "[Hp H]". wp_use Hf with "Hp" as (u) "_". by iApply "IH".
Qed.

(** ** An implementation of GLib

    It shows that what [GLibLaws] asks for can hold. *)
Section implementation.
Context `{Allocator}.

Definition get_array (a : addr) : cmd mblock addr :=
  b ← load a; match b with BArray d => mret d | _ => fault_cmd UninitRead end.

Definition get_text (a : addr) : cmd mblock (list ascii) :=
  b ← load a; match b with BText t => mret t | _ => fault_cmd UninitRead end.

#[export] Instance block_glib : GLib := {|
  g_ptr_array_new := d ← malloc (BPointers []); malloc (BArray d);
  g_ptr_array_add a p := d ← get_array a; l ← get_pointers d; store d (BPointers (l ++ [p]));
  g_ptr_array_pdata a := get_array a;
  g_ptr_array_clear f a :=
    d ← get_array a; l ← get_pointers d; for_each f l;; store d (BPointers []);
  g_ptr_array_free f a :=
    d ← get_array a; l ← get_pointers d; for_each f l;; free (Some d);; free (Some a);
  g_string_new := malloc (BText []);
  g_string_str a := get_text a;
  g_string_assign a t := store a (BText t);
  g_string_free a := free (Some a) |}.

Lemma get_array_spec a d : a ↦ BArray d ⊢ wp (get_array a) (fun r => ⟨r = d⟩ ∗ a ↦ BArray d).
Proof. iIntros "H". wp_read "H". wp_pure. by iFrame. Qed.

Lemma for_each_freed (f : ptr -> cmd mblock unit) Φ l :
  (forall p, Φ p ⊢ wp (f p) (fun _ => emp)) ->
  ([∗ list] p ∈ l, Φ p) ⊢ wp (for_each f l) (fun _ => emp).
Proof.
  iIntros (Hf) "H". wp_use (wp_for_each f Φ (fun _ => emp%I) l Hf) with "H" as (v) "H".
  by rw big_sepL_emp.
Qed.

#[export] Program Instance block_glib_laws : GLibLaws block_glib :=
  {| is_array a d := (a ↦ BArray d)%I; is_text a t := (a ↦ BText t)%I |}.
Next Obligation.
  simpl. wp_let d as "Hd". iApply wp_malloc. iIntros (a) "Ha". iFrame.
Qed.
Next Obligation.
  intros a d l p. iIntros "[Ha Hd]". simpl. wp_use get_array_spec with "Ha" as (r) "[-> Ha]".
  wp_use get_pointers_spec with "Hd" as (r) "[-> Hd]". wp_write "Hd". iFrame.
Qed.
Next Obligation. intros a d. apply get_array_spec. Qed.
Next Obligation.
  intros f Φ a d l Hf. iIntros "(Ha & Hd & Hl)". simpl. wp_use get_array_spec with "Ha" as (r) "[-> Ha]".
  wp_use get_pointers_spec with "Hd" as (r) "[-> Hd]".
  wp_use (for_each_freed f Φ l Hf) with "Hl" as (u) "_". wp_write "Hd". iFrame.
Qed.
Next Obligation.
  intros f Φ a d l Hf. iIntros "(Ha & Hd & Hl)". simpl. wp_use get_array_spec with "Ha" as (r) "[-> Ha]".
  wp_use get_pointers_spec with "Hd" as (r) "[-> Hd]".
  wp_use (for_each_freed f Φ l Hf) with "Hl" as (u) "_". wp_del "Hd". by wp_del "Ha".
Qed.
Next Obligation. iApply wp_malloc. iIntros (a) "H". iFrame. Qed.
Next Obligation. intros a t. iIntros "H". simpl. wp_read "H". wp_pure. by iFrame. Qed.
Next Obligation. intros a t t'. iIntros "H". simpl. wp_write "H". iFrame. Qed.
Next Obligation. intros a t. iIntros "H". simpl. by wp_del "H". Qed.

End implementation.
