(* ===== verification/InfoHeap.v ===== *)
(** * Update information on the heap ([src/libcore/info.c])

    [a6o_info_new] and [a6o_info_free] with their blocks; Info.v says what the information
    is.  The functions of modules are parameters: they fill the structure they are given
    and allocate the bases. *)
From S2P Require Import Prelude Module Info Heap Blocks.
From iris.proofmode Require Import proofmode.

#[local] Open Scope Z_scope.

(** ** The arrays of GLib that are NULL-terminated

    [garray_at a d l]: the [GArray] of the pointers [l], whose [data] is [d]. *)
Class GArrays := {
  g_array_new : cmd mblock addr;
  g_array_append_val : addr -> addr -> cmd mblock unit;
  g_array_data : addr -> cmd mblock addr;
  g_array_free_keep : addr -> cmd mblock unit;       (** [g_array_free(a, FALSE)] *)
}.

Class GArrayLaws (GA : GArrays) := {
  garray_at : addr -> addr -> list addr -> hprop mblock;
  garray_new_spec : ⊢ wp g_array_new (fun a => ∃ d, garray_at a d []);
  garray_append_spec a d l p :
    garray_at a d l ⊢ wp (g_array_append_val a p) (fun _ => ∃ d', garray_at a d' (l ++ [p]));
  garray_data_spec a d l : garray_at a d l ⊢ wp (g_array_data a) (fun r => ⟨r = d⟩ ∗ garray_at a d l);
  garray_keep_spec a d l :
    garray_at a d l ⊢ wp (g_array_free_keep a) (fun _ => d ↦ BPointers ((Some <$> l) ++ [None]));
}.

(** A module as [a6o_info_new] sees it. *)
Record info_module := InfoModule {
  im_name : ptr;
  im_info_fun : option (addr -> cmd mblock a6o_update_status);
}.

(** ** Operations *)

Section operations.
Context `{Allocator, GArrays}.
(** The string literal [VERSION], and what [malloc] left in [mod_status]. *)
Variable VERSION : addr.
Variable junk : a6o_update_status.

Definition get_info (i : addr) : cmd mblock (ptr * a6o_update_status * Z * ptr) :=
  b ← load i;
  match b with BInfo v st ts mods => mret (v, st, ts, mods) | _ => fault_cmd UninitRead end.

Definition get_module_info (m : addr) : cmd mblock (ptr * a6o_update_status * Z * ptr) :=
  b ← load m;
  match b with BModuleInfo n st ts bases => mret (n, st, ts, bases) | _ => fault_cmd UninitRead end.

Definition get_base_info (b : addr) : cmd mblock (ptr * ptr * ptr) :=
  x ← load b;
  match x with BBaseInfo n _ v _ f => mret (n, v, f) | _ => fault_cmd UninitRead end.

(** The module answered: its information is completed, and the global one updated. *)
Definition add_module_info (i arr : addr) (mod_name : ptr) (mod_info : addr) (mod_status : a6o_update_status)
    : cmd mblock unit :=
  name ← strdup mod_name;
  mi ← get_module_info mod_info;
  let '(_, _, mod_ts, bases) := mi in
  store mod_info (BModuleInfo name mod_status mod_ts bases);;
  g_array_append_val arr mod_info;;
  info ← get_info i;
  let '(v, st, ts, mods) := info in
  store i (BInfo v (if update_status_compare st mod_status <? 0 then mod_status else st)
             (if ts <? mod_ts then mod_ts else ts) mods).

Definition info_module_step (i arr : addr) (m : info_module) : cmd mblock unit :=
  match im_info_fun m with
  | None => mret tt
  | Some info_fun =>
      mod_info ← malloc (BModuleInfo None junk 0 None);
      mod_status ← info_fun mod_info;
      if bool_decide (mod_status = A6O_UPDATE_NON_AVAILABLE) then free (Some mod_info)
      else add_module_info i arr (im_name m) mod_info mod_status
  end.

Definition a6o_info_new (modules : list info_module) : cmd mblock addr :=
  i ← malloc (BInfo None A6O_UPDATE_NON_AVAILABLE 0 None);
  v ← strdup (Some VERSION);
  store i (BInfo v A6O_UPDATE_NON_AVAILABLE 0 None);;
  arr ← g_array_new;
  for_each (info_module_step i arr) modules;;
  d ← g_array_data arr;
  info ← get_info i;
  let '(v, st, ts, _) := info in
  store i (BInfo v st ts (Some d));;
  g_array_free_keep arr;;
  mret i.

Definition base_info_free (b : addr) : cmd mblock unit :=
  x ← get_base_info b;
  let '(name, version, full_path) := x in
  free name;; free version;; free full_path;; free (Some b).

Definition module_info_free (m : addr) : cmd mblock unit :=
  x ← get_module_info m;
  let '(name, _, _, bases) := x in
  free name;;
  (match bases with
   | None => mret tt
   | Some b => l ← get_pointers b; until_null base_info_free l;; free (Some b)
   end);;
  free (Some m).

Definition a6o_info_free (i : addr) : cmd mblock unit :=
  x ← get_info i;
  let '(version, _, _, mods) := x in
  (match mods with
   | None => mret tt
   | Some d => l ← get_pointers d; until_null module_info_free l;; free (Some d)
   end);;
  free version;; free (Some i).

End operations.

(** ** The blocks of an information *)

Definition base_at (p : addr) (b : a6o_base_info) : hprop mblock :=
  ∃ n v f, p ↦ BBaseInfo n (base_update_ts b) v (base_signature_count b) f ∗
    string_at n (base_name b) ∗ string_at v (base_version b) ∗ string_at f (base_full_path b).

Definition bases_at (p : ptr) (l : option (list a6o_base_info)) : hprop mblock :=
  match p, l with
  | None, None => emp
  | Some a, Some l => ∃ ps, a ↦ BPointers ((Some <$> ps) ++ [None]) ∗ [∗ list] p;b ∈ ps;l, base_at p b
  | _, _ => False
  end.

Definition module_info_at (p : addr) (mi : a6o_module_info) : hprop mblock :=
  ∃ n b, p ↦ BModuleInfo n (mi_mod_status mi) (mi_mod_update_ts mi) b ∗
    string_at n (mi_name mi) ∗ bases_at b (mi_base_infos mi).

Definition info_at (i : addr) (info : a6o_info) : hprop mblock :=
  ∃ v d ps, i ↦ BInfo (Some v) (in_global_status info) (in_global_update_ts info) (Some d) ∗
    v ↦ BString (in_antivirus_version info) ∗ d ↦ BPointers ((Some <$> ps) ++ [None]) ∗
    [∗ list] p;mi ∈ ps;in_module_infos info, module_info_at p mi.

(** ** Freeing *)

Lemma base_info_free_spec p b : base_at p b ⊢ wp (base_info_free p) (fun _ => emp).
Proof.
  iIntros "(%n & %v & %f & Hp & Hn & Hv & Hf)". wp_front. wp_read "Hp". wp_pure.
  wp_use free_string_spec with "Hn" as (_) "_". wp_use free_string_spec with "Hv" as (_) "_".
  wp_use free_string_spec with "Hf" as (_) "_". by wp_del "Hp".
Qed.

Lemma module_info_free_spec p mi : module_info_at p mi ⊢ wp (module_info_free p) (fun _ => emp).
Proof.
  iIntros "(%n & %b & Hp & Hn & Hb)". wp_front. wp_read "Hp". wp_pure.
  wp_use free_string_spec with "Hn" as (_) "_". wp_front. iApply (wp_wand _ (fun _ => emp)%I). iSplitL "Hb".
  - destruct b as [a|], (mi_base_infos mi) as [l|]; simpl; [|iDestruct "Hb" as %[]..|by wp_pure].
    iDestruct "Hb" as (ps) "[Ha Hps]". wp_use get_pointers_spec with "Ha" as (r) "[-> Ha]".
    wp_use (until_null_spec base_at base_info_free ps l base_info_free_spec) with "Hps" as (_) "_".
    by wp_del "Ha".
  - iIntros (_) "_". by wp_del "Hp".
Qed.

(** Everything an information is made of is freed. *)
Lemma info_free_spec i info : info_at i info ⊢ wp (a6o_info_free i) (fun _ => emp).
Proof.
  iIntros "(%v & %d & %ps & Hi & Hv & Hd & Hps)". wp_front. wp_read "Hi". wp_pure.
  wp_front. wp_use get_pointers_spec with "Hd" as (r) "[-> Hd]".
  wp_use (until_null_spec module_info_at module_info_free ps (in_module_infos info) module_info_free_spec)
    with "Hps" as (_) "_".
  wp_del "Hd". wp_del "Hv". by wp_del "Hi".
Qed.

(** ** Gathering *)

Section gather.
Context `{Allocator, !GArrays, GL : !GArrayLaws _}.
Context {W : Type}.
Variable VERSION : addr.
Variable version : string.
Variable junk : a6o_update_status.
(** The state of the modules, which may have blocks of its own. *)
Variable world : W -> hprop mblock.

(** The function of a module is that of its model, and allocates what it answers. *)
Definition module_like (hm : info_module) (m : a6o_module W) : Prop :=
  match im_info_fun hm, mod_info_fun m with
  | None, None => True
  | Some fh, Some f =>
      forall a w st mi w', f (ModuleInfo None junk 0 None) w = ((st, mi), w') ->
        a ↦ BModuleInfo None junk 0 None ∗ world w ⊢
        wp (fh a) (fun r => ⟨r = st⟩ ∗ world w' ∗
          ∃ st' b, a ↦ BModuleInfo None st' (mi_mod_update_ts mi) b ∗ bases_at b (mi_base_infos mi))
  | _, _ => False
  end.

Definition module_name_at (hm : info_module) (m : a6o_module W) : hprop mblock :=
  ∃ n, ⟨im_name hm = Some n⟩ ∗ n ↦ BString (mod_name m).

(** The bases that a module allocated although it answered that nothing is available. *)
Definition unavailable_base (m : a6o_module W) (w : W) : list (option (list a6o_base_info)) :=
  match mod_info_fun m with
  | None => []
  | Some f =>
      let '(st, mi, _) := f (ModuleInfo None junk 0 None) w in
      if bool_decide (st = A6O_UPDATE_NON_AVAILABLE) then [mi_base_infos mi] else []
  end.

Definition world_after (m : a6o_module W) (w : W) : W :=
  match mod_info_fun m with None => w | Some f => (f (ModuleInfo None junk 0 None) w).2 end.

Fixpoint unavailable_bases (ms : list (a6o_module W)) (w : W) : list (option (list a6o_base_info)) :=
  match ms with
  | [] => []
  | m :: ms => unavailable_base m w ++ unavailable_bases ms (world_after m w)
  end.

Definition lost (l : list (option (list a6o_base_info))) : hprop mblock :=
  [∗ list] bases ∈ l, ∃ p, bases_at p bases.

(** The information while the modules are asked. *)
Definition gathering (i arr : addr) (info : a6o_info) : hprop mblock :=
  ∃ v d ps, i ↦ BInfo (Some v) (in_global_status info) (in_global_update_ts info) None ∗
    v ↦ BString (in_antivirus_version info) ∗ garray_at arr d ps ∗
    [∗ list] p;mi ∈ ps;in_module_infos info, module_info_at p mi.

Lemma add_module_info_spec i arr info a n name st st' ts b bases :
  gathering i arr info ∗ n ↦ BString name ∗ a ↦ BModuleInfo None st' ts b ∗ bases_at b bases ⊢
  wp (add_module_info i arr (Some n) a st) (fun _ =>
    n ↦ BString name ∗
    gathering i arr
      {| in_antivirus_version := in_antivirus_version info;
         in_global_status := if update_status_compare (in_global_status info) st <? 0 then st else in_global_status info;
         in_global_update_ts := if in_global_update_ts info <? ts then ts else in_global_update_ts info;
         in_module_infos := in_module_infos info ++ [ModuleInfo (Some name) st ts bases] |}).
Proof.
  iIntros "((%v & %d & %ps & Hi & Hv & Harr & Hps) & Hn & Ha & Hb)".
  wp_use strdup_spec with "Hn" as (r) "(Hn & %c & -> & Hc)". wp_front. wp_read "Ha". wp_pure. wp_write "Ha".
  wp_use garray_append_spec with "Harr" as (_) "(%d' & Harr)". wp_front. wp_read "Hi". wp_pure. wp_write "Hi".
  iSplitL "Hn"; [done|]. iExists v, d', (ps ++ [a]). simpl. iFrame. done.
Qed.

#[local] Arguments info_step : simpl never.

Lemma info_step_world info m w : (info_step junk (info, w) m).2 = world_after m w.
Proof.
  unfold info_step, world_after. destruct (mod_info_fun m) as [f|]; [|done].
  destruct (f _ w) as [[st mi] w']. by case_bool_decide.
Qed.

Lemma info_module_step_spec i arr hm m info w :
  module_like hm m ->
  gathering i arr info ∗ world w ∗ module_name_at hm m ⊢
  wp (info_module_step junk i arr hm) (fun _ =>
    gathering i arr (info_step junk (info, w) m).1 ∗ world (world_after m w) ∗ module_name_at hm m ∗
    lost (unavailable_base m w)).
Proof.
  unfold module_like, info_module_step, info_step, world_after, unavailable_base, lost. intros Hm.
  iIntros "(Hi & Hw & Hname)".
  destruct (im_info_fun hm) as [fh|], (mod_info_fun m) as [f|]; try done; simpl.
  - destruct (f (ModuleInfo None junk 0 None) w) as [[st mi] w'] eqn:Ecall.
    wp_let a as "Ha". iCombine "Ha Hw" as "H".
    wp_use (Hm a w st mi w' Ecall) with "H" as (r) "(-> & Hw & %st' & %b & Ha & Hb)".
    case_bool_decide as Hst; simpl.
    + wp_del "Ha". by iFrame.
    + iDestruct "Hname" as "(%n & %Hn & Hn)". rw Hn. iCombine "Hi Hn Ha Hb" as "H".
      wp_use (add_module_info_spec i arr info a n (mod_name m) st st' (mi_mod_update_ts mi) b) with "H"
        as (_) "[Hn Hi]".
      iFrame. done.
  - wp_pure. iFrame.
Qed.

Lemma info_modules_spec i arr hms ms info w :
  Forall2 module_like hms ms ->
  gathering i arr info ∗ world w ∗ ([∗ list] hm;m ∈ hms;ms, module_name_at hm m) ⊢
  wp (for_each (info_module_step junk i arr) hms) (fun _ =>
    let r := fold_left (info_step junk) ms (info, w) in
    gathering i arr r.1 ∗ world r.2 ∗ ([∗ list] hm;m ∈ hms;ms, module_name_at hm m) ∗
    lost (unavailable_bases ms w)).
Proof.
  intros Hms. revert info w. induction Hms as [|hm m hms ms Hm Hms IH]; intros info w.
  - iIntros "(Hi & Hw & _)". wp_pure. iFrame. unfold lost. simpl. iSplitL; by iEmpIntro.
  - rw [for_each]/= [fold_left _ _ _]/=. iIntros "(Hi & Hw & Hname & Hnames)". iCombine "Hi Hw Hname" as "H".
    wp_use (info_module_step_spec i arr hm m info w Hm) with "H" as (_) "(Hi & Hw & $ & Hl)".
    pose proof (info_step_world info m w) as Hw. destruct (info_step junk (info, w) m) as [info' w'].
    simpl in Hw. rw -Hw. simpl. iCombine "Hi Hw Hnames" as "H".
    iApply wp_wand. iSplitL "H"; [by iApply IH|]. iIntros (_) "($ & $ & $ & Hl')".
    unfold lost. rw big_sepL_app. iFrame.
Qed.

Lemma info_new_spec hms ms w :
  Forall2 module_like hms ms ->
  VERSION ↦ BString version ∗ world w ∗ ([∗ list] hm;m ∈ hms;ms, module_name_at hm m) ⊢
  wp (InfoHeap.a6o_info_new VERSION junk hms) (fun i =>
    let r := Info.a6o_info_new version junk ms w in
    VERSION ↦ BString version ∗ world r.2 ∗ ([∗ list] hm;m ∈ hms;ms, module_name_at hm m) ∗
    info_at i r.1 ∗ lost (unavailable_bases ms w)).
Proof.
  intros Hms. iIntros "(HV & Hw & Hnames)". wp_let i as "Hi".
  wp_use strdup_spec with "HV" as (r) "(HV & %v & -> & Hv)". wp_write "Hi".
  wp_front. iApply wp_wand. iSplitR; [iApply garray_new_spec|]. iIntros (arr) "[%d Harr]".
  iAssert (gathering i arr (Info version A6O_UPDATE_NON_AVAILABLE 0 [])) with "[Hi Hv Harr]" as "Hi".
  { iExists v, d, []. iFrame. by iEmpIntro. }
  iCombine "Hi Hw Hnames" as "H".
  wp_use (info_modules_spec i arr hms ms (Info version A6O_UPDATE_NON_AVAILABLE 0 []) w Hms) with "H"
    as (_) "(Hi & Hw & Hnames & Hlost)".
  iDestruct "Hi" as (v' d' ps) "(Hi & Hv & Harr & Hps)".
  wp_use garray_data_spec with "Harr" as (r) "[-> Harr]". wp_front. wp_read "Hi". wp_pure. wp_write "Hi".
  wp_use garray_keep_spec with "Harr" as (_) "Hd". wp_pure. iFrame.
Qed.

(** C26: What is gathered and then freed leaves the heap as the modules left it, but for the
    bases of those that answered that nothing is available. *)
Theorem info_new_free hms ms w (Hms : Forall2 module_like hms ms) :
  VERSION ↦ BString version ∗ world w ∗ ([∗ list] hm;m ∈ hms;ms, module_name_at hm m) ⊢
  wp (i ← InfoHeap.a6o_info_new VERSION junk hms; InfoHeap.a6o_info_free i) (fun _ =>
    VERSION ↦ BString version ∗ world (Info.a6o_info_new version junk ms w).2 ∗
    ([∗ list] hm;m ∈ hms;ms, module_name_at hm m) ∗ lost (unavailable_bases ms w)).
Proof.
  iIntros "H". wp_use (info_new_spec hms ms w Hms) with "H" as (i) "(HV & Hw & Hn & Hi & Hl)".
  wp_use info_free_spec with "Hi" as (_) "_". iFrame.
Qed.
End gather.

(** ** The arrays, implemented *)

Section implementation.
Context `{Allocator}.

#[export] Instance block_garrays : GArrays := {|
  g_array_new := d ← malloc (BPointers [None]); malloc (BArray d);
  g_array_append_val a p :=
    d ← get_array a; l ← get_pointers d; store d (BPointers (removelast l ++ [Some p; None]));
  g_array_data a := get_array a;
  g_array_free_keep a := free (Some a) |}.

#[export] Program Instance block_garray_laws : GArrayLaws block_garrays :=
  {| garray_at a d l := (a ↦ BArray d ∗ d ↦ BPointers ((Some <$> l) ++ [None]))%I |}.
Next Obligation.
  simpl. wp_let d as "Hd". iApply wp_malloc. iIntros (a) "Ha". iFrame.
Qed.
Next Obligation.
  intros a d l p. iIntros "[Ha Hd]". simpl. wp_use get_array_spec with "Ha" as (r) "[-> Ha]".
  wp_use get_pointers_spec with "Hd" as (r) "[-> Hd]". wp_write "Hd".
  rw removelast_last fmap_app -app_assoc. iFrame.
Qed.
Next Obligation.
  intros a d l. iIntros "[Ha Hd]". simpl. wp_use get_array_spec with "Ha" as (r) "[-> Ha]". iFrame. done.
Qed.
Next Obligation. intros a d l. iIntros "[Ha Hd]". simpl. wp_del "Ha". iFrame. Qed.

End implementation.

(** ** Two modules *)

Definition some_base : a6o_base_info :=
  {| base_name := None; base_update_ts := 3; base_version := None; base_signature_count := 4;
     base_full_path := None |}.

(** A module that fills the information with one base and answers [st]. *)
Definition fill_info `{Allocator} (st : a6o_update_status) (a : addr) : cmd mblock a6o_update_status :=
  b ← malloc (BBaseInfo None 3 None 4 None);
  bases ← malloc (BPointers [Some b; None]);
  store a (BModuleInfo None st 7 (Some bases));;
  mret st.

Definition fill_module (name : string) (st : a6o_update_status) : a6o_module unit :=
  {| mod_init_fun := None; mod_conf_table := None; mod_post_init_fun := None; mod_scan_fun := None;
     mod_close_fun := None;
     mod_info_fun := Some (fun _ w => ((st, ModuleInfo None st 7 (Some [some_base])), w));
     mod_supported_mime_types := None; mod_name := name; mod_size := 0; mod_status := A6O_MOD_OK;
     mod_data_allocated := false |}.

Lemma fill_like `{Allocator} junk n name st :
  module_like junk (fun _ : unit => emp%I) (InfoModule (Some n) (Some (fill_info st))) (fill_module name st).
Proof.
  intros a w st' mi w' [= <- <- <-]. iIntros "[Ha _]". wp_let b as "Hb". wp_let bases as "Hl".
  wp_write "Ha". wp_pure. iSplitR; [done|]. iSplitR; [by iEmpIntro|]. iExists st, (Some bases). iFrame.
  iExists [b]. iFrame. iSplitL; [|by iEmpIntro]. unfold string_at. simpl. by repeat (iSplitL; [by iEmpIntro|]).
Qed.

Definition two_info_modules : list info_module :=
  [InfoModule (Some 2%positive) (Some (fill_info A6O_UPDATE_LATE));
   InfoModule (Some 3%positive) (Some (fill_info A6O_UPDATE_NON_AVAILABLE))].
Definition two_modules : list (a6o_module unit) := [fill_module "clamav" A6O_UPDATE_LATE; fill_module "moduleH1" A6O_UPDATE_NON_AVAILABLE].

(** The second module allocated a base and answered that nothing is available. *)
Lemma info_new_free_witness :
  1%positive ↦ BString "0.10.0" ∗ emp ∗
    ([∗ list] hm;m ∈ two_info_modules;two_modules, module_name_at hm m) ⊢
  wp (i ← InfoHeap.a6o_info_new 1 A6O_UPDATE_OK two_info_modules; InfoHeap.a6o_info_free i) (fun _ =>
    1%positive ↦ BString "0.10.0" ∗ emp ∗
    ([∗ list] hm;m ∈ two_info_modules;two_modules, module_name_at hm m) ∗ lost [Some [some_base]]).
Proof.
  apply (info_new_free 1 "0.10.0" A6O_UPDATE_OK (fun _ : unit => emp%I) two_info_modules two_modules tt).
  do 2 (apply Forall2_cons; split; [apply fill_like|]). constructor.
Defined.
