(* ===== verification/ConfHeap.v ===== *)
(** * The configuration store on the heap ([src/libcore/conf.c], [src/libmodule/confval.c])

    The functions of ConfVal.v and Conf.v with the blocks they allocate, read and free; the
    pointers of the C code are kept, so that what two of them share is shared here too.
    ConfHeapSpec.v proves that these functions do what those of Conf.v say, and which
    blocks they leave. *)
From S2P Require Import Prelude ConfVal Heap Blocks.

Section conf_heap.
Context `{Allocator, GLib}.

(** ** Values *)

Definition a6o_conf_value_destroy (cv : hvalue) : cmd mblock hvalue :=
  match cv with
  | HUnset => fault_cmd UninitRead
  | HVoid | HInt _ => mret HVoid
  | HString str_v => free str_v;; mret HVoid
  | HList values _ =>
      l ← get_pointers values; until_null (fun p => free (Some p)) l;; free (Some values);; mret HVoid
  end.

Definition a6o_conf_value_set_void : cmd mblock hvalue := mret HVoid.

Definition a6o_conf_value_set_int (val : Z) : cmd mblock hvalue := mret (HInt (i32 val)).

Definition a6o_conf_value_set_string (val : ptr) : cmd mblock hvalue :=
  p ← a6o_strdup val; mret (HString p).

(** [n] more strings of [val], from index [i]; then the NULL at the end. *)
Fixpoint copy_strings (values val : addr) (i n : nat) : cmd mblock unit :=
  match n with
  | O => array_set values i None
  | S n =>
      p ← array_get val i; q ← a6o_strdup p; array_set values i q;;
      copy_strings values val (S i) n
  end.

Definition a6o_conf_value_set_list (val : addr) (len : nat) : cmd mblock hvalue :=
  values ← malloc (BPointers (replicate (S len) None));
  copy_strings values val 0 len;; mret (HList values len).

Definition a6o_conf_value_set (src : hvalue) : cmd mblock hvalue :=
  match src with
  | HUnset => fault_cmd UninitRead
  | HVoid => a6o_conf_value_set_void
  | HInt int_v => a6o_conf_value_set_int int_v
  | HString str_v => a6o_conf_value_set_string str_v
  | HList values len => a6o_conf_value_set_list values len
  end.

Definition a6o_conf_value_get_type (cv : hvalue) : cmd mblock a6o_conf_value_type :=
  match cv with
  | HUnset => fault_cmd UninitRead
  | HVoid => mret CONF_TYPE_VOID
  | HInt _ => mret CONF_TYPE_INT
  | HString _ => mret CONF_TYPE_STRING
  | HList _ _ => mret CONF_TYPE_LIST
  end.

(** ** Entries *)

Definition get_key_entry (k : ptr) : cmd mblock (ptr * hvalue) :=
  a ← deref_ptr k; b ← load a;
  match b with BKeyEntry key value => mret (key, value) | _ => fault_cmd UninitRead end.

Definition get_section_entry (s : ptr) : cmd mblock (ptr * addr) :=
  a ← deref_ptr s; b ← load a;
  match b with
  | BSectionEntry section keys => keys ← deref_ptr keys; mret (section, keys)
  | _ => fault_cmd UninitRead
  end.

Definition get_conf (conf : addr) : cmd mblock addr :=
  b ← load conf;
  match b with BConf sections => deref_ptr sections | _ => fault_cmd UninitRead end.

(** The loop of [array_search]. *)
Fixpoint search_loop (cmp : ptr -> cmd mblock bool) (l : list ptr) : cmd mblock ptr :=
  match l with
  | [] => mret None
  | element :: l => found ← cmp element; if (found : bool) then mret element else search_loop cmp l
  end.

Definition array_search (array : addr) (cmp_fun : ptr -> ptr -> cmd mblock bool) (name : ptr)
    : cmd mblock ptr :=
  d ← g_ptr_array_pdata array; l ← get_pointers d;
  search_loop (fun element => cmp_fun element name) l.

Definition section_entry_new (section : ptr) : cmd mblock addr :=
  s ← malloc (BSectionEntry None None);
  p ← strdup section;
  store s (BSectionEntry p None);;
  keys ← g_ptr_array_new;
  store s (BSectionEntry p (Some keys));; mret s.

Definition section_entry_cmp (s : ptr) (name : ptr) : cmd mblock bool :=
  e ← get_section_entry s; streq e.1 name.

Definition section_entry_get (conf : addr) (section : ptr) : cmd mblock ptr :=
  sections ← get_conf conf; array_search sections section_entry_cmp section.

Definition section_entry_add (conf : addr) (section : ptr) : cmd mblock addr :=
  s ← section_entry_new section;
  sections ← get_conf conf;
  g_ptr_array_add sections (Some s);; mret s.

(** The value is left as [malloc] gave it. *)
Definition key_entry_new (key : ptr) : cmd mblock addr :=
  k ← malloc (BKeyEntry None HUnset);
  p ← strdup key;
  store k (BKeyEntry p HUnset);; mret k.

Definition key_entry_free (k : ptr) : cmd mblock unit :=
  e ← get_key_entry k;
  free e.1;;
  value ← a6o_conf_value_destroy e.2;
  free k.

Definition section_entry_free (s : ptr) : cmd mblock unit :=
  e ← get_section_entry s;
  free e.1;;
  g_ptr_array_free key_entry_free e.2;;
  free s.

Definition key_entry_cmp (k : ptr) (name : ptr) : cmd mblock bool :=
  e ← get_key_entry k; streq e.1 name.

Definition key_entry_get_sect (s : ptr) (key : ptr) : cmd mblock ptr :=
  e ← get_section_entry s; array_search e.2 key_entry_cmp key.

Definition key_entry_get (conf : addr) (section key : ptr) : cmd mblock ptr :=
  s ← section_entry_get conf section;
  match s with None => mret None | Some _ => key_entry_get_sect s key end.

Definition key_entry_add_sect (s : ptr) (key : ptr) : cmd mblock addr :=
  k ← key_entry_new key;
  e ← get_section_entry s;
  g_ptr_array_add e.2 (Some k);; mret k.

Definition key_entry_add (conf : addr) (section key : ptr) : cmd mblock ptr :=
  s ← section_entry_get conf section;
  s ← (match s with None => s ← section_entry_add conf section; mret (Some s) | Some _ => mret s end);
  k ← key_entry_get_sect s key;
  match k with
  | Some _ => mret None                      (* duplicate key *)
  | None => k ← key_entry_add_sect s key; mret (Some k)
  end.

(** ** The store *)

Definition a6o_conf_new : cmd mblock addr :=
  conf ← malloc (BConf None);
  sections ← g_ptr_array_new;
  store conf (BConf (Some sections));; mret conf.

(** The structure itself is not freed. *)
Definition a6o_conf_free (conf : addr) : cmd mblock unit :=
  sections ← get_conf conf; g_ptr_array_free section_entry_free sections.

(** The value of the entry [k], and an assignment to it. *)
Definition entry_value (k : ptr) : cmd mblock hvalue := e ← get_key_entry k; mret e.2.

Definition set_entry_value (k : ptr) (value : hvalue) : cmd mblock unit :=
  a ← deref_ptr k; e ← get_key_entry k; store a (BKeyEntry e.1 value).

(** Whether the value of the entry has the type [t]. *)
Definition has_type (k : ptr) (t : a6o_conf_value_type) : cmd mblock bool :=
  v ← entry_value k; u ← a6o_conf_value_get_type v; mret (bool_decide (u = t)).

Definition a6o_conf_get_value (conf : addr) (section key : ptr) : cmd mblock (Z * hvalue) :=
  k ← key_entry_get conf section key;
  match k with
  | None => mret (0%Z, HUnset)
  | Some _ => v ← entry_value k; r ← a6o_conf_value_set v; mret (1%Z, r)
  end.

(** The pointer that is stored, not a copy. *)
Definition a6o_conf_get_string (conf : addr) (section key : ptr) : cmd mblock ptr :=
  k ← key_entry_get conf section key;
  match k with
  | None => mret None
  | Some _ =>
      ok ← has_type k CONF_TYPE_STRING;
      if (ok : bool) then v ← entry_value k; match v with HString p => mret p | _ => fault_cmd UninitRead end
      else mret None
  end.

(** The old value is not destroyed. *)
Definition a6o_conf_set_value (conf : addr) (section key : ptr) (value : hvalue) : cmd mblock Z :=
  k ← key_entry_get conf section key;
  match k with
  | None => mret 1%Z
  | Some _ =>
      t ← a6o_conf_value_get_type value; ok ← has_type k t;
      if (ok : bool) then v ← a6o_conf_value_set value; set_entry_value k v;; mret 0%Z
      else mret 1%Z
  end.

Definition a6o_conf_set_uint (conf : addr) (section key : ptr) (val : Z) : cmd mblock Z :=
  k ← key_entry_get conf section key;
  match k with
  | None => mret 1%Z
  | Some _ =>
      ok ← has_type k CONF_TYPE_INT;
      if (ok : bool) then v ← a6o_conf_value_set_int val; set_entry_value k v;; mret 0%Z
      else mret 1%Z
  end.

(** The value of the entry is destroyed before the new one is copied. *)
Definition replace_value (k : ptr) (new : cmd mblock hvalue) : cmd mblock unit :=
  v ← entry_value k; v ← a6o_conf_value_destroy v; set_entry_value k v;;
  v ← new; set_entry_value k v.

Definition a6o_conf_set_string (conf : addr) (section key : ptr) (val : ptr) : cmd mblock Z :=
  k ← key_entry_get conf section key;
  match k with
  | None => mret 1%Z
  | Some _ =>
      ok ← has_type k CONF_TYPE_STRING;
      if (ok : bool) then replace_value k (a6o_conf_value_set_string val);; mret 0%Z
      else mret 1%Z
  end.

Definition a6o_conf_set_list (conf : addr) (section key : ptr) (val : addr) (len : nat) : cmd mblock Z :=
  k ← key_entry_get conf section key;
  match k with
  | None => mret 1%Z
  | Some _ =>
      ok ← has_type k CONF_TYPE_LIST;
      if (ok : bool) then replace_value k (a6o_conf_value_set_list val len);; mret 0%Z
      else mret 1%Z
  end.

(** The common shape of [a6o_conf_add_*]. *)
Definition conf_add (conf : addr) (section key : ptr) (new : cmd mblock hvalue) : cmd mblock Z :=
  k ← key_entry_add conf section key;
  match k with
  | None => mret 1%Z
  | Some _ => v ← new; set_entry_value k v;; mret 0%Z
  end.

Definition a6o_conf_add_value (conf : addr) (section key : ptr) (value : hvalue) :=
  conf_add conf section key (a6o_conf_value_set value).

Definition a6o_conf_add_uint (conf : addr) (section key : ptr) (val : Z) :=
  conf_add conf section key (a6o_conf_value_set_int val).

Definition a6o_conf_add_string (conf : addr) (section key : ptr) (val : ptr) :=
  conf_add conf section key (a6o_conf_value_set_string val).

Definition a6o_conf_add_list (conf : addr) (section key : ptr) (val : addr) (len : nat) :=
  conf_add conf section key (a6o_conf_value_set_list val len).

End conf_heap.
