(* ===== verification/ConfHeapSpec.v ===== *)
(** * The store on the heap does what the store of Conf.v does

    [conf_at c e] owns the blocks of the store at the address [c], whose contents are [e].
    Each function of ConfHeap.v, run on such blocks, gives the result of the function of
    Conf.v and leaves the blocks of its store.  Since the logic is linear, what is not in a
    postcondition was freed, and what is in it besides the store was leaked. *)
From S2P Require Import Prelude ConfVal Conf ConfTheory Heap Blocks ConfHeap.
From iris.proofmode Require Import proofmode.

(** ** Values *)

(** A NULL-terminated array of strings. *)
Definition list_at (a : addr) (l : list string) : hprop mblock :=
  ∃ ps : list addr, a ↦ BPointers ((Some <$> ps) ++ [None]) ∗ [∗ list] p;s ∈ ps;l, p ↦ BString s.

Definition value_at (hv : hvalue) (cv : a6o_conf_value) : hprop mblock :=
  match hv, cv with
  | HVoid, CvVoid => emp
  | HInt z, CvInt z' => ⟨z = z'⟩
  | HString p, CvString s => string_at p s
  | HList a n, CvList l => ⟨n = length l⟩ ∗ list_at a l
  | _, _ => False
  end.

(** ** Arrays, entries, the store *)

(** A [GPtrArray] of pointers to objects, each of which [R] owns. *)
Definition objects `{GL : GLibLaws} {A} (R : addr -> A -> hprop mblock) (arr : addr)
    (ps : list addr) (l : list A) : hprop mblock :=
  ∃ d, is_array arr d ∗ d ↦ BPointers (Some <$> ps) ∗ [∗ list] p;x ∈ ps;l, R p x.

Definition key_at (k : addr) (e : key_entry) : hprop mblock :=
  ∃ p hv, k ↦ BKeyEntry (Some p) hv ∗ p ↦ BString (k_key e) ∗ value_at hv (k_value e).

(** A section whose entries are at the addresses [ps]. *)
Definition section_with `{GLibLaws} (s : addr) (ps : list addr) (e : section_entry) : hprop mblock :=
  ∃ p keys, s ↦ BSectionEntry (Some p) (Some keys) ∗ p ↦ BString (s_section e) ∗
    objects key_at keys ps (s_keys e).

Definition section_at `{GLibLaws} (s : addr) (e : section_entry) : hprop mblock :=
  ∃ ps, section_with s ps e.

Definition conf_with `{GLibLaws} (c : addr) (ps : list addr) (e : a6o_conf) : hprop mblock :=
  ∃ arr, c ↦ BConf (Some arr) ∗ objects section_at arr ps (sections e).

Definition conf_at `{GLibLaws} (c : addr) (e : a6o_conf) : hprop mblock := ∃ ps, conf_with c ps e.

Section spec.
Context `{Allocator, !GLib, GL : !GLibLaws _}.

Lemma value_destroy_spec hv cv :
  value_at hv cv ⊢ wp (a6o_conf_value_destroy hv) (fun r => ⟨r = HVoid⟩).
Proof.
  destruct hv as [| |z|p|a n], cv as [|z'|s|l]; simpl; iIntros "H"; try done.
  - by wp_pure.
  - iDestruct "H" as %->. by wp_pure.
  - wp_use free_string_spec with "H" as (u) "_". by wp_pure.
  - iDestruct "H" as "(-> & %ps & Ha & Hps)". wp_use get_pointers_spec with "Ha" as (r) "[-> Ha]".
    wp_use (until_null_spec (fun p s => p ↦ BString s)%I) with "Hps" as (u) "_".
    { intros p s. apply (free_string_spec (Some p) (Some s)). }
    wp_del "Ha". by wp_pure.
Qed.

(** While a list is copied: [qs] are the copies of its first [i] strings. *)
Lemma copy_strings_spec values val ps l t qs i n :
  (i + n <= length l)%nat -> length qs = i ->
  val ↦ BPointers ((Some <$> ps) ++ t) ∗ ([∗ list] p;s ∈ ps;l, p ↦ BString s) ∗
    values ↦ BPointers ((Some <$> qs) ++ replicate (S n) None) ∗
    ([∗ list] q;s ∈ qs;take i l, q ↦ BString s) ⊢
  wp (copy_strings values val i n) (fun _ =>
    val ↦ BPointers ((Some <$> ps) ++ t) ∗ ([∗ list] p;s ∈ ps;l, p ↦ BString s) ∗
    list_at values (take (i + n) l)).
Proof.
  iIntros (Hn Hi) "(Hval & Hps & Hvalues & Hqs)".
  iInduction n as [|n IH] forall (i qs Hn Hi); simpl.
  - rw right_id_L. wp_use (array_set_spec values ((Some <$> qs) ++ [None]) i None None) with "Hvalues" as (u) "Hvalues".
    { rw lookup_app_r length_fmap Hi // Nat.sub_diag //. }
    iFrame "Hval Hps". iExists qs. iFrame. rw insert_app_r_alt length_fmap Hi // Nat.sub_diag //.
  - iDestruct (big_sepL2_length with "Hps") as %Hlen.
    destruct (lookup_lt_is_Some_2 l i) as [s Hs]; [lia|].
    destruct (lookup_lt_is_Some_2 ps i) as [p Hp]; [lia|].
    wp_use (array_get_spec val ((Some <$> ps) ++ t) i (Some p)) with "Hval" as (r) "[-> Hval]".
    { rw lookup_app_l; [|rw length_fmap; lia]. by rw list_lookup_fmap Hp. }
    iDestruct (big_sepL2_lookup_acc with "Hps") as "[Hp Hps]"; [done..|].
    wp_use (a6o_strdup_spec (Some p) (Some s)) with "Hp" as (q) "[Hp Hq]".
    iSpecialize ("Hps" with "Hp"). destruct q as [q|]; [|done].
    wp_use (array_set_spec values ((Some <$> qs) ++ None :: None :: replicate n None) i (Some q) None) with "Hvalues" as (u) "Hvalues".
    { rw lookup_app_r length_fmap Hi // Nat.sub_diag //. }
    rw insert_app_r_alt length_fmap Hi // Nat.sub_diag /=.
    replace (i + S n)%nat with (S i + n)%nat by lia.
    iApply ("IH" $! (S i) (qs ++ [q]) with "[] [] Hval Hps [Hvalues] [Hqs Hq]"); try (iPureIntro; rw ?length_app /=; lia).
    + rw fmap_app -assoc_L //.
    + rw (take_S_r _ _ s) //. iApply big_sepL2_snoc. iFrame.
Qed.

Lemma value_set_list_spec val ps l t len :
  (len <= length l)%nat ->
  val ↦ BPointers ((Some <$> ps) ++ t) ∗ ([∗ list] p;s ∈ ps;l, p ↦ BString s) ⊢
  wp (a6o_conf_value_set_list val len) (fun r =>
    val ↦ BPointers ((Some <$> ps) ++ t) ∗ ([∗ list] p;s ∈ ps;l, p ↦ BString s) ∗
    value_at r (CvList (take len l))).
Proof.
  iIntros (Hlen) "[Hval Hps]". wp_let values as "Hvalues".
  iApply wp_call; [apply (copy_strings_spec values val ps l t [] 0 len); [lia|done]|].
  simpl. iFrame "Hval Hps Hvalues". iIntros (u) "(Hval & Hps & Hvalues)".
  wp_pure. iFrame. iPureIntro. rw length_take. lia.
Qed.

Lemma value_set_spec hv cv cv' :
  ConfVal.a6o_conf_value_set cv = Ok cv' ->
  value_at hv cv ⊢ wp (a6o_conf_value_set hv) (fun r => value_at hv cv ∗ value_at r cv').
Proof.
  destruct hv as [| |z|p|a n], cv as [|z'|s|l]; simpl; iIntros (E) "H"; try done.
  - injection E as <-. by wp_pure.
  - iDestruct "H" as %->. injection E as <-. by wp_pure.
  - injection E as <-. wp_use a6o_strdup_spec with "H" as (q) "[H Hq]". wp_pure. iFrame.
  - iDestruct "H" as "(-> & %ps & Ha & Hps)". rw set_list_all in E. injection E as <-.
    iApply wp_tail; [apply (value_set_list_spec a ps l [None] (length l)); done|].
    iFrame "Ha Hps". iIntros (r) "(Ha & Hps & Hr)". rw firstn_all. iFrame. done.
Qed.


(** ** Searching *)

(** What a search for [name] in the array of [ps] returns. *)
Definition found_at {A} (ps : list addr) (l : list A) (cmp : A -> string -> bool) (name : string) : ptr :=
  i ← Conf.array_search l cmp name; ps !! i.

Lemma search_loop_spec {A} (R : addr -> A -> hprop mblock) (cmp : ptr -> cmd mblock bool)
    (test : A -> string -> bool) name (F : hprop mblock) ps l :
  (forall p x, R p x ∗ F ⊢ wp (cmp (Some p)) (fun b => ⟨b = test x name⟩ ∗ R p x ∗ F)) ->
  ([∗ list] p;x ∈ ps;l, R p x) ∗ F ⊢
  wp (search_loop cmp (Some <$> ps)) (fun r =>
    ⟨r = found_at ps l test name⟩ ∗ ([∗ list] p;x ∈ ps;l, R p x) ∗ F).
Proof.
  iIntros (Hcmp) "[Hl HF]". iInduction ps as [|p ps IH] forall (l); destruct l as [|x l]; try done; simpl.
  - wp_pure. by iFrame.
  - iDestruct "Hl" as "[Hx Hl]". iCombine "Hx HF" as "Hx".
    wp_use Hcmp with "Hx" as (b) "(-> & Hx & HF)". unfold found_at, Conf.array_search. simpl.
    destruct (test x name) eqn:E; simpl.
    + wp_pure. by iFrame.
    + iApply wp_wand. iSplitL "Hl HF"; [by iApply ("IH" with "Hl HF")|].
      iIntros (r) "(-> & Hl & HF)". iFrame. iPureIntro. unfold found_at, Conf.array_search.
      by destruct (list_find _ l) as [[i y]|].
Qed.

Lemma array_found_spec {A} (R : addr -> A -> hprop mblock) cmp_fun (test : A -> string -> bool)
    arr ps l n name :
  (forall p x, R p x ∗ n ↦ BString name ⊢
     wp (cmp_fun (Some p) (Some n)) (fun b => ⟨b = test x name⟩ ∗ R p x ∗ n ↦ BString name)) ->
  objects R arr ps l ∗ n ↦ BString name ⊢
  wp (array_search arr cmp_fun (Some n)) (fun r =>
    ⟨r = found_at ps l test name⟩ ∗ objects R arr ps l ∗ n ↦ BString name).
Proof.
  iIntros (Hcmp) "[(%d & Harr & Hd & Hl) Hn]".
  wp_use array_pdata_spec with "Harr" as (r) "[-> Harr]". wp_use get_pointers_spec with "Hd" as (r) "[-> Hd]".
  iCombine "Hl Hn" as "Hl".
  wp_use (search_loop_spec R _ test name (n ↦ BString name)%I ps l Hcmp) with "Hl" as (r) "(-> & Hl & Hn)".
  by iFrame.
Qed.

(** One element of an array, and the array around it. *)
Lemma objects_acc {A} (R : addr -> A -> hprop mblock) arr ps l i p x :
  ps !! i = Some p -> l !! i = Some x ->
  objects R arr ps l ⊢ R p x ∗ (∀ y, R p y -∗ objects R arr ps (<[i := y]> l)).
Proof.
  iIntros (Hp Hx) "(%d & Harr & Hd & Hl)".
  iDestruct (big_sepL2_insert_acc with "Hl") as "[Hx Hl]"; [done..|]. iFrame "Hx".
  iIntros (y) "Hy". iExists d. iFrame. iSpecialize ("Hl" $! p y with "Hy"). by rw list_insert_id.
Qed.

Lemma objects_length {A} (R : addr -> A -> hprop mblock) arr ps l :
  objects R arr ps l ⊢ ⟨length ps = length l⟩ ∗ objects R arr ps l.
Proof.
  iIntros "(%d & Harr & Hd & Hl)". iDestruct (big_sepL2_length with "Hl") as %E. by iFrame.
Qed.

Lemma objects_add {A} (R : addr -> A -> hprop mblock) arr ps l p :
  objects R arr ps l ⊢
  wp (g_ptr_array_add arr (Some p)) (fun _ => ∀ x, R p x -∗ objects R arr (ps ++ [p]) (l ++ [x])).
Proof.
  iIntros "(%d & Harr & Hd & Hl)". iCombine "Harr Hd" as "Harr".
  wp_use (array_add_spec arr d (Some <$> ps) (Some p)) with "Harr" as (u) "(%d' & Harr & Hd)".
  iIntros (x) "Hx". iExists d'. rw fmap_app big_sepL2_snoc. iFrame.
Qed.

Lemma objects_forget {A} (R : addr -> A -> hprop mblock) ps l :
  ([∗ list] p;x ∈ ps;l, R p x) ⊢ [∗ list] p ∈ ps, ∃ x, R p x.
Proof.
  iIntros "H". iInduction ps as [|p ps IH] forall (l); destruct l as [|x l]; try done; simpl.
  iDestruct "H" as "[Hx H]". iSplitL "Hx"; [by iExists x|by iApply "IH"].
Qed.

Lemma objects_free {A} (R : addr -> A -> hprop mblock) f arr ps l :
  (forall p x, R p x ⊢ wp (f (Some p)) (fun _ => emp)) ->
  objects R arr ps l ⊢ wp (g_ptr_array_free f arr) (fun _ => emp).
Proof.
  iIntros (Hf) "(%d & Harr & Hd & Hl)".
  iApply (array_free_spec f (fun q => match q with Some p => ∃ x, R p x | None => False end)%I arr d).
  - iIntros ([p|]) "H"; [|done]. iDestruct "H" as "[%x HR]". by iApply Hf.
  - iFrame. rw big_sepL_fmap. by iApply objects_forget.
Qed.

(** ** Entries *)

Lemma key_entry_free_spec k e : key_at k e ⊢ wp (key_entry_free (Some k)) (fun _ => emp).
Proof.
  iIntros "(%p & %hv & Hk & Hp & Hv)". wp_front. wp_pure. wp_read "Hk". wp_pure.
  wp_del "Hp". wp_use value_destroy_spec with "Hv" as (r) "->". by wp_del "Hk".
Qed.

Lemma section_entry_free_spec s e : section_at s e ⊢ wp (section_entry_free (Some s)) (fun _ => emp).
Proof.
  iIntros "(%ps & %p & %keys & Hs & Hp & Hkeys)". wp_front. wp_pure. wp_read "Hs". wp_pure. wp_pure.
  wp_del "Hp". wp_use (objects_free key_at key_entry_free keys ps (s_keys e) key_entry_free_spec) with "Hkeys" as (u) "_".
  by wp_del "Hs".
Qed.

Lemma key_entry_cmp_spec k e n name :
  key_at k e ∗ n ↦ BString name ⊢
  wp (key_entry_cmp (Some k) (Some n)) (fun b =>
    ⟨b = Conf.key_entry_cmp e name⟩ ∗ key_at k e ∗ n ↦ BString name).
Proof.
  iIntros "[(%p & %hv & Hk & Hp & Hv) Hn]". wp_front. wp_pure. wp_read "Hk". wp_pure.
  iCombine "Hp Hn" as "Hp". wp_use streq_spec with "Hp" as (r) "(-> & Hp & Hn)". by iFrame.
Qed.

Lemma section_entry_cmp_spec s e n name :
  section_at s e ∗ n ↦ BString name ⊢
  wp (section_entry_cmp (Some s) (Some n)) (fun b =>
    ⟨b = Conf.section_entry_cmp e name⟩ ∗ section_at s e ∗ n ↦ BString name).
Proof.
  iIntros "[(%ps & %p & %keys & Hs & Hp & Hkeys) Hn]". wp_front. wp_pure. wp_read "Hs". wp_pure. wp_pure.
  iCombine "Hp Hn" as "Hp". wp_use streq_spec with "Hp" as (r) "(-> & Hp & Hn)". by iFrame.
Qed.

(** ** Finding an entry *)

Lemma found_at_Some {A} ps (l : list A) cmp name i :
  length ps = length l -> Conf.array_search l cmp name = Some i ->
  exists p x, ps !! i = Some p /\ l !! i = Some x /\ cmp x name = true /\ found_at ps l cmp name = Some p.
Proof.
  intros Hlen Hi. unfold found_at. rw Hi. unfold Conf.array_search in Hi.
  apply fmap_Some in Hi as ([j x] & (Hx & Hc & _)%list_find_Some & ->). simpl in *.
  destruct (lookup_lt_is_Some_2 ps j) as [p Hp]; [rw Hlen; by eapply lookup_lt_Some|].
  by exists p, x.
Qed.

Lemma found_at_None {A} ps (l : list A) cmp name :
  Conf.array_search l cmp name = None -> found_at ps l cmp name = None.
Proof. unfold found_at. by intros ->. Qed.

Lemma section_entry_get_spec c ps e n name :
  conf_with c ps e ∗ n ↦ BString name ⊢
  wp (section_entry_get c (Some n)) (fun r =>
    ⟨r = found_at ps (sections e) Conf.section_entry_cmp name⟩ ∗ conf_with c ps e ∗ n ↦ BString name).
Proof.
  iIntros "[(%arr & Hc & Harr) Hn]". wp_front. wp_read "Hc". wp_pure. iCombine "Harr Hn" as "Harr".
  wp_use (array_found_spec section_at _ Conf.section_entry_cmp arr ps (sections e) n name
            (fun p x => section_entry_cmp_spec p x n name)) with "Harr" as (r) "(-> & Harr & Hn)".
  by iFrame.
Qed.

Lemma key_entry_get_sect_spec p kps se n name :
  section_with p kps se ∗ n ↦ BString name ⊢
  wp (key_entry_get_sect (Some p) (Some n)) (fun r =>
    ⟨r = found_at kps (s_keys se) Conf.key_entry_cmp name⟩ ∗ section_with p kps se ∗ n ↦ BString name).
Proof.
  iIntros "[(%q & %keys & Hs & Hq & Hkeys) Hn]". wp_front. wp_front. wp_pure. wp_read "Hs". wp_front.
  wp_pure. wp_pure. iCombine "Hkeys Hn" as "Hkeys".
  wp_use (array_found_spec key_at _ Conf.key_entry_cmp keys kps (s_keys se) n name
            (fun p x => key_entry_cmp_spec p x n name)) with "Hkeys" as (r) "(-> & Hkeys & Hn)".
  by iFrame.
Qed.

(** The store but for the section at the address [p], its [i]th. *)
Definition conf_but (c : addr) (ps : list addr) (e : a6o_conf) (i : nat) (p : addr) : hprop mblock :=
  ∃ arr, c ↦ BConf (Some arr) ∗ ∀ y, section_at p y -∗ objects section_at arr ps (<[i := y]> (sections e)).

Lemma conf_with_but c ps e i p se :
  ps !! i = Some p -> sections e !! i = Some se ->
  conf_with c ps e ⊢ conf_but c ps e i p ∗ section_at p se.
Proof.
  iIntros (Hp Hse) "(%arr & Hc & Harr)". iDestruct (objects_acc with "Harr") as "[Hse Harr]"; [done..|].
  iFrame "Hse". iExists arr. iFrame.
Qed.

Lemma conf_but_close c ps e i p y :
  conf_but c ps e i p ∗ section_at p y ⊢ conf_with c ps {| sections := <[i := y]> (sections e) |}.
Proof. iIntros "[(%arr & Hc & Harr) Hy]". iExists arr. iFrame. by iApply "Harr". Qed.

(** The store but for the value of the entry at the address [k], which is the [ij]th and
    has [hv] in its value. *)
Definition entry_at (c : addr) (e : a6o_conf) (ij : nat * nat) (k : addr) (hv : hvalue) : hprop mblock :=
  ∃ p, k ↦ BKeyEntry (Some p) hv ∗
    ∀ hv' v', k ↦ BKeyEntry (Some p) hv' -∗ value_at hv' v' -∗ conf_at c (entry_set e ij v').

Lemma entry_close c e ij k hv v : entry_at c e ij k hv ∗ value_at hv v ⊢ conf_at c (entry_set e ij v).
Proof. iIntros "[(%p & Hk & H) Hv]". iApply ("H" with "Hk Hv"). Qed.

Lemma entry_open c ps e i p se q keys kps j k ke :
  sections e !! i = Some se -> s_keys se !! j = Some ke -> kps !! j = Some k ->
  conf_but c ps e i p ∗ p ↦ BSectionEntry (Some q) (Some keys) ∗ q ↦ BString (s_section se) ∗
    objects key_at keys kps (s_keys se) ⊢
  ∃ hv, entry_at c e (i, j) k hv ∗ value_at hv (k_value ke).
Proof.
  iIntros (Hse Hke Hk) "(Hc & Hp & Hq & Hkeys)".
  iDestruct (objects_acc with "Hkeys") as "[(%n & %hv & Hk & Hn & Hv) Hkeys]"; [done..|].
  iExists hv. iFrame "Hv". iExists n. iFrame "Hk". iIntros (hv' v') "Hk Hv".
  iExists ps. unfold entry_set. simpl. rw (alter_found _ _ _ _ Hse) (alter_found _ _ _ _ Hke).
  iApply conf_but_close. iFrame "Hc". iExists kps, q, keys. iFrame "Hp Hq". simpl.
  iApply ("Hkeys" $! {| k_key := k_key ke; k_value := v' |}). iExists n, hv'. iFrame.
Qed.

Lemma entry_value_nth e i j se ke :
  sections e !! i = Some se -> s_keys se !! j = Some ke -> Conf.entry_value e (i, j) = Some (k_value ke).
Proof. intros Hse Hke. unfold Conf.entry_value. simpl. by rw Hse /= Hke. Qed.

Lemma key_entry_get_spec c e sec key s k :
  conf_at c e ∗ sec ↦ BString s ∗ key ↦ BString k ⊢
  wp (key_entry_get c (Some sec) (Some key)) (fun r =>
    sec ↦ BString s ∗ key ↦ BString k ∗
    match Conf.key_entry_get e s k with
    | None => ⟨r = None⟩ ∗ conf_at c e
    | Some ij => ∃ a hv v, ⟨r = Some a⟩ ∗ ⟨Conf.entry_value e ij = Some v⟩ ∗
        entry_at c e ij a hv ∗ value_at hv v
    end).
Proof.
  iIntros "([%ps Hc] & Hsec & Hkey)". iDestruct "Hc" as (arr) "[Hc Harr]".
  iDestruct (objects_length with "Harr") as "[%Hlen Harr]".
  iAssert (conf_with c ps e) with "[Hc Harr]" as "Hc"; [by iExists arr; iFrame|]. iCombine "Hc Hsec" as "Hc".
  wp_use section_entry_get_spec with "Hc" as (r) "(-> & Hc & Hsec)". iFrame "Hsec".
  unfold Conf.key_entry_get, Conf.section_entry_get.
  destruct (Conf.array_search (sections e) _ s) as [i|] eqn:Hi; simpl.
  - destruct (found_at_Some ps (sections e) _ s i Hlen Hi) as (p & se & Hp & Hse & _ & ->).
    iDestruct (conf_with_but with "Hc") as "[Hc [%kps Hs]]"; [done..|].
    iDestruct "Hs" as (q keys) "(Hp & Hq & Hkeys)".
    iDestruct (objects_length with "Hkeys") as "[%Hklen Hkeys]".
    iAssert (section_with p kps se) with "[Hp Hq Hkeys]" as "Hs"; [by iExists q, keys; iFrame|].
    iCombine "Hs Hkey" as "Hs".
    wp_use key_entry_get_sect_spec with "Hs" as (r) "(-> & (%q' & %keys' & Hp & Hq & Hkeys) & Hkey)".
    iFrame "Hkey". rw Hse /=. unfold Conf.key_entry_get_sect.
    destruct (Conf.array_search (s_keys se) _ k) as [j|] eqn:Hj; simpl.
    + destruct (found_at_Some kps (s_keys se) _ k j Hklen Hj) as (a & ke & Ha & Hke & _ & ->).
      iDestruct (entry_open with "[$Hc $Hp $Hq $Hkeys]") as (hv) "[He Hv]"; [done..|].
      iExists a, hv, (k_value ke). iFrame. iSplit; [done|]. iPureIntro. by eapply entry_value_nth.
    + rw found_at_None //. iSplit; [done|]. iExists ps.
      iDestruct (conf_but_close _ _ _ _ _ se with "[$Hc Hp Hq Hkeys]") as "Hc".
      { iExists kps, q', keys'. iFrame. }
      rw list_insert_id; [by destruct e|done].
  - rw found_at_None //. wp_pure. iFrame "Hkey". iSplit; [done|]. by iExists ps.
Qed.

(** ** Adding an entry *)

Lemma section_entry_add_spec c ps e n name :
  conf_with c ps e ∗ n ↦ BString name ⊢
  wp (section_entry_add c (Some n)) (fun s =>
    conf_with c (ps ++ [s]) (Conf.section_entry_add e name).1 ∗ n ↦ BString name).
Proof.
  iIntros "[(%arr & Hc & Harr) Hn]". wp_front. wp_let s as "Hs".
  wp_use strdup_spec with "Hn" as (q) "(Hn & %q' & -> & Hq)". wp_write "Hs".
  wp_front. iApply wp_wand. iSplitR; [iApply array_new_spec|]. iIntros (keys) "(%d & Hkeys & Hd)".
  wp_write "Hs". wp_pure. wp_front. wp_read "Hc". wp_pure.
  wp_use (objects_add section_at arr ps (sections e)) with "Harr" as (u) "Harr". wp_pure.
  iSplitR "Hn"; [|iExact "Hn"]. iExists arr. iFrame "Hc".
  iApply "Harr". iExists [], q', keys. iFrame. done.
Qed.

Lemma key_entry_add_sect_spec p kps se n name :
  section_with p kps se ∗ n ↦ BString name ⊢
  wp (key_entry_add_sect (Some p) (Some n)) (fun k =>
    n ↦ BString name ∗ ∃ q, k ↦ BKeyEntry (Some q) HUnset ∗
    ∀ hv v, k ↦ BKeyEntry (Some q) hv -∗ value_at hv v -∗
      section_with p (kps ++ [k])
        {| s_section := s_section se; s_keys := s_keys se ++ [{| k_key := name; k_value := v |}] |}).
Proof.
  iIntros "[(%q & %keys & Hs & Hq & Hkeys) Hn]". wp_front. wp_let k as "Hk".
  wp_use strdup_spec with "Hn" as (r) "(Hn & %q' & -> & Hq')". wp_write "Hk". wp_pure.
  wp_front. wp_front. wp_pure. wp_read "Hs". wp_front. wp_pure. wp_pure.
  wp_use (objects_add key_at keys kps (s_keys se)) with "Hkeys" as (u) "Hkeys". wp_pure. iFrame "Hn". iExists q'. iFrame "Hk".
  iIntros (hv v) "Hk Hv". iExists q, keys. iFrame "Hs Hq". iApply "Hkeys". iExists q', hv. iFrame.
Qed.

Lemma entry_set_new e i se k v :
  sections e !! i = Some se ->
  entry_set {| sections := <[i := (Conf.key_entry_add_sect se k).1]> (sections e) |} (i, length (s_keys se)) v =
  {| sections := <[i := {| s_section := s_section se;
                           s_keys := s_keys se ++ [{| k_key := k; k_value := v |}] |}]> (sections e) |}.
Proof.
  intros Hse. unfold entry_set. simpl. f_equal.
  rw (alter_found _ i _ (Conf.key_entry_add_sect se k).1).
  - rw list_insert_insert_eq. f_equal. simpl. f_equal.
    rw (alter_found _ _ _ (Conf.key_entry_new k)); [|by apply list_lookup_middle].
    rw insert_app_r_alt // Nat.sub_diag //.
  - apply list_lookup_insert_eq. by eapply lookup_lt_Some.
Qed.

(** A key added to the section at the address [p]. *)
Lemma add_to_section_spec c ps e i p se key k :
  ps !! i = Some p -> sections e !! i = Some se ->
  conf_with c ps e ∗ key ↦ BString k ⊢
  wp (r ← key_entry_get_sect (Some p) (Some key);
      match r with
      | Some _ => mret None
      | None => a ← key_entry_add_sect (Some p) (Some key); mret (Some a)
      end) (fun r =>
    key ↦ BString k ∗
    match Conf.key_entry_get_sect se k with
    | Some _ => ⟨r = None⟩ ∗ conf_at c e
    | None => ∃ a, ⟨r = Some a⟩ ∗
        entry_at c {| sections := <[i := (Conf.key_entry_add_sect se k).1]> (sections e) |}
          (i, length (s_keys se)) a HUnset
    end).
Proof.
  iIntros (Hp Hse) "[Hc Hkey]". iDestruct (conf_with_but with "Hc") as "[Hc [%kps Hs]]"; [done..|].
  iDestruct "Hs" as (q keys) "(Hp & Hq & Hkeys)".
  iDestruct (objects_length with "Hkeys") as "[%Hklen Hkeys]".
  iAssert (section_with p kps se) with "[Hp Hq Hkeys]" as "Hs"; [by iExists q, keys; iFrame|].
  iCombine "Hs Hkey" as "Hs". wp_use key_entry_get_sect_spec with "Hs" as (r) "(-> & Hs & Hkey)".
  unfold Conf.key_entry_get_sect. destruct (Conf.array_search (s_keys se) _ k) as [j|] eqn:Hj.
  - destruct (found_at_Some kps (s_keys se) _ k j Hklen Hj) as (a & ke & _ & _ & _ & ->).
    wp_pure. iFrame "Hkey". iSplit; [done|]. iExists ps.
    iDestruct (conf_but_close _ _ _ _ _ se with "[$Hc $Hs]") as "Hc".
    rw list_insert_id; [by destruct e|done].
  - rw found_at_None; [|done]. iCombine "Hs Hkey" as "Hs".
    wp_use key_entry_add_sect_spec with "Hs" as (a) "(Hkey & %n & Ha & Hs)". wp_pure.
    iFrame "Hkey". iExists a. iSplit; [done|]. iExists n. iFrame "Ha". iIntros (hv v) "Ha Hv".
    rw entry_set_new; [|done]. iExists ps. iApply conf_but_close. iFrame "Hc".
    iExists (kps ++ [a]). iApply ("Hs" with "Ha Hv").
Qed.

Lemma key_entry_add_spec c e sec key s k :
  conf_at c e ∗ sec ↦ BString s ∗ key ↦ BString k ⊢
  wp (key_entry_add c (Some sec) (Some key)) (fun r =>
    sec ↦ BString s ∗ key ↦ BString k ∗
    match Conf.key_entry_add e s k with
    | (e', None) => ⟨r = None⟩ ∗ conf_at c e'
    | (e', Some ij) => ∃ a, ⟨r = Some a⟩ ∗ entry_at c e' ij a HUnset
    end).
Proof.
  iIntros "([%ps (%arr & Hc & Harr)] & Hsec & Hkey)".
  iDestruct (objects_length with "Harr") as "[%Hlen Harr]".
  iAssert (conf_with c ps e) with "[Hc Harr]" as "Hc"; [by iExists arr; iFrame|]. iCombine "Hc Hsec" as "Hc".
  wp_use section_entry_get_spec with "Hc" as (r) "(-> & Hc & Hsec)".
  unfold Conf.key_entry_add, Conf.section_entry_get.
  destruct (Conf.array_search (sections e) _ s) as [i|] eqn:Hi.
  - destruct (found_at_Some ps (sections e) _ s i Hlen Hi) as (p & se & Hp & Hse & _ & ->).
    wp_pure. iFrame "Hsec". rw Hse. iCombine "Hc Hkey" as "Hc".
    wp_use (add_to_section_spec c ps e i p se key k Hp Hse) with "Hc" as (r) "[Hkey H]". iFrame "Hkey".
    by destruct (Conf.key_entry_get_sect se k).
  - rw found_at_None; [|done]. iCombine "Hc Hsec" as "Hc". wp_front.
    wp_use section_entry_add_spec with "Hc" as (p) "[Hc Hsec]". wp_pure. iFrame "Hsec".
    assert (Hse : (sections e ++ [Conf.section_entry_new s]) !! length (sections e) = Some (Conf.section_entry_new s))
      by by apply list_lookup_middle.
    rw Hse. iCombine "Hc Hkey" as "Hc".
    iApply wp_wand. iSplitL.
    + iApply (add_to_section_spec c (ps ++ [p]) (Conf.section_entry_add e s).1 (length (sections e)) p (Conf.section_entry_new s) key k); [|exact Hse|iFrame].
      rw -Hlen. by apply list_lookup_middle.
    + iIntros (r) "[Hkey H]". by iFrame.
Qed.

(** ** The store *)

Lemma conf_new_spec : ⊢ wp a6o_conf_new (fun c => conf_at c Conf.a6o_conf_new).
Proof.
  wp_let c as "Hc". wp_front. iApply wp_wand. iSplitR; [iApply array_new_spec|].
  iIntros (arr) "(%d & Harr & Hd)". wp_write "Hc". wp_pure. iExists [], arr. iFrame. done.
Qed.

(** Everything is freed, but the structure. *)
Lemma conf_free_spec c e : conf_at c e ⊢ wp (a6o_conf_free c) (fun _ => ∃ arr, c ↦ BConf (Some arr)).
Proof.
  iIntros "(%ps & %arr & Hc & Harr)". wp_front. wp_read "Hc". wp_pure.
  wp_use (objects_free section_at section_entry_free arr ps (sections e) section_entry_free_spec) with "Harr" as (u) "_".
  by iExists arr.
Qed.

Lemma entry_set_same e ij v : Conf.entry_value e ij = Some v -> entry_set e ij v = e.
Proof.
  destruct ij as [i j], e as [l]. unfold Conf.entry_value, entry_set. simpl.
  destruct (l !! i) as [se|] eqn:Hse; simpl; [|done]. destruct (s_keys se !! j) as [ke|] eqn:Hke; simpl; [|done].
  intros [= <-]. f_equal. rw (alter_found _ _ _ _ Hse) (alter_found _ _ _ _ Hke).
  rw list_insert_id //. rw Hse. f_equal. destruct se as [n ks]. f_equal. simpl in *.
  rw list_insert_id //. rw Hke. by destruct ke.
Qed.

Lemma entry_close_same c e ij k hv v :
  Conf.entry_value e ij = Some v -> entry_at c e ij k hv ∗ value_at hv v ⊢ conf_at c e.
Proof. iIntros (Hv) "H". iDestruct (entry_close with "H") as "H". by rw entry_set_same. Qed.

Lemma entry_value_spec c e ij k hv :
  entry_at c e ij k hv ⊢ wp (entry_value (Some k)) (fun r => ⟨r = hv⟩ ∗ entry_at c e ij k hv).
Proof. iIntros "(%p & Hk & H)". wp_front. wp_front. wp_pure. wp_read "Hk". wp_pure. wp_pure. by iFrame. Qed.

Lemma set_entry_value_spec c e ij k hv hv' :
  entry_at c e ij k hv ⊢ wp (set_entry_value (Some k) hv') (fun _ => entry_at c e ij k hv').
Proof.
  iIntros "(%p & Hk & H)". wp_front. wp_pure. wp_front. wp_front. wp_pure. wp_read "Hk". wp_pure.
  wp_write "Hk". iExists p. iFrame.
Qed.

Lemma value_type hv v :
  value_at hv v ⊢
  ⟨a6o_conf_value_get_type hv = mret (ConfVal.a6o_conf_value_get_type v)⟩ ∗ value_at hv v.
Proof. destruct hv, v; simpl; iIntros "H"; try done; by iFrame. Qed.

Lemma value_type_spec hv v :
  value_at hv v ⊢
  wp (a6o_conf_value_get_type hv) (fun t => ⟨t = ConfVal.a6o_conf_value_get_type v⟩ ∗ value_at hv v).
Proof.
  iIntros "H". iDestruct (value_type with "H") as "[%E H]". rw E. wp_pure. by iFrame.
Qed.

Lemma has_type_spec c e ij k hv v t :
  entry_at c e ij k hv ∗ value_at hv v ⊢
  wp (has_type (Some k) t) (fun b =>
    ⟨b = bool_decide (ConfVal.a6o_conf_value_get_type v = t)⟩ ∗ entry_at c e ij k hv ∗ value_at hv v).
Proof.
  iIntros "[He Hv]". wp_use entry_value_spec with "He" as (r) "[-> He]".
  wp_use value_type_spec with "Hv" as (u) "[-> Hv]". wp_pure. by iFrame.
Qed.

(** A command that makes the value [v], with the help of the blocks of [F]. *)
Definition makes (new : cmd mblock hvalue) (v : a6o_conf_value) (F : hprop mblock) : Prop :=
  F ⊢ wp new (fun hv => value_at hv v ∗ F).

Lemma conf_add_spec new v F c e sec key s k r e' :
  makes new v F -> Conf.conf_add e s k (Ok v) = Ok (r, e') ->
  conf_at c e ∗ sec ↦ BString s ∗ key ↦ BString k ∗ F ⊢
  wp (conf_add c (Some sec) (Some key) new) (fun z =>
    ⟨z = r⟩ ∗ conf_at c e' ∗ sec ↦ BString s ∗ key ↦ BString k ∗ F).
Proof.
  iIntros (Hnew Hadd) "(Hc & Hsec & Hkey & HF)". iCombine "Hc Hsec Hkey" as "Hc".
  wp_use key_entry_add_spec with "Hc" as (p) "(Hsec & Hkey & H)". unfold Conf.conf_add in Hadd.
  destruct (Conf.key_entry_add e s k) as [e1 [ij|]]; simpl in Hadd; injection Hadd as <- <-.
  - iDestruct "H" as (a) "[-> He]". wp_use Hnew with "HF" as (hv) "[Hv HF]".
    wp_use (set_entry_value_spec c e1 ij a HUnset hv) with "He" as (u) "He". wp_pure.
    iDestruct (entry_close with "[$He $Hv]") as "Hc". by iFrame.
  - iDestruct "H" as "[-> Hc]". wp_pure. by iFrame.
Qed.

Lemma makes_copy hv cv cv' :
  ConfVal.a6o_conf_value_set cv = Ok cv' -> makes (a6o_conf_value_set hv) cv' (value_at hv cv).
Proof. intros E. unfold makes. rw {1}(value_set_spec hv cv cv' E). apply wp_mono. iIntros (r) "[$ $]". Qed.

Lemma makes_int z : makes (a6o_conf_value_set_int z) (ConfVal.a6o_conf_value_set_int z) emp.
Proof. iIntros "_". by wp_pure. Qed.

Lemma makes_string p s :
  makes (a6o_conf_value_set_string p) (ConfVal.a6o_conf_value_set_string s) (string_at p s).
Proof. iIntros "H". wp_use a6o_strdup_spec with "H" as (q) "[H Hq]". wp_pure. iFrame. Qed.

Lemma makes_list a l len v :
  ConfVal.a6o_conf_value_set_list l len = Ok v -> makes (a6o_conf_value_set_list a len) v (list_at a l).
Proof.
  unfold ConfVal.a6o_conf_value_set_list. destruct (Nat.leb_spec len (length l)) as [Hl|]; [|done].
  intros [= <-]. iIntros "(%ps & Ha & Hps)".
  iApply wp_wand. iSplitL; [iApply (value_set_list_spec a ps l [None] len Hl); iFrame|].
  iIntros (r) "(Ha & Hps & Hr)". iFrame.
Qed.

(** The new value replaces the old one, which is destroyed. *)
Lemma replace_value_spec new v F c e ij k hv v0 :
  makes new v F ->
  entry_at c e ij k hv ∗ value_at hv v0 ∗ F ⊢
  wp (replace_value (Some k) new) (fun _ => conf_at c (entry_set e ij v) ∗ F).
Proof.
  iIntros (Hnew) "(He & Hv & HF)". wp_use entry_value_spec with "He" as (r) "[-> He]".
  wp_use value_destroy_spec with "Hv" as (r) "->".
  wp_use (set_entry_value_spec c e ij k hv HVoid) with "He" as (u) "He".
  wp_use Hnew with "HF" as (hv') "[Hv HF]". iFrame "HF".
  iApply wp_wand. iSplitL "He"; [by iApply (set_entry_value_spec c e ij k HVoid hv')|].
  iIntros (u') "He". iApply entry_close. iFrame.
Qed.

Lemma replace_returns new v F c e ij k hv v0 :
  makes new v F ->
  entry_at c e ij k hv ∗ value_at hv v0 ∗ F ⊢
  wp (replace_value (Some k) new;; mret 0%Z) (fun z => ⟨z = 0%Z⟩ ∗ conf_at c (entry_set e ij v) ∗ F).
Proof.
  iIntros (Hnew) "H". wp_use (replace_value_spec new v F c e ij k hv v0 Hnew) with "H" as (u) "H".
  wp_pure. by iFrame.
Qed.

Section setters.
Context (c : addr) (e : a6o_conf) (sec key : addr) (s k : string).

(** The common shape of [a6o_conf_set_*]: [write] stores the value [v] in an entry of the
    type [t]; it needs [F], and leaves [G v0] where the value was [v0]. *)
Lemma conf_set_spec (write : ptr -> cmd mblock Z) t v (F : hprop mblock) (G : a6o_conf_value -> hprop mblock) r e' :
  (forall ij a hv v0, ConfVal.a6o_conf_value_get_type v0 = t ->
     entry_at c e ij a hv ∗ value_at hv v0 ∗ F ⊢
     wp (write (Some a)) (fun z => ⟨z = 0%Z⟩ ∗ conf_at c (entry_set e ij v) ∗ G v0)) ->
  Conf.conf_set e s k t (Ok v) = Ok (r, e') ->
  conf_at c e ∗ sec ↦ BString s ∗ key ↦ BString k ∗ F ⊢
  wp (p ← key_entry_get c (Some sec) (Some key);
      match p with
      | None => mret 1%Z
      | Some _ => ok ← has_type p t; if (ok : bool) then write p else mret 1%Z
      end) (fun z =>
    ⟨z = r⟩ ∗ conf_at c e' ∗ sec ↦ BString s ∗ key ↦ BString k ∗
    match key_value e s k with
    | Some v0 => if bool_decide (ConfVal.a6o_conf_value_get_type v0 = t) then G v0 else F
    | None => F
    end).
Proof.
  iIntros (Hwrite Hset) "(Hc & Hsec & Hkey & HF)". iCombine "Hc Hsec Hkey" as "Hc".
  wp_use key_entry_get_spec with "Hc" as (p) "(Hsec & Hkey & H)".
  unfold Conf.conf_set in Hset. unfold key_value.
  destruct (Conf.key_entry_get e s k) as [ij|]; simpl.
  - iDestruct "H" as (a hv v0) "(-> & %Hv0 & He & Hv)". rw Hv0 /= in Hset. rw Hv0.
    iCombine "He Hv" as "He". wp_use (has_type_spec c e ij a hv v0 t) with "He" as (b) "(-> & He & Hv)".
    destruct (decide (ConfVal.a6o_conf_value_get_type v0 = t)) as [Ht|Ht].
    + rw bool_decide_true in Hset; [|by f_equal]. rw bool_decide_true; [|done]. simpl.
      injection Hset as <- <-. iCombine "He Hv HF" as "He".
      wp_use (Hwrite ij a hv v0 Ht) with "He" as (z) "(-> & Hc & HG)". by iFrame.
    + rw bool_decide_false in Hset; [|congruence]. rw bool_decide_false; [|done]. simpl.
      injection Hset as <- <-. wp_pure.
      iDestruct (entry_close_same with "[$He $Hv]") as "Hc"; [done|]. by iFrame.
  - injection Hset as <- <-. iDestruct "H" as "[-> Hc]". wp_pure. by iFrame.
Qed.

(** What is left beside the store is what the caller gave: the old value was freed. *)
Lemma set_string_spec p val r e' :
  Conf.a6o_conf_set_string e s k val = Ok (r, e') ->
  conf_at c e ∗ sec ↦ BString s ∗ key ↦ BString k ∗ string_at p val ⊢
  wp (a6o_conf_set_string c (Some sec) (Some key) p) (fun z =>
    ⟨z = r⟩ ∗ conf_at c e' ∗ sec ↦ BString s ∗ key ↦ BString k ∗ string_at p val).
Proof.
  intros E. iIntros "H". iApply wp_wand. iSplitL.
  - iApply (conf_set_spec (fun a => replace_value a (a6o_conf_value_set_string p);; mret 0%Z) CONF_TYPE_STRING _
              (string_at p val) (fun _ => string_at p val)); [|exact E|iExact "H"].
    intros ij a hv v0 _. by apply replace_returns, makes_string.
  - iIntros (z) "($ & $ & $ & $ & H)". destruct (key_value e s k); [by case_bool_decide|done].
Qed.

Lemma set_list_spec a l len r e' :
  Conf.a6o_conf_set_list e s k l len = Ok (r, e') ->
  (len <= length l)%nat ->
  conf_at c e ∗ sec ↦ BString s ∗ key ↦ BString k ∗ list_at a l ⊢
  wp (a6o_conf_set_list c (Some sec) (Some key) a len) (fun z =>
    ⟨z = r⟩ ∗ conf_at c e' ∗ sec ↦ BString s ∗ key ↦ BString k ∗ list_at a l).
Proof.
  intros E Hlen. assert (Hset : ConfVal.a6o_conf_value_set_list l len = Ok (CvList (take len l))).
  { unfold ConfVal.a6o_conf_value_set_list. by rw (proj2 (Nat.leb_le _ _) Hlen). }
  unfold Conf.a6o_conf_set_list in E. rw Hset in E. iIntros "H". iApply wp_wand. iSplitL.
  - iApply (conf_set_spec (fun p => replace_value p (a6o_conf_value_set_list a len);; mret 0%Z) CONF_TYPE_LIST _
              (list_at a l) (fun _ => list_at a l)); [|exact E|iExact "H"].
    intros ij q hv v0 _. by apply replace_returns, makes_list.
  - iIntros (z) "($ & $ & $ & $ & H)". destruct (key_value e s k); [by case_bool_decide|done].
Qed.

Lemma set_uint_spec val r e' :
  Conf.a6o_conf_set_uint e s k val = Ok (r, e') ->
  conf_at c e ∗ sec ↦ BString s ∗ key ↦ BString k ⊢
  wp (a6o_conf_set_uint c (Some sec) (Some key) val) (fun z =>
    ⟨z = r⟩ ∗ conf_at c e' ∗ sec ↦ BString s ∗ key ↦ BString k).
Proof.
  intros E. iIntros "(Hc & Hs & Hk)". iApply wp_wand. iSplitL.
  - iApply (conf_set_spec (fun p => v ← a6o_conf_value_set_int val; set_entry_value p v;; mret 0%Z) CONF_TYPE_INT _
              emp (fun _ => emp)%I); [|exact E|iFrame].
    intros ij a hv v0 Hv0. iIntros "(He & Hv & _)". wp_pure.
    destruct hv, v0; simpl; try done. iDestruct "Hv" as "_".
    wp_use (set_entry_value_spec c e ij a (HInt int_v) (HInt (i32 val))) with "He" as (u) "He". wp_pure.
    iSplit; [done|]. iSplitL; [|done]. iApply entry_close. iFrame. done.
  - by iIntros (z) "($ & $ & $ & $ & _)".
Qed.

(** [a6o_conf_set_value] stores the new value over the old one, whose blocks are left. *)
Lemma set_value_spec hv cv r e' :
  conf_value_ok cv -> Conf.a6o_conf_set_value e s k cv = Ok (r, e') ->
  conf_at c e ∗ sec ↦ BString s ∗ key ↦ BString k ∗ value_at hv cv ⊢
  wp (a6o_conf_set_value c (Some sec) (Some key) hv) (fun z =>
    ⟨z = r⟩ ∗ conf_at c e' ∗ sec ↦ BString s ∗ key ↦ BString k ∗ value_at hv cv ∗
    match key_value e s k with
    | Some v0 =>
        if bool_decide (ConfVal.a6o_conf_value_get_type v0 = ConfVal.a6o_conf_value_get_type cv)
        then ∃ old, value_at old v0 else emp
    | None => emp
    end).
Proof.
  intros Hok E. unfold Conf.a6o_conf_set_value in E. rw conf_value_set_copy in E; [|done].
  iIntros "(Hc & Hs & Hk & Hv)". iApply wp_wand. iSplitL.
  - set (t := ConfVal.a6o_conf_value_get_type cv).
    iDestruct (value_type with "Hv") as "[%Ht Hv]". unfold a6o_conf_set_value. rw Ht.
    iApply (conf_set_spec (fun p => v ← a6o_conf_value_set hv; set_entry_value p v;; mret 0%Z) t cv
              (value_at hv cv) (fun v0 => value_at hv cv ∗ ∃ old, value_at old v0)%I); [|exact E|iFrame].
    intros ij a old v0 _. iIntros "(He & Hold & Hv)".
    wp_use (value_set_spec hv cv cv (conf_value_set_copy cv Hok)) with "Hv" as (nv) "[Hv Hnv]".
    wp_use (set_entry_value_spec c e ij a old nv) with "He" as (u) "He". wp_pure.
    iSplit; [done|]. iSplitL "He Hnv"; [iApply entry_close; iFrame|]. iFrame "Hv". by iExists old.
  - iIntros (z) "($ & $ & $ & $ & H)". destruct (key_value e s k) as [v0|]; [|by iFrame].
    case_bool_decide; by iFrame.
Qed.

End setters.

End spec.
