(* ===== verification/ParserHeap.v ===== *)
(** * The configuration parser on the heap ([src/libcore/confparser.c])

    The parser of ConfParser.v with the blocks it works on: the scanner with its file and
    its text, the section, the key and the value being read, and the array of a list.  The
    characters are scanned by [scanner_get_next_token] of ConfParser.v.  A parser function
    returns [false] when it left by [longjmp]. *)
From S2P Require Import Prelude ConfVal ConfParser Heap Blocks ConfHeap.

#[local] Open Scope Z_scope.

Section parser_heap.
Context `{Allocator, GLib}.

(** ** The scanner *)

Definition scanner_new (input : ptr) : cmd mblock addr :=
  s ← malloc (BScanner 1 1 1 input None);
  token_text ← g_string_new;
  store s (BScanner 1 1 1 input (Some token_text));; mret s.

(** The structure, with the file and the text it points to. *)
Definition get_scanner (s : ptr) : cmd mblock (addr * addr * addr * scanner) :=
  a ← deref_ptr s; b ← load a;
  match b with
  | BScanner line column previous input token_text =>
      f ← deref_ptr input; t ← deref_ptr token_text;
      b ← load f; text ← g_string_str t;
      match b with
      | BFile bytes => mret (a, f, t, Scanner line column previous bytes text)
      | _ => fault_cmd UninitRead
      end
  | _ => fault_cmd UninitRead
  end.

Definition scanner_get_next_token (s : ptr) (previous : token_type) : cmd mblock token_type :=
  r ← get_scanner s;
  let '(a, f, t, sc) := r in
  r ← lift (ConfParser.scanner_get_next_token sc previous);
  store f (BFile (s_input r.2));;
  g_string_assign t (s_token_text r.2);;
  store a (BScanner (s_current_line r.2) (s_current_column r.2) (s_previous_column r.2) (Some f) (Some t));;
  mret r.1.

(** The text of the token, as the C string it points to. *)
Definition scanner_token_text (s : ptr) : cmd mblock string :=
  r ← get_scanner s; let '(_, _, _, sc) := r in mret (ConfParser.scanner_token_text sc).

(** [os_strdup(scanner_token_text(s))] *)
Definition dup_token_text (s : ptr) : cmd mblock ptr :=
  text ← scanner_token_text s; a ← malloc (BString text); mret (Some a).

Definition scanner_free (s : ptr) : cmd mblock unit :=
  a ← deref_ptr s; b ← load a;
  match b with
  | BScanner _ _ _ _ token_text => t ← deref_ptr token_text; g_string_free t;; free s
  | _ => fault_cmd UninitRead
  end.

(** ** The parser *)

Definition get_parser (cp : addr) : cmd mblock parser_block :=
  b ← load cp; match b with BParser p => mret p | _ => fault_cmd UninitRead end.

Definition put_parser (cp : addr) (p : parser_block) : cmd mblock unit := store cp (BParser p).

Definition with_token (p : parser_block) (t : token_type) : parser_block :=
  ParserBlock (pb_filename p) (pb_input p) (pb_scanner p) t (pb_current_section p) (pb_current_key p)
    (pb_current_value_type p) (pb_current_value_int p) (pb_current_value_string p) (pb_current_value_list p).

Definition with_section (p : parser_block) (s : ptr) : parser_block :=
  ParserBlock (pb_filename p) (pb_input p) (pb_scanner p) (pb_lookahead_token p) s (pb_current_key p)
    (pb_current_value_type p) (pb_current_value_int p) (pb_current_value_string p) (pb_current_value_list p).

Definition with_key (p : parser_block) (k : ptr) : parser_block :=
  ParserBlock (pb_filename p) (pb_input p) (pb_scanner p) (pb_lookahead_token p) (pb_current_section p) k
    (pb_current_value_type p) (pb_current_value_int p) (pb_current_value_string p) (pb_current_value_list p).

Definition with_value (p : parser_block) (ty : a6o_conf_value_type) (i : Z) (s : ptr) : parser_block :=
  ParserBlock (pb_filename p) (pb_input p) (pb_scanner p) (pb_lookahead_token p) (pb_current_section p)
    (pb_current_key p) ty i s (pb_current_value_list p).

Definition with_list_array (p : parser_block) (l : ptr) : parser_block :=
  ParserBlock (pb_filename p) (pb_input p) (pb_scanner p) (pb_lookahead_token p) (pb_current_section p)
    (pb_current_key p) (pb_current_value_type p) (pb_current_value_int p) (pb_current_value_string p) l.

(** What the callback is given: the section, the key and the value, which stay the
    parser's. *)
Variable callback : ptr -> ptr -> hvalue -> cmd mblock Z.

Definition pcmd : Type := addr -> cmd mblock bool.

Definition seq (c1 c2 : pcmd) : pcmd := fun cp =>
  go ← c1 cp; if (go : bool) then c2 cp else mret false.

Definition longjmp : pcmd := fun _ => mret false.

Definition token_accept (token : token_type) : pcmd := fun cp =>
  p ← get_parser cp;
  if bool_decide (pb_lookahead_token p = token) then
    if bool_decide (pb_lookahead_token p <> TOKEN_EOF) then
      t ← scanner_get_next_token (pb_scanner p) token;
      put_parser cp (with_token p t);; mret true
    else mret true
  else longjmp cp.

(** [free(data)] *)
Definition arg_destroy_notify (data : ptr) : cmd mblock unit := free data.

(** The end of [call_callback]. *)
Definition callback_done (cp : addr) (ret : Z) : cmd mblock bool :=
  p ← get_parser cp;
  put_parser cp (with_value p CONF_TYPE_VOID (pb_current_value_int p) (pb_current_value_string p));;
  if ret =? 0 then mret true else longjmp cp.

(** The array with a NULL at its end, as the value that is given to the callback. *)
Definition list_value (list : addr) : cmd mblock hvalue :=
  g_ptr_array_add list None;;
  d ← g_ptr_array_pdata list; l ← get_pointers d;
  mret (HList d (length l - 1)).

Definition call_callback : pcmd := fun cp =>
  p ← get_parser cp;
  match pb_current_value_type p with
  | CONF_TYPE_VOID => callback_done cp 0
  | CONF_TYPE_INT =>
      ret ← callback (pb_current_section p) (pb_current_key p) (HInt (pb_current_value_int p));
      callback_done cp ret
  | CONF_TYPE_STRING =>
      ret ← callback (pb_current_section p) (pb_current_key p) (HString (pb_current_value_string p));
      free (pb_current_value_string p);;
      put_parser cp (with_value p (pb_current_value_type p) (pb_current_value_int p) None);;
      callback_done cp ret
  | CONF_TYPE_LIST =>
      list ← deref_ptr (pb_current_value_list p);
      value ← list_value list;
      ret ← callback (pb_current_section p) (pb_current_key p) value;
      g_ptr_array_clear arg_destroy_notify list;;
      callback_done cp ret
  end.

Definition r_section_name : pcmd := fun cp =>
  p ← get_parser cp;
  free (pb_current_section p);;
  s ← dup_token_text (pb_scanner p);
  put_parser cp (with_section p s);;
  token_accept TOKEN_STRING cp.

Definition r_key : pcmd := fun cp =>
  p ← get_parser cp;
  free (pb_current_key p);;
  k ← dup_token_text (pb_scanner p);
  put_parser cp (with_key p k);;
  token_accept TOKEN_STRING cp.

Definition r_int_value : pcmd := fun cp =>
  p ← get_parser cp;
  text ← scanner_token_text (pb_scanner p);
  put_parser cp (with_value p CONF_TYPE_INT (atoi text) (pb_current_value_string p));;
  token_accept TOKEN_INTEGER cp.

Definition r_string_value : pcmd := fun cp =>
  p ← get_parser cp;
  s ← dup_token_text (pb_scanner p);
  put_parser cp (with_value p CONF_TYPE_STRING (pb_current_value_int p) s);;
  token_accept TOKEN_STRING cp.

(** The first string of a list, which was stored as a string value, becomes an element. *)
Definition string_to_list (cp : addr) : cmd mblock unit :=
  p ← get_parser cp;
  match pb_current_value_string p with
  | None => mret tt
  | Some _ =>
      list ← deref_ptr (pb_current_value_list p);
      s ← strdup (pb_current_value_string p);
      g_ptr_array_add list s;;
      free (pb_current_value_string p);;
      put_parser cp (with_value p CONF_TYPE_LIST (pb_current_value_int p) None)
  end.

Definition r_list_string_value : pcmd := fun cp =>
  string_to_list cp;;
  p ← get_parser cp;
  s ← dup_token_text (pb_scanner p);
  list ← deref_ptr (pb_current_value_list p);
  g_ptr_array_add list s;;
  token_accept TOKEN_STRING cp.

Definition r_list_sep : pcmd := fun cp =>
  p ← get_parser cp;
  if bool_decide (pb_lookahead_token p = TOKEN_COMMA) then token_accept TOKEN_COMMA cp
  else token_accept TOKEN_SEMI_COLON cp.

Fixpoint r_opt_string_list (fuel : nat) : pcmd := fun cp =>
  match fuel with
  | O => fault_cmd Diverges
  | S fuel =>
      p ← get_parser cp;
      if bool_decide (pb_lookahead_token p = TOKEN_COMMA \/ pb_lookahead_token p = TOKEN_SEMI_COLON)
      then seq r_list_sep (seq r_list_string_value (r_opt_string_list fuel)) cp
      else mret true
  end.

Definition r_value (fuel : nat) : pcmd := fun cp =>
  p ← get_parser cp;
  match pb_lookahead_token p with
  | TOKEN_INTEGER => r_int_value cp
  | TOKEN_STRING => seq r_string_value (r_opt_string_list fuel) cp
  | _ => longjmp cp
  end.

Definition r_definition (fuel : nat) : pcmd :=
  seq r_key (seq (token_accept TOKEN_EQUAL_SIGN) (seq (r_value fuel) call_callback)).

Fixpoint r_definition_list (fuel : nat) : pcmd := fun cp =>
  match fuel with
  | O => fault_cmd Diverges
  | S fuel =>
      p ← get_parser cp;
      if bool_decide (pb_lookahead_token p = TOKEN_STRING)
      then seq (r_definition fuel) (r_definition_list fuel) cp
      else mret true
  end.

Definition r_section (fuel : nat) : pcmd :=
  seq (token_accept TOKEN_LEFT_BRACE)
    (seq r_section_name (seq (token_accept TOKEN_RIGHT_BRACE) (r_definition_list fuel))).

Fixpoint r_section_list (fuel : nat) : pcmd := fun cp =>
  match fuel with
  | O => fault_cmd Diverges
  | S fuel =>
      p ← get_parser cp;
      if bool_decide (pb_lookahead_token p = TOKEN_LEFT_BRACE)
      then seq (r_section fuel) (r_section_list fuel) cp
      else mret true
  end.

Definition r_configuration (fuel : nat) : pcmd := r_section_list fuel.

(** [fopen]: [None] when it fails. *)
Definition fopen (file : option (list ascii)) : cmd mblock ptr :=
  match file with None => mret None | Some bytes => f ← malloc (BFile bytes); mret (Some f) end.

(** Without a file, most fields keep what [malloc] gave; [a6o_conf_parser_free] does not
    look at them then. *)
Definition a6o_conf_parser_new (filename : ptr) (file : option (list ascii)) : cmd mblock addr :=
  cp ← malloc (BParser (ParserBlock None None None TOKEN_EOF None None CONF_TYPE_VOID 0 None None));
  name ← strdup filename;
  input ← fopen file;
  put_parser cp (ParserBlock name input None TOKEN_EOF None None CONF_TYPE_VOID 0 None None);;
  match input with
  | None => mret cp
  | Some _ =>
      s ← scanner_new input;
      put_parser cp (ParserBlock name input (Some s) TOKEN_EOF None None CONF_TYPE_VOID 0 None None);;
      mret cp
  end.

Definition a6o_conf_parser_parse (fuel : nat) (cp : addr) : cmd mblock Z :=
  p ← get_parser cp;
  match pb_input p with
  | None => mret (-1)
  | Some _ =>
      t ← scanner_get_next_token (pb_scanner p) TOKEN_NONE;
      put_parser cp (with_token p t);;
      list ← g_ptr_array_new;
      p ← get_parser cp;
      put_parser cp (with_list_array (with_key (with_section p None) None) (Some list));;
      go ← seq (r_configuration fuel) (token_accept TOKEN_EOF) cp;
      mret (if (go : bool) then 0 else -2)
  end.

(** [fclose] *)
Definition fclose (f : ptr) : cmd mblock unit := a ← deref_ptr f; free (Some a).

Definition a6o_conf_parser_free (cp : addr) : cmd mblock unit :=
  p ← get_parser cp;
  (match pb_input p with
   | None => mret tt
   | Some _ =>
       fclose (pb_input p);;
       scanner_free (pb_scanner p);;
       free (pb_current_section p);;
       (match pb_current_value_list p with None => mret tt | Some _ => free (pb_current_key p) end);;
       free (pb_current_value_string p);;
       match pb_current_value_list p with
       | None => mret tt
       | Some list => g_ptr_array_free arg_destroy_notify list
       end
   end);;
  free (pb_filename p);;
  free (Some cp).

End parser_heap.

(** [conf_load_parser_cb] and [a6o_conf_load_file]. *)
Section load.
Context `{Allocator, GLib}.

Definition conf_load_parser_cb (conf : addr) (section key : ptr) (value : hvalue) : cmd mblock Z :=
  a6o_conf_add_value conf section key value.

Definition a6o_conf_load_file (conf : addr) (path : ptr) (file : option (list ascii)) : cmd mblock Z :=
  cp ← a6o_conf_parser_new path file;
  r ← a6o_conf_parser_parse (conf_load_parser_cb conf) (parse_fuel (default [] file)) cp;
  a6o_conf_parser_free cp;;
  mret 0.

End load.
