(* ===== verification/ParserHeapSpec.v ===== *)
(** * The parser on the heap does what the parser of ConfParser.v does, and frees its memory

    [parser_at cp P]: the blocks of the parser at [cp], whose state is that of [P].  Each
    function of ParserHeap.v simulates the one of ConfParser.v.  [current_value_string] is
    the field to watch: [r_string_value] overwrites it without freeing, so it has to be
    NULL there, which the grammar ensures. *)
From S2P Require Import Prelude ConfVal ConfParser Conf Heap Blocks ConfHeap ConfSpec ConfHeapSpec ParserHeap.
From iris.proofmode Require Import proofmode.

#[local] Open Scope Z_scope.

Definition text_at (p : addr) (s : string) : hprop mblock := p ↦ BString s.

(** A scanner that reads the file [f]. *)
Definition scanner_at `{GLibLaws} (a f : addr) (sc : scanner) : hprop mblock :=
  ∃ t, a ↦ BScanner (s_current_line sc) (s_current_column sc) (s_previous_column sc) (Some f) (Some t) ∗
    f ↦ BFile (s_input sc) ∗ is_text t (s_token_text sc).

Section spec.
Context `{Allocator, !GLib, GL : !GLibLaws _}.
Context {U : Type}.
Implicit Types P : a6o_conf_parser U.

(** The strings and the array a parser owns. *)
Definition fields_at (p : parser_block) P : hprop mblock :=
  string_at (pb_current_section p) (cp_current_section P) ∗
  string_at (pb_current_key p) (cp_current_key P) ∗
  string_at (pb_current_value_string p) (cp_current_value_string P) ∗
  ∃ arr ps, ⟨pb_current_value_list p = Some arr⟩ ∗ objects text_at arr ps (cp_current_value_list P).

Definition state_of (p : parser_block) P : Prop :=
  pb_lookahead_token p = cp_lookahead_token P /\
  pb_current_value_type p = cp_current_value_type P /\
  pb_current_value_int p = cp_current_value_int P.

Definition parser_at (cp : addr) (name : string) P : hprop mblock :=
  ∃ p sc f n, cp ↦ BParser p ∗ ⟨state_of p P⟩ ∗
    ⟨pb_scanner p = Some sc⟩ ∗ scanner_at sc f (cp_scanner P) ∗ ⟨pb_input p = Some f⟩ ∗
    ⟨pb_filename p = Some n⟩ ∗ n ↦ BString name ∗ fields_at p P.

(** ** The scanner *)

Lemma get_scanner_spec a f sc :
  scanner_at a f sc ⊢
  wp (get_scanner (Some a)) (fun r => ∃ t, ⟨r = (a, f, t, sc)⟩ ∗
    a ↦ BScanner (s_current_line sc) (s_current_column sc) (s_previous_column sc) (Some f) (Some t) ∗
    f ↦ BFile (s_input sc) ∗ is_text t (s_token_text sc)).
Proof.
  iIntros "(%t & Ha & Hf & Ht)". wp_front. wp_pure. wp_read "Ha". wp_pure. wp_pure. wp_read "Hf".
  wp_use text_str_spec with "Ht" as (x) "[-> Ht]". wp_pure. iExists t. iFrame. by destruct sc.
Qed.

Lemma scanner_next_spec a f sc previous t sc' :
  ConfParser.scanner_get_next_token sc previous = Ok (t, sc') ->
  scanner_at a f sc ⊢
  wp (ParserHeap.scanner_get_next_token (Some a) previous) (fun r => ⟨r = t⟩ ∗ scanner_at a f sc').
Proof.
  iIntros (E) "Hs". wp_use get_scanner_spec with "Hs" as (r) "(%x & -> & Ha & Hf & Ht)".
  wp_front. iApply wp_lift; [exact E|]. simpl. wp_write "Hf".
  wp_use text_assign_spec with "Ht" as (u) "Ht". wp_write "Ha". wp_pure. iSplit; [done|]. iExists x. iFrame.
Qed.

Lemma token_text_spec a f sc :
  scanner_at a f sc ⊢
  wp (ParserHeap.scanner_token_text (Some a)) (fun r =>
    ⟨r = ConfParser.scanner_token_text sc⟩ ∗ scanner_at a f sc).
Proof.
  iIntros "Hs". wp_use get_scanner_spec with "Hs" as (r) "(%x & -> & Ha & Hf & Ht)". wp_pure.
  iSplit; [done|]. iExists x. iFrame.
Qed.

Lemma dup_token_text_spec a f sc :
  scanner_at a f sc ⊢
  wp (dup_token_text (Some a)) (fun r => ∃ p, ⟨r = Some p⟩ ∗
    p ↦ BString (ConfParser.scanner_token_text sc) ∗ scanner_at a f sc).
Proof.
  iIntros "Hs". wp_use token_text_spec with "Hs" as (r) "[-> Hs]". wp_let p as "Hp". wp_pure.
  iExists p. by iFrame.
Qed.

Lemma scanner_new_spec f bytes :
  f ↦ BFile bytes ⊢ wp (ParserHeap.scanner_new (Some f)) (fun a => scanner_at a f (ConfParser.scanner_new bytes)).
Proof.
  iIntros "Hf". wp_let a as "Ha". wp_front. iApply wp_wand. iSplitR; [iApply text_new_spec|].
  iIntros (t) "Ht". wp_write "Ha". wp_pure. iExists t. iFrame.
Qed.

(** The file is not the scanner's to close. *)
Lemma scanner_free_spec a line column previous input t text :
  a ↦ BScanner line column previous input (Some t) ∗ is_text t text ⊢
  wp (ParserHeap.scanner_free (Some a)) (fun _ => emp).
Proof.
  iIntros "[Ha Ht]". wp_front. wp_pure. wp_read "Ha". wp_pure.
  wp_use (text_free_spec t) with "Ht" as (u) "_". by wp_del "Ha".
Qed.

(** ** Simulation *)

Variable user : U -> hprop mblock.
Variable callback : string -> string -> a6o_conf_value -> U -> outcome (Z * U).
Variable callback_h : ptr -> ptr -> hvalue -> cmd mblock Z.

(** The callback does to its [user_data] what its model does, and leaves to the parser
    what is the parser's. *)
Hypothesis callback_spec : forall sec key s k hv v u r u',
  callback s k v u = Ok (r, u') ->
  user u ∗ sec ↦ BString s ∗ key ↦ BString k ∗ value_at hv v ⊢
  wp (callback_h (Some sec) (Some key) hv) (fun z =>
    ⟨z = r⟩ ∗ user u' ∗ sec ↦ BString s ∗ key ↦ BString k ∗ value_at hv v).

Definition both (cp : addr) (name : string) P : hprop mblock :=
  parser_at cp name P ∗ user (cp_user_data P).

(** From a parser in [I], [ch] does what [c] does and, if it does not jump, ends in [J]. *)
Definition sim (ch : pcmd) (c : ConfParser.cmd U) (I J : a6o_conf_parser U -> Prop) : Prop :=
  forall cp name P P' go, I P -> c P = Ok (P', go) ->
    (both cp name P ⊢ wp (ch cp) (fun b => ⟨b = go⟩ ∗ both cp name P')) /\ (go = true -> J P').

(** No string would be lost by storing another. *)
Definition idle P : Prop := cp_current_value_string P = None.
Definition typed P : Prop := cp_current_value_type P = CONF_TYPE_STRING \/ idle P.

(** Properties of the value, which tokens do not change. *)
Definition of_value (I : a6o_conf_parser U -> Prop) : Prop := forall P s t, I (set_token P s t) <-> I P.

Lemma idle_of_value : of_value idle. Proof. done. Qed.
Lemma typed_of_value : of_value typed. Proof. done. Qed.

Lemma sim_seq c1h c1 c2h c2 I J K :
  sim c1h c1 I J -> sim c2h c2 J K -> sim (ParserHeap.seq c1h c2h) (ConfParser.seq c1 c2) I K.
Proof.
  intros H1 H2 cp name P P' go HI E. unfold ConfParser.seq in E. apply bind_Ok_inv in E as ([P1 go1] & E1 & E2).
  destruct (H1 cp name P P1 go1 HI E1) as [S1 J1]. destruct go1.
  - destruct (H2 cp name P1 P' go (J1 eq_refl) E2) as [S2 J2]. split; [|done].
    iIntros "Hb". wp_use S1 with "Hb" as (b) "[-> Hb]". by iApply S2.
  - injection E2 as <- <-. split; [|done].
    iIntros "Hb". wp_use S1 with "Hb" as (b) "[-> Hb]". wp_pure. by iFrame.
Qed.

Lemma sim_skip I : sim (fun _ => mret true) (ConfParser.skip) I I.
Proof. intros cp name P P' go HI [= <- <-]. split; [|done]. iIntros "Hb". wp_pure. by iFrame. Qed.

Lemma sim_longjmp I J : sim ParserHeap.longjmp ConfParser.longjmp I J.
Proof. intros cp name P P' go HI [= <- <-]. split; [|done]. iIntros "Hb". wp_pure. by iFrame. Qed.

Lemma sim_token_accept t I :
  of_value I -> sim (ParserHeap.token_accept t) (ConfParser.token_accept t) I I.
Proof.
  intros HI cp name P P' go HP E. unfold ConfParser.token_accept in E. case_bool_decide as Ht.
  - case_bool_decide as Heof.
    + apply bind_Ok_inv in E as ([u sc'] & Eu & [= <- <-]). split; [|by intros _; apply HI]. simpl.
      iIntros "[(%p & %sc & %f & %n & Hcp & %Hst & %Hsc & Hs & %Hf & %Hn & Hname & Hfields) Hu]".
      destruct Hst as (Hl & Hty & Hi). wp_front. wp_read "Hcp". wp_pure. rw Hl.
      rw (bool_decide_true _ Ht) (bool_decide_true _ Heof) Hsc. wp_use (scanner_next_spec sc f _ t u sc' Eu) with "Hs" as (r) "[-> Hs]".
      wp_write "Hcp". wp_pure. iSplit; [done|]. iFrame "Hu". iExists (with_token p u), sc, f, n. iFrame. done.
    + injection E as <- <-. split; [|done].
      iIntros "[(%p & %sc & %f & %n & Hcp & %Hst & Hrest) Hu]". pose proof Hst as (Hl & _). wp_front. wp_read "Hcp".
      wp_pure. rw Hl. rw (bool_decide_true _ Ht) bool_decide_false; [|by intros ?]. wp_pure. iSplit; [done|]. iFrame "Hu".
      iExists p, sc, f, n. iFrame. done.
  - injection E as <- <-. split; [|done].
    iIntros "[(%p & %sc & %f & %n & Hcp & %Hst & Hrest) Hu]". pose proof Hst as (Hl & _). wp_front. wp_read "Hcp".
    wp_pure. rw Hl. rw (bool_decide_false _ Ht). wp_pure. iSplit; [done|]. iFrame "Hu".
    iExists p, sc, f, n. iFrame. done.
Qed.

(** Taking the parser apart, and putting it together as [p'] and the same pieces. *)
#[local] Ltac open_parser :=
  iIntros "[(%p & %sc & %f & %n & Hcp & %Hst & %Hsc & Hs & %Hf & %Hn & Hname & (Hsec & Hkey & Hstr & Hlist)) Hu]";
  wp_front; wp_read "Hcp"; wp_pure.
#[local] Ltac close_parser p' sc f n :=
  iExists p', sc, f, n; iFrame; iPureIntro; done.

Lemma r_section_name_sim :
  sim ParserHeap.r_section_name ConfParser.r_section_name idle idle.
Proof.
  intros cp name P P' go HP E.
  destruct (sim_token_accept TOKEN_STRING idle idle_of_value cp name (set_section P (Some (cp_token_text P))) P' go HP E) as [S J].
  split; [|exact J]. open_parser. wp_use free_string_spec with "Hsec" as (u) "_". rw Hsc.
  wp_use dup_token_text_spec with "Hs" as (r) "(%q & -> & Hq & Hs)". wp_write "Hcp".
  iApply S. iFrame "Hu". close_parser (with_section p (Some q)) sc f n.
Qed.

Lemma r_key_sim : sim ParserHeap.r_key ConfParser.r_key idle idle.
Proof.
  intros cp name P P' go HP E.
  destruct (sim_token_accept TOKEN_STRING idle idle_of_value cp name (set_key P (Some (cp_token_text P))) P' go HP E) as [S J].
  split; [|exact J]. open_parser. wp_use free_string_spec with "Hkey" as (u) "_". rw Hsc.
  wp_use dup_token_text_spec with "Hs" as (r) "(%q & -> & Hq & Hs)". wp_write "Hcp".
  iApply S. iFrame "Hu". close_parser (with_key p (Some q)) sc f n.
Qed.

Lemma r_int_value_sim : sim ParserHeap.r_int_value ConfParser.r_int_value idle typed.
Proof.
  intros cp name P P' go HP E.
  destruct (sim_token_accept TOKEN_INTEGER typed typed_of_value cp name (set_value P CONF_TYPE_INT (atoi (cp_token_text P))
    (cp_current_value_string P) (cp_current_value_list P)) P' go (or_intror HP) E) as [S J].
  split; [|exact J]. open_parser. rw Hsc.
  wp_use token_text_spec with "Hs" as (r) "[-> Hs]". wp_write "Hcp".
  iApply S. iFrame "Hu". destruct Hst as (? & ? & ?).
  close_parser (with_value p CONF_TYPE_INT (atoi (cp_token_text P)) (pb_current_value_string p)) sc f n.
Qed.

Lemma r_string_value_sim : sim ParserHeap.r_string_value ConfParser.r_string_value idle typed.
Proof.
  intros cp name P P' go HP E.
  destruct (sim_token_accept TOKEN_STRING typed typed_of_value cp name (set_value P CONF_TYPE_STRING (cp_current_value_int P)
    (Some (cp_token_text P)) (cp_current_value_list P)) P' go (or_introl eq_refl) E) as [S J].
  split; [|exact J]. open_parser. rw Hsc. rw HP.
  destruct (pb_current_value_string p) as [x|] eqn:Hx; [done|].
  wp_use dup_token_text_spec with "Hs" as (r) "(%q & -> & Hq & Hs)". wp_write "Hcp".
  iApply S. iFrame "Hu". destruct Hst as (? & ? & ?).
  close_parser (with_value p CONF_TYPE_STRING (pb_current_value_int p) (Some q)) sc f n.
Qed.
(** What is done depends on the next token. *)
Lemma sim_case (chooseh : token_type -> pcmd) (choose : token_type -> ConfParser.cmd U) I J :
  (forall t, sim (chooseh t) (choose t) I J) ->
  sim (fun cp => p ← get_parser cp; chooseh (pb_lookahead_token p) cp)
    (fun P => choose (cp_lookahead_token P) P) I J.
Proof.
  intros Hc cp name P P' go HP E. destruct (Hc _ cp name P P' go HP E) as [S HJ]. split; [|exact HJ].
  open_parser. pose proof Hst as (Hl & _). rw Hl. iApply S. iFrame "Hu". close_parser p sc f n.
Qed.

Lemma sim_if (b : bool) c1h c1 c2h c2 I J :
  sim c1h c1 I J -> sim c2h c2 I J ->
  sim (fun cp => if b then c1h cp else c2h cp) (fun P => if b then c1 P else c2 P) I J.
Proof. by destruct b. Qed.

#[local] Definition is_token (t u : token_type) : bool := bool_decide (u = t).
#[local] Definition is_separator (t : token_type) : bool :=
  bool_decide (t = TOKEN_COMMA \/ t = TOKEN_SEMI_COLON).

Lemma r_list_sep_sim : sim ParserHeap.r_list_sep ConfParser.r_list_sep typed typed.
Proof.
  refine (sim_case (fun t cp => if is_token TOKEN_COMMA t then ParserHeap.token_accept TOKEN_COMMA cp
                                else ParserHeap.token_accept TOKEN_SEMI_COLON cp)
           (fun t P => if is_token TOKEN_COMMA t then ConfParser.token_accept TOKEN_COMMA P
                       else ConfParser.token_accept TOKEN_SEMI_COLON P) typed typed _).
  intros t. by apply sim_if; apply sim_token_accept, typed_of_value.
Qed.

(** The list that [string_to_list] makes of a string value. *)
Definition collected P : a6o_conf_parser U :=
  match cp_current_value_string P with
  | Some s => set_value P CONF_TYPE_LIST (cp_current_value_int P) None (cp_current_value_list P ++ [s])
  | None => P
  end.

Lemma string_to_list_spec cp name P :
  both cp name P ⊢ wp (string_to_list cp) (fun _ => both cp name (collected P)).
Proof.
  open_parser. unfold collected. iDestruct "Hlist" as (arr ps) "[%Harr Hlist]".
  destruct (pb_current_value_string p) as [x|] eqn:Hx, (cp_current_value_string P) as [str|] eqn:Hp;
    simpl; [|iDestruct "Hstr" as %[]..|].
  - rw Harr. wp_pure. wp_use strdup_spec with "Hstr" as (r) "(Hx & %y & -> & Hy)".
    wp_use (objects_add text_at arr ps (cp_current_value_list P)) with "Hlist" as (u) "Hlist".
    iSpecialize ("Hlist" $! str with "Hy"). wp_del "Hx". wp_write "Hcp". iFrame "Hu".
    destruct Hst as (? & ? & ?).
    close_parser (with_value p CONF_TYPE_LIST (pb_current_value_int p) None) sc f n.
  - wp_pure. iFrame "Hu". iExists p, sc, f, n. iFrame. rw Hx Hp. by iFrame.
Qed.
Lemma r_list_string_value_sim :
  sim ParserHeap.r_list_string_value ConfParser.r_list_string_value typed typed.
Proof.
  intros cp name P P' go HP E.
  set (Q := collected P).
  set (R := set_value Q (cp_current_value_type Q) (cp_current_value_int Q) (cp_current_value_string Q)
              (cp_current_value_list Q ++ [cp_token_text P])).
  assert (Et : ConfParser.token_accept TOKEN_STRING R = Ok (P', go)).
  { unfold R, Q, collected. by destruct P as [? ? ? ? ? ? [|] ? ?]. }
  assert (HR : typed R).
  { right. unfold R, Q, collected, idle. simpl. by destruct (cp_current_value_string P) eqn:Hstr. }
  destruct (sim_token_accept TOKEN_STRING typed typed_of_value cp name R P' go HR Et) as [S J].
  split; [|exact J]. iIntros "H". wp_use string_to_list_spec with "H" as (u) "H". iRevert "H".
  assert (Htext : cp_token_text Q = cp_token_text P) by by unfold Q, collected; destruct (cp_current_value_string P).
  open_parser. iDestruct "Hlist" as (arr ps) "[%Harr Hlist]". rw Hsc.
  wp_use dup_token_text_spec with "Hs" as (r) "(%q & -> & Hq & Hs)". rw Harr. wp_pure.
  wp_use (objects_add text_at arr ps (cp_current_value_list Q)) with "Hlist" as (u') "Hlist".
  iSpecialize ("Hlist" $! (cp_token_text P) with "[Hq]"); [by rw -Htext|].
  iApply S. unfold both. change (cp_user_data R) with (cp_user_data Q). iFrame "Hu". close_parser p sc f n.
Qed.

(** A loop of the grammar: its test, and what it does while the test holds. *)
Lemma sim_loop (test : token_type -> bool) bodyh body I :
  sim bodyh body I I ->
  sim (fun cp => p ← get_parser cp; if test (pb_lookahead_token p) then bodyh cp else mret true)
    (fun P => if test (cp_lookahead_token P) then body P else ConfParser.skip P) I I.
Proof.
  intros Hb. apply (sim_case (fun t cp => if test t then bodyh cp else mret true)
                      (fun t P => if test t then body P else ConfParser.skip P)).
  intros t. apply sim_if; [exact Hb|apply sim_skip].
Qed.

Lemma r_opt_string_list_sim fuel :
  sim (ParserHeap.r_opt_string_list fuel) (ConfParser.r_opt_string_list fuel) typed typed.
Proof.
  induction fuel as [|fuel IH]; [done|].
  refine (sim_loop is_separator _ _ typed _).
  eapply sim_seq; [apply r_list_sep_sim|]. eapply sim_seq; [apply r_list_string_value_sim|apply IH].
Qed.

Lemma r_value_sim fuel : sim (ParserHeap.r_value fuel) (ConfParser.r_value fuel) idle typed.
Proof.
  refine (sim_case
    (fun t cp => match t with
                 | TOKEN_INTEGER => ParserHeap.r_int_value cp
                 | TOKEN_STRING => ParserHeap.seq ParserHeap.r_string_value (ParserHeap.r_opt_string_list fuel) cp
                 | _ => ParserHeap.longjmp cp
                 end)
    (fun t P => match t with
                | TOKEN_INTEGER => ConfParser.r_int_value P
                | TOKEN_STRING => ConfParser.seq ConfParser.r_string_value (ConfParser.r_opt_string_list fuel) P
                | _ => ConfParser.longjmp P
                end) idle typed _).
  intros []; try apply sim_longjmp; [|apply r_int_value_sim].
  eapply sim_seq; [apply r_string_value_sim|apply r_opt_string_list_sim].
Qed.
(** ** The callback *)

Lemma callback_done_spec cp name P ret :
  both cp name P ⊢
  wp (callback_done cp ret) (fun b => ⟨b = (ret =? 0)⟩ ∗
    both cp name (set_value P CONF_TYPE_VOID (cp_current_value_int P) (cp_current_value_string P)
                    (cp_current_value_list P))).
Proof.
  open_parser. wp_write "Hcp". destruct Hst as (? & ? & ?).
  iAssert (both cp name (set_value P CONF_TYPE_VOID (cp_current_value_int P) (cp_current_value_string P)
                    (cp_current_value_list P))) with "[-]" as "H".
  { iFrame "Hu". close_parser (with_value p CONF_TYPE_VOID (pb_current_value_int p) (pb_current_value_string p)) sc f n. }
  destruct (ret =? 0); wp_pure; by iFrame.
Qed.

(** The array of a list, with the NULL that ends it, is the value the callback gets. *)
Lemma list_value_spec arr ps l :
  objects text_at arr ps l ⊢
  wp (list_value arr) (fun r => ∃ d, ⟨r = HList d (length l)⟩ ∗ is_array arr d ∗ list_at d l).
Proof.
  iIntros "(%d & Harr & Hd & Hps)". iCombine "Harr Hd" as "Harr".
  wp_use (array_add_spec arr d (Some <$> ps) None) with "Harr" as (u) "(%d' & Harr & Hd)".
  wp_use array_pdata_spec with "Harr" as (r) "[-> Harr]". wp_use get_pointers_spec with "Hd" as (r) "[-> Hd]".
  iDestruct (big_sepL2_length with "Hps") as %Hlen. wp_pure. iExists d'.
  iFrame. iPureIntro. f_equal. rw length_app length_fmap /=. lia.
Qed.

Lemma list_clear_spec arr d l :
  is_array arr d ∗ list_at d l ⊢
  wp (g_ptr_array_clear arg_destroy_notify arr) (fun _ => objects text_at arr [] []).
Proof.
  iIntros "(Harr & %ps & Hd & Hps)". iApply wp_wand. iSplitL.
  - iApply (array_clear_spec arg_destroy_notify (fun q => ∃ s, string_at q s)%I arr d).
    + iIntros (q) "[%s Hq]". iApply (free_string_spec with "Hq").
    + iFrame. iSplitL; [|by iSplit; [iExists None|]]. rw big_sepL_fmap.
      iDestruct (objects_forget text_at with "Hps") as "Hps". iApply (big_sepL_impl with "Hps").
      iIntros "!>" (k x _) "[%s Hx]". by iExists (Some s).
  - iIntros (u) "(%d' & Harr & Hd)". iExists d'. iFrame. done.
Qed.

(** The parser's strings and value, given to the callback and taken back. *)
Lemma call_value_spec p P hv v r u' sec key :
  cp_current_section P = Some sec -> cp_current_key P = Some key ->
  callback sec key v (cp_user_data P) = Ok (r, u') ->
  user (cp_user_data P) ∗ string_at (pb_current_section p) (cp_current_section P) ∗
    string_at (pb_current_key p) (cp_current_key P) ∗ value_at hv v ⊢
  wp (callback_h (pb_current_section p) (pb_current_key p) hv) (fun z =>
    ⟨z = r⟩ ∗ user u' ∗ string_at (pb_current_section p) (cp_current_section P) ∗
    string_at (pb_current_key p) (cp_current_key P) ∗ value_at hv v).
Proof.
  intros -> -> E. destruct (pb_current_section p), (pb_current_key p); simpl.
  - by apply callback_spec.
  - iIntros "(? & ? & [] & ?)".
  - iIntros "(? & [] & ? & ?)".
  - iIntros "(? & [] & ? & ?)".
Qed.
(** What [call_callback] of ConfParser.v needs and does. *)
Lemma call_callback_inv P P' go :
  ConfParser.call_callback callback P = Ok (P', go) -> cp_current_value_type P <> CONF_TYPE_VOID ->
  exists sec key v r u',
    cp_current_section P = Some sec /\ cp_current_key P = Some key /\
    v = match cp_current_value_type P with
        | CONF_TYPE_INT => CvInt (cp_current_value_int P)
        | CONF_TYPE_STRING => CvString (cp_current_value_string P)
        | _ => CvList (cp_current_value_list P)
        end /\
    callback sec key v (cp_user_data P) = Ok (r, u') /\ go = (r =? 0) /\
    P' = set_value (set_user P u') CONF_TYPE_VOID (cp_current_value_int P)
           (match cp_current_value_type P with CONF_TYPE_STRING => None | _ => cp_current_value_string P end)
           (match cp_current_value_type P with CONF_TYPE_LIST => [] | _ => cp_current_value_list P end).
Proof.
  unfold ConfParser.call_callback. intros E Hty.
  destruct (cp_current_value_type P) eqn:Ht; [done|..]; unfold deref in E;
    destruct (cp_current_section P) as [sec|]; try done; destruct (cp_current_key P) as [key|]; try done;
    simpl in E; apply bind_Ok_inv in E as ([r u'] & Ecb & [= <- <-]);
    exists sec, key; eauto 10.
Qed.

Lemma call_callback_sim :
  sim (ParserHeap.call_callback callback_h) (ConfParser.call_callback callback) typed idle.
Proof.
  intros cp name P P' go HP E. destruct (decide (cp_current_value_type P = CONF_TYPE_VOID)) as [Hv|Hv].
  { unfold ConfParser.call_callback in E. rw Hv in E. injection E as <- <-. split.
    - open_parser. destruct Hst as (Hl & Hty & Hi). rw Hty Hv. iApply wp_wand. iSplitL; [|iIntros (b) "H"; iExact "H"].
      iApply (callback_done_spec cp name P 0). iFrame "Hu". close_parser p sc f n.
    - intros _. destruct HP as [HP|HP]; [by rw HP in Hv|exact HP]. }
  destruct (call_callback_inv P P' go E Hv) as (sec & key & v & r & u' & Hsec & Hkey & -> & Ecb & -> & ->).
  split; [|intros _; destruct HP as [->|HP]; [done|by destruct (cp_current_value_type P)]].
  open_parser. pose proof Hst as (Hl & Hty & Hi). rw Hty.
  destruct (cp_current_value_type P) eqn:Ht; [done|..].
  - iAssert (value_at (HInt (pb_current_value_int p)) (CvInt (cp_current_value_int P))) as "Hval"; [done|].
    iCombine "Hu Hsec Hkey Hval" as "H".
    wp_use (call_value_spec p P _ _ r u' sec key Hsec Hkey Ecb) with "H" as (z) "(-> & Hu & Hsec & Hkey & _)".
    iApply (callback_done_spec cp name (set_user P u') r). iFrame "Hu". close_parser p sc f n.
  - iAssert (value_at (HString (pb_current_value_string p)) (CvString (cp_current_value_string P))) with "Hstr" as "Hval".
    iCombine "Hu Hsec Hkey Hval" as "H".
    wp_use (call_value_spec p P _ _ r u' sec key Hsec Hkey Ecb) with "H" as (z) "(-> & Hu & Hsec & Hkey & Hstr)".
    wp_use free_string_spec with "Hstr" as (w) "_". wp_write "Hcp".
    iApply (callback_done_spec cp name (set_value (set_user P u') CONF_TYPE_STRING (cp_current_value_int P) None
              (cp_current_value_list P)) r). iFrame "Hu".
    close_parser (with_value p CONF_TYPE_STRING (pb_current_value_int p) None) sc f n.
  - iDestruct "Hlist" as (arr ps) "[%Harr Hlist]". rw Harr. wp_pure.
    wp_use (list_value_spec arr ps (cp_current_value_list P)) with "Hlist" as (hv) "(%d & -> & Harr & Hval)".
    iAssert (value_at (HList d (length (cp_current_value_list P))) (CvList (cp_current_value_list P)))
      with "[Hval]" as "Hval"; [by iSplit|].
    iCombine "Hu Hsec Hkey Hval" as "H".
    wp_use (call_value_spec p P _ _ r u' sec key Hsec Hkey Ecb) with "H"
      as (z) "(-> & Hu & Hsec & Hkey & [_ Hval])".
    iCombine "Harr Hval" as "Hval".
    wp_use (list_clear_spec arr d (cp_current_value_list P)) with "Hval" as (w) "Hlist".
    iApply (callback_done_spec cp name (set_value (set_user P u') CONF_TYPE_LIST (cp_current_value_int P)
              (cp_current_value_string P) []) r). iFrame "Hu". close_parser p sc f n.
Qed.

(** ** The grammar *)

Lemma r_definition_sim fuel :
  sim (ParserHeap.r_definition callback_h fuel) (ConfParser.r_definition callback fuel) idle idle.
Proof.
  eapply sim_seq; [apply r_key_sim|]. eapply sim_seq; [apply sim_token_accept, idle_of_value|].
  eapply sim_seq; [apply r_value_sim|apply call_callback_sim].
Qed.

Lemma r_definition_list_sim fuel :
  sim (ParserHeap.r_definition_list callback_h fuel) (ConfParser.r_definition_list callback fuel) idle idle.
Proof.
  induction fuel as [|fuel IH]; [done|]. refine (sim_loop (is_token TOKEN_STRING) _ _ idle _).
  eapply sim_seq; [apply r_definition_sim|apply IH].
Qed.

Lemma r_section_sim fuel :
  sim (ParserHeap.r_section callback_h fuel) (ConfParser.r_section callback fuel) idle idle.
Proof.
  eapply sim_seq; [apply sim_token_accept, idle_of_value|]. eapply sim_seq; [apply r_section_name_sim|].
  eapply sim_seq; [apply sim_token_accept, idle_of_value|apply r_definition_list_sim].
Qed.

Lemma r_section_list_sim fuel :
  sim (ParserHeap.r_section_list callback_h fuel) (ConfParser.r_section_list callback fuel) idle idle.
Proof.
  induction fuel as [|fuel IH]; [done|]. refine (sim_loop (is_token TOKEN_LEFT_BRACE) _ _ idle _).
  eapply sim_seq; [apply r_section_sim|apply IH].
Qed.
(** ** The life of a parser *)

(** What [a6o_conf_parser_new] leaves. *)
Definition new_parser (m : addr) (input scanner : ptr) : parser_block :=
  ParserBlock (Some m) input scanner TOKEN_EOF None None CONF_TYPE_VOID 0 None None.

Definition new_parser_at (cp : addr) (name : string) (file : option (list ascii)) : hprop mblock :=
  ∃ m, m ↦ BString name ∗
    match file with
    | None => cp ↦ BParser (new_parser m None None)
    | Some bytes => ∃ sc f, cp ↦ BParser (new_parser m (Some f) (Some sc)) ∗
        scanner_at sc f (ConfParser.scanner_new bytes)
    end.

Lemma parser_new_spec n name file :
  n ↦ BString name ⊢
  wp (ParserHeap.a6o_conf_parser_new (Some n) file) (fun cp => n ↦ BString name ∗ new_parser_at cp name file).
Proof.
  iIntros "Hn". wp_let cp as "Hcp". wp_use strdup_spec with "Hn" as (r) "(Hn & %m & -> & Hm)".
  destruct file as [bytes|]; simpl.
  - wp_front. wp_let f as "Hf". wp_pure. wp_write "Hcp".
    wp_use scanner_new_spec with "Hf" as (sc) "Hs". wp_write "Hcp". wp_pure.
    iSplitL "Hn"; [done|]. iExists m. iFrame "Hm". iExists sc, f. iFrame.
  - wp_pure. wp_write "Hcp". wp_pure. iSplitL "Hn"; [done|]. iExists m. iFrame.
Qed.

Lemma parser_parse_spec cp name input u ret u' :
  ConfParser.a6o_conf_parser_parse callback (Some input) u = Ok (ret, u') ->
  new_parser_at cp name (Some input) ∗ user u ⊢
  wp (ParserHeap.a6o_conf_parser_parse callback_h (parse_fuel input) cp) (fun r =>
    ⟨r = ret⟩ ∗ ∃ P, parser_at cp name P ∗ user u').
Proof.
  intros E. unfold ConfParser.a6o_conf_parser_parse in E. apply bind_Ok_inv in E as ([t sc'] & Et & E).
  apply bind_Ok_inv in E as ([P' go] & Eg & [= <- <-]). simpl in Et, Eg.
  iIntros "[(%m & Hm & %sc & %f & Hcp & Hs) Hu]". wp_front. wp_read "Hcp". wp_pure.
  wp_use (scanner_next_spec sc f _ TOKEN_NONE t sc' Et) with "Hs" as (r) "[-> Hs]". wp_write "Hcp".
  wp_front. iApply wp_wand. iSplitR; [iApply array_new_spec|]. iIntros (arr) "(%d & Harr & Hd)".
  wp_front. wp_read "Hcp". wp_pure. wp_write "Hcp".
  set (P0 := set_token (ConfParser.a6o_conf_parser_new input u) sc' t) in *.
  destruct (sim_seq _ _ _ _ _ _ _ (r_section_list_sim (parse_fuel input))
              (sim_token_accept TOKEN_EOF idle idle_of_value) cp name P0 P' go eq_refl Eg) as [S _].
  iAssert (both cp name P0) with "[-]" as "H".
  { iSplitR "Hu"; [|done].
    iExists (with_list_array (with_key (with_section (with_token (new_parser m (Some f) (Some sc)) t) None) None) (Some arr)), sc, f, m.
    iFrame. repeat (iSplit; [done|]). iExists []. iSplit; [done|]. iFrame. done. }
  wp_use S with "H" as (b) "[-> [HP Hu]]". wp_pure. iSplit; [done|]. iExists P'. iFrame.
Qed.

Lemma parse_unopened_spec cp name u ret u' :
  ConfParser.a6o_conf_parser_parse callback None u = Ok (ret, u') ->
  new_parser_at cp name None ∗ user u ⊢
  wp (ParserHeap.a6o_conf_parser_parse callback_h (parse_fuel []) cp) (fun r =>
    ⟨r = ret⟩ ∗ new_parser_at cp name None ∗ user u').
Proof.
  intros [= <- <-]. iIntros "[(%m & Hm & Hcp) Hu]". wp_front. wp_read "Hcp". wp_pure. wp_pure.
  by iFrame.
Qed.

(** Everything the parser owns is freed, whatever it was doing. *)
Lemma parser_free_spec cp name P : parser_at cp name P ⊢ wp (ParserHeap.a6o_conf_parser_free cp) (fun _ => emp).
Proof.
  iIntros "(%p & %sc & %f & %n & Hcp & %Hst & %Hsc & Hs & %Hf & %Hn & Hname & (Hsec & Hkey & Hstr & Hlist))".
  iDestruct "Hlist" as (arr ps) "[%Harr Hlist]".
  wp_front. wp_read "Hcp". wp_pure. rw Hf Hsc Hn Harr. wp_front. wp_front.
  iDestruct "Hs" as (t) "(Hs & Hf & Ht)". wp_pure. wp_del "Hf". iCombine "Hs Ht" as "Hs".
  wp_use scanner_free_spec with "Hs" as (_) "_". wp_use free_string_spec with "Hsec" as (_) "_".
  wp_use free_string_spec with "Hkey" as (_) "_". wp_use free_string_spec with "Hstr" as (_) "_".
  iApply wp_wand. iSplitL "Hlist".
  - iApply (objects_free text_at arg_destroy_notify arr ps (cp_current_value_list P)); [|done].
    intros q s. apply (free_string_spec (Some q) (Some s)).
  - iIntros (_) "_". wp_del "Hname". by wp_del "Hcp".
Qed.

Lemma unopened_free_spec cp name :
  new_parser_at cp name None ⊢ wp (ParserHeap.a6o_conf_parser_free cp) (fun _ => emp).
Proof.
  iIntros "(%m & Hm & Hcp)". wp_front. wp_read "Hcp". wp_pure. wp_pure. wp_del "Hm". by wp_del "Hcp".
Qed.
End spec.

(** ** Loading a file *)

Section load.
Context `{Allocator, !GLib, GL : !GLibLaws _}.

Lemma conf_load_parser_cb_spec c sec key s k hv v e r e' :
  Conf.conf_load_parser_cb s k v e = Ok (r, e') ->
  conf_at c e ∗ sec ↦ BString s ∗ key ↦ BString k ∗ value_at hv v ⊢
  wp (ParserHeap.conf_load_parser_cb c (Some sec) (Some key) hv) (fun z =>
    ⟨z = r⟩ ∗ conf_at c e' ∗ sec ↦ BString s ∗ key ↦ BString k ∗ value_at hv v).
Proof.
  intros E. destruct (set_total v) as [v' Hv].
  apply (conf_add_spec _ v'); [by apply makes_copy|]. unfold Conf.conf_load_parser_cb, Conf.a6o_conf_add_value in E.
  by rw Hv in E.
Qed.

(** Loading a file, or one that cannot be opened: the store becomes that of Conf.v, and
    every block that was allocated on the way was freed, once. *)
Lemma load_file_spec c n name e file r e' :
  Conf.a6o_conf_load_file e file = Ok (r, e') ->
  conf_at c e ∗ n ↦ BString name ⊢
  wp (ParserHeap.a6o_conf_load_file c (Some n) file) (fun z =>
    ⟨z = r⟩ ∗ conf_at c e' ∗ n ↦ BString name).
Proof.
  intros E. unfold Conf.a6o_conf_load_file in E. apply bind_Ok_inv in E as ([ret e1] & Ep & [= <- <-]).
  iIntros "[Hc Hn]". wp_use (parser_new_spec n name file) with "Hn" as (cp) "[Hn Hcp]".
  iCombine "Hcp Hc" as "H". destruct file as [input|]; simpl.
  - wp_use (parser_parse_spec (conf_at c) Conf.conf_load_parser_cb _ (conf_load_parser_cb_spec c) cp name
              input e ret e1 Ep) with "H" as (z) "(-> & %P & HP & Hc)".
    wp_use parser_free_spec with "HP" as (u) "_". wp_pure. by iFrame.
  - wp_use (parse_unopened_spec (conf_at c) Conf.conf_load_parser_cb (ParserHeap.conf_load_parser_cb c)
              cp name e ret e1 Ep) with "H" as (z) "(-> & HP & Hc)".
    wp_use unopened_free_spec with "HP" as (u) "_". wp_pure. by iFrame.
Qed.

End load.
