(* ===== verification/ConfHistory.v ===== *)
(** * Histories of calls of the store on the heap

    A program that makes a store, calls its functions with strings of its own, loads files
    into it, and frees the store.  Whatever the calls, their results are those of the store of Conf.v, every
    block is freed once, and one is left: the structure that [a6o_conf_free] forgets. *)
From S2P Require Import Prelude ConfVal ConfParser ConfParserTheory Conf ConfSpec.
From S2P Require Import Heap Blocks ConfHeap ConfHeapSpec ParserHeap ParserHeapSpec.
From iris.proofmode Require Import proofmode.

Inductive conf_call : Set :=
  | AddUint (section key : string) (val : Z)
  | AddString (section key : string) (val : option string)
  | AddList (section key : string) (val : list string)
  | SetUint (section key : string) (val : Z)
  | SetString (section key : string) (val : option string)
  | SetList (section key : string) (val : list string)
  | LoadFile (path : string) (file : option (list ascii)).

(** What the store of Conf.v does. *)
Definition conf_call_result (call : conf_call) (e : a6o_conf) : outcome (Z * a6o_conf) :=
  match call with
  | AddUint s k v => Conf.a6o_conf_add_uint e s k v
  | AddString s k v => Conf.a6o_conf_add_string e s k v
  | AddList s k v => Conf.a6o_conf_add_list e s k v (length v)
  | SetUint s k v => Conf.a6o_conf_set_uint e s k v
  | SetString s k v => Conf.a6o_conf_set_string e s k v
  | SetList s k v => Conf.a6o_conf_set_list e s k v (length v)
  | LoadFile _ file => Conf.a6o_conf_load_file e file
  end.

Fixpoint conf_calls_result (calls : list conf_call) (e : a6o_conf) : outcome (list Z * a6o_conf) :=
  match calls with
  | [] => Ok ([], e)
  | call :: calls =>
      r ← conf_call_result call e; rs ← conf_calls_result calls r.2; Ok (r.1 :: rs.1, rs.2)
  end.

Section history.
Context `{Allocator, GLib}.

(** The caller's own strings: made before a call, freed after it. *)
Definition make_string (s : option string) : cmd mblock ptr :=
  match s with None => mret None | Some s => a ← malloc (BString s); mret (Some a) end.

Fixpoint make_strings (l : list string) : cmd mblock (list ptr) :=
  match l with
  | [] => mret [None]
  | s :: l => a ← malloc (BString s); ps ← make_strings l; mret (Some a :: ps)
  end.

Definition make_list (l : list string) : cmd mblock addr := ps ← make_strings l; malloc (BPointers ps).

Definition with_string {A} (s : option string) (f : ptr -> cmd mblock A) : cmd mblock A :=
  p ← make_string s; r ← f p; free p;; mret r.

Definition with_list {A} (l : list string) (f : addr -> cmd mblock A) : cmd mblock A :=
  a ← make_list l; r ← f a; v ← a6o_conf_value_destroy (HList a (length l)); mret r.

Definition with_names {A} (s k : string) (f : ptr -> ptr -> cmd mblock A) : cmd mblock A :=
  with_string (Some s) (fun section => with_string (Some k) (fun key => f section key)).

Definition heap_call (conf : addr) (call : conf_call) : cmd mblock Z :=
  match call with
  | AddUint s k v => with_names s k (fun section key => ConfHeap.a6o_conf_add_uint conf section key v)
  | AddString s k v =>
      with_names s k (fun section key => with_string v (ConfHeap.a6o_conf_add_string conf section key))
  | AddList s k v =>
      with_names s k (fun section key =>
        with_list v (fun a => ConfHeap.a6o_conf_add_list conf section key a (length v)))
  | SetUint s k v => with_names s k (fun section key => ConfHeap.a6o_conf_set_uint conf section key v)
  | SetString s k v =>
      with_names s k (fun section key => with_string v (ConfHeap.a6o_conf_set_string conf section key))
  | SetList s k v =>
      with_names s k (fun section key =>
        with_list v (fun a => ConfHeap.a6o_conf_set_list conf section key a (length v)))
  | LoadFile path file => with_string (Some path) (fun p => ParserHeap.a6o_conf_load_file conf p file)
  end.

Fixpoint heap_calls (conf : addr) (calls : list conf_call) : cmd mblock (list Z) :=
  match calls with
  | [] => mret []
  | call :: calls => r ← heap_call conf call; rs ← heap_calls conf calls; mret (r :: rs)
  end.

Definition conf_session (calls : list conf_call) : cmd mblock (addr * list Z) :=
  conf ← ConfHeap.a6o_conf_new; rs ← heap_calls conf calls; ConfHeap.a6o_conf_free conf;; mret (conf, rs).

(** ** Every call has a result *)

Lemma load_total e file : exists r e', Conf.a6o_conf_load_file e file = Ok (r, e').
Proof.
  unfold Conf.a6o_conf_load_file. destruct file as [input|]; [|simpl; eauto].
  pose proof (parse_sound Conf.conf_load_parser_cb (fun _ => True) ltac:(done) input e I) as Hp.
  destruct (ConfParser.a6o_conf_parser_parse _ _ _) as [[r e']|f]; simpl; [eauto|].
  destruct Hp as (s & k & v & w & E). destruct (load_cb_spec s k v w) as (r & c & E' & _). congruence.
Qed.

Lemma conf_call_total call e : exists r e', conf_call_result call e = Ok (r, e').
Proof.
  assert (Hadd : forall s k v, exists r e', Conf.conf_add e s k (Ok v) = Ok (r, e')).
  { intros s k v. unfold Conf.conf_add. destruct (Conf.key_entry_add e s k) as [e1 [ij|]]; simpl; eauto. }
  assert (Hset : forall s k t v, exists r e', Conf.conf_set e s k t (Ok v) = Ok (r, e')).
  { intros s k t v. unfold Conf.conf_set. destruct (Conf.key_entry_get e s k) as [ij|]; [|eauto].
    case_bool_decide; simpl; eauto. }
  destruct call as [| | | | | |path file]; [..|by apply load_total]; simpl; unfold Conf.a6o_conf_add_list, Conf.a6o_conf_set_list; rw ?set_list_all;
    first [apply Hadd | apply Hset].
Qed.

Context `{GL : !GLibLaws _}.

Lemma with_string_spec {A} s (f : ptr -> cmd mblock A) (P : hprop mblock) Q :
  (forall p, P ∗ string_at p s ⊢ wp (f p) (fun r => Q r ∗ string_at p s)) ->
  P ⊢ wp (with_string s f) Q.
Proof.
  iIntros (Hf) "HP". wp_front. iApply (wp_wand _ (fun p => string_at p s)). iSplitR.
  - destruct s as [s|]; simpl; [|by wp_pure]. wp_let a as "Ha". by wp_pure.
  - iIntros (p) "Hp". iCombine "HP Hp" as "H". wp_use Hf with "H" as (r) "[HQ Hp]".
    wp_use free_string_spec with "Hp" as (u) "_". by wp_pure.
Qed.

Lemma make_strings_spec l :
  ⊢ wp (make_strings l) (fun r => ∃ ps, ⟨r = (Some <$> ps) ++ [None]⟩ ∗ [∗ list] p;s ∈ ps;l, p ↦ BString s).
Proof.
  iInduction l as [|s l IH]; simpl.
  - wp_pure. iExists []. by iSplit.
  - wp_let a as "Ha". wp_front. iApply wp_wand. iSplitR; [iApply "IH"|].
    iIntros (r) "(%ps & -> & Hps)". wp_pure. iExists (a :: ps). by iFrame.
Qed.

Lemma with_list_spec {A} l (f : addr -> cmd mblock A) (P : hprop mblock) Q :
  (forall a, P ∗ list_at a l ⊢ wp (f a) (fun r => Q r ∗ list_at a l)) ->
  P ⊢ wp (with_list l f) Q.
Proof.
  iIntros (Hf) "HP". wp_front. iApply (wp_wand _ (fun a => list_at a l)). iSplitR.
  - wp_front. iApply wp_wand. iSplitR; [iApply make_strings_spec|]. iIntros (r) "(%ps & -> & Hps)".
    iApply wp_malloc. iIntros (a) "Ha". iExists ps. iFrame.
  - iIntros (a) "Ha". iCombine "HP Ha" as "H". wp_use Hf with "H" as (r) "[HQ Ha]".
    iAssert (value_at (HList a (length l)) (CvList l)) with "[Ha]" as "Ha"; [by iSplit|].
    wp_use (value_destroy_spec (HList a (length l)) (CvList l)) with "Ha" as (v) "_". by wp_pure.
Qed.

Lemma with_names_spec {A} s k (f : ptr -> ptr -> cmd mblock A) (P : hprop mblock) Q :
  (forall sec key, P ∗ sec ↦ BString s ∗ key ↦ BString k ⊢
     wp (f (Some sec) (Some key)) (fun r => Q r ∗ sec ↦ BString s ∗ key ↦ BString k)) ->
  P ⊢ wp (with_names s k f) Q.
Proof.
  intros Hf. apply with_string_spec. intros [sec|]; [|simpl; iIntros "[? []]"].
  apply with_string_spec. intros [key|]; [|simpl; iIntros "[[? ?] []]"]. simpl.
  iIntros "[[HP Hs] Hk]". iApply wp_wand. iSplitL; [iApply Hf; iFrame|].
  iIntros (r) "($ & $ & $)".
Qed.

Lemma heap_call_spec c e call r e' :
  conf_call_result call e = Ok (r, e') ->
  conf_at c e ⊢ wp (heap_call c call) (fun z => ⟨z = r⟩ ∗ conf_at c e').
Proof.
  destruct call as [s k v|s k v|s k v|s k v|s k v|s k v|path file]; simpl; intros E;
    try (apply with_names_spec; intros sec key).
  - iIntros "(Hc & Hs & Hk)". iApply wp_wand. iSplitL.
    + iApply (conf_add_spec _ _ emp%I c e sec key s k r e' (makes_int v) E). iFrame.
    + iIntros (z) "($ & $ & $ & $ & _)".
  - apply with_string_spec. intros p. iIntros "[(Hc & Hs & Hk) Hp]". iApply wp_wand. iSplitL.
    + iApply (conf_add_spec _ _ _ c e sec key s k r e' (makes_string p v) E). iFrame.
    + iIntros (z) "($ & $ & $ & $ & $)".
  - apply with_list_spec. intros a. iIntros "[(Hc & Hs & Hk) Ha]".
    unfold Conf.a6o_conf_add_list in E. rw set_list_all in E. iApply wp_wand. iSplitL.
    + iApply (conf_add_spec _ _ _ c e sec key s k r e' (makes_list a v (length v) _ (set_list_all v)) E). iFrame.
    + iIntros (z) "($ & $ & $ & $ & $)".
  - iIntros "(Hc & Hs & Hk)". iApply wp_wand. iSplitL; [iApply (set_uint_spec _ _ _ _ _ _ _ _ _ E); iFrame|].
    iIntros (z) "($ & $ & $ & $)".
  - apply with_string_spec. intros p. iIntros "[(Hc & Hs & Hk) Hp]". iApply wp_wand. iSplitL.
    + iApply (set_string_spec _ _ _ _ _ _ p v _ _ E). iFrame.
    + iIntros (z) "($ & $ & $ & $ & $)".
  - apply with_list_spec. intros a. iIntros "[(Hc & Hs & Hk) Ha]". iApply wp_wand. iSplitL.
    + iApply (set_list_spec _ _ _ _ _ _ a v _ _ _ E); [done|iFrame].
    + iIntros (z) "($ & $ & $ & $ & $)".
  - apply with_string_spec. intros [p|]; [|simpl; iIntros "[? []]"]. simpl. iIntros "[Hc Hp]".
    iApply wp_wand. iSplitL; [iApply (load_file_spec c p path e file r e' E); iFrame|].
    iIntros (z) "($ & $ & $)".
Qed.

Lemma heap_calls_spec calls c e rs e' :
  conf_calls_result calls e = Ok (rs, e') ->
  conf_at c e ⊢ wp (heap_calls c calls) (fun zs => ⟨zs = rs⟩ ∗ conf_at c e').
Proof.
  revert e rs. induction calls as [|call calls IH]; intros e rs; simpl; intros E.
  - injection E as <- <-. iIntros "Hc". wp_pure. by iFrame.
  - inv_bind. destruct x as [r e1], x0 as [rs1 e2]. simpl in *. subst.
    iIntros "Hc". wp_use (heap_call_spec _ _ _ _ _ Hx) with "Hc" as (z) "[-> Hc]".
    wp_use (IH _ _ Hx0) with "Hc" as (zs) "[-> Hc]". wp_pure. by iFrame.
Qed.

Lemma conf_calls_total calls e : exists rs e', conf_calls_result calls e = Ok (rs, e').
Proof.
  revert e. induction calls as [|call calls IH]; intros e; simpl; [eauto|].
  destruct (conf_call_total call e) as (r & e1 & ->). simpl. destruct (IH e1) as (rs & e2 & ->). simpl. eauto.
Qed.

End history.

(** With the arrays of Blocks.v: a value is added, given again, and read from a file. *)
Definition some_calls : list conf_call :=
  [AddString "on-demand" "quarantine-dir" (Some "/var/spool"); AddList "on-access" "mount" ["/home"; "/media"];
   SetString "on-demand" "quarantine-dir" (Some "/tmp"); AddUint "on-access" "enable" 1; AddUint "on-access" "enable" 0;
   LoadFile "a.conf" (Some (bytes "[s]" ++ ["010"%char] ++ bytes "k=1;" ++ ["010"%char]))].


(** ** Two functions that do not keep to this

    [a6o_conf_set_string] with the string that is stored: it is freed, then copied. *)
Definition set_own_string : cmd mblock Z :=
  conf ← ConfHeap.a6o_conf_new;
  s ← make_string (Some "on-demand"); k ← make_string (Some "quarantine-dir");
  v ← make_string (Some "/var/spool");
  r ← ConfHeap.a6o_conf_add_string conf s k v;
  p ← ConfHeap.a6o_conf_get_string conf s k;
  ConfHeap.a6o_conf_set_string conf s k p.

Lemma set_own_string_faults : set_own_string ∅ = Fault UseAfterFree.
Proof. vm_compute. reflexivity. Qed.
