(* ===== verification/Settings.v ===== *)
(** * What the settings of a module's section amount to

    The builtin modules' configuration functions fill a scan configuration (and, for the
    on-access module, the monitor) with strings, in the order of the settings, and with
    the last integer given.  This file holds what they share: the strings a value stands
    for, the settings in the order they are applied, what a section says, and the fold
    that applies them. *)
From S2P Require Import Prelude Status ConfVal Conf Dir Module ScanConf.

#[local] Open Scope Z_scope.

(** A world that holds the static variables of [scanconf.c]. *)
Class HasScanConfs (W : Type) := {
  get_confs : W -> scan_confs;
  put_confs : scan_confs -> W -> W;
  get_put_confs : forall cs w, get_confs (put_confs cs w) = cs;
}.

#[export] Instance scan_confs_world : HasScanConfs scan_confs :=
  {| get_confs := id; put_confs := fun cs _ => cs; get_put_confs := fun cs _ => eq_refl |}.

(** [CONF_TYPE_STRING | CONF_TYPE_LIST] *)
Definition STRING_OR_LIST : Z :=
  Z.lor (a6o_conf_value_type_val CONF_TYPE_STRING) (a6o_conf_value_type_val CONF_TYPE_LIST).

(** The strings a configuration function goes through: the string, or the list up to
    its NULL.  The callees duplicate or compare each, so a NULL string is
    dereferenced; a value of another type would be read through the wrong member of
    the union. *)
Definition value_strings (value : a6o_conf_value) : outcome (list string) :=
  match value with
  | CvString (Some s) => Ok [s]
  | CvString None => Fault NullDeref
  | CvList l => Ok l
  | CvVoid | CvInt _ => Fault UninitRead
  end.

Definition value_int (value : a6o_conf_value) : outcome Z :=
  match value with CvInt z => Ok z | _ => Fault UninitRead end.

(** ** The settings, in the order [a6o_conf_apply] visits them *)

Abbreviation setting := (string * string * a6o_conf_value)%type.

Definition settings (conf : a6o_conf) : list setting :=
  flat_map (fun s => (fun k => (s_section s, k_key k, k_value k)) <$> s_keys s) (sections conf).

Lemma conf_apply_settings {U} conf (f : string -> string -> a6o_conf_value -> U -> U) u :
  a6o_conf_apply conf f u = fold_left (fun u '(s, k, v) => f s k v u) (settings conf) u.
Proof.
  unfold a6o_conf_apply, settings. revert u. induction (sections conf) as [|s l IH]; intros u; simpl; [done|].
  rewrite fold_left_app, <- IH. f_equal. clear. revert u.
  induction (s_keys s) as [|k ks IH]; intros u; simpl; [done|]. apply IH.
Qed.

(** Applying settings, each of which has a known effect on what is observed. *)
Lemma fold_settings {W V} (f : string -> string -> a6o_conf_value -> W -> outcome W) (view : W -> V -> Prop)
    (effect : V -> setting -> V) (l : list setting) :
  Forall (fun '(s, k, v) => forall w x, view w x -> exists w', f s k v w = Ok w' /\ view w' (effect x (s, k, v))) l ->
  forall w x, view w x ->
  exists w', fold_left (fun r '(s, k, v) => w ← r; f s k v w) l (Ok w) = Ok w' /\ view w' (fold_left effect l x).
Proof.
  induction 1 as [|[[s k] v] l Hs Hl IH]; intros w x Hv; simpl; [by exists w|].
  destruct (Hs w x Hv) as (w1 & -> & Hv1). by apply IH.
Qed.

(** ** What a section says *)

(** The strings given to a key of the section. *)
Definition given (sec key : string) (st : setting) : list string :=
  let '(s, k, v) := st in
  if bool_decide (s = sec /\ k = key) then
    match v with CvString (Some x) => [x] | CvList l => l | _ => [] end
  else [].

Definition strings_given (sec key : string) (l : list setting) : list string := flat_map (given sec key) l.

(** What the last integer given to a key sets, or the previous content. *)
Definition int_given {A} (f : Z -> A) (sec key : string) (old : A) (st : setting) : A :=
  let '(s, k, v) := st in
  match v with
  | CvInt z => if bool_decide (s = sec /\ k = key) then f z else old
  | _ => old
  end.

Definition last_int {A} (f : Z -> A) (sec key : string) (old : A) (l : list setting) : A :=
  fold_left (int_given f sec key) l old.

(** The scan configuration after the settings [l]; the maximal size is a [size_t]. *)
Definition configured (by_name : string -> option nat) (sec : string) (l : list setting)
    (c : a6o_scan_conf) : a6o_scan_conf :=
  {| sc_name := sc_name c; sc_max_file_size := last_int u64 sec "max-size" (sc_max_file_size c) l;
     sc_mime_types := sc_mime_types c ++ strings_given sec "mime-types" l;
     sc_modules := sc_modules c ++ omap by_name (strings_given sec "modules" l);
     sc_mime_type_cache := sc_mime_type_cache c;
     sc_directories_white_list := sc_directories_white_list c ++ strings_given sec "white-list-dir" l |}.

Lemma given_here sec k v :
  given sec k (sec, k, v) = match v with CvString (Some x) => [x] | CvList l => l | _ => [] end.
Proof. unfold given. by rewrite bool_decide_eq_true_2. Qed.

Lemma given_other sec key s k v : s <> sec \/ k <> key -> given sec key (s, k, v) = [].
Proof. intros Hne. unfold given. rewrite bool_decide_eq_false_2; [done|]. intros [? ?]. by destruct Hne. Qed.

Lemma int_given_here {A} (f : Z -> A) sec k z old : int_given f sec k old (sec, k, CvInt z) = f z.
Proof. unfold int_given. by rewrite bool_decide_eq_true_2. Qed.

Lemma int_given_other {A} (f : Z -> A) sec key old s k v :
  s <> sec \/ k <> key \/ (forall z, v <> CvInt z) -> int_given f sec key old (s, k, v) = old.
Proof.
  intros Hne. unfold int_given. destruct v as [|z| |]; try done.
  rewrite bool_decide_eq_false_2; [done|]. intros [? ?]. destruct Hne as [?|[?|Hv]]; [done..|]. by destruct (Hv z).
Qed.

Lemma strings_given_one sec key st : strings_given sec key [st] = given sec key st.
Proof. unfold strings_given. simpl. by rewrite app_nil_r. Qed.

Lemma configured_nil by_name sec c : configured by_name sec [] c = c.
Proof. unfold configured. simpl. rewrite !app_nil_r. by destruct c. Qed.

Lemma configured_app by_name sec l1 l2 c :
  configured by_name sec (l1 ++ l2) c = configured by_name sec l2 (configured by_name sec l1 c).
Proof.
  unfold configured, strings_given, last_int. cbn [sc_name sc_max_file_size sc_mime_types sc_modules
    sc_mime_type_cache sc_directories_white_list].
  by rewrite fold_left_app, !flat_map_app, omap_app, !app_assoc.
Qed.

Lemma configured_fold by_name sec l c :
  configured by_name sec l c = fold_left (fun c st => configured by_name sec [st] c) l c.
Proof.
  revert c. induction l as [|st l IH]; intros c; [by rewrite configured_nil|].
  rewrite (configured_app _ _ [st] l). apply IH.
Qed.

Lemma configured_one by_name sec st c :
  configured by_name sec [st] c =
  {| sc_name := sc_name c; sc_max_file_size := int_given u64 sec "max-size" (sc_max_file_size c) st;
     sc_mime_types := sc_mime_types c ++ given sec "mime-types" st;
     sc_modules := sc_modules c ++ omap by_name (given sec "modules" st);
     sc_mime_type_cache := sc_mime_type_cache c;
     sc_directories_white_list := sc_directories_white_list c ++ given sec "white-list-dir" st |}.
Proof. unfold configured. by rewrite !strings_given_one. Qed.

(** A setting that is not for the scan configuration. *)
Lemma configured_other by_name sec s k v c :
  s <> sec \/ v = CvVoid \/
  (k <> "white-list-dir" /\ k <> "modules" /\ k <> "mime-types" /\ k <> "max-size")%string ->
  configured by_name sec [(s, k, v)] c = c.
Proof.
  intros Hne. rewrite configured_one.
  assert (forall key, (key = "white-list-dir" \/ key = "modules" \/ key = "mime-types")%string -> given sec key (s, k, v) = [])
    as Hg.
  { intros key Hk. destruct Hne as [?|[->|?]]; [by apply given_other; left| |apply given_other; right; intros ->; tauto].
    unfold given. by case_bool_decide. }
  rewrite !Hg by tauto. rewrite int_given_other; [simpl; rewrite !app_nil_r; by destruct c|].
  destruct Hne as [?|[->|?]]; [by left|by right; right|right; left; tauto].
Qed.

(** ** The functions that fill a scan configuration *)

Lemma fold_white_list l c :
  fold_left a6o_scan_conf_white_list_directory l c =
  {| sc_name := sc_name c; sc_max_file_size := sc_max_file_size c; sc_mime_types := sc_mime_types c;
     sc_modules := sc_modules c; sc_mime_type_cache := sc_mime_type_cache c;
     sc_directories_white_list := sc_directories_white_list c ++ l |}.
Proof.
  revert c. induction l as [|x l IH]; intros c; simpl; [rewrite app_nil_r; by destruct c|].
  rewrite IH. simpl. by rewrite <- app_assoc.
Qed.

Lemma fold_mime_types l c :
  fold_left a6o_scan_conf_add_mime_type l c =
  {| sc_name := sc_name c; sc_max_file_size := sc_max_file_size c; sc_mime_types := sc_mime_types c ++ l;
     sc_modules := sc_modules c; sc_mime_type_cache := sc_mime_type_cache c;
     sc_directories_white_list := sc_directories_white_list c |}.
Proof.
  revert c. induction l as [|x l IH]; intros c; simpl; [rewrite app_nil_r; by destruct c|].
  rewrite IH. simpl. by rewrite <- app_assoc.
Qed.

Lemma fold_modules by_name l c :
  fold_left (fun c m => a6o_scan_conf_add_module c m by_name) l c =
  {| sc_name := sc_name c; sc_max_file_size := sc_max_file_size c; sc_mime_types := sc_mime_types c;
     sc_modules := sc_modules c ++ omap by_name l; sc_mime_type_cache := sc_mime_type_cache c;
     sc_directories_white_list := sc_directories_white_list c |}.
Proof.
  revert c. induction l as [|x l IH]; intros c; simpl; [rewrite app_nil_r; by destruct c|].
  rewrite IH. unfold a6o_scan_conf_add_module. destruct (by_name x); simpl; [|done].
  by rewrite <- app_assoc.
Qed.

(** Each of the four keys, once. *)
Section keys.
Variables (by_name : string -> option nat) (sec : string).

Lemma configured_white_list v l c :
  value_strings v = Ok l ->
  configured by_name sec [(sec, "white-list-dir", v)] c = fold_left a6o_scan_conf_white_list_directory l c.
Proof.
  intros Hv. rewrite configured_one, fold_white_list, given_here, !given_other, int_given_other by first [by right | by right; left].
  simpl. rewrite !app_nil_r. by destruct v as [| |[]|]; simplify_eq/=.
Qed.

Lemma configured_mime_types v l c :
  value_strings v = Ok l ->
  configured by_name sec [(sec, "mime-types", v)] c = fold_left a6o_scan_conf_add_mime_type l c.
Proof.
  intros Hv. rewrite configured_one, fold_mime_types, given_here, !given_other, int_given_other by first [by right | by right; left].
  simpl. rewrite !app_nil_r. by destruct v as [| |[]|]; simplify_eq/=.
Qed.

Lemma configured_modules v l c :
  value_strings v = Ok l ->
  configured by_name sec [(sec, "modules", v)] c = fold_left (fun c m => a6o_scan_conf_add_module c m by_name) l c.
Proof.
  intros Hv. rewrite configured_one, fold_modules, given_here, !given_other, int_given_other by first [by right | by right; left].
  simpl. rewrite !app_nil_r. by destruct v as [| |[]|]; simplify_eq/=.
Qed.

Lemma configured_max_size z c :
  configured by_name sec [(sec, "max-size", CvInt z)] c = a6o_scan_conf_max_file_size c z.
Proof.
  rewrite configured_one, int_given_here, !given_other by (by right). simpl. by rewrite !app_nil_r.
Qed.

(** A value of a type that the key does not take. *)
Lemma configured_ill_typed k v c :
  match v with
  | CvInt _ => k <> "max-size"
  | CvString None => True
  | CvString (Some _) | CvList _ => k = "max-size"
  | CvVoid => True
  end%string ->
  configured by_name sec [(sec, k, v)] c = c.
Proof.
  intros Hv. rewrite configured_one.
  assert (forall key, key <> "max-size"%string -> given sec key (sec, k, v) = []) as Hg.
  { intros key Hk. destruct v as [|z|[x|]|l]; try (unfold given; by case_bool_decide);
      apply given_other; right; congruence. }
  rewrite !Hg by done. rewrite int_given_other; [|right; destruct v as [|z|[]|]; first [by left | by right]]. simpl.
  rewrite !app_nil_r. by destruct c.
Qed.

End keys.
