(* ===== verification/OnDemandMod.v ===== *)
(** * The on-demand module ([src/libcore/arch/linux/builtin-modules/on-demand/ondemandmod.c])

    A builtin module without functions of its own: its configuration functions fill
    the on-demand scan configuration.  They work on any world that holds the two scan
    configurations. *)
From S2P Require Import Prelude Status ConfVal Conf Dir Module ScanConf Settings.

#[local] Open Scope Z_scope.

Section module.
Context {W : Type} `{HasScanConfs W}.

Definition on_demand_update (f : a6o_scan_conf -> a6o_scan_conf) (w : W) : W :=
  put_confs (a6o_scan_conf_on_demand (get_confs w) f) w.

Definition mod_on_demand_conf_white_list_dir (by_name : string -> option nat) (key : string)
    (value : a6o_conf_value) (w : W) : outcome (a6o_mod_status * W) :=
  l ← value_strings value;
  Ok (A6O_MOD_OK, on_demand_update (fun c => fold_left a6o_scan_conf_white_list_directory l c) w).

Definition mod_on_demand_conf_modules (by_name : string -> option nat) (key : string)
    (value : a6o_conf_value) (w : W) : outcome (a6o_mod_status * W) :=
  l ← value_strings value;
  Ok (A6O_MOD_OK, on_demand_update (fun c => fold_left (fun c m => a6o_scan_conf_add_module c m by_name) l c) w).

Definition mod_on_demand_conf_mime_types (by_name : string -> option nat) (key : string)
    (value : a6o_conf_value) (w : W) : outcome (a6o_mod_status * W) :=
  l ← value_strings value;
  Ok (A6O_MOD_OK, on_demand_update (fun c => fold_left a6o_scan_conf_add_mime_type l c) w).

Definition mod_on_demand_conf_max_size (by_name : string -> option nat) (key : string)
    (value : a6o_conf_value) (w : W) : outcome (a6o_mod_status * W) :=
  z ← value_int value;
  Ok (A6O_MOD_OK, on_demand_update (fun c => a6o_scan_conf_max_file_size c z) w).

Definition on_demand_conf_table : list (a6o_conf_entry W) :=
  [{| ce_key := "white-list-dir"; ce_type := STRING_OR_LIST; ce_conf_fun := Some mod_on_demand_conf_white_list_dir |};
   {| ce_key := "modules"; ce_type := STRING_OR_LIST; ce_conf_fun := Some mod_on_demand_conf_modules |};
   {| ce_key := "mime-types"; ce_type := STRING_OR_LIST; ce_conf_fun := Some mod_on_demand_conf_mime_types |};
   {| ce_key := "max-size"; ce_type := a6o_conf_value_type_val CONF_TYPE_INT;
      ce_conf_fun := Some mod_on_demand_conf_max_size |}].

Definition on_demand_module : a6o_module W :=
  {| mod_init_fun := None; mod_conf_table := Some on_demand_conf_table; mod_post_init_fun := None;
     mod_scan_fun := None; mod_close_fun := None; mod_info_fun := None; mod_supported_mime_types := None;
     mod_name := "on-demand"; mod_size := 0; mod_status := A6O_MOD_OK; mod_data_allocated := false |}.

(** ** What the settings of the section amount to *)

(** The on-demand scan configuration, created on first use. *)
Definition od_conf (w : W) : a6o_scan_conf :=
  get_conf (on_demand_conf (get_confs w)) "on-demand scan configuration".

Lemma od_conf_update f w : od_conf (on_demand_update f w) = f (od_conf w).
Proof. unfold od_conf, on_demand_update. by rewrite get_put_confs. Qed.

Section apply.
Variable mm : module_manager W.
#[local] Abbreviation by_name := (module_manager_get_module_by_name mm).

(** The manager finds the module under its name. *)
Definition on_demand_registered : Prop :=
  exists i m, by_name "on-demand" = Some i /\ mm_modules mm !! i = Some m /\
    mod_conf_table m = Some on_demand_conf_table.

Lemma conf_fun_on_demand k v w :
  on_demand_registered -> v <> CvString None ->
  exists w', module_conf_fun mm "on-demand" k v w = Ok w' /\
    od_conf w' = configured by_name "on-demand" [("on-demand", k, v)] (od_conf w).
Proof.
  intros (i & m & Hi & Hm & Ht) Hv. unfold module_conf_fun. rewrite Hi. simpl. rewrite Hm, Ht.
  unfold find_conf_entry. cbn [list_find on_demand_conf_table ce_key].
  destruct (decide ("white-list-dir" = k)) as [<-|H1]; [|destruct (decide ("modules" = k)) as [<-|H2];
    [|destruct (decide ("mime-types" = k)) as [<-|H3]; [|destruct (decide ("max-size" = k)) as [<-|H4]]]].
  5: { exists w. split; [done|]. symmetry. apply configured_other. right. right. split_and!; by intros ->. }
  all: cbn; destruct v as [|z|[x|]|l]; try done; cbn;
    (eexists; split; [reflexivity|]); try (by rewrite configured_ill_typed); rewrite ?od_conf_update; symmetry.
  - by apply (configured_white_list _ _ (CvString (Some x)) [x]).
  - by apply (configured_white_list _ _ (CvList l) l).
  - by apply (configured_modules _ _ (CvString (Some x)) [x]).
  - by apply (configured_modules _ _ (CvList l) l).
  - by apply (configured_mime_types _ _ (CvString (Some x)) [x]).
  - by apply (configured_mime_types _ _ (CvList l) l).
  - apply configured_max_size.
Qed.

(** What another module's functions do leaves the on-demand configuration alone. *)
Definition others_keep : Prop :=
  forall s k v w, s <> "on-demand" -> exists w', module_conf_fun mm s k v w = Ok w' /\ od_conf w' = od_conf w.

End apply.

End module.

(** What the on-demand section of the configuration means.  Whatever the
    configuration and the other modules (whose functions do not touch it), applying
    the configuration makes the on-demand scan configuration the previous one with,
    in the order of the settings, the strings of every white-list-dir setting added to
    the white list, those of mime-types to the scanned types, the known modules named
    by modules to the modules, and the last integer max-size, converted to size_t, as
    maximal size.  Settings of the wrong type and unknown keys change nothing. *)
Theorem on_demand_configured {W} `{HasScanConfs W} (mm : module_manager W) (conf : a6o_conf) (w : W)
    (Hreg : on_demand_registered mm) (Hothers : others_keep mm)
    (Hstrings : Forall (fun '(s, k, v) => v <> CvString None) (settings conf)) :
  exists w', module_manager_configure_all mm conf w = Ok (0, w') /\
    od_conf w' = configured (module_manager_get_module_by_name mm) "on-demand" (settings conf) (od_conf w).
Proof.
  unfold module_manager_configure_all. rewrite conf_apply_settings, configured_fold.
  destruct (fold_settings (module_conf_fun mm) (fun w c => od_conf w = c)
    (fun c st => configured (module_manager_get_module_by_name mm) "on-demand" [st] c) (settings conf)) with w (od_conf w)
    as (w' & -> & E); [|done|by exists w'].
  eapply list.Forall_impl; [exact Hstrings|]. intros [[s k] v] Hv w1 c <-.
  destruct (decide (s = "on-demand")) as [->|Hs]; [by apply conf_fun_on_demand|].
  rewrite configured_other by (by left). by apply Hothers.
Qed.

Definition sample_manager : module_manager scan_confs :=
  {| mm_modules := [on_demand_module;
       {| mod_init_fun := None; mod_conf_table := None; mod_post_init_fun := None; mod_scan_fun := None;
          mod_close_fun := None; mod_info_fun := None; mod_supported_mime_types := Some ["*"];
          mod_name := "clamav"; mod_size := 0; mod_status := A6O_MOD_OK; mod_data_allocated := false |}] |}.

Definition sample_settings : a6o_conf :=
  {| sections := [{| s_section := "on-demand"; s_keys :=
       [{| k_key := "modules"; k_value := CvList ["clamav"; "none"] |};
        {| k_key := "mime-types"; k_value := CvString (Some "*") |};
        {| k_key := "max-size"; k_value := CvInt (-1) |};
        {| k_key := "white-list-dir"; k_value := CvList ["/proc"; "/sys"] |}] |};
       {| s_section := "clamav"; s_keys := [{| k_key := "dbdir"; k_value := CvInt 3 |}] |}] |}.

Lemma on_demand_configured_witness :
  exists w', module_manager_configure_all sample_manager sample_settings no_confs = Ok (0, w') /\
    od_conf w' =
      {| sc_name := "on-demand scan configuration"; sc_max_file_size := 2 ^ 64 - 1; sc_mime_types := ["*"];
         sc_modules := [1%nat]; sc_mime_type_cache := ∅; sc_directories_white_list := ["/proc"; "/sys"] |}.
Proof.
  match goal with |- context [od_conf _ = ?c] => replace c with
    (configured (module_manager_get_module_by_name sample_manager) "on-demand" (settings sample_settings) (od_conf no_confs))
    by (vm_compute; reflexivity) end.
  apply (on_demand_configured sample_manager sample_settings no_confs).
  - by exists 0%nat, on_demand_module.
  - intros s k v w Hs. exists w. split; [|done]. unfold module_conf_fun, module_manager_get_module_by_name.
    simpl. rewrite decide_False by done. simpl. by case_decide.
  - by repeat constructor.
Defined.
