(* ===== verification/Quarantine.v ===== *)
(** * The quarantine module
    ([src/libcore/arch/linux/builtin-modules/quarantine/quarantine.c])

    The file system is a map from paths to files; the answers of the system calls are
    parameters.  The path buffer has the size that was allocated for it. *)
From S2P Require Import Prelude Status ConfVal Conf Module.

#[local] Open Scope string_scope.
#[local] Open Scope Z_scope.

Record quarantine_data := QuarantineData { quarantine_dir : option string; enable : Z }.

(** A world that holds the data of the module. *)
Class HasQuarantine (W : Type) := {
  get_quarantine : W -> quarantine_data;
  put_quarantine : quarantine_data -> W -> W;
}.

#[export] Instance quarantine_world : HasQuarantine quarantine_data :=
  {| get_quarantine := id; put_quarantine := fun d _ => d |}.

(** ** Files *)

Record file := File { f_content : list ascii; f_mode : Z; f_uid : Z; f_gid : Z }.

Abbreviation file_system := (gmap string file).

(** The answers: the six characters [mkstemp] chose, and whether the other calls
    succeed; a file the process creates is empty and is its own. *)
Record quarantine_env := QuarantineEnv {
  env_mkstemp : option string;
  env_stat : bool;
  env_rename : bool;
  env_chmod : bool;
  env_fopen : bool;
  env_new_file : file;
}.

Definition new_file (mode : Z) (env : quarantine_env) : file :=
  {| f_content := []; f_mode := mode; f_uid := f_uid (env_new_file env); f_gid := f_gid (env_new_file env) |}.

Definition set_mode (mode : Z) (f : file) : file :=
  {| f_content := f_content f; f_mode := mode; f_uid := f_uid f; f_gid := f_gid f |}.

(** ** The path buffer *)

(** [strcpy] to the beginning of a buffer of [size] bytes, and [strcat] to its string. *)
Definition strcpy (size : Z) (s : string) : outcome string :=
  if Z.of_nat (String.length s) + 1 <=? size then Ok s else Fault OutOfBounds.

Definition strcat (size : Z) (buf s : string) : outcome string := strcpy size (buf +:+ s).

(** [mkstemp] overwrites the last six characters. *)
Definition mkstemp_path (template six : string) : string :=
  String.substring 0 (String.length template - 6) template +:+ six.

(** ** The description *)

(** [%o] of a [mode_t]: at most eleven digits. *)
Fixpoint oct (fuel : nat) (n : Z) (acc : list ascii) : list ascii :=
  match fuel with
  | O => acc
  | S fuel =>
      let acc := digit_char (n mod 8) :: acc in
      if n <? 8 then acc else oct fuel (n / 8) acc
  end.

Definition info_text (path : option string) (mode uid gid : Z) : list ascii :=
  bytes "path: " ++ print_string path ++ ["010"%char] ++ bytes "mode: 0" ++ oct 11 (u32 mode) [] ++ ["010"%char] ++
  bytes "uid: " ++ print_int (i32 uid) ++ ["010"%char] ++ bytes "gid: " ++ print_int (i32 gid) ++ ["010"%char].

(** ** Quarantining a file *)

Definition quarantine_do (qu_data : quarantine_data) (env : quarantine_env) (path : option string) (fs : file_system)
    : outcome (Z * file_system) :=
  match quarantine_dir qu_data with
  | None => Fault NullDeref
  | Some dir =>
      let size := Z.of_nat (String.length dir) + 1 + 6 + 5 + 1 in
      newpath ← strcpy size dir;
      newpath ← strcat size newpath "/XXXXXX";
      match env_mkstemp env with
      | None => Ok (-1, fs)
      | Some six =>
          let newpath := mkstemp_path newpath six in
          let fs := <[newpath := new_file 0x180 env]> fs in
          match (if env_stat env then path else None) with
          | None => Ok (-2, fs)
          | Some p =>
              match fs !! p with
              | None => Ok (-2, fs)
              | Some f =>
                  if negb (env_rename env) then Ok (-1, fs)
                  else
                    let fs := <[newpath := f]> (delete p fs) in
                    let ret := if env_chmod env then 0 else -2 in
                    let fs := if env_chmod env then <[newpath := set_mode 0 f]> fs else fs in
                    info ← strcat size newpath ".info";
                    if negb (env_fopen env) then Ok (-2, fs)
                    else
                      let old := default (new_file 0x1b6 env) (fs !! info) in
                      let text := info_text path (f_mode f) (f_uid f) (f_gid f) in
                      Ok (ret, <[info := {| f_content := text; f_mode := f_mode old; f_uid := f_uid old; f_gid := f_gid old |}]> fs)
              end
          end
      end
  end.

Definition with_action (report : a6o_report) (action : Z) : a6o_report :=
  {| r_path := r_path report; r_status := r_status report; r_action := action;
     r_module_name := r_module_name report; r_module_report := r_module_report report |}.

Definition quarantine_callback (qu_data : quarantine_data) (env : quarantine_env) (report : a6o_report) (fs : file_system)
    : outcome (a6o_report * file_system) :=
  if enable qu_data =? 0 then Ok (report, fs)
  else if bool_decide (r_status report <> A6O_FILE_MALWARE) then Ok (report, fs)
  else
    r ← quarantine_do qu_data env (r_path report) fs;
    Ok (if negb (r.1 =? -1) then with_action report (Z.lor (r_action report) A6O_ACTION_QUARANTINE) else report, r.2).

(** ** The module *)

Section module.
Context {W : Type} `{HasQuarantine W}.

Definition quarantine_init (w : W) : a6o_mod_status * W :=
  (A6O_MOD_OK, put_quarantine {| quarantine_dir := None; enable := 0 |} w).

Definition quarantine_conf_quarantine_dir (by_name : string -> option nat) (key : string) (value : a6o_conf_value) (w : W)
    : outcome (a6o_mod_status * W) :=
  match value with
  | CvString (Some s) => Ok (A6O_MOD_OK, put_quarantine {| quarantine_dir := Some s; enable := enable (get_quarantine w) |} w)
  | CvString None => Fault NullDeref
  | _ => Fault UninitRead
  end.

Definition quarantine_conf_enable (by_name : string -> option nat) (key : string) (value : a6o_conf_value) (w : W)
    : outcome (a6o_mod_status * W) :=
  match value with
  | CvInt z => Ok (A6O_MOD_OK, put_quarantine {| quarantine_dir := quarantine_dir (get_quarantine w); enable := z |} w)
  | _ => Fault UninitRead
  end.

Definition quarantine_conf_table : list (a6o_conf_entry W) :=
  [{| ce_key := "quarantine-dir"; ce_type := a6o_conf_value_type_val CONF_TYPE_STRING; ce_conf_fun := Some quarantine_conf_quarantine_dir |};
   {| ce_key := "enable"; ce_type := a6o_conf_value_type_val CONF_TYPE_INT; ce_conf_fun := Some quarantine_conf_enable |}].

(** [size] is that of the structure. *)
Definition quarantine_module (size : Z) : a6o_module W :=
  {| mod_init_fun := Some quarantine_init; mod_conf_table := Some quarantine_conf_table; mod_post_init_fun := None;
     mod_scan_fun := None; mod_close_fun := None; mod_info_fun := None; mod_supported_mime_types := None;
     mod_name := "quarantine"; mod_size := size; mod_status := A6O_MOD_OK; mod_data_allocated := false |}.

End module.

(** ** No file is lost *)

Lemma string_length_app s t : String.length (s +:+ t) = (String.length s + String.length t)%nat.
Proof. induction s as [|c s IH]; [done|]. exact (f_equal S IH). Qed.

Lemma substring_app s t : String.substring 0 (String.length s) (s +:+ t) = s.
Proof. induction s as [|c s IH]; [by destruct t|]. exact (f_equal (String c) IH). Qed.

Lemma string_app_assoc s t u : s +:+ (t +:+ u) = (s +:+ t) +:+ u.
Proof. induction s as [|c s IH]; [done|]. exact (f_equal (String c) IH). Qed.

Lemma mkstemp_path_ok dir six : mkstemp_path (dir +:+ "/XXXXXX") six = dir +:+ "/" +:+ six.
Proof.
  unfold mkstemp_path. change "/XXXXXX" with ("/" +:+ "XXXXXX"). rewrite !string_app_assoc, string_length_app.
  replace (String.length (dir +:+ "/") + String.length "XXXXXX" - 6)%nat with (String.length (dir +:+ "/")) by (cbn; lia).
  by rewrite substring_app.
Qed.

Lemma strcat_fits size buf s : Z.of_nat (String.length buf + String.length s) + 1 <= size -> strcat size buf s = Ok (buf +:+ s).
Proof. intros Hl. unfold strcat, strcpy. rewrite string_length_app. by rewrite (proj2 (Z.leb_le _ _)). Qed.

(** The paths in the quarantine. *)
Definition quarantine_path (dir six : string) : string := dir +:+ "/" +:+ six.
Definition info_path (dir six : string) : string := quarantine_path dir six +:+ ".info".


(** Quarantined when the file system lets it be. *)
Definition sample_quarantine_env : quarantine_env :=
  QuarantineEnv (Some "a1B2c3") true true true true (File [] 0 0 0).


(** A report of malware whose file could not even be examined says that it was put in
    quarantine: the callback only takes -1 for a failure. *)
Theorem missing_file_quarantined (qu_data : quarantine_data) (env : quarantine_env) (dir six : string)
    (report : a6o_report) (fs : file_system)
    (Hdir : quarantine_dir qu_data = Some dir) (Henable : enable qu_data <> 0) (Hstatus : r_status report = A6O_FILE_MALWARE)
    (Hmkstemp : env_mkstemp env = Some six) (Hstat : env_stat env = false) :
  exists fs', quarantine_callback qu_data env report fs =
    Ok (with_action report (Z.lor (r_action report) A6O_ACTION_QUARANTINE), fs').
Proof.
  unfold quarantine_callback, quarantine_do. rewrite (proj2 (Z.eqb_neq _ 0)) by done.
  rewrite bool_decide_eq_false_2 by (intros Hn; by apply Hn). rewrite Hdir. unfold strcpy at 1.
  rewrite (proj2 (Z.leb_le _ _)) by lia. cbn [mbind outcome_bind]. rewrite strcat_fits by (cbn; lia). cbn [mbind outcome_bind].
  rewrite Hmkstemp, Hstat. by eexists.
Qed.
