(* ===== verification/Event.v ===== *)
(** * Events and event sources ([src/libcore/event.c], [event.h])

    A callback is an identifier, its [data] pointer a number; firing an event
    returns the calls made, in order.  [os_strdup] is [strdup]: it dereferences its
    argument. *)
From S2P Require Import Prelude Status.

#[local] Open Scope Z_scope.

Definition EVENT_DETECTION : Z := Z.shiftl 1 0.
Definition EVENT_ON_DEMAND_START : Z := Z.shiftl 1 1.
Definition EVENT_ON_DEMAND_COMPLETED : Z := Z.shiftl 1 2.
Definition EVENT_ON_DEMAND_PROGRESS : Z := Z.shiftl 1 3.
Definition EVENT_QUARANTINE : Z := Z.shiftl 1 4.
Definition EVENT_REAL_TIME_PROT : Z := Z.shiftl 1 5.
Definition EVENT_AV_UPDATE : Z := Z.shiftl 1 6.

Inductive a6o_detection_context := CONTEXT_REAL_TIME | CONTEXT_ON_DEMAND.
Inductive a6o_quarantine_action := QUARANTINE_ENTER | QUARANTINE_EXIT.

Record a6o_detection_event := DetectionEvent {
  de_context : a6o_detection_context;
  de_scan_id : Z;
  de_path : option string;
  de_scan_status : a6o_file_status;
  de_scan_action : Z;
  de_module_name : option string;
  de_module_report : option string;
}.

Record a6o_on_demand_start_event := StartEvent {
  se_scan_id : Z;
  se_root_path : option string;
}.

Record a6o_on_demand_completed_event := CompletedEvent {
  ce_scan_id : Z;
  ce_cancelled : Z;
  ce_total_malware_count : Z;
  ce_total_suspicious_count : Z;
  ce_total_scanned_count : Z;
  ce_duration : Z;
}.

Record a6o_on_demand_progress_event := ProgressEvent {
  pe_scan_id : Z;
  pe_progress : Z;
  pe_path : option string;
  pe_malware_count : Z;
  pe_suspicious_count : Z;
  pe_scanned_count : Z;
}.

Record a6o_quarantine_event := QuarantineEvent {
  qe_quarantine_action : a6o_quarantine_action;
  qe_orig_path : option string;
  qe_quarantine_path : option string;
}.

Inductive a6o_event_union :=
  | ev_detection (e : a6o_detection_event)
  | ev_on_demand_start (e : a6o_on_demand_start_event)
  | ev_on_demand_completed (e : a6o_on_demand_completed_event)
  | ev_on_demand_progress (e : a6o_on_demand_progress_event)
  | ev_quarantine (e : a6o_quarantine_event)
  | ev_real_time_prot (rt_prot_new_state : Z)
  | ev_av_update.

Record a6o_event := Event { ev_timestamp : Z; ev_u : a6o_event_union }.

(** The [type] tag of an event is that of its payload. *)
Definition ev_type (e : a6o_event) : Z :=
  match ev_u e with
  | ev_detection _ => EVENT_DETECTION
  | ev_on_demand_start _ => EVENT_ON_DEMAND_START
  | ev_on_demand_completed _ => EVENT_ON_DEMAND_COMPLETED
  | ev_on_demand_progress _ => EVENT_ON_DEMAND_PROGRESS
  | ev_quarantine _ => EVENT_QUARANTINE
  | ev_real_time_prot _ => EVENT_REAL_TIME_PROT
  | ev_av_update => EVENT_AV_UPDATE
  end.

Definition os_strdup (s : option string) : outcome (option string) :=
  match s with None => Fault NullDeref | Some s => Ok (Some s) end.

Definition detection_event_clone (src : a6o_detection_event) : outcome a6o_detection_event :=
  path ← os_strdup (de_path src);
  name ← os_strdup (de_module_name src);
  report ← os_strdup (de_module_report src);
  Ok {| de_context := de_context src; de_scan_id := de_scan_id src; de_path := path;
        de_scan_status := de_scan_status src; de_scan_action := de_scan_action src;
        de_module_name := name; de_module_report := report |}.

Definition on_demand_start_event_clone (src : a6o_on_demand_start_event) : outcome a6o_on_demand_start_event :=
  root ← os_strdup (se_root_path src);
  Ok {| se_scan_id := se_scan_id src; se_root_path := root |}.

Definition on_demand_completed_event_clone (src : a6o_on_demand_completed_event)
    : outcome a6o_on_demand_completed_event :=
  Ok {| ce_scan_id := ce_scan_id src; ce_cancelled := ce_cancelled src;
        ce_total_malware_count := ce_total_malware_count src;
        ce_total_suspicious_count := ce_total_suspicious_count src;
        ce_total_scanned_count := ce_total_scanned_count src; ce_duration := ce_duration src |}.

Definition on_demand_progress_event_clone (src : a6o_on_demand_progress_event)
    : outcome a6o_on_demand_progress_event :=
  path ← os_strdup (pe_path src);
  Ok {| pe_scan_id := pe_scan_id src; pe_progress := pe_progress src; pe_path := path;
        pe_malware_count := pe_malware_count src; pe_suspicious_count := pe_suspicious_count src;
        pe_scanned_count := pe_scanned_count src |}.

Definition quarantine_event_clone (src : a6o_quarantine_event) : outcome a6o_quarantine_event :=
  orig ← os_strdup (qe_orig_path src);
  dest ← os_strdup (qe_quarantine_path src);
  Ok {| qe_quarantine_action := qe_quarantine_action src; qe_orig_path := orig;
        qe_quarantine_path := dest |}.

Definition a6o_event_new (ev : a6o_event_union) (now : Z) : outcome a6o_event :=
  u ← match ev with
      | ev_detection e => ev_detection <$> detection_event_clone e
      | ev_on_demand_start e => ev_on_demand_start <$> on_demand_start_event_clone e
      | ev_on_demand_completed e => ev_on_demand_completed <$> on_demand_completed_event_clone e
      | ev_on_demand_progress e => ev_on_demand_progress <$> on_demand_progress_event_clone e
      | ev_quarantine e => ev_quarantine <$> quarantine_event_clone e
      | ev_real_time_prot s => Ok (ev_real_time_prot s)
      | ev_av_update => Ok ev_av_update
      end;
  Ok {| ev_timestamp := now; ev_u := u |}.

(** [a6o_event_free]: the strings it frees. *)
Definition a6o_event_free (e : a6o_event) : list string :=
  match ev_u e with
  | ev_detection e => option_list (de_path e) ++ option_list (de_module_name e) ++ option_list (de_module_report e)
  | ev_on_demand_start e => option_list (se_root_path e)
  | ev_on_demand_progress e => option_list (pe_path e)
  | ev_quarantine e => option_list (qe_orig_path e) ++ option_list (qe_quarantine_path e)
  | _ => []
  end.

(** ** Event sources *)

Record callback_entry := CallbackEntry { cb_mask : Z; cb_fun : nat; cb_data : Z }.

#[export] Instance callback_entry_eq_dec : EqDecision callback_entry.
Proof. solve_decision. Defined.

(** The linked list of callbacks, head first. *)
Record a6o_event_source := EventSource { callbacks : list callback_entry }.

Definition a6o_event_source_new : a6o_event_source := {| callbacks := [] |}.

Definition a6o_event_source_add_cb (s : a6o_event_source) (ev_mask : Z) (cb : nat) (data : Z)
    : a6o_event_source :=
  {| callbacks := {| cb_mask := ev_mask; cb_fun := cb; cb_data := data |} :: callbacks s |}.

(** The [while ( *p != NULL)] loop: a matching entry is unlinked and the loop looks at
    the entry that took its place, otherwise it advances. *)
Fixpoint remove_loop (l : list callback_entry) (ev_mask : Z) (cb : nat) (data : Z) : list callback_entry :=
  match l with
  | [] => []
  | e :: next =>
      if bool_decide (cb_mask e = ev_mask /\ cb_fun e = cb /\ cb_data e = data)
      then remove_loop next ev_mask cb data
      else e :: remove_loop next ev_mask cb data
  end.

Definition a6o_event_source_remove_cb (s : a6o_event_source) (ev_mask : Z) (cb : nat) (data : Z)
    : a6o_event_source :=
  {| callbacks := remove_loop (callbacks s) ev_mask cb data |}.

(** The calls of [a6o_event_source_fire_event], in order. *)
Definition a6o_event_source_fire_event (s : a6o_event_source) (ev : a6o_event) : list (nat * Z) :=
  flat_map (fun p => if Z.land (cb_mask p) (ev_type ev) =? 0 then [] else [(cb_fun p, cb_data p)])
    (callbacks s).

(** ** Histories of registrations *)

Inductive source_op := AddCb (e : callback_entry) | RemoveCb (e : callback_entry).

Definition source_step (s : a6o_event_source) (op : source_op) : a6o_event_source :=
  match op with
  | AddCb e => a6o_event_source_add_cb s (cb_mask e) (cb_fun e) (cb_data e)
  | RemoveCb e => a6o_event_source_remove_cb s (cb_mask e) (cb_fun e) (cb_data e)
  end.

(** How many registrations of [e] are alive after a history: those since its last
    removal. *)
Definition live_step (e : callback_entry) (n : nat) (op : source_op) : nat :=
  match op with
  | AddCb e' => if decide (e' = e) then S n else n
  | RemoveCb e' => if decide (e' = e) then 0%nat else n
  end.

Definition count_entry_in (e : callback_entry) (l : list callback_entry) : nat :=
  length (filter (fun e' => e' = e) l).

Lemma remove_loop_count l e e' :
  count_entry_in e (remove_loop l (cb_mask e') (cb_fun e') (cb_data e')) =
    if decide (e' = e) then 0%nat else count_entry_in e l.
Proof.
  unfold count_entry_in. induction l as [|x l IH]; simpl; [by case_decide|].
  rewrite filter_cons. case_bool_decide as Hx.
  - assert (x = e') as -> by (destruct x, e'; simpl in Hx; destruct Hx as (-> & -> & ->); done).
    rewrite IH. by repeat case_decide.
  - assert (x <> e') by (intros ->; by apply Hx).
    rewrite filter_cons. destruct (decide (x = e)) as [->|]; simpl; rewrite IH; [|done].
    by case_decide.
Qed.

Lemma source_count ops s e :
  count_entry_in e (callbacks (fold_left source_step ops s)) =
    fold_left (live_step e) ops (count_entry_in e (callbacks s)).
Proof.
  revert s. induction ops as [|op ops IH]; intros s; simpl; [done|]. rewrite IH. f_equal.
  destruct op as [e'|e']; simpl.
  - unfold count_entry_in. rewrite filter_cons. destruct e' as [m f d]. simpl. by case_decide.
  - apply remove_loop_count.
Qed.

(** After any history of registrations and removals, firing an event calls each
    callback registered with a mask that includes the event's type once per
    registration made since that triple (mask, callback, data) was last removed, and
    calls nothing else. *)
Theorem fire_event_calls (ops : list source_op) (ev : a6o_event) (cb : nat) (data : Z) :
  let s := fold_left source_step ops a6o_event_source_new in
  (forall m, Z.land m (ev_type ev) <> 0 ->
     count_entry_in (CallbackEntry m cb data) (callbacks s) =
       fold_left (live_step (CallbackEntry m cb data)) ops 0%nat) /\
  length (filter (fun c => c = (cb, data)) (a6o_event_source_fire_event s ev)) =
    length (filter (fun e => Z.land (cb_mask e) (ev_type ev) <> 0 /\ cb_fun e = cb /\ cb_data e = data)
      (callbacks s)).
Proof.
  intros s. split; [intros m _; apply source_count|]. clearbody s. unfold a6o_event_source_fire_event.
  induction (callbacks s) as [|e l IH]; [done|]. cbn [flat_map].
  rewrite list.filter_app, length_app, IH, filter_cons.
  destruct (Z.eqb_spec (Z.land (cb_mask e) (ev_type ev)) 0) as [E|E]; simpl.
  - rewrite decide_False by (by intros []). done.
  - rewrite filter_cons. destruct (decide ((cb_fun e, cb_data e) = (cb, data))) as [Heq|Hne].
    + injection Heq as <- <-. by rewrite decide_True.
    + rewrite decide_False; [done|]. intros (_ & <- & <-). by apply Hne.
Qed.
