(* ===== verification/EventHeap.v ===== *)
(** * Events and their callbacks on the heap ([src/libcore/event.c])

    The events with the strings they own; the linked list of [struct callback_entry], with
    the pointer to a pointer that [a6o_event_source_remove_cb] walks with.  Event.v has the
    same functions on values; here they are proved to be those, and to free what they copy
    and what they unlink. *)
From S2P Require Import Prelude Status Event Heap.
From iris.proofmode Require Import proofmode.

(** The union of [struct a6o_event]. *)
Inductive event_block : Set :=
  | BDetection (context : a6o_detection_context) (scan_id : Z) (path : ptr) (scan_status : a6o_file_status)
      (scan_action : Z) (module_name module_report : ptr)
  | BStart (scan_id : Z) (root_path : ptr)
  | BCompleted (e : a6o_on_demand_completed_event)
  | BProgress (scan_id progress : Z) (path : ptr) (malware suspicious scanned : Z)
  | BQuarantine (quarantine_action : a6o_quarantine_action) (orig_path quarantine_path : ptr)
  | BRealTimeProt (rt_prot_new_state : Z)
  | BAvUpdate.

Inductive eblock : Set :=
  | BText (s : string)
  | BEvent (timestamp : Z) (u : event_block)     (** [struct a6o_event] *)
  | BEntry (e : callback_entry) (next : ptr)     (** [struct callback_entry] *)
  | BSource (callbacks : ptr)                    (** [struct a6o_event_source] *)
  | BCalls (l : list (nat * Z)).                 (** the calls that a callback noted *)

(** ** Operations *)

Section operations.
Context `{Allocator}.

(** *** Events *)

Definition get_text (p : ptr) : cmd eblock string :=
  a ← deref_ptr p; b ← load a; match b with BText s => mret s | _ => fault_cmd UninitRead end.

Definition os_strdup (p : ptr) : cmd eblock ptr := s ← get_text p; a ← malloc (BText s); mret (Some a).

Definition event_clone (src : event_block) : cmd eblock event_block :=
  match src with
  | BDetection context scan_id path scan_status scan_action module_name module_report =>
      path ← os_strdup path;
      module_name ← os_strdup module_name;
      module_report ← os_strdup module_report;
      mret (BDetection context scan_id path scan_status scan_action module_name module_report)
  | BStart scan_id root_path => root_path ← os_strdup root_path; mret (BStart scan_id root_path)
  | BProgress scan_id progress path malware suspicious scanned =>
      path ← os_strdup path; mret (BProgress scan_id progress path malware suspicious scanned)
  | BQuarantine action orig_path quarantine_path =>
      orig_path ← os_strdup orig_path;
      quarantine_path ← os_strdup quarantine_path;
      mret (BQuarantine action orig_path quarantine_path)
  | BCompleted _ | BRealTimeProt _ | BAvUpdate => mret src
  end.

(** The fields of the event are written one by one; it is read when all are. *)
Definition a6o_event_new (src : event_block) (now : Z) : cmd eblock addr :=
  e ← malloc (BEvent now BAvUpdate);
  u ← event_clone src;
  store e (BEvent now u);; mret e.

Definition free_strings (u : event_block) : cmd eblock unit :=
  match u with
  | BDetection _ _ path _ _ module_name module_report => free path;; free module_name;; free module_report
  | BStart _ root_path => free root_path
  | BProgress _ _ path _ _ _ => free path
  | BQuarantine _ orig_path quarantine_path => free orig_path;; free quarantine_path
  | BCompleted _ | BRealTimeProt _ | BAvUpdate => mret tt
  end.

Definition get_event (e : addr) : cmd eblock event_block :=
  b ← load e; match b with BEvent _ u => mret u | _ => fault_cmd UninitRead end.

Definition a6o_event_free (e : addr) : cmd eblock unit := u ← get_event e; free_strings u;; free (Some e).

(** The tag that is stored with the union. *)
Definition block_type (u : event_block) : Z :=
  match u with
  | BDetection _ _ _ _ _ _ _ => EVENT_DETECTION
  | BStart _ _ => EVENT_ON_DEMAND_START
  | BCompleted _ => EVENT_ON_DEMAND_COMPLETED
  | BProgress _ _ _ _ _ _ => EVENT_ON_DEMAND_PROGRESS
  | BQuarantine _ _ _ => EVENT_QUARANTINE
  | BRealTimeProt _ => EVENT_REAL_TIME_PROT
  | BAvUpdate => EVENT_AV_UPDATE
  end.

(** *** Callbacks *)

Definition get_entry (p : addr) : cmd eblock (callback_entry * ptr) :=
  b ← load p; match b with BEntry e next => mret (e, next) | _ => fault_cmd UninitRead end.

Definition get_source (s : addr) : cmd eblock ptr :=
  b ← load s; match b with BSource callbacks => mret callbacks | _ => fault_cmd UninitRead end.

Definition a6o_event_source_new : cmd eblock addr := malloc (BSource None).

(** The list has no bound known beforehand: [fuel] is a number of entries that it is
    proved not to exceed. *)
Fixpoint free_entries (fuel : nat) (p : ptr) : cmd eblock unit :=
  match p with
  | None => mret tt
  | Some a =>
      match fuel with
      | O => fault_cmd Diverges
      | S fuel => e ← get_entry a; free (Some a);; free_entries fuel e.2
      end
  end.

Definition a6o_event_source_free (fuel : nat) (s : addr) : cmd eblock unit :=
  callbacks ← get_source s; free_entries fuel callbacks;; free (Some s).

Definition a6o_event_source_add_cb (s : addr) (ev_mask : Z) (cb : nat) (data : Z) : cmd eblock unit :=
  callbacks ← get_source s;
  p ← malloc (BEntry (CallbackEntry ev_mask cb data) callbacks);
  store s (BSource (Some p)).

(** A pointer to a pointer: the field of the source, or the [next] of an entry. *)
Inductive link := LSource (s : addr) | LNext (p : addr).

Definition read_link (l : link) : cmd eblock ptr :=
  match l with LSource s => get_source s | LNext p => e ← get_entry p; mret e.2 end.

Definition write_link (l : link) (next : ptr) : cmd eblock unit :=
  match l with
  | LSource s => store s (BSource next)
  | LNext p => e ← get_entry p; store p (BEntry e.1 next)
  end.

Fixpoint remove_loop (fuel : nat) (p : link) (ev_mask : Z) (cb : nat) (data : Z) : cmd eblock unit :=
  q ← read_link p;
  match q with
  | None => mret tt
  | Some a =>
      match fuel with
      | O => fault_cmd Diverges
      | S fuel =>
          e ← get_entry a;
          if bool_decide (cb_mask e.1 = ev_mask /\ cb_fun e.1 = cb /\ cb_data e.1 = data) then
            free (Some a);;
            write_link p e.2;;
            remove_loop fuel p ev_mask cb data
          else remove_loop fuel (LNext a) ev_mask cb data
      end
  end.

Definition a6o_event_source_remove_cb (fuel : nat) (s : addr) (ev_mask : Z) (cb : nat) (data : Z)
    : cmd eblock unit :=
  remove_loop fuel (LSource s) ev_mask cb data.

(** [call] is the callback, which may do anything to the heap.  The next entry is read
    after it. *)
Fixpoint fire_loop (fuel : nat) (call : nat -> Z -> cmd eblock unit) (p : ptr) (type : Z) : cmd eblock unit :=
  match p with
  | None => mret tt
  | Some a =>
      match fuel with
      | O => fault_cmd Diverges
      | S fuel =>
          e ← get_entry a;
          (if (Z.land (cb_mask e.1) type =? 0)%Z then mret tt else call (cb_fun e.1) (cb_data e.1));;
          e ← get_entry a;
          fire_loop fuel call e.2 type
      end
  end.

Definition a6o_event_source_fire_event (fuel : nat) (call : nat -> Z -> cmd eblock unit) (s : addr)
    (type : Z) : cmd eblock unit :=
  callbacks ← get_source s; fire_loop fuel call callbacks type.

End operations.

(** ** The strings of an event *)

Definition text_at (p : ptr) (s : option string) : hprop eblock :=
  match p, s with None, None => emp | Some a, Some s => a ↦ BText s | _, _ => False end.

Definition union_at (b : event_block) (u : a6o_event_union) : hprop eblock :=
  match b, u with
  | BDetection context scan_id path status action name report, ev_detection e =>
      ⟨(context, scan_id, status, action) = (de_context e, de_scan_id e, de_scan_status e, de_scan_action e)⟩ ∗
      text_at path (de_path e) ∗ text_at name (de_module_name e) ∗ text_at report (de_module_report e)
  | BStart scan_id path, ev_on_demand_start e => ⟨scan_id = se_scan_id e⟩ ∗ text_at path (se_root_path e)
  | BCompleted e, ev_on_demand_completed e' => ⟨e = e'⟩
  | BProgress scan_id progress path malware suspicious scanned, ev_on_demand_progress e =>
      ⟨(scan_id, progress, malware, suspicious, scanned) =
       (pe_scan_id e, pe_progress e, pe_malware_count e, pe_suspicious_count e, pe_scanned_count e)⟩ ∗
      text_at path (pe_path e)
  | BQuarantine action orig dest, ev_quarantine e =>
      ⟨action = qe_quarantine_action e⟩ ∗ text_at orig (qe_orig_path e) ∗ text_at dest (qe_quarantine_path e)
  | BRealTimeProt z, ev_real_time_prot z' => ⟨z = z'⟩
  | BAvUpdate, ev_av_update => emp
  | _, _ => False
  end.

Definition event_at (e : addr) (ev : a6o_event) : hprop eblock :=
  ∃ u, e ↦ BEvent (ev_timestamp ev) u ∗ union_at u (ev_u ev).

(** ** The list behind a pointer *)

Fixpoint entries_at (p : ptr) (l : list callback_entry) : hprop eblock :=
  match l with
  | [] => ⟨p = None⟩
  | e :: l => ∃ a next, ⟨p = Some a⟩ ∗ a ↦ BEntry e next ∗ entries_at next l
  end.

Definition source_at (s : addr) (src : a6o_event_source) : hprop eblock :=
  ∃ p, s ↦ BSource p ∗ entries_at p (callbacks src).

(** The place that a link designates, and the pointer in it; [e0] is the rest of the entry
    the place belongs to. *)
Definition link_at (l : link) (e0 : callback_entry) (q : ptr) : hprop eblock :=
  match l with
  | LSource s => s ↦ BSource q
  | LNext a => a ↦ BEntry e0 q
  end.

Section spec.
Context `{Allocator}.

Lemma os_strdup_spec p s :
  text_at p (Some s) ⊢ wp (os_strdup p) (fun q => text_at p (Some s) ∗ text_at q (Some s)).
Proof.
  destruct p as [a|]; [|by iIntros "[]"]. iIntros "H".
  wp_front. wp_pure. wp_read "H". wp_pure. wp_let c as "Hc". wp_pure. iFrame.
Qed.

Lemma event_clone_spec b u now ev : Event.a6o_event_new u now = Ok ev ->
  union_at b u ⊢ wp (event_clone b) (fun c => union_at b u ∗ union_at c u).
Proof.
  intros Hu. destruct b, u as [[ctx id [s|] st act [n|] [rep|]]|[id [s|]]|e'|[id pr [s|] m su sc]|[act [o|] [d|]]|z|];
    try discriminate Hu; try by iIntros "[]"; simpl.
  - iIntros "(%E & Hp & Hn & Hr)". wp_use os_strdup_spec with "Hp" as (p) "[Hp Hp']".
    wp_use os_strdup_spec with "Hn" as (q) "[Hn Hn']". wp_use os_strdup_spec with "Hr" as (w) "[Hr Hr']".
    wp_pure. iFrame. by iSplit.
  - iIntros "(%E & Hp)". wp_use os_strdup_spec with "Hp" as (p) "[Hp Hp']". wp_pure. iFrame. by iSplit.
  - iIntros "->". wp_pure. by iSplit.
  - iIntros "(%E & Hp)". wp_use os_strdup_spec with "Hp" as (p) "[Hp Hp']". wp_pure. iFrame. by iSplit.
  - iIntros "(%E & Ho & Hd)". wp_use os_strdup_spec with "Ho" as (p) "[Ho Ho']".
    wp_use os_strdup_spec with "Hd" as (q) "[Hd Hd']". wp_pure. iFrame. by iSplit.
  - iIntros "->". wp_pure. by iSplit.
  - iIntros "_". wp_pure. by iSplitL.
Qed.

Lemma event_new_value u now ev : Event.a6o_event_new u now = Ok ev -> ev = Event now u.
Proof.
  destruct u as [[ctx id [s|] st act [n|] [rep|]]|[id [s|]]|[]|[id pr [s|] m su sc]|[act [o|] [d|]]|z|];
    intros [=]; by subst.
Qed.

Lemma event_new_spec b u now ev : Event.a6o_event_new u now = Ok ev ->
  union_at b u ⊢ wp (a6o_event_new b now) (fun e => union_at b u ∗ event_at e ev).
Proof.
  iIntros (Hu) "H". wp_let e as "He". wp_use (event_clone_spec b u now ev Hu) with "H" as (c) "[Hb Hc]".
  wp_write "He". wp_pure. iFrame "Hb". iExists c.
  rw (event_new_value u now ev Hu). iFrame.
Qed.

Lemma free_text_spec p s : text_at p s ⊢ wp (free p) (fun _ => emp).
Proof.
  destruct p as [a|], s as [s|]; try by iIntros "[]".
  - iIntros "H". by wp_del "H".
  - iIntros "_". by iApply wp_free_null.
Qed.

Lemma free_strings_spec b u : union_at b u ⊢ wp (free_strings b) (fun _ => emp).
Proof.
  destruct b, u; try by iIntros "[]".
  - iIntros "(_ & Hp & Hn & Hr)". wp_use free_text_spec with "Hp" as (_) "_".
    wp_use free_text_spec with "Hn" as (_) "_". by iApply free_text_spec.
  - iIntros "[_ Hp]". by iApply free_text_spec.
  - iIntros "_". by wp_pure.
  - iIntros "[_ Hp]". by iApply free_text_spec.
  - iIntros "(_ & Ho & Hd)". wp_use free_text_spec with "Ho" as (_) "_". by iApply free_text_spec.
  - iIntros "_". by wp_pure.
  - iIntros "_". by wp_pure.
Qed.

Lemma event_free_spec e ev : event_at e ev ⊢ wp (a6o_event_free e) (fun _ => emp).
Proof.
  iIntros "(%u & He & Hu)". wp_front. wp_read "He". wp_pure.
  wp_use free_strings_spec with "Hu" as (_) "_". by wp_del "He".
Qed.

Lemma block_type_spec b u : union_at b u ⊢ ⌜block_type b = ev_type (Event 0 u)⌝.
Proof. destruct b, u; try (by iIntros "[]"); by iIntros "_". Qed.

Lemma get_entry_spec a e next :
  a ↦ BEntry e next ⊢ wp (get_entry a) (fun r => ⟨r = (e, next)⟩ ∗ a ↦ BEntry e next).
Proof. iIntros "H". wp_read "H". wp_pure. by iFrame. Qed.

Lemma get_source_spec s q : s ↦ BSource q ⊢ wp (get_source s) (fun r => ⟨r = q⟩ ∗ s ↦ BSource q).
Proof. iIntros "H". wp_read "H". wp_pure. by iFrame. Qed.

Lemma free_entries_spec fuel p l :
  (length l <= fuel)%nat -> entries_at p l ⊢ wp (free_entries fuel p) (fun _ => emp).
Proof.
  revert p l. induction fuel as [|fuel IH]; intros p l Hl; destruct l as [|e l]; simpl in Hl; try lia; simpl.
  - iIntros "->". by wp_pure.
  - iIntros "->". by wp_pure.
  - iIntros "(%a & %next & -> & Ha & Hl)". wp_use get_entry_spec with "Ha" as (r) "[-> Ha]".
    wp_del "Ha". iApply (IH next l); [lia|done].
Qed.

Lemma source_new_spec : ⊢ wp a6o_event_source_new (fun s => source_at s Event.a6o_event_source_new).
Proof. iApply wp_malloc. iIntros (s) "Hs". iExists None. by iFrame. Qed.

Lemma source_free_spec fuel s src :
  (length (callbacks src) <= fuel)%nat ->
  source_at s src ⊢ wp (a6o_event_source_free fuel s) (fun _ => emp).
Proof.
  iIntros (Hl) "[%p [Hs Hl]]". wp_use get_source_spec with "Hs" as (r) "[-> Hs]".
  wp_use (free_entries_spec fuel p (callbacks src) Hl) with "Hl" as (u) "_". by wp_del "Hs".
Qed.

Lemma add_cb_spec s src m cb d :
  source_at s src ⊢
  wp (a6o_event_source_add_cb s m cb d) (fun _ => source_at s (Event.a6o_event_source_add_cb src m cb d)).
Proof.
  iIntros "[%p [Hs Hl]]". wp_use get_source_spec with "Hs" as (r) "[-> Hs]".
  wp_let a as "Ha". wp_write "Hs". iExists (Some a). iFrame "Hs". iExists a, p. by iFrame.
Qed.

Lemma read_link_spec l e0 q : link_at l e0 q ⊢ wp (read_link l) (fun r => ⟨r = q⟩ ∗ link_at l e0 q).
Proof.
  destruct l as [s|a]; simpl; [apply get_source_spec|].
  iIntros "H". wp_use get_entry_spec with "H" as (r) "[-> H]". wp_pure. by iFrame.
Qed.

Lemma write_link_spec l e0 q q' : link_at l e0 q ⊢ wp (write_link l q') (fun _ => link_at l e0 q').
Proof.
  destruct l as [s|a]; simpl; iIntros "H"; [by wp_write "H"; iFrame|].
  wp_use get_entry_spec with "H" as (r) "[-> H]". wp_write "H". iFrame.
Qed.

(** The walk of [a6o_event_source_remove_cb], from any link of the list. *)
Lemma remove_loop_spec fuel lk e0 q l m cb d :
  (length l <= fuel)%nat ->
  link_at lk e0 q ∗ entries_at q l ⊢
  wp (remove_loop fuel lk m cb d) (fun _ => ∃ q', link_at lk e0 q' ∗ entries_at q' (Event.remove_loop l m cb d)).
Proof.
  revert lk e0 q l. induction fuel as [|fuel IH]; intros lk e0 q l Hl; destruct l as [|e l]; simpl in Hl; try lia; simpl.
  - iIntros "[Hlk ->]". wp_use read_link_spec with "Hlk" as (r) "[-> Hlk]". wp_pure. iExists None. by iFrame.
  - iIntros "[Hlk ->]". wp_use read_link_spec with "Hlk" as (r) "[-> Hlk]". wp_pure. iExists None. by iFrame.
  - iIntros "[Hlk (%a & %next & -> & Ha & Hl)]". wp_use read_link_spec with "Hlk" as (r) "[-> Hlk]".
    wp_use get_entry_spec with "Ha" as (r) "[-> Ha]". case_bool_decide as Hm; simpl.
    + wp_del "Ha". wp_use (write_link_spec lk e0 (Some a) next) with "Hlk" as (u) "Hlk".
      iApply (IH lk e0 next l); [lia|]. iFrame.
    + iApply wp_wand. iSplitL "Ha Hl"; [iApply (IH (LNext a) e next l); [lia|]; iFrame|].
      iIntros (u) "[%q' [Ha Hl]]". iExists (Some a). iFrame "Hlk". iExists a, q'. by iFrame.
Qed.

Lemma remove_cb_spec fuel s src m cb d :
  (length (callbacks src) <= fuel)%nat ->
  source_at s src ⊢
  wp (a6o_event_source_remove_cb fuel s m cb d) (fun _ =>
    source_at s (Event.a6o_event_source_remove_cb src m cb d)).
Proof. iIntros (Hl) "[%q H]". by iApply (remove_loop_spec fuel (LSource s) (CallbackEntry 0 0 0) q). Qed.

(** Callbacks that leave the source alone are called in the order of Event.v; [W t] is what
    they own after the calls [t]. *)
Lemma fire_loop_spec fuel call (W : list (nat * Z) -> hprop eblock) p l ev t :
  (length l <= fuel)%nat ->
  (forall c d t, W t ⊢ wp (call c d) (fun _ => W (t ++ [(c, d)]))) ->
  entries_at p l ∗ W t ⊢
  wp (fire_loop fuel call p (ev_type ev)) (fun _ =>
    entries_at p l ∗ W (t ++ Event.a6o_event_source_fire_event (EventSource l) ev)).
Proof.
  intros Hl Hcall. revert p l t Hl.
  induction fuel as [|fuel IH]; intros p l t Hl; destruct l as [|e l]; simpl in Hl; try lia; simpl.
  - iIntros "[-> HW]". wp_pure. rw app_nil_r. by iFrame.
  - iIntros "[-> HW]". wp_pure. rw app_nil_r. by iFrame.
  - iIntros "[(%a & %next & -> & Ha & Hl) HW]". wp_use get_entry_spec with "Ha" as (r) "[-> Ha]".
    unfold Event.a6o_event_source_fire_event. simpl. rw app_assoc. wp_front.
    iApply (wp_wand _ (fun _ => W (t ++ (if (Z.land (cb_mask e) (ev_type ev) =? 0)%Z then [] else [(cb_fun e, cb_data e)])))).
    iSplitL "HW".
    { destruct (_ =? 0)%Z; [rw app_nil_r; by wp_pure|by iApply Hcall]. }
    iIntros (u) "HW". wp_use get_entry_spec with "Ha" as (r) "[-> Ha]".
    iApply wp_wand. iSplitL "Hl HW"; [iApply (IH next l); [lia|]; iFrame|].
    iIntros (u') "[Hl HW]". iFrame "HW". iExists a, next. by iFrame.
Qed.

End spec.

(** ** Histories *)

Section history.
Context `{Allocator}.

Definition source_op_h (fuel : nat) (s : addr) (op : source_op) : cmd eblock unit :=
  match op with
  | AddCb e => a6o_event_source_add_cb s (cb_mask e) (cb_fun e) (cb_data e)
  | RemoveCb e => a6o_event_source_remove_cb fuel s (cb_mask e) (cb_fun e) (cb_data e)
  end.

(** A callback that notes its calls. *)
Definition note (calls : addr) (cb : nat) (data : Z) : cmd eblock unit :=
  b ← load calls;
  match b with BCalls l => store calls (BCalls (l ++ [(cb, data)])) | _ => fault_cmd UninitRead end.

(** The strings of the caller. *)
Definition make_text (s : option string) : cmd eblock ptr :=
  match s with None => mret None | Some s => a ← malloc (BText s); mret (Some a) end.

Definition make_union (u : a6o_event_union) : cmd eblock event_block :=
  match u with
  | ev_detection e =>
      path ← make_text (de_path e); name ← make_text (de_module_name e); report ← make_text (de_module_report e);
      mret (BDetection (de_context e) (de_scan_id e) path (de_scan_status e) (de_scan_action e) name report)
  | ev_on_demand_start e => path ← make_text (se_root_path e); mret (BStart (se_scan_id e) path)
  | ev_on_demand_completed e => mret (BCompleted e)
  | ev_on_demand_progress e =>
      path ← make_text (pe_path e);
      mret (BProgress (pe_scan_id e) (pe_progress e) path (pe_malware_count e) (pe_suspicious_count e) (pe_scanned_count e))
  | ev_quarantine e =>
      orig ← make_text (qe_orig_path e); dest ← make_text (qe_quarantine_path e);
      mret (BQuarantine (qe_quarantine_action e) orig dest)
  | ev_real_time_prot z => mret (BRealTimeProt z)
  | ev_av_update => mret BAvUpdate
  end.

(** An event is made of the strings of the caller, fired and freed; the caller frees its own. *)
Definition fire_new_event (fuel : nat) (calls s : addr) (now : Z) (u : a6o_event_union) : cmd eblock unit :=
  src ← make_union u;
  e ← a6o_event_new src now;
  u ← get_event e;
  a6o_event_source_fire_event fuel (note calls) s (block_type u);;
  a6o_event_free e;;
  free_strings src.

(** Registrations and removals, events fired, and the source freed. *)
Definition source_session (ops : list source_op) (events : list a6o_event_union) (now : Z) : cmd eblock addr :=
  let fuel := length ops in
  calls ← malloc (BCalls []);
  s ← a6o_event_source_new;
  for_each (source_op_h fuel s) ops;;
  for_each (fire_new_event fuel calls s now) events;;
  a6o_event_source_free fuel s;;
  mret calls.

Lemma callbacks_bound ops s :
  (length (callbacks (fold_left source_step ops s)) <= length (callbacks s) + length ops)%nat.
Proof.
  revert s. induction ops as [|op ops IH]; intros s; simpl; [lia|]. specialize (IH (source_step s op)).
  enough (length (callbacks (source_step s op)) <= S (length (callbacks s)))%nat by lia.
  destruct op as [e|e]; simpl; [lia|].
  assert (forall l m cb d, length (Event.remove_loop l m cb d) <= length l)%nat as Hr; [|by apply le_S].
  intros l m cb d. induction l as [|x l IHl]; simpl; [lia|]. case_bool_decide; simpl; lia.
Qed.

Lemma source_ops_spec fuel ops s src :
  (length (callbacks src) + length ops <= fuel)%nat ->
  source_at s src ⊢ wp (for_each (source_op_h fuel s) ops) (fun _ => source_at s (fold_left source_step ops src)).
Proof.
  revert src. induction ops as [|op ops IH]; intros src Hl; simpl.
  - iIntros "H". by wp_pure.
  - iIntros "H". wp_front. iApply (wp_wand _ (fun _ => source_at s (source_step src op))). iSplitL "H".
    + destruct op as [e|e]; simpl in *; [by iApply add_cb_spec|]. iApply remove_cb_spec; [lia|done].
    + iIntros (u) "H". iApply IH; [|done]. pose proof (callbacks_bound [op] src). simpl in *. lia.
Qed.

Lemma make_text_spec s : ⊢ wp (make_text s) (fun p => text_at p s).
Proof. destruct s as [s|]; simpl; [wp_let a as "Ha"|]; by wp_pure. Qed.

Tactic Notation "wp_text" ident(p) "as" constr(H) :=
  wp_front; iApply wp_wand; iSplitR; [iApply make_text_spec|]; iIntros (p) H; simpl.

Lemma make_union_spec u : ⊢ wp (make_union u) (fun b => union_at b u).
Proof.
  destruct u as [e|e|e|e|e|z|]; simpl; try by wp_pure.
  - wp_text p as "Hp". wp_text n as "Hn". wp_text r as "Hr". wp_pure. by iFrame.
  - wp_text p as "Hp". wp_pure. by iFrame.
  - wp_text p as "Hp". wp_pure. by iFrame.
  - wp_text o as "Ho". wp_text d as "Hd". wp_pure. by iFrame.
Qed.

Lemma fire_event_spec fuel calls s src ev t :
  (length (callbacks src) <= fuel)%nat ->
  source_at s src ∗ calls ↦ BCalls t ⊢
  wp (a6o_event_source_fire_event fuel (note calls) s (ev_type ev)) (fun _ =>
    source_at s src ∗ calls ↦ BCalls (t ++ Event.a6o_event_source_fire_event src ev)).
Proof.
  iIntros (Hl) "[(%p & Hs & Hl) Hc]". wp_use get_source_spec with "Hs" as (r) "[-> Hs]".
  iCombine "Hl Hc" as "H". iApply wp_wand. iSplitL "H".
  - iApply (fire_loop_spec fuel (note calls) (fun t => calls ↦ BCalls t)%I p (callbacks src) ev t); [done| |done].
    intros c d t'. iIntros "H". wp_read "H". wp_write "H". iFrame.
  - iIntros (u) "[Hl Hc]". destruct src. iFrame.
Qed.

Lemma fire_new_event_spec fuel calls s src now u ev t :
  (length (callbacks src) <= fuel)%nat -> Event.a6o_event_new u now = Ok ev ->
  source_at s src ∗ calls ↦ BCalls t ⊢
  wp (fire_new_event fuel calls s now u) (fun _ =>
    source_at s src ∗ calls ↦ BCalls (t ++ Event.a6o_event_source_fire_event src ev)).
Proof.
  iIntros (Hl Hu) "H". wp_front. iApply wp_wand. iSplitR; [iApply make_union_spec|]. iIntros (b) "Hb".
  wp_use (event_new_spec b u now ev Hu) with "Hb" as (e) "[Hb (%c & He & Hc)]".
  wp_front. wp_read "He". wp_pure. iDestruct (block_type_spec with "Hc") as %->.
  rw (event_new_value u now ev Hu). change (ev_type (Event 0 u)) with (ev_type (Event now u)).
  wp_use (fire_event_spec fuel calls s src (Event now u) t Hl) with "H" as (_) "H".
  iAssert (event_at e (Event now u)) with "[He Hc]" as "He"; [iExists c; iFrame|].
  wp_use event_free_spec with "He" as (_) "_". wp_use free_strings_spec with "Hb" as (_) "_". iFrame.
Qed.

(** What the callbacks are called with, event after event. *)
Definition calls_of (src : a6o_event_source) (now : Z) (events : list a6o_event_union) : list (nat * Z) :=
  flat_map (fun u => Event.a6o_event_source_fire_event src (Event now u)) events.

Lemma fire_events_spec fuel calls s src now events t :
  (length (callbacks src) <= fuel)%nat -> Forall (fun u => is_ok (Event.a6o_event_new u now)) events ->
  source_at s src ∗ calls ↦ BCalls t ⊢
  wp (for_each (fire_new_event fuel calls s now) events) (fun _ =>
    source_at s src ∗ calls ↦ BCalls (t ++ calls_of src now events)).
Proof.
  intros Hl Hev. revert t. induction Hev as [|u events Hu _ IH]; intros t; iIntros "H"; simpl.
  - wp_pure. by rw app_nil_r.
  - destruct (Event.a6o_event_new u now) as [ev|] eqn:Eu; [|done].
    wp_use (fire_new_event_spec fuel calls s src now u ev t Hl Eu) with "H" as (_) "H".
    rw (event_new_value u now ev Eu) app_assoc. by iApply IH.
Qed.

(** C25: Whatever was registered and removed, events that have all their strings make the calls
    of Event.v, in their order; freeing them and the source leaves nothing: the heap is as
    before, but for the note of the calls. *)
Theorem source_session_frees ops events now h
    (Hev : Forall (fun u => is_ok (Event.a6o_event_new u now)) events) :
  let src := fold_left source_step ops Event.a6o_event_source_new in
  exists calls,
    source_session ops events now h = Ok (calls, <[calls := BCalls (calls_of src now events)]> h) /\ h !! calls = None.
Proof.
  set (src := fold_left source_step ops Event.a6o_event_source_new).
  assert (Hlen : (length (callbacks src) <= length ops)%nat) by apply (callbacks_bound ops Event.a6o_event_source_new).
  assert (Hs : ⊢ wp (source_session ops events now) (fun a => a ↦ BCalls (calls_of src now events))).
  { wp_let calls as "Hc". wp_front. iApply wp_wand. iSplitR; [iApply source_new_spec|]. iIntros (s) "Hs".
    wp_use (source_ops_spec (length ops) ops s Event.a6o_event_source_new) with "Hs" as (u) "Hs"; [simpl; lia|].
    iCombine "Hs Hc" as "H".
    wp_use (fire_events_spec (length ops) calls s src now events [] Hlen Hev) with "H" as (u') "[Hs Hc]".
    wp_use (source_free_spec (length ops) s src Hlen) with "Hs" as (w) "_". by wp_pure. }
  destruct (wp_run _ _ _ ∅ h Hs) as (calls & h' & Hrun & Hd & HQ); [done|apply map_disjoint_empty_l|].
  rw left_id_L in Hrun. hnf in HQ. subst h'. exists calls. rw Hrun insert_union_singleton_l. split; [done|].
  by apply map_disjoint_singleton_l in Hd.
Qed.

End history.

(** Two callbacks, one of which is removed and registered again, a start and a detection. *)
Definition two_callbacks : list source_op :=
  let e1 := CallbackEntry EVENT_DETECTION 1 10 in
  let e2 := CallbackEntry (Z.lor EVENT_DETECTION EVENT_ON_DEMAND_START) 2 20 in
  [AddCb e1; AddCb e2; RemoveCb e1; AddCb e1].

Definition two_events : list a6o_event_union :=
  [ev_on_demand_start (StartEvent 7 (Some "/home")%string);
   ev_detection (DetectionEvent CONTEXT_ON_DEMAND 7 (Some "/home/eicar.com") A6O_FILE_MALWARE 0 (Some "clamav") (Some "Eicar"))%string].

Lemma source_session_frees_witness :
  exists calls,
    source_session two_callbacks two_events 0 ∅ =
      Ok (calls, <[calls := BCalls [(2%nat, 20%Z); (1%nat, 10%Z); (2%nat, 20%Z)]]> ∅) /\
    (∅ : heap eblock) !! calls = None.
Proof. apply (source_session_frees two_callbacks two_events 0 ∅). repeat constructor. Defined.

(** A callback that removes itself while it is called: the entry is freed, and then read
    for the next one. *)
Definition remove_itself : cmd eblock unit :=
  s ← a6o_event_source_new;
  a6o_event_source_add_cb s EVENT_DETECTION 1 0;;
  a6o_event_source_fire_event 1
    (fun cb data => a6o_event_source_remove_cb 1 s EVENT_DETECTION cb data) s EVENT_DETECTION.

Lemma remove_itself_faults : remove_itself ∅ = Fault UseAfterFree.
Proof. vm_compute. reflexivity. Qed.
