(* ===== verification/OnDemand.v ===== *)
(** * On-demand scans ([src/libcore/ondemand.c], [ondemand.h])

    The scan state joins [struct a6o_on_demand], the state of the file scans and the
    events fired so far.  Two threads besides the caller exist: the counting thread,
    whose only effect is one store to [to_scan_count], visible after some number of
    file scans; and the thread pool, which runs the queued file scans in some order.
    A file scan is atomic in the model: its counters are updated atomically by the
    code, only [last_progress_time] and [last_progress_value] are not. *)
From S2P Require Import Prelude Status Dir Module ScanConf ScanCtx Event.

#[local] Open Scope Z_scope.

Definition A6O_SCAN_THREADED : Z := Z.shiftl 1 0.
Definition A6O_SCAN_RECURSE : Z := Z.shiftl 1 1.
Definition A6O_SCAN_STANDARD : Z := Z.lor A6O_SCAN_THREADED A6O_SCAN_RECURSE.
Definition A6O_ON_DEMAND_PROGRESS_UNKNOWN : Z := -1.
Definition DEFAULT_PROGRESS_PERIOD : Z := 200.

Record a6o_on_demand := OnDemand {
  od_root_path : string;
  od_scan_id : Z;
  od_flags : Z;
  od_start_time : Z;
  od_duration : Z;
  od_to_scan_count : Z;
  od_scanned_count : Z;
  od_malware_count : Z;
  od_suspicious_count : Z;
  od_was_cancelled : Z;
  od_progress_period : Z;
  od_last_progress_time : Z;
  od_last_progress_value : Z;
}.

(** [real_path] is the answer of [realpath]; on NULL nothing is created.
    [start_time] and [duration] are not initialised here, only by the run. *)
Definition a6o_on_demand_new (real_path : option string) (scan_id flags : Z) (send_progress : bool)
    : option a6o_on_demand :=
  root ← real_path;
  Some {| od_root_path := root; od_scan_id := scan_id; od_flags := flags; od_start_time := 0;
          od_duration := 0; od_to_scan_count := 0; od_scanned_count := 0; od_malware_count := 0;
          od_suspicious_count := 0; od_was_cancelled := 0;
          od_progress_period := if send_progress then DEFAULT_PROGRESS_PERIOD else 0;
          od_last_progress_time := 0; od_last_progress_value := A6O_ON_DEMAND_PROGRESS_UNKNOWN |}.

Definition a6o_on_demand_get_id (od : a6o_on_demand) : Z := od_scan_id od.

Definition a6o_on_demand_is_cancelled (od : a6o_on_demand) : bool := false.

(** [g_atomic_int_inc] on the counters. *)
Definition set_counts (od : a6o_on_demand) (scanned malware suspicious : Z) : a6o_on_demand :=
  {| od_root_path := od_root_path od; od_scan_id := od_scan_id od; od_flags := od_flags od;
     od_start_time := od_start_time od; od_duration := od_duration od;
     od_to_scan_count := od_to_scan_count od; od_scanned_count := scanned;
     od_malware_count := malware; od_suspicious_count := suspicious;
     od_was_cancelled := od_was_cancelled od; od_progress_period := od_progress_period od;
     od_last_progress_time := od_last_progress_time od;
     od_last_progress_value := od_last_progress_value od |}.

Definition update_counters (od : a6o_on_demand) (report : a6o_report) : a6o_on_demand :=
  set_counts od (i32 (od_scanned_count od + 1))
    (match r_status report with A6O_FILE_MALWARE => i32 (od_malware_count od + 1) | _ => od_malware_count od end)
    (match r_status report with A6O_FILE_SUSPICIOUS => i32 (od_suspicious_count od + 1) | _ => od_suspicious_count od end).

Definition must_send_progress_event (od : a6o_on_demand) (report : a6o_report) (progress now : Z) : bool :=
  if bool_decide (r_path report = None) then false
  else if od_last_progress_value od =? A6O_ON_DEMAND_PROGRESS_UNKNOWN then true
  else if negb (od_last_progress_value od =? progress) then true
  else if od_last_progress_time od =? 0 then true
  else od_progress_period od <=? now - od_last_progress_time od.

Definition set_progress (od : a6o_on_demand) (time value : Z) : a6o_on_demand :=
  {| od_root_path := od_root_path od; od_scan_id := od_scan_id od; od_flags := od_flags od;
     od_start_time := od_start_time od; od_duration := od_duration od;
     od_to_scan_count := od_to_scan_count od; od_scanned_count := od_scanned_count od;
     od_malware_count := od_malware_count od; od_suspicious_count := od_suspicious_count od;
     od_was_cancelled := od_was_cancelled od; od_progress_period := od_progress_period od;
     od_last_progress_time := time; od_last_progress_value := value |}.

Definition set_to_scan (od : a6o_on_demand) (n : Z) : a6o_on_demand :=
  {| od_root_path := od_root_path od; od_scan_id := od_scan_id od; od_flags := od_flags od;
     od_start_time := od_start_time od; od_duration := od_duration od;
     od_to_scan_count := n; od_scanned_count := od_scanned_count od;
     od_malware_count := od_malware_count od; od_suspicious_count := od_suspicious_count od;
     od_was_cancelled := od_was_cancelled od; od_progress_period := od_progress_period od;
     od_last_progress_time := od_last_progress_time od;
     od_last_progress_value := od_last_progress_value od |}.

Definition set_times (od : a6o_on_demand) (start duration : Z) : a6o_on_demand :=
  {| od_root_path := od_root_path od; od_scan_id := od_scan_id od; od_flags := od_flags od;
     od_start_time := start; od_duration := duration;
     od_to_scan_count := od_to_scan_count od; od_scanned_count := od_scanned_count od;
     od_malware_count := od_malware_count od; od_suspicious_count := od_suspicious_count od;
     od_was_cancelled := od_was_cancelled od; od_progress_period := od_progress_period od;
     od_last_progress_time := od_last_progress_time od;
     od_last_progress_value := od_last_progress_value od |}.

(** [(int)((100.0 * scanned_count) / to_scan_count)], capped at 100.  Below the cap
    the quotient is far enough from the next integer for the division of doubles to
    truncate like the division of integers. *)
Definition progress_value (scanned to_scan : Z) : Z := Z.min 100 (Z.quot (100 * scanned) to_scan).

Section run.
Context {W : Type}.
Variable os : os_answers.
Variable modules : list (a6o_module W).
(** Milliseconds read at the n-th reading of the clock. *)
Variable clock : nat -> Z.

Record od_state := OdState {
  s_od : a6o_on_demand;
  s_scan : scan_state W;
  s_events : list a6o_event;          (** fired, oldest first *)
  s_pool : list string;               (** paths queued in the thread pool *)
  s_tick : nat;
  (** the counting thread: after how many file scans its store is seen, and the count *)
  s_counting : option (nat * Z);
}.

Definition with_od (s : od_state) (od : a6o_on_demand) : od_state :=
  {| s_od := od; s_scan := s_scan s; s_events := s_events s; s_pool := s_pool s;
     s_tick := s_tick s; s_counting := s_counting s |}.

Definition get_milliseconds (s : od_state) : Z * od_state :=
  (clock (s_tick s),
   {| s_od := s_od s; s_scan := s_scan s; s_events := s_events s; s_pool := s_pool s;
      s_tick := S (s_tick s); s_counting := s_counting s |}).

(** [a6o_event_new] then [a6o_event_source_fire_event]. *)
Definition fire (s : od_state) (u : a6o_event_union) : outcome od_state :=
  ev ← a6o_event_new u (clock (s_tick s) / 1000);
  Ok {| s_od := s_od s; s_scan := s_scan s; s_events := s_events s ++ [ev]; s_pool := s_pool s;
        s_tick := s_tick s; s_counting := s_counting s |}.

Definition fire_progress_event (s : od_state) (report : a6o_report) (progress : Z) : outcome od_state :=
  let od := s_od s in
  fire s (ev_on_demand_progress
    {| pe_scan_id := od_scan_id od; pe_progress := progress; pe_path := r_path report;
       pe_malware_count := u64 (od_malware_count od);
       pe_suspicious_count := u64 (od_suspicious_count od);
       pe_scanned_count := u64 (od_scanned_count od) |}).

Definition update_progress (s : od_state) (report : a6o_report) : outcome od_state :=
  let od := s_od s in
  if od_progress_period od =? 0 then Ok s
  else if od_to_scan_count od =? 0 then Ok s
  else
    let progress := progress_value (od_scanned_count od) (od_to_scan_count od) in
    let (now, s) := get_milliseconds s in
    if must_send_progress_event od report progress now then
      s ← fire_progress_event s report progress;
      Ok (with_od s (set_progress (s_od s) now progress))
    else Ok s.

Definition fire_detection_event (s : od_state) (report : a6o_report) : outcome od_state :=
  fire s (ev_detection
    {| de_context := CONTEXT_ON_DEMAND; de_scan_id := od_scan_id (s_od s); de_path := r_path report;
       de_scan_status := r_status report; de_scan_action := r_action report;
       de_module_name := r_module_name report; de_module_report := r_module_report report |}).

Definition fire_on_demand_start_event (s : od_state) : outcome od_state :=
  fire s (ev_on_demand_start
    {| se_scan_id := od_scan_id (s_od s); se_root_path := Some (od_root_path (s_od s)) |}).

Definition fire_on_demand_completed_event (s : od_state) : outcome od_state :=
  let od := s_od s in
  fire s (ev_on_demand_completed
    {| ce_scan_id := od_scan_id od; ce_cancelled := od_was_cancelled od;
       ce_total_malware_count := u64 (od_malware_count od);
       ce_total_suspicious_count := u64 (od_suspicious_count od);
       ce_total_scanned_count := u64 (od_scanned_count od); ce_duration := od_duration od |}).

(** The store of the counting thread, when it is seen before this file scan. *)
Definition see_count (s : od_state) : od_state :=
  match s_counting s with
  | Some (O, n) =>
      {| s_od := set_to_scan (s_od s) n; s_scan := s_scan s; s_events := s_events s;
         s_pool := s_pool s; s_tick := s_tick s; s_counting := None |}
  | Some (S k, n) =>
      {| s_od := s_od s; s_scan := s_scan s; s_events := s_events s;
         s_pool := s_pool s; s_tick := s_tick s; s_counting := Some (k, n) |}
  | None => s
  end.

Definition with_scan (s : od_state) (sc : scan_state W) : od_state :=
  {| s_od := s_od s; s_scan := sc; s_events := s_events s; s_pool := s_pool s;
     s_tick := s_tick s; s_counting := s_counting s |}.

Definition is_detection (status : a6o_file_status) : bool :=
  bool_decide (status = A6O_FILE_MALWARE) || bool_decide (status = A6O_FILE_SUSPICIOUS).

(** [process_error] does nothing: its body is disabled. *)
Definition scan_file (s : od_state) (path : option string) : outcome od_state :=
  let s := see_count s in
  let report := a6o_report_init path in
  r ← a6o_scan_context_get os modules (-1) path (Some report) (s_scan s);
  let '(ctx, report, sc) := r in
  r ← match ctx_status ctx with
      | A6O_SC_MUST_SCAN => r ← a6o_scan_context_scan os modules ctx report sc; Ok (r.1.2, r.2)
      | _ => Ok (report, sc)
      end;
  let '(report, sc) := r in
  let s := with_scan s sc in
  match report with
  | None => Fault NullDeref
  | Some report =>
      s ← if is_detection (r_status report) && bool_decide (r_path report <> None)
          then fire_detection_event s report else Ok s;
      let s := with_od s (update_counters (s_od s) report) in
      s ← update_progress s report;
      sc ← a6o_scan_context_destroy ctx (s_scan s);
      Ok (with_scan s sc)
  end.

Definition push_pool (s : od_state) (path : string) : od_state :=
  {| s_od := s_od s; s_scan := s_scan s; s_events := s_events s; s_pool := s_pool s ++ [path];
     s_tick := s_tick s; s_counting := s_counting s |}.

(** The callback of the directory walk. *)
Definition scan_entry (full_path : option string) (flags entry_errno : Z) (s : od_state)
    : outcome (Z * od_state) :=
  if a6o_on_demand_is_cancelled (s_od s) then Ok (2, s)
  else if has_flag flags FILE_FLAG_IS_ERROR then Ok (1, s)
  else if negb (has_flag flags FILE_FLAG_IS_PLAIN_FILE) then Ok (1, s)
  else if has_flag (od_flags (s_od s)) A6O_SCAN_THREADED then
    Ok (0, match full_path with Some p => push_pool s p | None => s end)
  else s ← scan_file s full_path; Ok (0, s).

Definition count_entry (full_path : option string) (flags entry_errno : Z) (count : Z) : outcome (Z * Z) :=
  if negb (has_flag flags FILE_FLAG_IS_PLAIN_FILE) then Ok (0, count)
  else Ok (0, i32 (count + 1)).

(** [count_thread_fun]: the value it stores. *)
Definition count_thread_fun (od : a6o_on_demand) (t : dir_tree) : outcome Z :=
  r ← os_dir_map count_entry (has_flag (od_flags od) A6O_SCAN_RECURSE) (od_root_path od) t 0;
  Ok r.2.

Fixpoint run_pool (paths : list string) (s : od_state) : outcome od_state :=
  match paths with
  | [] => Ok s
  | p :: paths => s ← scan_file s (Some p); run_pool paths s
  end.

(** What the run finds on disk: [stat] of the root, the tree the scan walks, the
    tree the counting thread walks, when its store is seen, and the order in which
    the pool runs its tasks. *)
Record run_env := RunEnv {
  env_root_flags : Z;
  env_tree : dir_tree;
  env_count_tree : dir_tree;
  env_count_seen : nat;
  env_schedule : list string -> list string;
}.

(** Starting the counting thread; its store comes later. *)
Definition count_to_scan (env : run_env) (s : od_state) : outcome od_state :=
  n ← count_thread_fun (s_od s) (env_count_tree env);
  Ok {| s_od := s_od s; s_scan := s_scan s; s_events := s_events s; s_pool := s_pool s;
        s_tick := s_tick s; s_counting := Some (env_count_seen env, n) |}.

(** The scan of the root path, a file or a directory. *)
Definition run_root (env : run_env) (s : od_state) : outcome od_state :=
  let od := s_od s in
  if has_flag (env_root_flags env) FILE_FLAG_IS_PLAIN_FILE then
    let s := with_od s (set_to_scan (s_od s) 1) in
    if has_flag (od_flags od) A6O_SCAN_THREADED then Ok (push_pool s (od_root_path od))
    else scan_file s (Some (od_root_path od))
  else if has_flag (env_root_flags env) FILE_FLAG_IS_DIRECTORY then
    s ← (if od_progress_period od =? 0 then Ok s else count_to_scan env s);
    r ← os_dir_map scan_entry (has_flag (od_flags od) A6O_SCAN_RECURSE) (od_root_path od)
          (env_tree env) s;
    Ok r.2
  else Ok s.

(** [g_thread_pool_free] waits for every queued scan. *)
Definition wait_pool (env : run_env) (s : od_state) : outcome od_state :=
  if has_flag (od_flags (s_od s)) A6O_SCAN_THREADED then
    run_pool (env_schedule env (s_pool s))
      {| s_od := s_od s; s_scan := s_scan s; s_events := s_events s; s_pool := [];
         s_tick := s_tick s; s_counting := s_counting s |}
  else Ok s.

Definition a6o_on_demand_run (env : run_env) (s : od_state) : outcome od_state :=
  let (start, s) := get_milliseconds s in
  let s := with_od s (set_times (s_od s) start (od_duration (s_od s))) in
  s ← fire_on_demand_start_event s;
  s ← run_root env s;
  s ← wait_pool env s;
  let (stop, s) := get_milliseconds s in
  let s := with_od s (set_times (s_od s) (od_start_time (s_od s)) (stop - od_start_time (s_od s))) in
  fire_on_demand_completed_event s.

End run.
Arguments od_state : clear implicits.
