(* ===== verification/OnDemandTheory.v ===== *)
(** * Invariants of an on-demand scan

    [scan_list] and [all_files] are the files the scan handles and the files there
    are; [run_inv] is what every file scan preserves: counters agree with the
    detection events fired, progress stays between 0 and 100, every descriptor opened
    is closed. *)
From S2P Require Import Prelude Status Dir Module ScanConf ScanCtx Event ScanSpec OnDemand.

#[local] Open Scope Z_scope.

(** ** Which files a walk reaches *)

Section files.
Variable recurse : bool.
#[local] Abbreviation all_files := (all_files recurse).
#[local] Abbreviation all_entries := (all_entries recurse).

(** The plain files [scan_entry] receives, and whether the walk of [t] returned an
    error: an error below ends the enumeration of the parent. *)
Fixpoint scan_list (t : dir_tree) : list (option string) * bool :=
  match t with
  | Unreadable _ => ([], true)
  | Readable es => (scan_entries es, false)
  end
with scan_entries (es : dir_entries) : list (option string) :=
  match es with
  | EndOfDir _ => []
  | Entry name type real below next =>
      if is_dot type name then scan_entries next
      else if descends recurse type then
        (scan_list below).1 ++ (if (scan_list below).2 then [] else scan_entries next)
      else if bool_decide (type = DT_REG) then real :: scan_entries next
      else scan_entries next
  end.

(** Every directory the walk opens can be opened. *)
Fixpoint readable (t : dir_tree) : bool :=
  match t with
  | Unreadable _ => false
  | Readable es => readable_entries es
  end
with readable_entries (es : dir_entries) : bool :=
  match es with
  | EndOfDir _ => true
  | Entry name type real below next =>
      (if is_dot type name then true else if descends recurse type then readable below else true)
      && readable_entries next
  end.

Lemma scan_list_sublist :
  (forall t, (scan_list t).1 `sublist_of` all_files t) /\
  (forall es, scan_entries es `sublist_of` all_entries es).
Proof.
  apply dir_mutind; simpl; try done.
  intros name type real below IHt next IHe. destruct (is_dot type name); [done|].
  destruct (descends recurse type).
  - destruct ((scan_list below).2); [|by apply sublist_app].
    rewrite app_nil_r. by apply sublist_inserts_r.
  - case_bool_decide; [by constructor|done].
Qed.

Lemma scan_list_readable :
  (forall t, readable t = true -> scan_list t = (all_files t, false)) /\
  (forall es, readable_entries es = true -> scan_entries es = all_entries es).
Proof.
  apply dir_mutind; simpl; try done.
  - intros es IH H. by rewrite IH.
  - intros name type real below IHt next IHe [H1 H2]%andb_true_iff. rewrite IHe by done.
    destruct (is_dot type name); [done|]. destruct (descends recurse type); [|done].
    by rewrite IHt.
Qed.

(** The walk with [scan_entry] handles exactly [scan_list], in order. *)
Section walk.
Context {W : Type} (os : os_answers) (modules : list (a6o_module W)) (clock : nat -> Z).
#[local] Abbreviation scan_file := (scan_file os modules clock).
#[local] Abbreviation scan_entry := (scan_entry os modules clock).

Definition handle (s : od_state W) (p : option string) : outcome (od_state W) :=
  if has_flag (od_flags (s_od s)) A6O_SCAN_THREADED
  then Ok (match p with Some p => push_pool s p | None => s end)
  else scan_file s p.

Fixpoint handle_all (l : list (option string)) (s : od_state W) : outcome (od_state W) :=
  match l with
  | [] => Ok s
  | p :: l => s ← handle s p; handle_all l s
  end.

Lemma handle_all_app l1 l2 s : handle_all (l1 ++ l2) s = (s ← handle_all l1 s; handle_all l2 s).
Proof.
  revert s. induction l1 as [|p l1 IH]; intros s; simpl; [done|].
  destruct (handle s p); simpl; [apply IH|done].
Qed.

Lemma scan_entry_plain real s :
  scan_entry real (dirent_flags DT_REG) 0 s = (s ← handle s real; Ok (0, s)).
Proof. unfold scan_entry, handle. simpl. by destruct (has_flag (od_flags _) _). Qed.

Lemma scan_entry_other type real s :
  type <> DT_REG -> scan_entry real (dirent_flags type) 0 s = Ok (1, s).
Proof. by destruct type. Qed.

Lemma scan_entry_error p errno s : scan_entry p FILE_FLAG_IS_ERROR errno s = Ok (1, s).
Proof. done. Qed.

Lemma walk_handles :
  (forall t path s, os_dir_map scan_entry recurse path t s =
     (s' ← handle_all (scan_list t).1 s; Ok (if (scan_list t).2 then 1 else 0, s'))) /\
  (forall es path s, read_entries scan_entry recurse path es s = handle_all (scan_entries es) s).
Proof.
  apply dir_mutind; cbn [os_dir_map read_entries scan_list scan_entries fst snd handle_all].
  - intros errno path s. apply scan_entry_error.
  - intros es IH path s. by rewrite IH.
  - intros errno path s. rewrite scan_entry_error. simpl. by destruct (errno =? 0).
  - intros name type real below IHt next IHe path s. destruct (is_dot type name); [apply IHe|].
    destruct (descends recurse type).
    + rewrite IHt, handle_all_app. destruct (handle_all _ s) as [s'|f]; simpl; [|done].
      destruct ((scan_list below).2); simpl; [done|apply IHe].
    + case_bool_decide as Ht.
      * subst type. rewrite scan_entry_plain. simpl.
        destruct (handle s real) as [s'|f]; simpl; [apply IHe|done].
      * rewrite scan_entry_other by done. simpl. apply IHe.
Qed.

End walk.

(** The counting thread counts all the files. *)
Lemma walk_counts :
  (forall t path n, 0 <= n -> n + Z.of_nat (length (all_files t)) < 2 ^ 31 ->
     os_dir_map count_entry recurse path t n = Ok (0, n + Z.of_nat (length (all_files t)))) /\
  (forall es path n, 0 <= n -> n + Z.of_nat (length (all_entries es)) < 2 ^ 31 ->
     read_entries count_entry recurse path es n = Ok (n + Z.of_nat (length (all_entries es)))).
Proof.
  apply dir_mutind; cbn [os_dir_map read_entries all_files all_entries].
  - intros errno path n Hn Hb. by rewrite Z.add_0_r.
  - intros es IH path n Hn Hb. by rewrite IH.
  - intros errno path n Hn Hb. simpl. rewrite Z.add_0_r. by destruct (errno =? 0).
  - intros name type real below IHt next IHe path n Hn Hb. destruct (is_dot type name); [by apply IHe|].
    destruct (descends recurse type).
    + rewrite length_app in *. rewrite IHt by lia. simpl. rewrite IHe by lia. f_equal. lia.
    + case_bool_decide as Ht.
      * subst type. simpl length in *. unfold count_entry. simpl.
        rewrite i32_small by lia. rewrite IHe by lia. f_equal. lia.
      * assert (count_entry real (dirent_flags type) 0 n = Ok (0, n)) as -> by (by destruct type).
        simpl. by apply IHe.
Qed.

End files.

(** ** What a file scan does, when the modules behave *)

(** A report that will be announced carries a module name and a text. *)
Definition announced (r : a6o_report) : Prop :=
  is_detection (r_status r) = true ->
  exists name text, r_module_name r = Some name /\ r_module_report r = Some text.

(** A module that answers ranked statuses, with a text for detections. *)
Definition answers_well {W} (m : a6o_module W) : Prop :=
  exists f, mod_scan_fun m = Some f /\
    forall fd path mime w,
      comparable (f fd path mime w).1.1 /\
      (is_detection (f fd path mime w).1.1 = true -> (f fd path mime w).1.2 <> None).

Definition conf_sound {W} (modules : list (a6o_module W)) (c : a6o_scan_conf) : Prop :=
  cache_ok modules c /\ modules_declared modules c /\
  Forall (fun i => exists m, modules !! i = Some m /\ answers_well m) (sc_modules c).

(** Every descriptor opened is closed before the next one is opened. *)
Definition fds_balanced (l : list fd_event) : Prop :=
  exists ds, l = flat_map (fun d => [FdOpened d; FdClosed d]) ds.

Lemma fds_balanced_snoc l d : fds_balanced l -> fds_balanced (l ++ [FdOpened d; FdClosed d]).
Proof. intros [ds ->]. exists (ds ++ [d]). by rewrite flat_map_app. Qed.

Section scan.
Context {W : Type} (os : os_answers) (modules : list (a6o_module W)) (clock : nat -> Z).
(** libmagic names a type for every buffer that could be read. *)
Hypothesis magic_answers : forall fd, magic_buffer os fd <> None.

Lemma apply_loop_total fd path mime mods cur r w :
  Forall (fun i => exists m, modules !! i = Some m /\ answers_well m) mods ->
  comparable cur -> (r_status r = cur \/ cur = A6O_FILE_UNDECIDED /\ is_detection (r_status r) = false) ->
  announced r ->
  exists st r' w', apply_loop os modules fd path mime mods cur (Some r) w = Ok (st, Some r', w') /\
    announced r' /\ r_path r' = r_path r /\ (is_detection st = true -> r_status r' = st).
Proof.
  intros Hmods. revert cur r w. induction Hmods as [|i mods (m & Hm & f & Hf & Hans) Hmods IH];
    intros cur r w Hcur Hst Hann; cbn [apply_loop].
  { exists cur, r, w. split_and!; try done. destruct Hst as [|[-> _]]; done. }
  rewrite Hm. case_bool_decide; [by apply IH|].
  destruct (os_lseek_ok os fd); simpl negb; cbn iota; [|by exists A6O_FILE_IERROR, r, w].
  rewrite Hf. destruct (Hans fd path mime w) as [Hcmp Htext].
  destruct (f fd path mime w) as [[status rep] w1]. simpl in Hcmp, Htext.
  destruct (cmp_less cur status Hcur Hcmp) as (c & -> & _ & _). cbn [mbind outcome_bind].
  destruct (c <? 0).
  - set (r2 := (a6o_report_change r status (Some (mod_name m)) rep).1).
    assert (announced r2) as Hann2.
    { intros Hd. destruct rep as [text|]; [|by destruct (Htext Hd)]. by exists (mod_name m), text. }
    destruct (authoritative status); [by exists status, r2, w1|].
    match goal with |- context [apply_loop _ _ _ _ _ _ status ?rr w1] => change rr with (Some r2) end.
    destruct (IH status r2 w1 Hcmp ltac:(by left) Hann2) as (st & r' & w' & -> & ? & Hp & ?).
    exists st, r', w'. by rewrite Hp.
  - destruct (authoritative cur); [|by apply IH]. exists cur, r, w1. split_and!; try done.
    destruct Hst as [|[-> _]]; done.
Qed.

(** Looking modules up keeps the configuration sound and finds modules that answer. *)
Lemma get_applicable_sound c mime :
  conf_sound modules c ->
  exists c', a6o_scan_conf_get_applicable_modules modules c mime = Ok (modules_for modules c mime, c') /\
    conf_sound modules c' /\
    forall mods, modules_for modules c mime = Some mods ->
      Forall (fun i => exists m, modules !! i = Some m /\ answers_well m) mods.
Proof.
  intros (Hcache & Hdecl & Hans). pose proof (get_applicable_modules_spec modules c mime Hcache) as Hget.
  rewrite applicable_spec_modules_for in Hget by done. destruct Hget as (c' & E & Hsame & Hcache').
  exists c'. split; [exact E|]. split.
  - split; [done|]. split; [by eapply same_settings_declared|]. by destruct Hsame as (_ & _ & _ & <- & _).
  - intros mods Emods. unfold modules_for in Emods. destruct (mime_type_contains _ _); [|done].
    assert (mods = filter (fun m => supports modules m mime = Ok true) (sc_modules c)) as ->
      by (destruct (filter _ _); simplify_eq; done).
    rewrite Forall_forall in Hans |- *. intros i Hi. apply Hans.
    apply list_elem_of_In. apply list_elem_of_In in Hi. by apply list_elem_of_filter in Hi as [_ Hi].
Qed.

(** What [a6o_scan_context_get] leaves for a file given by its path. *)
Lemma context_get_total p r sc :
  conf_sound modules (st_conf sc) ->
  exists ctx r' sc' f, a6o_scan_context_get os modules (-1) (Some p) (Some r) sc = Ok (ctx, Some r', sc') /\
    ctx_rest ctx = Some f /\ st_world sc' = st_world sc /\ conf_sound modules (st_conf sc') /\
    r_path r' = r_path r /\
    st_fds sc' = st_fds sc ++ (if ctx_fd f <? 0 then [] else [FdOpened (ctx_fd f)]) /\
    match ctx_status ctx with
    | A6O_SC_MUST_SCAN => r' = r /\ exists mods mime, ctx_applicable_modules f = Some mods /\
        ctx_mime_type f = Some mime /\
        Forall (fun i => exists m, modules !! i = Some m /\ answers_well m) mods
    | _ => is_detection (r_status r') = false
    end.
Proof.
  intros Hconf. unfold a6o_scan_context_get.
  rewrite (bool_decide_eq_false_2 (Some p = None)) by done. rewrite andb_false_r.
  destruct (a6o_scan_conf_is_white_listed (st_conf sc) p).
  { do 4 eexists. split; [reflexivity|]. split; [reflexivity|]. simpl. by rewrite app_nil_r. }
  change (-1 <? 0) with true. cbn iota beta zeta.
  destruct (os_open os p <? 0) eqn:Efd.
  { do 4 eexists. split; [reflexivity|]. split; [reflexivity|]. simpl. by rewrite Efd, app_nil_r. }
  unfold os_mime_type_guess_fd. destruct (os_read os (os_open os p) <? 0).
  { do 4 eexists. split; [reflexivity|]. split; [reflexivity|]. simpl. by rewrite Efd. }
  destruct (magic_buffer os (os_open os p)) as [mime|] eqn:Emagic; [|by destruct (magic_answers (os_open os p))].
  cbn [mbind outcome_bind st_conf].
  destruct (get_applicable_sound (st_conf sc) mime Hconf) as (c' & -> & Hc' & Hmods).
  cbn [mbind outcome_bind fst snd].
  destruct (modules_for modules (st_conf sc) mime) as [mods|].
  - do 4 eexists. split; [reflexivity|]. split; [reflexivity|]. simpl. rewrite Efd. split_and!; try done.
    exists mods, mime. split_and!; [done|done|by apply Hmods].
  - do 4 eexists. split; [reflexivity|]. split; [reflexivity|]. simpl. rewrite Efd. by split_and!.
Qed.

End scan.

(** The events of a status among those fired. *)
Definition detects (st : a6o_file_status) (e : a6o_event) : bool :=
  match ev_u e with ev_detection d => bool_decide (de_scan_status d = st) | _ => false end.

Definition detections (st : a6o_file_status) (evs : list a6o_event) : Z :=
  Z.of_nat (length (List.filter (detects st) evs)).

(** Events a file scan of the scan [id] may fire, with progress between 0 and 100. *)
Definition scan_event (id : Z) (e : a6o_event) : Prop :=
  match ev_u e with
  | ev_detection d => de_scan_id d = id /\ is_detection (de_scan_status d) = true
  | ev_on_demand_progress p => pe_scan_id p = id /\ 0 <= pe_progress p <= 100
  | _ => False
  end.

Lemma detections_app st l1 l2 : detections st (l1 ++ l2) = detections st l1 + detections st l2.
Proof. unfold detections. rewrite List.filter_app, length_app. lia. Qed.

(** What holds after [n] file scans; [first] are the events fired before them. *)
Record run_inv {W} (modules : list (a6o_module W)) (od0 : a6o_on_demand) (first : list a6o_event)
    (n : Z) (s : od_state W) : Prop := {
  inv_conf : conf_sound modules (st_conf (s_scan s));
  inv_scanned : od_scanned_count (s_od s) = n;
  inv_events : exists mid, s_events s = first ++ mid /\ Forall (scan_event (od_scan_id od0)) mid /\
    od_malware_count (s_od s) = detections A6O_FILE_MALWARE mid /\
    od_suspicious_count (s_od s) = detections A6O_FILE_SUSPICIOUS mid /\
    detections A6O_FILE_MALWARE mid + detections A6O_FILE_SUSPICIOUS mid <= n;
  inv_fds : fds_balanced (st_fds (s_scan s));
  inv_to_scan : 0 <= od_to_scan_count (s_od s) /\
    (forall k c, s_counting s = Some (k, c) -> 0 <= c);
  inv_same : od_root_path (s_od s) = od_root_path od0 /\ od_scan_id (s_od s) = od_scan_id od0 /\
    od_flags (s_od s) = od_flags od0 /\ od_was_cancelled (s_od s) = od_was_cancelled od0;
}.

Section invariant.
Context {W : Type} (os : os_answers) (modules : list (a6o_module W)) (clock : nat -> Z).
Context (od0 : a6o_on_demand) (first : list a6o_event).
Hypothesis magic_answers : forall fd, magic_buffer os fd <> None.
#[local] Abbreviation inv := (run_inv modules od0 first).

Lemma see_count_inv n s : inv n s -> inv n (see_count s) /\ s_pool (see_count s) = s_pool s.
Proof.
  intros [Hc Hsc Hev Hfd [Ht Hcnt] Hs]. unfold see_count.
  destruct (s_counting s) as [[[|k] c]|] eqn:E.
  - split; [|done]. split; simpl; try assumption. split; [exact (Hcnt _ _ eq_refl)|by intros ???].
  - split; [|done]. split; simpl; try assumption. split; [assumption|].
    intros k' c' [= <- <-]. exact (Hcnt _ _ eq_refl).
  - split; [|done]. split; try assumption. split; [assumption|]. by rewrite E.
Qed.

Lemma progress_value_bound scanned to_scan :
  0 <= scanned -> 0 <= to_scan -> 0 <= progress_value scanned to_scan <= 100.
Proof.
  intros Hs Ht. unfold progress_value. destruct (decide (to_scan = 0)) as [->|Hne].
  - rewrite (Z.quot_0_r_ext (100 * scanned) 0 eq_refl). lia.
  - pose proof (Z.quot_pos (100 * scanned) to_scan ltac:(lia) ltac:(lia)). lia.
Qed.

(** [update_progress] may fire one progress event. *)
Lemma update_progress_ok (s : od_state W) (r : a6o_report) :
  0 <= od_scanned_count (s_od s) -> 0 <= od_to_scan_count (s_od s) ->
  exists s' evs, update_progress clock s r = Ok s' /\
    s_events s' = s_events s ++ evs /\ Forall (scan_event (od_scan_id (s_od s))) evs /\
    (forall st, detections st evs = 0) /\
    s_scan s' = s_scan s /\ s_pool s' = s_pool s /\ s_counting s' = s_counting s /\
    exists t v, s_od s' = set_progress (s_od s) t v.
Proof.
  intros Hsc Hto. unfold update_progress.
  assert (forall s2 : od_state W, s2 = s ->
    exists t v, s_od s2 = set_progress (s_od s) t v) as Hid.
  { intros s2 ->. exists (od_last_progress_time (s_od s)), (od_last_progress_value (s_od s)). by destruct (s_od s). }
  destruct (od_progress_period (s_od s) =? 0).
  { exists s, []. rewrite app_nil_r. split_and!; try done. by apply Hid. }
  destruct (od_to_scan_count (s_od s) =? 0).
  { exists s, []. rewrite app_nil_r. split_and!; try done. by apply Hid. }
  simpl. destruct (must_send_progress_event _ _ _ _) eqn:Em.
  2: { eexists _, []. rewrite app_nil_r. split_and!; try done. by apply (Hid s). }
  unfold must_send_progress_event in Em. destruct (r_path r) as [p|] eqn:Ep; [|done].
  unfold fire_progress_event, fire. simpl. rewrite Ep. simpl.
  eexists _, [_]. split; [reflexivity|]. split; [reflexivity|]. split_and!; try done.
  - repeat constructor; simpl; by apply progress_value_bound.
  - by eexists _, _.
Qed.

(** The scan of a context, when there is one to do. *)
Lemma context_scan_total p ctx r1 sc1 f :
  ctx_rest ctx = Some f -> conf_sound modules (st_conf sc1) -> r_path r1 = Some p ->
  match ctx_status ctx with
  | A6O_SC_MUST_SCAN => r1 = a6o_report_init (Some p) /\ exists mods mime, ctx_applicable_modules f = Some mods /\
      ctx_mime_type f = Some mime /\ Forall (fun i => exists m, modules !! i = Some m /\ answers_well m) mods
  | _ => is_detection (r_status r1) = false
  end ->
  exists r2 sc2, (match ctx_status ctx with
      | A6O_SC_MUST_SCAN => (r ← a6o_scan_context_scan os modules ctx (Some r1) sc1; Ok (r.1.2, r.2))
      | _ => Ok (Some r1, sc1)
      end) = Ok (Some r2, sc2) /\ announced r2 /\ r_path r2 = Some p /\
    conf_sound modules (st_conf sc2) /\ st_fds sc2 = st_fds sc1.
Proof.
  intros Hf Hc1 Hp1 Hst. destruct (ctx_status ctx);
    try (exists r1, sc1; rewrite Hp1; split_and!; try done; intros Hd; congruence).
  destruct Hst as (-> & mods & mime & Hmods & Hmime & Hall).
  unfold a6o_scan_context_scan. rewrite Hf, Hmods, Hmime.
  destruct (apply_loop_total os modules (ctx_fd f) (ctx_path f) mime mods A6O_FILE_UNDECIDED
    (a6o_report_init (Some p)) (st_world sc1)) as (st & r' & w' & E & Hann & Hp & _); [done|by eexists|by left|done|].
  unfold scan_apply_modules. rewrite E. simpl. by eexists _, _.
Qed.

(** A detection that is announced is fired, and nothing else. *)
Lemma detection_fired p (s0 : od_state W) sc2 r2 :
  announced r2 -> r_path r2 = Some p -> od_scan_id (s_od s0) = od_scan_id od0 ->
  exists s1 evs1, ((if is_detection (r_status r2) then fire_detection_event clock (with_scan s0 sc2) r2
      else Ok (with_scan s0 sc2)) = Ok s1) /\ s_events s1 = s_events s0 ++ evs1 /\ Forall (scan_event (od_scan_id od0)) evs1 /\
    (forall st, detections st evs1 = if is_detection (r_status r2) && bool_decide (r_status r2 = st) then 1 else 0) /\
    s_od s1 = s_od s0 /\ s_scan s1 = sc2 /\ s_pool s1 = s_pool s0 /\ s_counting s1 = s_counting s0.
Proof.
  intros Hann Hp2 Hid. destruct (is_detection (r_status r2)) eqn:Ed.
  - destruct (Hann Ed) as (name & text & Hname & Htext).
    unfold fire_detection_event, fire. simpl. rewrite Hp2, Hname, Htext. simpl.
    eexists _, [_]. split; [reflexivity|]. split; [reflexivity|]. split_and!; try done.
    + repeat constructor; [exact Hid|exact Ed].
    + intros st. unfold detections. simpl. unfold detects. simpl. by case_bool_decide.
  - exists (with_scan s0 sc2), []. rewrite app_nil_r. by split_and!.
Qed.

(** The descriptor that a context opened is closed. *)
Lemma descriptor_closed sc fd fds :
  fds_balanced fds -> st_fds sc = fds ++ (if fd <? 0 then [] else [FdOpened fd]) ->
  exists sc', (if fd <? 0 then sc else {| st_conf := st_conf sc; st_world := st_world sc; st_fds := st_fds sc ++ [FdClosed fd] |}) = sc' /\
    st_conf sc' = st_conf (W := W) sc /\ fds_balanced (st_fds sc').
Proof.
  intros Hfd E. eexists. split; [reflexivity|]. destruct (fd <? 0); (split; [done|]); simpl; rewrite E.
  - by rewrite app_nil_r.
  - rewrite <- app_assoc. by apply fds_balanced_snoc.
Qed.

Lemma scan_file_inv n s p :
  inv n s -> 0 <= n -> n + 1 < 2 ^ 31 ->
  exists s', scan_file os modules clock s (Some p) = Ok s' /\ inv (n + 1) s' /\ s_pool s' = s_pool s.
Proof.
  intros Hinv Hn Hb. destruct (see_count_inv n s Hinv) as [Hinv0 Hpool0]. unfold scan_file.
  revert Hinv0 Hpool0. generalize (see_count s) as s0. intros s0 Hinv0 <-. clear s Hinv.
  destruct Hinv0 as [Hc Hsc Hev Hfd Hto Hsame].
  destruct (context_get_total os modules magic_answers p (a6o_report_init (Some p)) (s_scan s0) Hc)
    as (ctx & r1 & sc1 & f & -> & Hf & Hw & Hc1 & Hp1 & Hfds1 & Hst). cbn [mbind outcome_bind].
  destruct (context_scan_total p ctx r1 sc1 f Hf Hc1 Hp1 Hst) as (r2 & sc2 & -> & Hann & Hp2 & Hc2 & Hfds2).
  cbn [mbind outcome_bind]. rewrite Hp2.
  rewrite (bool_decide_eq_true_2 (Some p <> None)), andb_true_r by done.
  destruct (detection_fired p s0 sc2 r2 Hann Hp2) as (s1 & evs1 & -> & He1 & Hse1 & Hd1 & Hod1 & Hscan1 & Hpool1 & Hcnt1); [apply Hsame|].
  cbn [mbind outcome_bind].
  set (s2 := with_od s1 (update_counters (s_od s1) r2)).
  destruct (update_progress_ok s2 r2) as (s3 & evs3 & -> & He3 & Hse3 & Hd3 & Hscan3 & Hpool3 & Hcnt3 & t & v & Hod3).
  { subst s2. simpl. rewrite Hod1, Hsc, i32_small by lia. lia. }
  { subst s2. simpl. rewrite Hod1. apply Hto. }
  cbn [mbind outcome_bind]. unfold a6o_scan_context_destroy, a6o_scan_context_close. rewrite Hf.
  assert (s_scan s3 = sc2) as Escan by (rewrite Hscan3; exact Hscan1). rewrite <- Escan in Hc2, Hfds2. rewrite Hfds1 in Hfds2.
  destruct (descriptor_closed (s_scan s3) (ctx_fd f) (st_fds (s_scan s0)) Hfd Hfds2) as (sc4 & Esc4 & Econf & Hbal).
  exists (with_scan s3 sc4). split; [rewrite <- Esc4; by destruct (ctx_fd f <? 0)|].
  destruct Hev as (mid & Emid & Hmid & Hmal & Hsus & Hle).
  assert (detections A6O_FILE_MALWARE mid <= n /\ detections A6O_FILE_SUSPICIOUS mid <= n) as [Hle1 Hle2]
    by (unfold detections in *; lia).
  split; [|simpl; rewrite Hpool3; subst s2; simpl; by rewrite Hpool1].
  subst s2. simpl in He3, Hse3, Hod3, Hcnt3. rewrite Hod1 in Hod3.
  assert (od_scan_id (s_od s1) = od_scan_id od0) as Eid by (rewrite Hod1; apply Hsame). rewrite Eid in Hse3. split; simpl.
  - by rewrite Econf.
  - rewrite Hod3. simpl. by rewrite Hsc, i32_small by lia.
  - exists (mid ++ evs1 ++ evs3). rewrite He3, He1, Emid, <- !app_assoc. split; [done|].
    rewrite !detections_app, !Hd1, !Hd3, Hod3. simpl. rewrite Hmal, Hsus.
    split; [by apply Forall_app_2; [|apply Forall_app_2]|].
    destruct (r_status r2); simpl; rewrite ?i32_small by (unfold detections in *; lia); lia.
  - done.
  - rewrite Hod3, Hcnt3, Hcnt1. exact Hto.
  - rewrite Hod3. simpl. exact Hsame.
Qed.

End invariant.
