(* ===== verification/OnDemandSpec.v ===== *)
(** * What an on-demand scan guarantees *)
From S2P Require Import Prelude Status Dir Module ScanConf ScanCtx Event ScanSpec OnDemand OnDemandTheory.

#[local] Open Scope Z_scope.

Definition od_init {W} (od : a6o_on_demand) (sc : scan_state W) : od_state W :=
  {| s_od := od; s_scan := sc; s_events := []; s_pool := []; s_tick := 0; s_counting := None |}.

Lemma length_cons_Z (n : nat) : Z.of_nat (S n) = 1 + Z.of_nat n.
Proof. lia. Qed.

Lemma omap_id_length {A} (l : list (option A)) : Forall is_Some l -> length (omap id l) = length l.
Proof. induction 1 as [|o l [p ->] _ IH]; [done|]. cbn. by f_equal. Qed.

Section runs.
Context {W : Type} (os : os_answers) (modules : list (a6o_module W)) (clock : nat -> Z).
Context (od0 : a6o_on_demand) (first : list a6o_event).
Hypothesis magic_answers : forall fd, magic_buffer os fd <> None.
#[local] Abbreviation inv := (run_inv modules od0 first).

Lemma handle_all_inv l n s :
  inv n s -> has_flag (od_flags od0) A6O_SCAN_THREADED = false -> Forall is_Some l ->
  0 <= n -> n + Z.of_nat (length l) < 2 ^ 31 ->
  exists s', handle_all os modules clock l s = Ok s' /\ inv (n + Z.of_nat (length l)) s' /\
    s_pool s' = s_pool s.
Proof.
  intros Hinv Hflag Hl. revert n s Hinv.
  induction Hl as [|o l [p ->] Hl IH]; intros n s Hinv Hn Hb; cbn [length handle_all] in *.
  { exists s. by rewrite Z.add_0_r. }
  unfold handle. destruct (inv_same _ _ _ _ _ Hinv) as (_ & _ & Ef & _).
  rewrite Ef, Hflag.
  destruct (scan_file_inv os modules clock od0 first magic_answers n s p) as (s1 & -> & Hinv1 & Hp1);
    [done|done|lia|]. simpl.
  destruct (IH (n + 1) s1 Hinv1) as (s2 & -> & Hinv2 & Hp2); [lia|lia|].
  exists s2. rewrite Hp2, length_cons_Z, Z.add_assoc. by split.
Qed.

Lemma handle_all_push l n s :
  inv n s -> has_flag (od_flags od0) A6O_SCAN_THREADED = true ->
  exists s', handle_all os modules clock l s = Ok s' /\ inv n s' /\
    s_pool s' = s_pool s ++ omap id l.
Proof.
  intros Hinv Hflag. revert s Hinv. induction l as [|o l IH]; intros s Hinv; simpl.
  { exists s. by rewrite app_nil_r. }
  unfold handle. destruct (inv_same _ _ _ _ _ Hinv) as (_ & _ & Ef & _). rewrite Ef, Hflag. simpl.
  destruct o as [p|]; [|by apply IH].
  destruct (IH (push_pool s p)) as (s' & -> & Hinv' & Hp'); [by destruct Hinv; split|].
  exists s'. split; [done|]. split; [done|]. rewrite Hp'. simpl. by rewrite <- app_assoc.
Qed.

Lemma run_pool_inv l n s :
  inv n s -> 0 <= n -> n + Z.of_nat (length l) < 2 ^ 31 ->
  exists s', run_pool os modules clock l s = Ok s' /\ inv (n + Z.of_nat (length l)) s'.
Proof.
  revert n s. induction l as [|p l IH]; intros n s Hinv Hn Hb; cbn [length run_pool] in *.
  { exists s. by rewrite Z.add_0_r. }
  destruct (scan_file_inv os modules clock od0 first magic_answers n s p) as (s1 & -> & Hinv1 & _);
    [done|done|lia|]. simpl.
  destruct (IH (n + 1) s1 Hinv1) as (s2 & -> & Hinv2); [lia|lia|].
  exists s2. rewrite length_cons_Z, Z.add_assoc. by split.
Qed.

End runs.

(** The outcome a client sees of a run over [files] file scans. *)
Definition run_report {W} (od : a6o_on_demand) (files : Z) (s : od_state W) : Prop :=
  exists t1 mid t2 duration,
    s_events s =
      {| ev_timestamp := t1;
         ev_u := ev_on_demand_start {| se_scan_id := od_scan_id od; se_root_path := Some (od_root_path od) |} |}
      :: mid ++
      [{| ev_timestamp := t2;
          ev_u := ev_on_demand_completed
            {| ce_scan_id := od_scan_id od; ce_cancelled := od_was_cancelled od;
               ce_total_malware_count := detections A6O_FILE_MALWARE mid;
               ce_total_suspicious_count := detections A6O_FILE_SUSPICIOUS mid;
               ce_total_scanned_count := files; ce_duration := duration |} |}] /\
    Forall (scan_event (od_scan_id od)) mid /\ fds_balanced (st_fds (s_scan s)).

(** The last steps of a run. *)
Lemma finish_run {W} (modules : list (a6o_module W)) clock od first n s :
  run_inv modules od [first] n s -> 0 <= n < 2 ^ 31 ->
  ev_u first = ev_on_demand_start {| se_scan_id := od_scan_id od; se_root_path := Some (od_root_path od) |} ->
  exists s', (let (stop, s) := get_milliseconds clock s in
              let s := with_od s (set_times (s_od s) (od_start_time (s_od s)) (stop - od_start_time (s_od s))) in
              fire_on_demand_completed_event clock s) = Ok s' /\ run_report od n s'.
Proof.
  intros [Hc Hsc (mid & Emid & Hmid & Hmal & Hsus & Hle) Hfd _ (Hr & Hi & _ & Hx)] Hn Hfirst.
  eexists. split; [reflexivity|]. unfold run_report. simpl. rewrite Emid. destruct first as [t1 u].
  simpl in Hfirst. subst u. eexists t1, mid, _, _. split; [|done]. simpl. do 2 f_equal.
  assert (detections A6O_FILE_MALWARE mid < 2 ^ 64 /\ detections A6O_FILE_SUSPICIOUS mid < 2 ^ 64)
    by (unfold detections in *; lia).
  rewrite Hi, Hx, Hmal, Hsus, Hsc. rewrite !u64_small by (unfold detections in *; lia). reflexivity.
Qed.

Section root.
Context {W : Type} (os : os_answers) (modules : list (a6o_module W)) (clock : nat -> Z) (env : run_env).
Context (od : a6o_on_demand) (first : list a6o_event).
Hypothesis magic_answers : forall fd, magic_buffer os fd <> None.
#[local] Abbreviation recurse := (has_flag (od_flags od) A6O_SCAN_RECURSE).
#[local] Abbreviation files := (scan_list recurse (env_tree env)).1.

Lemma count_to_scan_inv s :
  run_inv modules od first 0 s ->
  Z.of_nat (length (all_files recurse (env_count_tree env))) < 2 ^ 31 ->
  exists s', count_to_scan env s = Ok s' /\ run_inv modules od first 0 s' /\ s_pool s' = s_pool s.
Proof.
  intros [Hc Hsc Hev Hfd [Ht _] Hs] Hn. unfold count_to_scan, count_thread_fun.
  destruct Hs as (Hr & Hi & Hf & Hx). rewrite Hf.
  rewrite (proj1 (walk_counts recurse)) by (simpl; lia). simpl.
  eexists. split; [reflexivity|]. split; [|done]. split; simpl; try done.
  split; [done|]. intros k c [= <- <-]. lia.
Qed.

(** The walk and the pool together scan every listed file. *)
Lemma run_files_inv s :
  run_inv modules od first 0 s -> s_pool s = [] -> Forall is_Some files ->
  (forall l, env_schedule env l ≡ₚ l) -> Z.of_nat (length files) < 2 ^ 31 ->
  exists s', (s ← handle_all os modules clock files s; wait_pool os modules clock env s) = Ok s' /\
    run_inv modules od first (Z.of_nat (length files)) s'.
Proof.
  intros Hinv Hpool Hpaths Hsched Hsize. unfold wait_pool.
  destruct (has_flag (od_flags od) A6O_SCAN_THREADED) eqn:Ethr.
  - destruct (handle_all_push os modules clock od first files 0 s Hinv Ethr) as (s2 & -> & Hinv2 & Hpool2).
    cbn [mbind outcome_bind]. destruct (inv_same _ _ _ _ _ Hinv2) as (_ & _ & -> & _). rewrite Ethr.
    assert (length (env_schedule env (s_pool s2)) = length files) as <-.
    { rewrite (Permutation_length (Hsched _)), Hpool2, Hpool. simpl. by apply omap_id_length. }
    destruct (run_pool_inv os modules clock od first magic_answers (env_schedule env (s_pool s2)) 0
      {| s_od := s_od s2; s_scan := s_scan s2; s_events := s_events s2; s_pool := [];
         s_tick := s_tick s2; s_counting := s_counting s2 |}) as (s3 & E & Hinv3);
      [by destruct Hinv2; split|done| |by exists s3].
    rewrite (Permutation_length (Hsched _)), Hpool2, Hpool. simpl. by rewrite omap_id_length.
  - destruct (handle_all_inv os modules clock od first magic_answers files 0 s Hinv Ethr Hpaths)
      as (s2 & -> & Hinv2 & _); [done|lia|].
    cbn [mbind outcome_bind]. destruct (inv_same _ _ _ _ _ Hinv2) as (_ & _ & -> & _). rewrite Ethr.
    by exists s2.
Qed.

Lemma run_root_inv s :
  run_inv modules od first 0 s -> s_pool s = [] -> Forall is_Some files ->
  (forall l, env_schedule env l ≡ₚ l) -> Z.of_nat (length files) < 2 ^ 31 ->
  Z.of_nat (length (all_files recurse (env_count_tree env))) < 2 ^ 31 ->
  env_root_flags env = FILE_FLAG_IS_DIRECTORY ->
  exists s', (s ← run_root os modules clock env s; wait_pool os modules clock env s) = Ok s' /\
    run_inv modules od first (Z.of_nat (length files)) s'.
Proof.
  intros Hinv Hpool Hpaths Hsched Hsize Hcount Hdir. unfold run_root. rewrite Hdir.
  change (has_flag FILE_FLAG_IS_DIRECTORY FILE_FLAG_IS_PLAIN_FILE) with false.
  change (has_flag FILE_FLAG_IS_DIRECTORY FILE_FLAG_IS_DIRECTORY) with true. cbn iota.
  assert (exists s1, (if od_progress_period (s_od s) =? 0 then Ok s else count_to_scan env s) = Ok s1 /\
    run_inv modules od first 0 s1 /\ s_pool s1 = []) as (s1 & -> & Hinv1 & Hpool1).
  { destruct (od_progress_period (s_od s) =? 0); [by exists s|]. rewrite <- Hpool.
    by apply count_to_scan_inv. }
  cbn [mbind outcome_bind]. rewrite (proj1 (walk_handles _ os modules clock)).
  destruct (inv_same _ _ _ _ _ Hinv) as (_ & _ & -> & _).
  destruct (run_files_inv s1 Hinv1 Hpool1 Hpaths Hsched Hsize) as (s' & E & Hinv').
  destruct (handle_all os modules clock files s1); [|done]. by exists s'.
Qed.

End root.

Lemma run_reported {W} (os : os_answers) (modules : list (a6o_module W)) (clock : nat -> Z)
    (root : string) (scan_id flags : Z) (send_progress : bool) (sc : scan_state W) (env : run_env)
    (od : a6o_on_demand)
    (Hnew : a6o_on_demand_new (Some root) scan_id flags send_progress = Some od)
    (Hdir : env_root_flags env = FILE_FLAG_IS_DIRECTORY)
    (Hmagic : forall fd, magic_buffer os fd <> None)
    (Hsound : conf_sound modules (st_conf sc)) (Hfds : fds_balanced (st_fds sc))
    (Hpaths : Forall is_Some (scan_list (has_flag flags A6O_SCAN_RECURSE) (env_tree env)).1)
    (Hsched : forall l, env_schedule env l ≡ₚ l)
    (Hsize : Z.of_nat (length (scan_list (has_flag flags A6O_SCAN_RECURSE) (env_tree env)).1) < 2 ^ 31)
    (Hcount : Z.of_nat (length (all_files (has_flag flags A6O_SCAN_RECURSE) (env_count_tree env))) < 2 ^ 31) :
  exists s, a6o_on_demand_run os modules clock env (od_init od sc) = Ok s /\
    run_report od (Z.of_nat (length (scan_list (has_flag flags A6O_SCAN_RECURSE) (env_tree env)).1)) s.
Proof.
  unfold a6o_on_demand_new in Hnew. simpl in Hnew. injection Hnew as <-.
  set (od := {| od_root_path := root |}). unfold a6o_on_demand_run. cbn [get_milliseconds].
  match goal with |- context [fire_on_demand_start_event clock ?st] => set (s0 := st) end.
  unfold fire_on_demand_start_event, fire. cbn [a6o_event_new mbind outcome_bind].
  simpl on_demand_start_event_clone. simpl fmap. cbn [mbind outcome_bind].
  set (start := Event _ _). match goal with |- context [run_root os modules clock env ?st] => set (s1 := st) end.
  assert (run_inv modules od [start] 0 s1) as Hinv1.
  { split; try done. exists []. by split_and!. }
  destruct (run_root_inv os modules clock env od [start] Hmagic s1 Hinv1) as (s3 & E & Hinv3); try done.
  destruct (run_root os modules clock env s1) as [s2|]; [|done].
  cbn [mbind outcome_bind] in *. rewrite E. cbn [mbind outcome_bind].
  by apply (finish_run modules clock od start); [|lia|].
Qed.


(** A run over a small tree with two modules and four pool threads. *)
Definition sample_tree : dir_tree :=
  Readable
    (Entry "." DT_DIR (Some "/home") (Unreadable 0)
    (Entry "ls" DT_REG (Some "/home/ls") (Unreadable 0)
    (Entry "sub" DT_DIR (Some "/home/sub")
      (Readable (Entry "tmp" DT_FIFO (Some "/home/sub/tmp") (Unreadable 0)
                (Entry "cc" DT_REG (Some "/home/sub/cc") (Unreadable 0) (EndOfDir 0))))
    (Entry "ld" DT_REG (Some "/home/ld") (Unreadable 0) (EndOfDir 0))))).

Definition sample_env : run_env :=
  {| env_root_flags := FILE_FLAG_IS_DIRECTORY; env_tree := sample_tree; env_count_tree := sample_tree;
     env_count_seen := 1; env_schedule := @rev string |}.

Definition sample_scan_modules : list (a6o_module unit) :=
  [plain_module "moduleH1" (Some ["*"]) (verdict A6O_FILE_SUSPICIOUS (Some "packed"));
   plain_module "clamav" (Some ["application/x-executable"]) (verdict A6O_FILE_CLEAN None)].

Definition sample_scan : scan_state unit :=
  {| st_conf := {| sc_name := "on-demand scan configuration"; sc_max_file_size := 0; sc_mime_types := ["*"];
                   sc_modules := [0; 1]%nat; sc_mime_type_cache := ∅; sc_directories_white_list := ["/home/ls"] |};
     st_world := tt; st_fds := [] |}.

Lemma sample_scan_sound : conf_sound sample_scan_modules (st_conf sample_scan).
Proof.
  split_and!; [by intros ???|by repeat constructor; eexists _, _|].
  repeat constructor; (eexists; split; [reflexivity|]; eexists; split; [reflexivity|]; intros fd path mime w);
    (split; [by eexists|done]).
Qed.

Definition sample_od : a6o_on_demand :=
  {| od_root_path := "/home"; od_scan_id := 42; od_flags := A6O_SCAN_STANDARD; od_start_time := 0;
     od_duration := 0; od_to_scan_count := 0; od_scanned_count := 0; od_malware_count := 0;
     od_suspicious_count := 0; od_was_cancelled := 0; od_progress_period := DEFAULT_PROGRESS_PERIOD;
     od_last_progress_time := 0; od_last_progress_value := A6O_ON_DEMAND_PROGRESS_UNKNOWN |}.


(** C22: Which files a scan reaches.  The directory walk hands the plain files of
    [scan_list] to the scan, in the order of [readdir], and returns 0 unless the root
    itself cannot be opened; these are always files of the tree, and all of them when
    every directory met can be opened, but a subdirectory that cannot be opened ends
    the listing of the directory that holds it.  The counting thread's walk, whose
    callback ignores errors, always counts every file of the readable directories, so
    the two disagree exactly when files were skipped. *)
Theorem walk_coverage {W} (os : os_answers) (modules : list (a6o_module W)) (clock : nat -> Z)
    (recurse : bool) (path : string) (t : dir_tree) (s : od_state W)
    (Hsize : Z.of_nat (length (all_files recurse t)) < 2 ^ 31) :
  os_dir_map (scan_entry os modules clock) recurse path t s =
    (s' ← handle_all os modules clock (scan_list recurse t).1 s;
     Ok (if (scan_list recurse t).2 then 1 else 0, s')) /\
  (scan_list recurse t).1 `sublist_of` all_files recurse t /\
  (readable recurse t = true -> scan_list recurse t = (all_files recurse t, false)) /\
  os_dir_map count_entry recurse path t 0 = Ok (0, Z.of_nat (length (all_files recurse t))).
Proof.
  split_and!.
  - apply walk_handles.
  - apply scan_list_sublist.
  - apply scan_list_readable.
  - by apply walk_counts.
Qed.

(** [/home/secret] cannot be opened: [/home/zz], listed after it, is not scanned. *)
Definition partly_readable : dir_tree :=
  Readable
    (Entry "aa" DT_REG (Some "/home/aa") (Unreadable 0)
    (Entry "secret" DT_DIR (Some "/home/secret") (Unreadable 13)
    (Entry "zz" DT_REG (Some "/home/zz") (Unreadable 0) (EndOfDir 0)))).

Lemma walk_coverage_witness :
  os_dir_map (scan_entry sample_os sample_scan_modules Z.of_nat) true "/home" partly_readable
      (od_init sample_od sample_scan) =
    (s' ← handle_all sample_os sample_scan_modules Z.of_nat [Some "/home/aa"] (od_init sample_od sample_scan);
     Ok (0, s')) /\
  os_dir_map count_entry true "/home" partly_readable 0 = Ok (0, 2) /\
  scan_list true sample_tree = ([Some "/home/ls"; Some "/home/sub/cc"; Some "/home/ld"], false).
Proof.
  split_and!.
  - by apply (walk_coverage sample_os sample_scan_modules Z.of_nat true "/home" partly_readable).
  - by apply (walk_coverage sample_os sample_scan_modules Z.of_nat true "/home" partly_readable
      (od_init sample_od sample_scan)).
  - by apply (walk_coverage sample_os sample_scan_modules Z.of_nat true "/home" sample_tree
      (od_init sample_od sample_scan)).
Defined.

(** The context got for a NULL path holds nothing but its status. *)
Lemma scan_file_null {W} os modules clock (s : od_state W) :
  scan_file os modules clock s None = Fault UninitRead.
Proof.
  unfold scan_file. generalize (see_count s) as s0. intros s0. unfold a6o_scan_context_get.
  cbn. unfold update_progress. cbn.
  rewrite andb_false_r. cbn. by repeat case_match.
Qed.

(** A file without a real path ends a non-threaded scan.  In such a scan of a
    directory, as soon as the walk reaches a plain file whose [realpath] fails (it
    was removed in the meantime, or a directory above it is not accessible), the scan
    destroys a context whose descriptor was never assigned. *)
Theorem null_path_faults {W} (os : os_answers) (modules : list (a6o_module W)) (clock : nat -> Z)
    (recurse : bool) (path : string) (t : dir_tree) (s : od_state W) (od : a6o_on_demand)
    (before : list (option string)) (after : list (option string))
    (Hmagic : forall fd, magic_buffer os fd <> None)
    (Hrun : run_inv modules od [] 0 s)
    (Hflag : has_flag (od_flags od) A6O_SCAN_THREADED = false)
    (Hfiles : (scan_list recurse t).1 = before ++ None :: after) (Hbefore : Forall is_Some before)
    (Hsize : Z.of_nat (length before) < 2 ^ 31) :
  os_dir_map (scan_entry os modules clock) recurse path t s = Fault UninitRead.
Proof.
  rewrite (proj1 (walk_handles _ os modules clock)), Hfiles, handle_all_app.
  destruct (handle_all_inv os modules clock od [] Hmagic before 0 s Hrun Hflag Hbefore)
    as (s' & -> & Hinv & _); [done|lia|]. cbn [mbind outcome_bind handle_all].
  unfold handle. destruct (inv_same _ _ _ _ _ Hinv) as (_ & _ & -> & _). rewrite Hflag.
  by rewrite scan_file_null.
Qed.

Definition sample_serial_od : a6o_on_demand :=
  {| od_root_path := "/home"; od_scan_id := 42; od_flags := A6O_SCAN_RECURSE; od_start_time := 0;
     od_duration := 0; od_to_scan_count := 0; od_scanned_count := 0; od_malware_count := 0;
     od_suspicious_count := 0; od_was_cancelled := 0; od_progress_period := 0;
     od_last_progress_time := 0; od_last_progress_value := A6O_ON_DEMAND_PROGRESS_UNKNOWN |}.

Lemma null_path_faults_witness :
  os_dir_map (scan_entry sample_os sample_scan_modules Z.of_nat) true "/home"
    (Readable (Entry "a" DT_REG (Some "/home/a") (Unreadable 0)
              (Entry "gone" DT_REG None (Unreadable 0) (EndOfDir 0))))
    (od_init sample_serial_od sample_scan) = Fault UninitRead.
Proof.
  apply (null_path_faults sample_os sample_scan_modules Z.of_nat true "/home" _ _ sample_serial_od
           [Some "/home/a"] []); try done.
  - split; try done; [exact sample_scan_sound| |by exists []]. exists []. by split_and!.
  - repeat constructor. by eexists.
Defined.

(** A detection without a text crashes the scanner.  When the first applicable
    module that runs reports a file as malware and leaves the report text NULL, the
    scan of that file dereferences NULL while it copies the text into the detection
    event: the event is never fired and the run does not complete. *)
Theorem silent_detection_crashes {W} (os : os_answers) (modules : list (a6o_module W)) (clock : nat -> Z)
    (s : od_state W) (path mime : string) (i : nat) (rest : list nat) (m : a6o_module W) f (w' : W)
    (Hconf : cache_ok modules (st_conf (s_scan s)) /\ modules_declared modules (st_conf (s_scan s)))
    (Hlisted : a6o_scan_conf_is_white_listed (st_conf (s_scan s)) path = false)
    (Hopen : 0 <= os_open os path) (Hread : 0 <= os_read os (os_open os path))
    (Hmime : magic_buffer os (os_open os path) = Some mime)
    (Hseek : os_lseek_ok os (os_open os path) = true)
    (Hmods : modules_for modules (st_conf (s_scan s)) mime = Some (i :: rest))
    (Hm : modules !! i = Some m) (Hok : mod_status m = A6O_MOD_OK) (Hf : mod_scan_fun m = Some f)
    (Hanswer : f (os_open os path) (Some path) mime (st_world (s_scan s)) = ((A6O_FILE_MALWARE, None), w')) :
  scan_file os modules clock s (Some path) = Fault NullDeref.
Proof.
  unfold scan_file. assert (s_scan (see_count s) = s_scan s) as Escan
    by (unfold see_count; by destruct (s_counting s) as [[[|] ?]|]).
  revert Escan. generalize (see_count s) as s0. intros s0 Escan.
  unfold a6o_scan_context_get. rewrite Escan, (bool_decide_eq_false_2 (Some path = None)), andb_false_r by done.
  rewrite Hlisted. change (-1 <? 0) with true. cbn iota beta zeta.
  replace (os_open os path <? 0) with false by lia. cbn iota beta zeta.
  unfold os_mime_type_guess_fd. replace (os_read os (os_open os path) <? 0) with false by lia. rewrite Hmime.
  cbn [mbind outcome_bind st_conf]. destruct Hconf as [Hcache Hdecl].
  pose proof (get_applicable_modules_spec modules (st_conf (s_scan s)) mime Hcache) as Hget.
  rewrite applicable_spec_modules_for in Hget by done. destruct Hget as (c' & E & _ & _).
  unfold a6o_scan_conf_get_applicable_modules. rewrite E. cbn [mbind outcome_bind fst snd]. rewrite Hmods.
  cbn [mbind outcome_bind ctx_status a6o_scan_context_scan ctx_rest ctx_applicable_modules ctx_mime_type
       ctx_fd ctx_path st_world scan_apply_modules apply_loop].
  unfold scan_apply_modules. cbn [apply_loop].
  rewrite Hm, (bool_decide_eq_false_2 (mod_status m <> _)) by (by intros []).
  rewrite Hseek. cbn [negb]. rewrite Hf, Hanswer. reflexivity.
Qed.

Lemma silent_detection_crashes_witness :
  scan_file sample_os [plain_module "m" (Some ["*"]) (verdict A6O_FILE_MALWARE None)] Z.of_nat
    (od_init sample_serial_od
      {| st_conf := {| sc_name := "on-demand scan configuration"; sc_max_file_size := 0; sc_mime_types := ["*"];
                       sc_modules := [0]%nat; sc_mime_type_cache := ∅; sc_directories_white_list := [] |};
         st_world := tt; st_fds := [] |}) (Some "/home/a") = Fault NullDeref.
Proof.
  eapply (silent_detection_crashes sample_os [_] Z.of_nat _ "/home/a" "application/x-executable" 0 []);
    try reflexivity; try done.
  split; [by intros ???|]. by repeat constructor; eexists _, _.
Defined.
