(* ===== verification/Json.v ===== *)
(** * JSON values: the interface to the jansson library

    Jansson is not part of the repository.  The class [Jansson] lists the functions
    the JSON-RPC library calls and [JanssonLaws] their documented behaviour; the
    protocol is modelled and verified against this interface.  [jtree] is a concrete
    implementation of it. *)
From S2P Require Import Prelude.

#[local] Open Scope Z_scope.

Inductive json_type :=
  | JSON_OBJECT | JSON_ARRAY | JSON_STRING | JSON_INTEGER | JSON_REAL | JSON_TRUE | JSON_FALSE | JSON_NULL.

#[export] Instance json_type_eq_dec : EqDecision json_type.
Proof. solve_decision. Defined.

(** The arguments of a [json_pack] of an object: formats [s], [i] or [I], and [o]. *)
Inductive pack_arg (json : Type) :=
  | PackS (s : string)
  | PackI (z : Z)
  | PackO (o : option json).
Arguments PackS {json} s.
Arguments PackI {json} z.
Arguments PackO {json} o.

(** The formats of a [json_unpack] of an object, and what it stores: [s], [i], [s?o],
    [s?i]; an optional field that is missing stores nothing. *)
Inductive unpack_fmt := FmtS | FmtI | FmtOptO | FmtOptI.

Inductive unpacked (json : Type) :=
  | UnS (s : string)
  | UnO (o : option json)
  | UnI (z : option Z).
Arguments UnS {json} s.
Arguments UnO {json} o.
Arguments UnI {json} z.

Class Jansson (json : Type) := {
  json_typeof : json -> json_type;
  json_object_get : json -> string -> option json;
  json_object_set : json -> string -> json -> json;
  json_string : string -> json;
  json_string_value : json -> option string;
  json_integer : Z -> json;
  json_integer_value : json -> Z;
  json_null : json;
  (** strings that are valid UTF-8 *)
  json_utf8 : string -> bool;
  json_object : json;
  json_array : json;
  json_array_append : json -> json -> json;
  (** what [json_array_foreach] goes through: nothing when it is not an array *)
  json_array_elems : json -> list json;
  json_pack : list (string * pack_arg json) -> option json;
  json_unpack : json -> list (string * unpack_fmt) -> option (list (unpacked json));
  (** the chunks passed to the callback of [json_dump_callback] with JSON_COMPACT *)
  json_dump_callback : json -> option (list (list ascii));
  (** with JSON_DISABLE_EOF_CHECK *)
  json_loadb : list ascii -> option json;
}.

Definition json_is_string {json} `{Jansson json} (j : json) : bool := bool_decide (json_typeof j = JSON_STRING).
Definition json_is_integer {json} `{Jansson json} (j : json) : bool := bool_decide (json_typeof j = JSON_INTEGER).
Definition json_is_null {json} `{Jansson json} (j : json) : bool := bool_decide (json_typeof j = JSON_NULL).

(** A NULL or invalid string gives NULL, which cannot be set in an object. *)
Definition json_string_opt {json} `{Jansson json} (s : option string) : option json :=
  s ← s; if json_utf8 s then Some (json_string s) else None.
Definition json_object_set_new {json} `{Jansson json} (obj : json) (key : string) (v : option json) : json :=
  match v with Some v => json_object_set obj key v | None => obj end.

(** What a field packs to; a NULL object or a string that is not UTF-8 fails. *)
Definition packed {json} `{Jansson json} (a : pack_arg json) : option json :=
  match a with
  | PackS s => if json_utf8 s then Some (json_string s) else None
  | PackI z => Some (json_integer z)
  | PackO o => o
  end.

(** What a format stores for a field. *)
Definition unpack_field {json} `{Jansson json} (v : option json) (f : unpack_fmt) : option (unpacked json) :=
  match f, v with
  | FmtS, Some v => if json_is_string v then UnS <$> json_string_value v else None
  | FmtI, Some v => if json_is_integer v then Some (UnI (Some (i32 (json_integer_value v)))) else None
  | FmtS, None | FmtI, None => None
  | FmtOptO, v => Some (UnO v)
  | FmtOptI, Some v => if json_is_integer v then Some (UnI (Some (i32 (json_integer_value v)))) else None
  | FmtOptI, None => Some (UnI None)
  end.

(** Strings of 7-bit characters. *)
Definition is_ascii (s : string) : bool := forallb (fun c => uchar c <? 128) (bytes s).

(** First value of a key. *)
Fixpoint field {A} (l : list (string * A)) (key : string) : option A :=
  match l with
  | [] => None
  | (k, v) :: l => if decide (k = key) then Some v else field l key
  end.

Class JanssonLaws (json : Type) `{Jansson json} : Prop := {
  utf8_ascii s : is_ascii s = true -> json_utf8 s = true;
  typeof_string s : json_utf8 s = true -> json_typeof (json_string s) = JSON_STRING;
  string_value_string s : json_utf8 s = true -> json_string_value (json_string s) = Some s;
  typeof_integer z : json_typeof (json_integer z) = JSON_INTEGER;
  integer_value_integer z : - 2 ^ 63 <= z < 2 ^ 63 -> json_integer_value (json_integer z) = z;
  typeof_null : json_typeof json_null = JSON_NULL;
  string_value_some j : json_typeof j = JSON_STRING -> exists s, json_string_value j = Some s /\ json_utf8 s = true;
  integer_value_range j : - 2 ^ 63 <= json_integer_value j < 2 ^ 63;
  typeof_object : json_typeof json_object = JSON_OBJECT;
  object_empty key : json_object_get json_object key = None;
  typeof_array : json_typeof json_array = JSON_ARRAY;
  array_empty : json_array_elems json_array = [];
  append_array a v : json_typeof a = JSON_ARRAY ->
    json_typeof (json_array_append a v) = JSON_ARRAY /\
    json_array_elems (json_array_append a v) = json_array_elems a ++ [v];
  (** packing fails on a field that cannot be packed, otherwise makes the object of the fields *)
  pack_fails l k a : (k, a) ∈ l -> packed a = None -> json_pack l = None;
  pack_object l : NoDup (l.*1) -> Forall (fun f => is_Some (packed f.2)) l ->
    exists o, json_pack l = Some o /\ json_typeof o = JSON_OBJECT /\
      forall key, json_object_get o key = field l key ≫= packed;
  set_object o k v : json_typeof o = JSON_OBJECT ->
    json_typeof (json_object_set o k v) = JSON_OBJECT /\
    forall key, json_object_get (json_object_set o k v) key = if decide (k = key) then Some v else json_object_get o key;
  get_object o key v : json_object_get o key = Some v -> json_typeof o = JSON_OBJECT;
  (** unpacking checks every field of an object *)
  unpack_object o fs : json_typeof o = JSON_OBJECT ->
    json_unpack o fs = mapM (fun f => unpack_field (json_object_get o f.1) f.2) fs;
  unpack_other o fs : json_typeof o <> JSON_OBJECT -> json_unpack o fs = None;
  (** a text that was dumped fits in memory; whatever follows, it is parsed back *)
  dump_bound o chunks : json_dump_callback o = Some chunks -> Z.of_nat (length (concat chunks)) < 2 ^ 61;
  load_dump o chunks rest : json_typeof o = JSON_OBJECT -> json_dump_callback o = Some chunks ->
    json_loadb (concat chunks ++ rest) = Some o;
}.

(** ** An implementation

    Objects and arrays are chains of fields and elements; the text is a prefix code.
    Every byte string is accepted as text, and integers are those of 64 bits. *)
Module Tree.

Inductive jtree :=
  | JNull | JTrue | JFalse
  | JInt (z : Z)
  | JStr (s : string)
  | JEmptyObj
  | JField (key : string) (value rest : jtree)
  | JEmptyArr
  | JElem (value rest : jtree).

Definition typeof (t : jtree) : json_type :=
  match t with
  | JNull => JSON_NULL | JTrue => JSON_TRUE | JFalse => JSON_FALSE
  | JInt _ => JSON_INTEGER | JStr _ => JSON_STRING
  | JEmptyObj | JField _ _ _ => JSON_OBJECT
  | JEmptyArr | JElem _ _ => JSON_ARRAY
  end.

Fixpoint get (t : jtree) (key : string) : option jtree :=
  match t with
  | JField k v rest => if decide (k = key) then Some v else get rest key
  | _ => None
  end.

Fixpoint put (t : jtree) (key : string) (value : jtree) : jtree :=
  match t with
  | JField k v rest => if decide (k = key) then JField k value rest else JField k v (put rest key value)
  | _ => JField key value JEmptyObj
  end.

Fixpoint append (t value : jtree) : jtree :=
  match t with
  | JElem v rest => JElem v (append rest value)
  | _ => JElem value JEmptyArr
  end.

Fixpoint elems (t : jtree) : list jtree :=
  match t with JElem v rest => v :: elems rest | _ => [] end.

Definition pack_value (a : pack_arg jtree) : option jtree :=
  match a with PackS s => Some (JStr s) | PackI z => Some (JInt z) | PackO o => o end.

Fixpoint pack (l : list (string * pack_arg jtree)) : option jtree :=
  match l with
  | [] => Some JEmptyObj
  | (k, a) :: l => v ← pack_value a; rest ← pack l; Some (JField k v rest)
  end.

Fixpoint enc_pos (p : positive) : list ascii :=
  match p with
  | xH => ["."%char] | xO p => "0"%char :: enc_pos p | xI p => "1"%char :: enc_pos p
  end.

Definition enc_int (z : Z) : list ascii :=
  match z with Z0 => ["0"%char] | Zpos p => "+"%char :: enc_pos p | Zneg p => "-"%char :: enc_pos p end.

Fixpoint enc_str (s : string) : list ascii :=
  match s with EmptyString => ["."%char] | String c s => "c"%char :: c :: enc_str s end.

Fixpoint enc (t : jtree) : list ascii :=
  match t with
  | JNull => ["n"%char] | JTrue => ["t"%char] | JFalse => ["f"%char]
  | JInt z => "i"%char :: enc_int z
  | JStr s => "s"%char :: enc_str s
  | JEmptyObj => ["o"%char]
  | JField k v rest => "k"%char :: enc_str k ++ enc v ++ enc rest
  | JEmptyArr => ["a"%char]
  | JElem v rest => ","%char :: enc v ++ enc rest
  end.

Fixpoint dec_pos (l : list ascii) : option (positive * list ascii) :=
  match l with
  | "."%char :: l => Some (xH, l)
  | "0"%char :: l => prod_map xO id <$> dec_pos l
  | "1"%char :: l => prod_map xI id <$> dec_pos l
  | _ => None
  end.

Definition dec_int (l : list ascii) : option (Z * list ascii) :=
  match l with
  | "0"%char :: l => Some (0, l)
  | "+"%char :: l => prod_map Zpos id <$> dec_pos l
  | "-"%char :: l => prod_map Zneg id <$> dec_pos l
  | _ => None
  end.

Fixpoint dec_str (l : list ascii) : option (string * list ascii) :=
  match l with
  | "."%char :: l => Some (EmptyString, l)
  | "c"%char :: c :: l => prod_map (String c) id <$> dec_str l
  | _ => None
  end.

(** [fuel] bounds the depth; the length of the text is enough. *)
Fixpoint dec (fuel : nat) (l : list ascii) : option (jtree * list ascii) :=
  match fuel, l with
  | S fuel, "n"%char :: l => Some (JNull, l)
  | S fuel, "t"%char :: l => Some (JTrue, l)
  | S fuel, "f"%char :: l => Some (JFalse, l)
  | S fuel, "i"%char :: l => prod_map JInt id <$> dec_int l
  | S fuel, "s"%char :: l => prod_map JStr id <$> dec_str l
  | S fuel, "o"%char :: l => Some (JEmptyObj, l)
  | S fuel, "k"%char :: l =>
      '(k, l) ← dec_str l; '(v, l) ← dec fuel l; '(rest, l) ← dec fuel l; Some (JField k v rest, l)
  | S fuel, "a"%char :: l => Some (JEmptyArr, l)
  | S fuel, ","%char :: l => '(v, l) ← dec fuel l; '(rest, l) ← dec fuel l; Some (JElem v rest, l)
  | _, _ => None
  end.

#[global] Instance jtree_jansson : Jansson jtree := {|
  json_typeof := typeof;
  json_object_get := get;
  json_object_set := put;
  json_string := JStr;
  json_string_value := fun t => match t with JStr s => Some s | _ => None end;
  json_integer := JInt;
  json_integer_value := fun t => match t with JInt z => i64 z | _ => 0 end;
  json_object := JEmptyObj;
  json_array := JEmptyArr;
  json_array_append := append;
  json_array_elems := elems;
  json_null := JNull;
  json_utf8 := fun _ => true;
  json_pack := pack;
  json_unpack := fun t fs =>
    match typeof t with
    | JSON_OBJECT =>
        mapM (fun f => match f.2, get t f.1 with
          | FmtS, Some (JStr s) => Some (UnS s)
          | FmtI, Some (JInt z) | FmtOptI, Some (JInt z) => Some (UnI (Some (i32 (i64 z))))
          | FmtOptI, None => Some (UnI None)
          | FmtOptO, v => Some (UnO v)
          | _, _ => None
          end) fs
    | _ => None
    end;
  json_dump_callback := fun t =>
    match typeof t with
    | JSON_OBJECT | JSON_ARRAY => if Z.of_nat (length (enc t)) <? 2 ^ 61 then Some [enc t] else None
    | _ => None
    end;
  json_loadb := fun l => fst <$> dec (length l) l;
|}.

Lemma dec_enc_str s l : dec_str (enc_str s ++ l) = Some (s, l).
Proof. induction s as [|c s IH]; simpl; [done|]. by rewrite IH. Qed.

Lemma dec_enc_pos p l : dec_pos (enc_pos p ++ l) = Some (p, l).
Proof. induction p as [p IH|p IH|]; simpl; try done; by rewrite IH. Qed.

Lemma dec_enc_int z l : dec_int (enc_int z ++ l) = Some (z, l).
Proof. destruct z; simpl; try done; by rewrite dec_enc_pos. Qed.

Lemma dec_enc t fuel l : (length (enc t) <= fuel)%nat -> dec fuel (enc t ++ l) = Some (t, l).
Proof.
  revert fuel l. induction t as [| | |z|s| |k v IHv r IHr| |v IHv r IHr]; intros fuel l Hf;
    (destruct fuel as [|fuel]; [simpl in Hf; lia|]); cbn [enc app dec]; try done; simpl in Hf.
  - by rewrite dec_enc_int.
  - by rewrite dec_enc_str.
  - rewrite !length_app in Hf. rewrite <- !app_assoc, dec_enc_str. simpl.
    rewrite IHv by lia. simpl. by rewrite IHr by lia.
  - rewrite length_app in Hf. rewrite <- app_assoc, IHv by lia. simpl. by rewrite IHr by lia.
Qed.

Lemma pack_value_packed a : pack_value a = packed a.
Proof. by destruct a. Qed.

#[global] Instance jtree_laws : JanssonLaws jtree.
Proof.
  split; try done.
  - intros z Hz. by apply i64_small.
  - intros [] Hj; try done. by eexists.
  - intros []; try (simpl; lia). apply i64_bound.
  - intros a v Ha. cbn [json_typeof json_array_append json_array_elems jtree_jansson] in *.
    split; [by destruct a|]. clear Ha. induction a; try done. cbn [append elems app]. by f_equal.
  - intros l k a Hin Ha. rewrite <- pack_value_packed in Ha. cbn [json_pack jtree_jansson].
    induction l as [|[k' a'] l IH]; [by apply elem_of_nil in Hin|]. simpl.
    apply elem_of_cons in Hin as [[= <- <-]|Hin]; [by rewrite Ha|].
    destruct (pack_value a'); [|done]. simpl. by rewrite IH.
  - intros l _ Hall. cbn [json_pack json_typeof json_object_get jtree_jansson].
    induction Hall as [|[k a] l [v Hv] Hall (o & Ho & Ht & Hget)].
    + exists JEmptyObj. split_and!; try done.
    + simpl in Hv. exists (JField k v o). simpl. rewrite pack_value_packed, Hv. simpl. rewrite Ho. split_and!; try done.
      intros key. case_decide; [by rewrite <- Hv|apply Hget].
  - intros o k v Ho. cbn [json_typeof json_object_set json_object_get jtree_jansson].
    assert (forall t, typeof (put t k v) = JSON_OBJECT) as Hty by (intros []; simpl; repeat case_decide; done).
    split; [apply Hty|]. intros key. clear. induction o; simpl; repeat case_decide; simplify_eq/=; try done;
      repeat case_decide; simplify_eq/=; done.
  - intros o key v. by destruct o.
  - intros o fs Ho. cbn [json_unpack json_typeof json_object_get jtree_jansson] in *. rewrite Ho.
    apply Forall_mapM_ext, list.Forall_true. intros [k f]. simpl. unfold unpack_field.
    destruct f, (get o k) as [[]|]; done.
  - intros o fs Ho. cbn [json_unpack json_typeof jtree_jansson] in *. by destruct (typeof o).
  - intros o chunks. cbn [json_dump_callback jtree_jansson].
    assert (forall l, (if Z.of_nat (length l) <? 2 ^ 61 then Some [l] else None) = Some chunks ->
      Z.of_nat (length (concat chunks)) < 2 ^ 61) as Hl.
    { intros l. destruct (Z.ltb_spec (Z.of_nat (length l)) (2 ^ 61)); [|done]. intros [= <-].
      simpl. by rewrite app_nil_r. }
    destruct (typeof o); try done; apply Hl.
  - intros o chunks rest Ho. cbn [json_typeof json_dump_callback json_loadb jtree_jansson] in *.
    rewrite Ho. case_match; [|done]. intros [= <-]. simpl. rewrite app_nil_r, dec_enc; [done|]. rewrite length_app. lia.
Qed.

End Tree.
