(* ===== verification/Jrpc.v ===== *)
(** * The JSON-RPC protocol ([src/librpc/jrpc/mapper.c], [connection.c], [jrpc.c])

    A method, a result callback and an error handler are pointers to functions of the
    program that uses the library: numbers, with the functions they point to as
    parameters.  They run on the state of the connection and of the world [W], which
    also holds the transport of the two I/O callbacks.  The mutex around the
    connection only serialises whole steps of the model. *)
From S2P Require Import Prelude Hash Buffer Json.

#[local] Open Scope Z_scope.

(** ** Error codes ([libjrpc/error.h]) *)

Definition JRPC_OK : Z := 0.
Definition JRPC_EOF : Z := 1.
Definition JRPC_ERR_PARSE_ERROR : Z := -32700.
Definition JRPC_ERR_INVALID_REQUEST : Z := -32600.
Definition JRPC_ERR_METHOD_NOT_FOUND : Z := -32601.
Definition JRPC_ERR_INVALID_PARAMS : Z := -32602.
Definition JRPC_ERR_INTERNAL_ERROR : Z := -32603.
Definition JRPC_ERR_INVALID_RESPONSE_ID : Z := -32089.
Definition JRPC_ERR_INVALID_RESPONSE : Z := -32088.
Definition JRPC_ERR_METHOD_ERROR : Z := -30000.

Definition JRPC_ERR_IS_METHOD_ERROR (c : Z) : bool :=
  (JRPC_ERR_METHOD_ERROR <? c) && (c <? JRPC_ERR_METHOD_ERROR + 256).
Definition JRPC_ERR_METHOD_TO_CODE (e : Z) : Z := JRPC_ERR_METHOD_ERROR + Z.land e 0xff.
Definition JRPC_ERR_CODE_TO_METHOD (c : Z) : Z := Z.land (c - JRPC_ERR_METHOD_ERROR) 0xff.

(** ** The mapper *)

Record jrpc_mapper := Mapper {
  method_table : hash_table nat;
  error_message_table : hash_table string;
}.

Definition jrpc_mapper_new : jrpc_mapper :=
  {| method_table := hash_table_new HASH_KEY_STR true false;
     error_message_table := hash_table_new HASH_KEY_INT false false |}.

(** [p] is the address of the copy of the name. *)
Definition jrpc_mapper_add (m : jrpc_mapper) (p : Z) (method : string) (method_fun : nat)
    : outcome (Z * jrpc_mapper) :=
  r ← hash_table_insert (method_table m) (PStr p method) (Some method_fun);
  if r.1.1 =? 0 then Ok (1, m)
  else Ok (0, {| method_table := r.1.2; error_message_table := error_message_table m |}).

Definition jrpc_mapper_find (m : jrpc_mapper) (method : string) : outcome (option nat) :=
  hash_table_search (method_table m) (PStr 0 method).

Definition jrpc_mapper_add_error_message (m : jrpc_mapper) (error_code : Z) (error_message : string)
    : outcome (Z * jrpc_mapper) :=
  r ← hash_table_insert (error_message_table m) (H_INT_TO_POINTER (u8 error_code)) (Some error_message);
  if r.1.1 =? 0 then Ok (1, m)
  else Ok (0, {| method_table := method_table m; error_message_table := r.1.2 |}).

Definition jrpc_mapper_get_error_message (m : jrpc_mapper) (error_code : Z) : outcome (option string) :=
  hash_table_search (error_message_table m) (H_INT_TO_POINTER (u8 error_code)).

(** ** The connection *)

Record rpc_callback_entry := CallbackEntry { rcb_cb : nat; rcb_user_data : Z }.

Record jrpc_connection := Connection {
  cn_mapper : option jrpc_mapper;
  cn_current_id : Z;
  cn_response_table : hash_table rpc_callback_entry;
  cn_read_cb : bool;                     (** is a read callback installed? *)
  cn_write_cb : bool;
  cn_error_handler : option nat;
}.

Definition jrpc_connection_new (mapper : option jrpc_mapper) : jrpc_connection :=
  {| cn_mapper := mapper; cn_current_id := 1;
     cn_response_table := hash_table_new HASH_KEY_INT false true;
     cn_read_cb := false; cn_write_cb := false; cn_error_handler := None |}.

Definition jrpc_connection_set_read_cb (c : jrpc_connection) : jrpc_connection :=
  {| cn_mapper := cn_mapper c; cn_current_id := cn_current_id c; cn_response_table := cn_response_table c;
     cn_read_cb := true; cn_write_cb := cn_write_cb c; cn_error_handler := cn_error_handler c |}.

Definition jrpc_connection_set_write_cb (c : jrpc_connection) : jrpc_connection :=
  {| cn_mapper := cn_mapper c; cn_current_id := cn_current_id c; cn_response_table := cn_response_table c;
     cn_read_cb := cn_read_cb c; cn_write_cb := true; cn_error_handler := cn_error_handler c |}.

Definition jrpc_connection_set_error_handler (c : jrpc_connection) (h : option nat) : jrpc_connection :=
  {| cn_mapper := cn_mapper c; cn_current_id := cn_current_id c; cn_response_table := cn_response_table c;
     cn_read_cb := cn_read_cb c; cn_write_cb := cn_write_cb c; cn_error_handler := h |}.

Definition connection_register_callback (c : jrpc_connection) (cb : nat) (user_data : Z)
    : outcome (Z * jrpc_connection) :=
  let id := cn_current_id c in
  r ← hash_table_insert (cn_response_table c) (H_INT_TO_POINTER id)
        (Some {| rcb_cb := cb; rcb_user_data := user_data |});
  Ok (id, {| cn_mapper := cn_mapper c; cn_current_id := u64 (id + 1); cn_response_table := r.1.2;
             cn_read_cb := cn_read_cb c; cn_write_cb := cn_write_cb c;
             cn_error_handler := cn_error_handler c |}).

(** The callback with its data; it is forgotten. *)
Definition connection_find_callback (c : jrpc_connection) (id : Z)
    : outcome (option rpc_callback_entry * jrpc_connection) :=
  e ← hash_table_search (cn_response_table c) (H_INT_TO_POINTER id);
  match e with
  | None => Ok (None, c)
  | Some e =>
      r ← hash_table_remove (cn_response_table c) (H_INT_TO_POINTER id);
      Ok (Some e, {| cn_mapper := cn_mapper c; cn_current_id := cn_current_id c; cn_response_table := r.1.2;
                     cn_read_cb := cn_read_cb c; cn_write_cb := cn_write_cb c;
                     cn_error_handler := cn_error_handler c |})
  end.

Definition DEFAULT_INPUT_BUFFER_SIZE : Z := 4096.

(** CR LF CR LF and a NUL for the debug trace. *)
Definition end_of_message : list ascii := ["013"; "010"; "013"; "010"]%char.

Section rpc.
Context {json : Type} `{Jansson json} {W : Type}.

Record rpc_state := RpcState { rs_conn : jrpc_connection; rs_world : W }.

(** The I/O callbacks: bytes read into a buffer of the given size, with the value
    returned; bytes written. *)
Variable read_fun : Z -> W -> (Z * list ascii) * W.
Variable write_fun : list ascii -> W -> Z * W.

(** The functions of the program: a method gives its return value and [*result]. *)
Variable methods : nat -> option json -> rpc_state -> outcome (Z * option json * rpc_state).
Variable callbacks : nat -> json -> Z -> rpc_state -> outcome rpc_state.
Variable handlers : nat -> Z -> Z -> string -> option json -> rpc_state -> outcome rpc_state.

Definition with_conn (s : rpc_state) (c : jrpc_connection) : rpc_state :=
  {| rs_conn := c; rs_world := rs_world s |}.

Definition with_world (s : rpc_state) (w : W) : rpc_state := {| rs_conn := rs_conn s; rs_world := w |}.

(** The text of a message: the chunks of the dump are collected in a buffer, the end
    of message appended, and everything but the final NUL written. *)
Definition message_bytes (chunks : list (list ascii)) : outcome (list ascii) :=
  b ← JBuffer.buffer_append_all (JBuffer.buffer_init 0) chunks;
  b ← JBuffer.buffer_append b (end_of_message ++ ["000"%char]);
  match mapM id (take (Z.to_nat (JBuffer.buffer_size b - 1)) (JBuffer.buffer_data b)) with
  | Some l => Ok l
  | None => Fault UninitRead
  end.

Definition connection_send (s : rpc_state) (obj : option json) : outcome (Z * rpc_state) :=
  _ ← c_assert (cn_write_cb (rs_conn s));
  match obj ≫= json_dump_callback with
  | None => Ok (JRPC_ERR_INTERNAL_ERROR, s)
  | Some chunks =>
      text ← message_bytes chunks;
      let (n, w) := write_fun text (rs_world s) in
      Ok (if n <? 0 then JRPC_ERR_INTERNAL_ERROR else JRPC_OK, with_world s w)
  end.

Definition connection_receive (s : rpc_state) : outcome (Z * option json * rpc_state) :=
  _ ← c_assert (cn_read_cb (rs_conn s));
  let '((n_read, text), w) := read_fun DEFAULT_INPUT_BUFFER_SIZE (rs_world s) in
  let s := with_world s w in
  if n_read <? 0 then Ok (JRPC_ERR_INTERNAL_ERROR, None, s)
  else if n_read =? 0 then Ok (JRPC_EOF, None, s)
  else
    let buffer := text ++ replicate (Z.to_nat DEFAULT_INPUT_BUFFER_SIZE - length text) "000"%char in
    match json_loadb (take (Z.to_nat n_read) buffer) with
    | None => Ok (JRPC_ERR_PARSE_ERROR, None, s)
    | Some j => Ok (JRPC_OK, Some j, s)
    end.

(** ** Messages *)

Inductive rpc_obj :=
  | REQUEST (method : string) (id : Z) (params : option json)
  | ERROR_RESPONSE (id code : Z) (message : string) (data : option json)
  | RESULT_RESPONSE (id : Z) (result : json).

(** [json_object_set] on what [json_pack] returned, NULL included. *)
Definition set_opt (obj : option json) (key : string) (v : json) : option json :=
  (fun o => json_object_set o key v) <$> obj.

Definition make_call_obj (method : string) (params : option json) (id : Z) : option json :=
  let obj := json_pack [("jsonrpc", PackS "2.0"); ("method", PackS method)] in
  let obj := match params with Some p => set_opt obj "params" p | None => obj end in
  if id =? 0 then obj else set_opt obj "id" (json_integer (i64 id)).

Definition make_result_obj (result : option json) (id : Z) : option json :=
  json_pack [("jsonrpc", PackS "2.0"); ("result", PackO result); ("id", PackI (i64 id))].

Definition make_error_obj (code : Z) (message : string) (data : option json) (id : Z) : option json :=
  let j_err := json_pack [("code", PackI code); ("message", PackS message)] in
  let j_err := match data with Some d => set_opt j_err "data" d | None => j_err end in
  let j_id := if id =? 0 then json_null else json_integer (i64 id) in
  json_pack [("jsonrpc", PackS "2.0"); ("error", PackO j_err); ("id", PackO (Some j_id))].

(** A request.  [s?i] stores an [int] in the low half of the [size_t] that was
    initialised to 0: what is left of the id is its value modulo 2^32. *)
Definition unpack_request (j_obj : json) : Z + rpc_obj :=
  match json_unpack j_obj [("jsonrpc", FmtS); ("method", FmtS); ("params", FmtOptO); ("id", FmtOptI)] with
  | Some [UnS version; UnS method; UnO params; UnI id] =>
      if bool_decide (version = "2.0"%string)
      then inr (REQUEST method (match id with Some z => u32 z | None => 0 end) params)
      else inl JRPC_ERR_INVALID_REQUEST
  | _ => inl JRPC_ERR_INVALID_REQUEST
  end.

Definition unpack_error (error : json) (id : Z) : Z + rpc_obj :=
  match json_unpack error [("code", FmtI); ("message", FmtS); ("data", FmtOptO)] with
  | Some [UnI (Some code); UnS message; UnO data] => inr (ERROR_RESPONSE id code message data)
  | _ => inl JRPC_ERR_INVALID_RESPONSE
  end.

Definition unpack_response (j_obj : json) (id : Z) : Z + rpc_obj :=
  match json_unpack j_obj [("jsonrpc", FmtS); ("result", FmtOptO); ("error", FmtOptO)] with
  | Some [UnS version; UnO result; UnO error] =>
      if negb (bool_decide (version = "2.0"%string)) then inl JRPC_ERR_INVALID_RESPONSE
      else match error, result with
           | Some _, Some _ | None, None => inl JRPC_ERR_INVALID_RESPONSE
           | Some error, None => unpack_error error id
           | None, Some result => inr (RESULT_RESPONSE id result)
           end
  | _ => inl JRPC_ERR_INVALID_RESPONSE
  end.

(** A response: its id is an integer, or null for none. *)
Definition unpack_any_response (j_obj : json) : Z + rpc_obj :=
  match json_object_get j_obj "id" with
  | Some i =>
      if json_is_integer i then unpack_response j_obj (u64 (json_integer_value i))
      else if json_is_null i then unpack_response j_obj 0
      else inl JRPC_ERR_INVALID_RESPONSE
  | None => inl JRPC_ERR_INVALID_RESPONSE
  end.

(** The status of a failure, or the message: with a string "method" it is a request. *)
Definition json_rpc_unpack (j_obj : json) : Z + rpc_obj :=
  match json_object_get j_obj "method" with
  | Some m => if json_is_string m then unpack_request j_obj else unpack_any_response j_obj
  | None => unpack_any_response j_obj
  end.

(** ** Calls *)

(** [cb] is [None] for a notification. *)
Definition jrpc_call (s : rpc_state) (method : string) (params : option json) (cb : option (nat * Z))
    : outcome (Z * rpc_state) :=
  r ← match cb with
      | None => Ok (0, rs_conn s)
      | Some (cb, user_data) => connection_register_callback (rs_conn s) cb user_data
      end;
  connection_send (with_conn s r.2) (make_call_obj method params r.1).

Definition jrpc_notify (s : rpc_state) (method : string) (params : option json) : outcome (Z * rpc_state) :=
  jrpc_call s method params None.

(** ** Processing a message *)

Definition connection_process_request (s : rpc_state) (method : string) (id : Z) (params : option json)
    : outcome (Z * rpc_state) :=
  method_cb ← match cn_mapper (rs_conn s) with
              | None => Ok None
              | Some mapper => jrpc_mapper_find mapper method
              end;
  match method_cb with
  | None =>
      let ret := JRPC_ERR_METHOD_NOT_FOUND in
      r ← connection_send s (make_error_obj ret "method was not found" None id);
      Ok (ret, r.2)
  | Some method_cb =>
      r ← methods method_cb params s;
      let '(mth_ret, result, s) := r in
      if negb (mth_ret =? 0) then
        error_message ← match cn_mapper (rs_conn s) with
                        | None => Fault NullDeref
                        | Some mapper => jrpc_mapper_get_error_message mapper mth_ret
                        end;
        let error_message := default "method returned an unknow error"%string error_message in
        let ret := JRPC_ERR_METHOD_TO_CODE mth_ret in
        r ← connection_send s (make_error_obj ret error_message None id);
        Ok (ret, r.2)
      else if negb (id =? 0) then
        r ← connection_send s (make_result_obj result id); Ok (JRPC_OK, r.2)
      else Ok (JRPC_OK, s)
  end.

Definition connection_process_result (s : rpc_state) (id : Z) (result : json) : outcome (Z * rpc_state) :=
  r ← connection_find_callback (rs_conn s) id;
  let s := with_conn s r.2 in
  match r.1 with
  | None => Ok (JRPC_ERR_INVALID_RESPONSE_ID, s)
  | Some e => s ← callbacks (rcb_cb e) result (rcb_user_data e) s; Ok (JRPC_OK, s)
  end.

Definition connection_process_error (s : rpc_state) (id code : Z) (message : string) (data : option json)
    : outcome (Z * rpc_state) :=
  match cn_error_handler (rs_conn s) with
  | None => Ok (JRPC_OK, s)
  | Some h => s ← handlers h id code message data s; Ok (JRPC_OK, s)
  end.

Definition jrpc_process (s : rpc_state) : outcome (Z * rpc_state) :=
  r ← connection_receive s;
  let '(ret, j_obj, s) := r in
  match j_obj with
  | None => Ok (ret, s)
  | Some j_obj =>
      match json_rpc_unpack j_obj with
      | inl ret =>
          if ret =? JRPC_ERR_INVALID_REQUEST then
            r ← connection_send s (make_error_obj ret "invalid request" None 0); Ok (ret, r.2)
          else Ok (ret, s)
      | inr (REQUEST method id params) => connection_process_request s method id params
      | inr (RESULT_RESPONSE id result) => connection_process_result s id result
      | inr (ERROR_RESPONSE id code message data) => connection_process_error s id code message data
      end
  end.

End rpc.
Arguments rpc_state : clear implicits.
Arguments rpc_obj : clear implicits.
