(* ===== verification/JrpcTheory.v ===== *)
(** * Messages of the JSON-RPC protocol: what is sent and how it is understood *)
From S2P Require Import Prelude Hash HashTheory HashSpec Buffer Json Jrpc.

#[local] Open Scope Z_scope.

(** ** The text of a message *)

Definition total_length (chunks : list (list ascii)) : Z := Z.of_nat (length (concat chunks)).

Lemma mapM_id_Some {A} (l : list A) : mapM id (Some <$> l) = Some l.
Proof. induction l as [|x l IH]; [done|]. cbn. by rewrite IH. Qed.

Lemma message_bytes_ok chunks :
  total_length chunks < 2 ^ 61 -> message_bytes chunks = Ok (concat chunks ++ end_of_message).
Proof.
  unfold total_length. intros Hlen. unfold message_bytes.
  destruct (JBuffer.buffer_append_all_ok (JBuffer.buffer_init 0) [] chunks) as (b & -> & Hb);
    [by apply JBuffer.buffer_init_ok|simpl length; lia|]. cbn [mbind outcome_bind app].
  destruct (JBuffer.buffer_append_ok b (concat chunks) (end_of_message ++ ["000"%char])) as (b' & -> & Hb' & _);
    [done|rewrite length_app; simpl; lia|]. cbn [mbind outcome_bind].
  destruct Hb' as [Hlen' Hfill Hfits Hpos Hdata]. unfold JBuffer.buffer_size, JBuffer.buffer_data.
  set (text := concat chunks ++ end_of_message).
  assert (concat chunks ++ end_of_message ++ ["000"%char] = text ++ ["000"%char]) as E
    by (unfold text; by rewrite <- app_assoc).
  rewrite E in *. rewrite Hfill. rewrite length_app. simpl length.
  replace (Z.to_nat (Z.of_nat (length text + 1) - 1)) with (length text) by lia.
  assert (take (length text) (b_p b') = Some <$> text) as ->; [|by rewrite mapM_id_Some].
  rewrite length_app in Hdata. simpl length in Hdata.
  replace (length text) with (length text `min` (length text + 1))%nat by lia.
  rewrite <- take_take, Hdata, fmap_app, take_app_le by (by rewrite length_fmap).
  apply take_ge. by rewrite length_fmap.
Qed.

(** Comparisons of literal field names. *)
Ltac pick_fields :=
  repeat match goal with
  | |- context [decide (?a = ?b)] =>
      first [rewrite (decide_True (P := a = b)) by done | rewrite (decide_False (P := a = b)) by done]
  end.

Section messages.
Context {json : Type} `{JanssonLaws json}.

(** ** Field access *)

Lemma is_string_string s : json_utf8 s = true -> json_is_string (json_string s) = true.
Proof. intros. unfold json_is_string. by rewrite typeof_string. Qed.

Lemma utf8_version : json_utf8 "2.0" = true.
Proof. by apply utf8_ascii. Qed.

Lemma is_integer_integer z : json_is_integer (json_integer z) = true.
Proof. unfold json_is_integer. by rewrite typeof_integer. Qed.

(** An object packed from distinct fields that can be packed. *)
Lemma pack_get l :
  bool_decide (NoDup l.*1) = true -> Forall (fun f => is_Some (packed f.2)) l ->
  exists o, json_pack l = Some o /\ json_typeof o = JSON_OBJECT /\
    forall key, json_object_get o key = field l key ≫= packed.
Proof. intros Hn%bool_decide_eq_true_1. by apply pack_object. Qed.

(** [o] is the object with the fields [l]. *)
Definition fields_of (o : json) (l : list (string * json)) : Prop :=
  json_typeof o = JSON_OBJECT /\ forall key, json_object_get o key = field l key.

Lemma field_omap (l : list (string * pack_arg json)) (l' : list (string * json)) key :
  Forall2 (fun a b => a.1 = b.1 /\ packed a.2 = Some b.2) l l' -> field l key ≫= packed = field l' key.
Proof.
  induction 1 as [|[k a] [k' b] l l' [Hk Hp] _ IH]; [done|]. simpl in *. subst k'.
  by case_decide.
Qed.

Lemma pack_fields l l' :
  bool_decide (NoDup l.*1) = true -> Forall2 (fun a b => a.1 = b.1 /\ packed a.2 = Some b.2) l l' ->
  exists o, json_pack l = Some o /\ fields_of o l'.
Proof.
  intros Hn Hl. destruct (pack_get l Hn) as (o & Ho & Ht & Hget).
  { clear Hn. induction Hl as [|a b l l' [_ Hp] _ IH]; constructor; [|done]. simpl. rewrite Hp. by eexists. }
  exists o. split; [done|]. split; [done|]. intros key. by rewrite Hget, (field_omap l l').
Qed.

Lemma field_snoc {A} (l : list (string * A)) k (v : A) key :
  field l k = None -> (if decide (k = key) then Some v else field l key) = field (l ++ [(k, v)]) key.
Proof.
  induction l as [|[k' v'] l IH]; cbn [field app]; intros Hk; [done|].
  destruct (decide (k' = k)) as [->|Hne]; [done|]. rewrite <- IH by done.
  destruct (decide (k = key)) as [->|]; [by rewrite decide_False|done].
Qed.

Lemma set_fields o l k v :
  fields_of o l -> field l k = None -> fields_of (json_object_set o k v) (l ++ [(k, v)]).
Proof.
  intros [Ht Hget] Hk. destruct (set_object o k v Ht) as [Ht' Hget']. split; [done|].
  intros key. rewrite Hget', Hget. by apply field_snoc.
Qed.

(** ** Requests *)

Definition opt_field {A} (k : string) (v : option A) : list (string * A) :=
  match v with Some v => [(k, v)] | None => [] end.

Lemma make_call_obj_fields method params id :
  json_utf8 method = true ->
  exists o, make_call_obj method params id = Some o /\
    fields_of o ([("jsonrpc", json_string "2.0"); ("method", json_string method)] ++ opt_field "params" params ++
                 (if id =? 0 then [] else [("id", json_integer (i64 id))])).
Proof.
  intros Hm. pose proof (utf8_ascii "2.0" eq_refl) as Hv. unfold make_call_obj.
  destruct (pack_fields [("jsonrpc", PackS "2.0"); ("method", PackS method)]
    [("jsonrpc", json_string "2.0"); ("method", json_string method)]) as (o & -> & Ho).
  { done. } { repeat constructor; simpl; by rewrite ?Hv, ?Hm. }
  assert (exists o1, match params with Some p => set_opt (Some o) "params" p | None => Some o end = Some o1 /\
    fields_of o1 ([("jsonrpc", json_string "2.0"); ("method", json_string method)] ++ opt_field "params" params))
    as (o1 & -> & Ho1).
  { destruct params as [p|]; simpl; [|by exists o]. eexists. split; [done|].
    by apply (set_fields o [_; _] "params" p). }
  rewrite app_assoc. destruct (id =? 0); simpl set_opt; [rewrite app_nil_r; by exists o1|].
  eexists. split; [done|]. apply set_fields; [done|]. by destruct params.
Qed.

Lemma unpack_fields o l fs :
  fields_of o l -> json_unpack o fs = mapM (fun f => unpack_field (field l f.1) f.2) fs.
Proof.
  intros [Ht Hget]. rewrite unpack_object by done. apply Forall_mapM_ext, list.Forall_true.
  intros f. by rewrite Hget.
Qed.

Lemma unpack_string s :
  json_utf8 s = true -> unpack_field (Some (json_string s)) FmtS = Some (UnS s).
Proof. intros. unfold unpack_field. by rewrite is_string_string, string_value_string. Qed.

Lemma unpack_int z f :
  - 2 ^ 63 <= z < 2 ^ 63 -> f = FmtI \/ f = FmtOptI ->
  unpack_field (Some (json_integer z)) f = Some (UnI (Some (i32 z))).
Proof. intros Hz [-> | ->]; unfold unpack_field; by rewrite is_integer_integer, integer_value_integer. Qed.

Lemma u32_i32 z : u32 (i32 z) = u32 z.
Proof.
  unfold u32, i32, signed, wrap. pose proof (Z.mod_pos_bound z (2 ^ 32) ltac:(lia)).
  case_match; [by rewrite Z.mod_mod by lia|].
  replace (z mod 2 ^ 32 - 2 ^ 32) with (z mod 2 ^ 32 + (-1) * 2 ^ 32) by lia.
  rewrite Z.mod_add by lia. by rewrite Z.mod_mod by lia.
Qed.

Lemma request_understood method params id o :
  json_utf8 method = true -> 0 <= id < 2 ^ 63 ->
  fields_of o ([("jsonrpc", json_string "2.0"); ("method", json_string method)] ++ opt_field "params" params ++
               (if id =? 0 then [] else [("id", json_integer (i64 id))])) ->
  json_rpc_unpack o = inr (REQUEST method (u32 id) params).
Proof.
  intros Hm Hid Ho. unfold json_rpc_unpack. rewrite (proj2 Ho "method"). simpl. rewrite is_string_string by done.
  unfold unpack_request. rewrite (unpack_fields _ _ _ Ho). cbn [mapM]. simpl app.
  assert (i64 id = id) as Ei by (unfold i64; rewrite signed_small by lia; done).
  cbn -[unpack_field]. pick_fields. rewrite !unpack_string by (done || apply utf8_version). cbn -[unpack_field].
  destruct (Z.eqb_spec id 0) as [->|Hne]; destruct params as [p|]; simpl; rewrite ?Ei;
    rewrite ?is_integer_integer, ?integer_value_integer by lia; simpl; by rewrite ?u32_i32.
Qed.

(** ** Responses *)

Lemma make_result_obj_fields result id :
  exists o, make_result_obj (Some result) id = Some o /\
    fields_of o [("jsonrpc", json_string "2.0"); ("result", result); ("id", json_integer (i64 id))].
Proof.
  pose proof (utf8_ascii "2.0" eq_refl) as Hv. apply pack_fields; [done|].
  repeat constructor; simpl; by rewrite ?Hv.
Qed.

(** A NULL result cannot be packed. *)
Lemma make_result_obj_null id : make_result_obj None id = None.
Proof. apply (pack_fails _ "result" (PackO None)); [|done]. by right; left. Qed.

Lemma make_error_obj_fields code message data id :
  json_utf8 message = true ->
  exists o e, make_error_obj code message data id = Some o /\
    fields_of o [("jsonrpc", json_string "2.0"); ("error", e);
                 ("id", if id =? 0 then json_null else json_integer (i64 id))] /\
    fields_of e ([("code", json_integer code); ("message", json_string message)] ++ opt_field "data" data).
Proof.
  intros Hm. pose proof (utf8_ascii "2.0" eq_refl) as Hv. unfold make_error_obj.
  destruct (pack_fields [("code", PackI code); ("message", PackS message)]
    [("code", json_integer code); ("message", json_string message)]) as (e & -> & He); [done| |].
  { repeat constructor; simpl; by rewrite ?Hm. }
  assert (exists e1, match data with Some d => set_opt (Some e) "data" d | None => Some e end = Some e1 /\
    fields_of e1 ([("code", json_integer code); ("message", json_string message)] ++ opt_field "data" data))
    as (e1 & -> & He1).
  { destruct data as [d|]; simpl; [|by exists e]. eexists. split; [done|].
    by apply (set_fields e [_; _] "data" d). }
  destruct (pack_fields [("jsonrpc", PackS "2.0"); ("error", PackO (Some e1));
      ("id", PackO (Some (if id =? 0 then json_null else json_integer (i64 id))))]
    [("jsonrpc", json_string "2.0"); ("error", e1); ("id", if id =? 0 then json_null else json_integer (i64 id))])
    as (o & -> & Ho); [done| |by exists o, e1].
  repeat constructor; simpl; by rewrite ?Hv.
Qed.

Lemma any_response_id o id :
  0 <= id < 2 ^ 63 ->
  json_object_get o "id" = Some (if id =? 0 then json_null else json_integer (i64 id)) \/
  json_object_get o "id" = Some (json_integer (i64 id)) ->
  unpack_any_response o = unpack_response o id.
Proof.
  intros Hid Hget. unfold unpack_any_response.
  assert (json_is_integer json_null = false /\ json_is_null json_null = true) as [En1 En2]
    by (unfold json_is_integer, json_is_null; by rewrite typeof_null).
  assert (u64 (json_integer_value (json_integer (i64 id))) = id) as Ei
    by (rewrite i64_small, integer_value_integer, u64_small by lia; done).
  destruct Hget as [-> | ->]; [destruct (Z.eqb_spec id 0) as [->|]|];
    rewrite ?En1, ?En2, ?is_integer_integer, ?Ei; done.
Qed.

Lemma result_understood result id o :
  0 <= id < 2 ^ 63 ->
  fields_of o [("jsonrpc", json_string "2.0"); ("result", result); ("id", json_integer (i64 id))] ->
  json_rpc_unpack o = inr (RESULT_RESPONSE id result).
Proof.
  intros Hid Ho. unfold json_rpc_unpack. rewrite (proj2 Ho "method"). simpl.
  rewrite (any_response_id o id) by (try done; right; by rewrite (proj2 Ho)).
  unfold unpack_response. rewrite (unpack_fields _ _ _ Ho). cbn [mapM].
  cbn -[unpack_field]. pick_fields. by rewrite unpack_string by apply utf8_version.
Qed.

Lemma error_understood code message data id o e :
  json_utf8 message = true -> 0 <= id < 2 ^ 63 -> - 2 ^ 31 <= code < 2 ^ 31 ->
  fields_of o [("jsonrpc", json_string "2.0"); ("error", e);
               ("id", if id =? 0 then json_null else json_integer (i64 id))] ->
  fields_of e ([("code", json_integer code); ("message", json_string message)] ++ opt_field "data" data) ->
  json_rpc_unpack o = inr (ERROR_RESPONSE id code message data).
Proof.
  intros Hm Hid Hcode Ho He. unfold json_rpc_unpack. rewrite (proj2 Ho "method"). simpl.
  rewrite (any_response_id o id) by (try done; left; by rewrite (proj2 Ho)).
  unfold unpack_response. rewrite (unpack_fields _ _ _ Ho). cbn [mapM].
  cbn -[unpack_field unpack_error]. pick_fields. rewrite unpack_string by apply utf8_version. cbn -[unpack_error].
  unfold unpack_error. rewrite (unpack_fields _ _ _ He). cbn [mapM app]. cbn -[unpack_field]. pick_fields.
  rewrite unpack_string, unpack_int, i32_small by (done || lia || by left). by destruct data.
Qed.

End messages.

(** ** The table of pending calls *)

Section null.
Context {V : Type}.
Implicit Types (ht : hash_table V).

(** A slot with the NULL key has no value; a rehash may leave such slots. *)
Definition null_clean (tbl : list (hash_table_entry V)) : Prop :=
  Forall (fun e => canon HASH_KEY_INT (e_key e) = Some nullkey -> e_value e = None) tbl.

Lemma null_clean_set tbl w e :
  null_clean tbl -> (canon HASH_KEY_INT (e_key e) = Some nullkey -> e_value e = None) ->
  null_clean (set_slot tbl w e).
Proof. intros Htbl He. unfold set_slot. by apply Forall_insert. Qed.

Lemma null_clean_rehash_loop ht old ht' :
  null_clean (ht_table ht) -> null_clean old -> rehash_loop ht old = Ok ht' -> null_clean (ht_table ht').
Proof.
  revert ht. induction old as [|e old IH]; intros ht Ht Hold; simpl; [by intros [= <-]|].
  apply list.Forall_cons in Hold as [He Hold]. intros (ht1 & H1 & H2)%bind_Ok_inv.
  apply (IH ht1); [|done|done]. unfold rehash_one in H1.
  apply bind_Ok_inv in H1 as (h & _ & H1). apply bind_Ok_inv in H1 as (r & _ & [= <-]).
  by apply null_clean_set.
Qed.

Lemma null_clean_insert ht k v r ht' tr :
  null_clean (ht_table ht) -> canon HASH_KEY_INT k <> Some nullkey ->
  hash_table_insert ht k v = Ok (r, ht', tr) -> null_clean (ht_table ht').
Proof.
  intros Ht Hk H. unfold hash_table_insert in H. apply bind_Ok_inv in H as (ht1 & H1 & H).
  assert (null_clean (ht_table ht1)) as Ht1.
  { unfold hash_table_check_overflow in H1. destruct (hash_table_must_rehash ht); [|by injection H1 as <-].
    eapply null_clean_rehash_loop; [|exact Ht|exact H1]. simpl. unfold null_clean.
    by apply Forall_replicate. }
  apply bind_Ok_inv in H as (h & _ & H). apply bind_Ok_inv in H as ([[[[] ?] w]|] & _ & H); [|done].
  apply bind_Ok_inv in H as (e & _ & H). injection H as _ <- _. simpl. by apply null_clean_set.
Qed.

Lemma null_clean_remove ht k r ht' tr :
  null_clean (ht_table ht) -> hash_table_remove ht k = Ok (r, ht', tr) -> null_clean (ht_table ht').
Proof.
  intros Ht H. unfold hash_table_remove in H. apply bind_Ok_inv in H as ([w|] & _ & H); [|by injection H as _ <- _].
  apply bind_Ok_inv in H as (e & _ & H). injection H as _ <- _. simpl. by apply null_clean_set.
Qed.

Lemma search_null ht m :
  ht_ok ht m -> ht_type ht = HASH_KEY_INT -> null_clean (ht_table ht) ->
  hash_table_search ht (PInt 0) = Ok None.
Proof.
  intros [Htbl _ _ _ _ _] Hty Hnull. unfold hash_table_search.
  destruct (lookup_entry_spec ht (PInt 0) nullkey Htbl) as [(w & e & -> & _ & Hslot & _ & Hc)|[-> _]]; [by rewrite Hty| |done].
  simpl. unfold slot. rewrite Hslot. simpl. f_equal. rewrite Hty in Hc.
  eapply (Forall_lookup_1 _ _ _ _ Hnull Hslot). done.
Qed.

End null.

(** The key of an identifier in the table. *)
Definition rpc_key (i : Z) : skey := inl i.

#[export] Instance rpc_key_inj : Inj (=) (=) rpc_key.
Proof. by intros i j [= ->]. Qed.

(** The pending calls of a connection are [m]: identifiers below the next one, each
    with its callback. *)
Record conn_ok (c : jrpc_connection) (m : gmap skey (option rpc_callback_entry)) : Prop := {
  conn_table : ht_ok (cn_response_table c) m;
  conn_type : ht_type (cn_response_table c) = HASH_KEY_INT;
  conn_null : null_clean (ht_table (cn_response_table c));
  conn_next : 1 <= cn_current_id c < 2 ^ 32;
  conn_size : ht_size (cn_response_table c) <= 64 + 3 * (cn_current_id c - 1);
  conn_count : ht_key_count (cn_response_table c) <= cn_current_id c - 1;
  conn_ids : forall k v, m !! k = Some v -> exists i e, k = rpc_key i /\ 1 <= i < cn_current_id c /\ v = Some e;
}.

(** The same connection up to its pending calls. *)
Definition same_conn (c c' : jrpc_connection) : Prop :=
  cn_mapper c' = cn_mapper c /\ cn_read_cb c' = cn_read_cb c /\ cn_write_cb c' = cn_write_cb c /\
  cn_error_handler c' = cn_error_handler c.

Lemma conn_ok_new mapper : conn_ok (jrpc_connection_new mapper) ∅.
Proof.
  assert (null_clean (ht_table (hash_table_new (V:=rpc_callback_entry) HASH_KEY_INT false true))) as Hnull
    by (unfold hash_table_new, null_clean; by apply Forall_replicate).
  split; try done; try apply ht_ok_new.
Qed.

Lemma canon_int i : canon HASH_KEY_INT (H_INT_TO_POINTER i) = Some (rpc_key (u64 i)).
Proof. unfold H_INT_TO_POINTER. simpl. unfold u64. by rewrite wrap_wrap by lia. Qed.

Lemma register_ok c m cb user_data :
  conn_ok c m -> cn_current_id c + 1 < 2 ^ 32 ->
  exists c', connection_register_callback c cb user_data = Ok (cn_current_id c, c') /\
    conn_ok c' (<[rpc_key (cn_current_id c) := Some (CallbackEntry cb user_data)]> m) /\
    cn_current_id c' = cn_current_id c + 1 /\ same_conn c c'.
Proof.
  intros [Hht Hty Hnull Hnext Hsize Hcount Hids] Hb. unfold connection_register_callback.
  assert (u64 (cn_current_id c) = cn_current_id c) as Eu by (apply u64_small; lia).
  assert (m !! rpc_key (cn_current_id c) = None) as Hfresh.
  { apply eq_None_not_Some. intros [v Hv]. destruct (Hids _ _ Hv) as (i & e & <-%(inj rpc_key) & ? & _). lia. }
  assert (ht_size (cn_response_table c) <= size_bound) as Hsb by (unfold size_bound; lia).
  destruct (insert_refines (cn_response_table c) m (H_INT_TO_POINTER (cn_current_id c)) (rpc_key (cn_current_id c))
    (Some (CallbackEntry cb user_data))) as (ht' & tr & E & Hok' & Hty' & Hcnt' & Hsz' & _); try done.
  { intros Ht. by rewrite Hty in Ht. } { by rewrite Hty, canon_int, Eu. }
  { intros [= ?]. lia. } { by left. }
  pose proof (insert_size _ _ _ _ _ _ _ Hht Hsb ltac:(by rewrite Hty) E) as Hgrow.
  rewrite E. simpl. eexists. split; [done|]. rewrite u64_small by lia.
  split; [|done]. split; simpl; try done; try lia; [congruence| |].
  - eapply null_clean_insert; [exact Hnull| |exact E]. rewrite canon_int, Eu. intros [= ?]. lia.
  - intros k v. rewrite lookup_insert_Some. intros [[<- <-]|[_ Hv]].
    + exists (cn_current_id c), (CallbackEntry cb user_data). split_and!; try done; lia.
    + destruct (Hids k v Hv) as (i & e & -> & ? & ->). exists i, e. split_and!; try done; lia.
Qed.

Lemma find_callback_ok c m n :
  conn_ok c m ->
  exists c', connection_find_callback c n = Ok (m !! rpc_key (u64 n) ≫= id, c') /\
    conn_ok c' (delete (rpc_key (u64 n)) m) /\ cn_current_id c' = cn_current_id c /\ same_conn c c'.
Proof.
  intros Hc. pose proof Hc as [Hht Hty Hnull Hnext Hsize Hcount Hids]. unfold connection_find_callback.
  destruct (decide (u64 n = 0)) as [E0|Hne].
  { assert (m !! rpc_key (u64 n) = None) as Em.
    { apply eq_None_not_Some. intros [v Hv]. destruct (Hids _ _ Hv) as (i & e & Ei%(inj rpc_key) & ? & _). lia. }
    unfold H_INT_TO_POINTER. rewrite E0 in *. rewrite (search_null _ m) by done. simpl.
    exists c. rewrite Em, delete_id by done. by split_and!. }
  assert (canon (ht_type (cn_response_table c)) (H_INT_TO_POINTER n) = Some (rpc_key (u64 n))) as Hk
    by (by rewrite Hty, canon_int).
  assert (rpc_key (u64 n) <> nullkey) as Hnk by (by intros [= ?]).
  rewrite (search_refines _ m _ _ Hht Hk Hnk). cbn [mbind outcome_bind].
  destruct (m !! rpc_key (u64 n)) as [v|] eqn:Ev.
  2: { simpl. exists c. rewrite delete_id by done. by split_and!. }
  destruct (Hids _ _ Ev) as (i & e & _ & _ & ->). simpl.
  pose proof (remove_refines (cn_response_table c) m (H_INT_TO_POINTER n) _ Hht
    ltac:(unfold size_bound; lia) Hk Hnk) as Hr. rewrite Ev in Hr.
  destruct Hr as (ht' & k' & E & _ & Hok' & Hty' & Hsz' & Hcnt'). rewrite E. simpl.
  eexists. split; [done|]. split; [|done]. split; simpl; try done; try lia; [congruence| |].
  - by eapply null_clean_remove.
  - intros k v [_ Hv]%lookup_delete_Some. by apply Hids.
Qed.

(** ** The world of a program

    Whatever the transport and the functions of the program keep, [jrpc_process]
    keeps. *)
Section world.
Context {json : Type} `{Jansson json} {W : Type}.
Variable read_fun : Z -> W -> (Z * list ascii) * W.
Variable write_fun : list ascii -> W -> Z * W.
Variable methods : nat -> option json -> rpc_state W -> outcome (Z * option json * rpc_state W).
Variable callbacks : nat -> json -> Z -> rpc_state W -> outcome (rpc_state W).
Variable handlers : nat -> Z -> Z -> string -> option json -> rpc_state W -> outcome (rpc_state W).
Context (R : relation W) `{!PreOrder R}.
Hypothesis read_keeps : forall size w, R w (read_fun size w).2.
Hypothesis write_keeps : forall text w, R w (write_fun text w).2.
Hypothesis methods_keep : forall fn params s ret result s',
  methods fn params s = Ok (ret, result, s') -> R (rs_world s) (rs_world s').
Hypothesis callbacks_keep : forall cb result user_data s s',
  callbacks cb result user_data s = Ok s' -> R (rs_world s) (rs_world s').
Hypothesis handlers_keep : forall h id code message data s s',
  handlers h id code message data s = Ok s' -> R (rs_world s) (rs_world s').

Lemma send_keeps s obj r : connection_send write_fun s obj = Ok r -> R (rs_world s) (rs_world r.2).
Proof.
  unfold connection_send. intros (_ & _ & E)%bind_Ok_inv. destruct (obj ≫= json_dump_callback) as [chunks|].
  - apply bind_Ok_inv in E as (text & _ & E). pose proof (write_keeps text (rs_world s)) as Hw.
    destruct (write_fun text (rs_world s)) as [n w]. by injection E as <-.
  - by injection E as <-.
Qed.

Lemma request_keeps s method id params r :
  connection_process_request write_fun methods s method id params = Ok r -> R (rs_world s) (rs_world r.2).
Proof.
  unfold connection_process_request. intros (fn & _ & E)%bind_Ok_inv. destruct fn as [fn|].
  - apply bind_Ok_inv in E as ([[ret result] s1] & Em & E). apply methods_keep in Em. etrans; [exact Em|].
    destruct (negb (ret =? 0)).
    + apply bind_Ok_inv in E as (text & _ & E). apply bind_Ok_inv in E as (r1 & Es & E).
      injection E as <-. exact (send_keeps _ _ _ Es).
    + destruct (negb (id =? 0)); [|by injection E as <-].
      apply bind_Ok_inv in E as (r1 & Es & E). injection E as <-. exact (send_keeps _ _ _ Es).
  - apply bind_Ok_inv in E as (r1 & Es & E). injection E as <-. exact (send_keeps _ _ _ Es).
Qed.

Lemma process_keeps s r :
  jrpc_process read_fun write_fun methods callbacks handlers s = Ok r -> R (rs_world s) (rs_world r.2).
Proof.
  unfold jrpc_process. intros ([[ret j] s1] & Er & E)%bind_Ok_inv.
  assert (R (rs_world s) (rs_world s1)) as H1.
  { unfold connection_receive in Er. apply bind_Ok_inv in Er as (_ & _ & Er).
    pose proof (read_keeps DEFAULT_INPUT_BUFFER_SIZE (rs_world s)) as Hr.
    destruct (read_fun _ _) as [[n text] w]. cbn [snd] in Hr.
    repeat case_match; simplify_eq/=; exact Hr. }
  etrans; [exact H1|]. destruct j as [o|]; [|by injection E as <-].
  destruct (json_rpc_unpack o) as [code|[method id params|id code message data|id result]].
  - destruct (code =? JRPC_ERR_INVALID_REQUEST); [|by injection E as <-].
    apply bind_Ok_inv in E as (r1 & Es & E). injection E as <-. exact (send_keeps _ _ _ Es).
  - by eapply request_keeps.
  - unfold connection_process_error in E. destruct (cn_error_handler _); [|by injection E as <-].
    apply bind_Ok_inv in E as (s2 & Eh & E). injection E as <-. exact (handlers_keep _ _ _ _ _ _ _ Eh).
  - unfold connection_process_result in E. apply bind_Ok_inv in E as ([e c] & _ & E). cbn [fst snd] in E.
    destruct e as [e|]; [|by injection E as <-].
    apply bind_Ok_inv in E as (s2 & Ec & E). injection E as <-. exact (callbacks_keep _ _ _ _ _ Ec).
Qed.

End world.
