(* ===== verification/JrpcSpec.v ===== *)
(** * What the JSON-RPC protocol guarantees between two processes *)
From S2P Require Import Prelude Hash HashTheory Buffer Json Jrpc JrpcTheory.

#[local] Open Scope Z_scope.

(** ** Messages *)

(** A request is understood as it was made, except for its identifier: whatever
    the method name, the parameters and the identifier, unpacking what
    [make_call_obj] built gives back the method and the parameters, and the identifier
    modulo 2^32.  So a call whose identifier is 2^32 or more is answered under another
    identifier, and one whose identifier is a multiple of 2^32 is taken for a
    notification. *)
Theorem request_roundtrip {json} `{JanssonLaws json} (method : string) (params : option json) (id : Z)
    (Hutf8 : json_utf8 method = true) (Hid : 0 <= id < 2 ^ 63) :
  exists o, make_call_obj method params id = Some o /\
    json_rpc_unpack o = inr (REQUEST method (u32 id) params).
Proof.
  destruct (make_call_obj_fields method params id Hutf8) as (o & Ho & Hf). exists o. split; [done|].
  by apply request_understood.
Qed.

Lemma request_roundtrip_witness :
  exists o, make_call_obj (json := Tree.jtree) "scan" (Some (Tree.JStr "/home")) (2 ^ 32) = Some o /\
    json_rpc_unpack o = inr (REQUEST "scan" 0 (Some (Tree.JStr "/home"))).
Proof. by apply (request_roundtrip "scan" (Some (Tree.JStr "/home")) (2 ^ 32)). Defined.

(** A response is understood as it was made.  A result comes back with its
    identifier, an error with its identifier (null and 0 stand for none), code, message
    and data.  But a method that succeeds without setting a result cannot be answered:
    there is no message to send. *)
Theorem response_roundtrip {json} `{JanssonLaws json} (result : json) (code : Z) (message : string)
    (data : option json) (id : Z)
    (Hutf8 : json_utf8 message = true) (Hid : 0 <= id < 2 ^ 63) (Hcode : - 2 ^ 31 <= code < 2 ^ 31) :
  (exists o, make_result_obj (Some result) id = Some o /\ json_rpc_unpack o = inr (RESULT_RESPONSE id result)) /\
  (exists o, make_error_obj code message data id = Some o /\
     json_rpc_unpack o = inr (ERROR_RESPONSE id code message data)) /\
  make_result_obj None id = (None : option json).
Proof.
  split; [|split].
  - destruct (make_result_obj_fields result id) as (o & Ho & Hf). exists o. split; [done|].
    by apply result_understood.
  - destruct (make_error_obj_fields code message data id Hutf8) as (o & e & Ho & Hf & He). exists o. split; [done|].
    by apply (error_understood code message data id o e).
  - apply make_result_obj_null.
Qed.

Lemma response_roundtrip_witness :
  (exists o, make_result_obj (Some (Tree.JInt 7)) 3 = Some o /\ json_rpc_unpack o = inr (RESULT_RESPONSE 3 (Tree.JInt 7))) /\
  (exists o, make_error_obj JRPC_ERR_METHOD_NOT_FOUND "method was not found" (None : option Tree.jtree) 0 = Some o /\
     json_rpc_unpack o = inr (ERROR_RESPONSE 0 JRPC_ERR_METHOD_NOT_FOUND "method was not found" None)).
Proof.
  split.
  - by apply (response_roundtrip (Tree.JInt 7) 0 "" None 3).
  - by apply (response_roundtrip (Tree.JInt 7) JRPC_ERR_METHOD_NOT_FOUND "method was not found" None 0).
Defined.

(** ** Two processes joined by a stream *)

(** What can be read, and what was written, one text per write. *)
Record pipe := Pipe { inbox : list ascii; outbox : list (list ascii) }.

(** [read] of a stream: at most [size] bytes; 0 at the end. *)
Definition pipe_read (size : Z) (p : pipe) : (Z * list ascii) * pipe :=
  let chunk := take (Z.to_nat size) (inbox p) in
  ((Z.of_nat (length chunk), chunk), {| inbox := drop (Z.to_nat size) (inbox p); outbox := outbox p |}).

Definition pipe_write (text : list ascii) (p : pipe) : Z * pipe :=
  (Z.of_nat (length text), {| inbox := inbox p; outbox := outbox p ++ [text] |}).

Section stream.
Context {json : Type} `{JanssonLaws json}.
#[local] Abbreviation state := (rpc_state pipe).

(** The bytes of a message. *)
Definition text_of (o : json) : list ascii :=
  match json_dump_callback o with Some chunks => concat chunks ++ end_of_message | None => [] end.

(** A message that can be dumped and that one read takes in. *)
Definition fits (o : json) : Prop :=
  json_typeof o = JSON_OBJECT /\ is_Some (json_dump_callback o) /\
  Z.of_nat (length (text_of o)) <= DEFAULT_INPUT_BUFFER_SIZE.

(** The state once [text] has been written, or with other bytes to read. *)
Definition posted (s : state) (text : list ascii) : state :=
  with_world s {| inbox := inbox (rs_world s); outbox := outbox (rs_world s) ++ [text] |}.

Definition with_inbox (s : state) (l : list ascii) : state :=
  with_world s {| inbox := l; outbox := outbox (rs_world s) |}.

(** Sending either writes the text or reports an error. *)
Lemma send_total (s : state) obj :
  cn_write_cb (rs_conn s) = true ->
  connection_send pipe_write s obj =
    Ok (match obj ≫= json_dump_callback with
        | Some chunks => (JRPC_OK, posted s (concat chunks ++ end_of_message))
        | None => (JRPC_ERR_INTERNAL_ERROR, s)
        end).
Proof.
  intros Hw. unfold connection_send. rewrite Hw. cbn [c_assert mbind outcome_bind].
  destruct (obj ≫= json_dump_callback) as [chunks|] eqn:E; [|done].
  assert (total_length chunks < 2 ^ 61) as Hlen
    by (destruct obj as [o|]; [exact (dump_bound o chunks E)|done]).
  rewrite message_bytes_ok by done. cbn [mbind outcome_bind pipe_write].
  by destruct (Z.ltb_spec (Z.of_nat (length (concat chunks ++ end_of_message))) 0); [lia|].
Qed.

Lemma send_object (s : state) o :
  cn_write_cb (rs_conn s) = true -> fits o ->
  connection_send pipe_write s (Some o) = Ok (JRPC_OK, posted s (text_of o)).
Proof.
  intros Hw (_ & [chunks E] & _). rewrite send_total by done. cbn [mbind option_bind].
  unfold text_of. by rewrite E.
Qed.

Lemma load_text o tail : fits o -> json_loadb (text_of o ++ tail) = Some o.
Proof. intros (Hty & [chunks E] & _). unfold text_of. rewrite E, <- app_assoc. by apply load_dump. Qed.

Lemma receive_object (s : state) o rest :
  cn_read_cb (rs_conn s) = true -> fits o -> inbox (rs_world s) = text_of o ++ rest ->
  connection_receive pipe_read s =
    Ok (JRPC_OK, Some o, with_inbox s (drop (Z.to_nat DEFAULT_INPUT_BUFFER_SIZE) (text_of o ++ rest))).
Proof.
  intros Hr Hfits Hin. unfold connection_receive. rewrite Hr. cbn [c_assert mbind outcome_bind].
  unfold pipe_read. rewrite Hin. set (chunk := take _ (text_of o ++ rest)).
  pose proof Hfits as (Hty & [chunks E] & Hlen).
  assert (exists tail, chunk = text_of o ++ tail) as [tail Etail].
  { exists (take (Z.to_nat DEFAULT_INPUT_BUFFER_SIZE - length (text_of o)) rest). unfold chunk.
    rewrite take_app. rewrite (take_ge (text_of o)); [done|lia]. }
  assert (0 < Z.of_nat (length chunk)) as Hpos.
  { rewrite Etail, length_app. unfold text_of. rewrite E, length_app. simpl. lia. }
  replace (Z.of_nat (length chunk) <? 0) with false by lia.
  replace (Z.of_nat (length chunk) =? 0) with false by lia. cbn [mbind].
  rewrite Nat2Z.id, take_app_length, Etail, load_text by done. reflexivity.
Qed.

Lemma drop_fits o : fits o -> drop (Z.to_nat DEFAULT_INPUT_BUFFER_SIZE) (text_of o) = [].
Proof. intros (_ & _ & Hlen). apply drop_ge. lia. Qed.

End stream.

Section process.
Context {json : Type} `{JanssonLaws json}.
#[local] Abbreviation state := (rpc_state pipe).
Variable methods : nat -> option json -> state -> outcome (Z * option json * state).
Variable callbacks : nat -> json -> Z -> state -> outcome state.
Variable handlers : nat -> Z -> Z -> string -> option json -> state -> outcome state.
#[local] Abbreviation process := (jrpc_process pipe_read pipe_write methods callbacks handlers).

Lemma process_object (s : state) o rest :
  cn_read_cb (rs_conn s) = true -> fits o ->
  Z.of_nat (length (text_of o ++ rest)) <= DEFAULT_INPUT_BUFFER_SIZE ->
  process (with_inbox s (text_of o ++ rest)) =
    (let s := with_inbox s [] in
     match json_rpc_unpack o with
     | inl ret =>
         if ret =? JRPC_ERR_INVALID_REQUEST then
           r ← connection_send pipe_write s (make_error_obj ret "invalid request" None 0); Ok (ret, r.2)
         else Ok (ret, s)
     | inr (REQUEST method id params) => connection_process_request pipe_write methods s method id params
     | inr (RESULT_RESPONSE id result) => connection_process_result callbacks s id result
     | inr (ERROR_RESPONSE id code message data) => connection_process_error handlers s id code message data
     end).
Proof.
  intros Hr Hfits Hlen. unfold jrpc_process. rewrite (receive_object _ o rest) by done.
  rewrite drop_ge by lia. reflexivity.
Qed.

Lemma process_text (s : state) o :
  cn_read_cb (rs_conn s) = true -> fits o ->
  process (with_inbox s (text_of o)) = process (with_inbox s (text_of o ++ [])).
Proof. intros. by rewrite app_nil_r. Qed.

End process.

(** Messages that arrive together are lost.  When one read takes in a message and
    more bytes, [jrpc_process] does exactly what it does for the message alone: the
    bytes after it, another message or the beginning of one, are dropped. *)
Theorem coalesced_messages_lost {json} `{JanssonLaws json}
    (methods : nat -> option json -> rpc_state pipe -> outcome (Z * option json * rpc_state pipe))
    (callbacks : nat -> json -> Z -> rpc_state pipe -> outcome (rpc_state pipe))
    (handlers : nat -> Z -> Z -> string -> option json -> rpc_state pipe -> outcome (rpc_state pipe))
    (s : rpc_state pipe) (o : json) (rest : list ascii)
    (Hread : cn_read_cb (rs_conn s) = true) (Hfits : fits o)
    (Hlen : Z.of_nat (length (text_of o ++ rest)) <= DEFAULT_INPUT_BUFFER_SIZE) :
  jrpc_process pipe_read pipe_write methods callbacks handlers (with_inbox s (text_of o ++ rest)) =
  jrpc_process pipe_read pipe_write methods callbacks handlers (with_inbox s (text_of o)).
Proof.
  rewrite process_text by done. rewrite !process_object by (try done; rewrite app_nil_r; apply Hfits). done.
Qed.

(** ** A whole call *)

Section call.
Context {json : Type} `{JanssonLaws json}.
#[local] Abbreviation state := (rpc_state pipe).
Variable methods : nat -> option json -> state -> outcome (Z * option json * state).
Variable callbacks : nat -> json -> Z -> state -> outcome state.
Variable handlers : nat -> Z -> Z -> string -> option json -> state -> outcome state.

(** The request of a call with a callback is written and the callback is pending. *)
Lemma call_sent (client : state) m method params cb user_data :
  conn_ok (rs_conn client) m -> cn_current_id (rs_conn client) + 1 < 2 ^ 32 ->
  cn_write_cb (rs_conn client) = true -> json_utf8 method = true ->
  (forall o, make_call_obj method params (cn_current_id (rs_conn client)) = Some o -> fits o) ->
  exists o c, fits o /\ json_rpc_unpack o = inr (REQUEST method (cn_current_id (rs_conn client)) params) /\
    jrpc_call pipe_write client method params (Some (cb, user_data)) =
      Ok (JRPC_OK, posted (with_conn client c) (text_of o)) /\
    conn_ok c (<[rpc_key (cn_current_id (rs_conn client)) := Some (CallbackEntry cb user_data)]> m) /\
    same_conn (rs_conn client) c.
Proof.
  intros Hok Hb Hw Hutf Hfits. pose proof (conn_next _ _ Hok) as Hnext.
  destruct (register_ok _ m cb user_data Hok Hb) as (c & Ereg & Hok' & _ & Hsame).
  destruct (make_call_obj_fields method params (cn_current_id (rs_conn client)) Hutf) as (o & Eo & Hf).
  exists o, c. split; [by apply Hfits|]. split_and!; try done.
  - rewrite (request_understood method params (cn_current_id (rs_conn client)) o) by (try done; lia).
    by rewrite u32_small by lia.
  - unfold jrpc_call. rewrite Ereg. cbn [mbind outcome_bind fst snd]. rewrite Eo.
    apply send_object; [|by apply Hfits]. destruct Hsame as (_ & _ & Ew & _). simpl. by rewrite Ew.
Qed.

(** A request whose method answers a result. *)
Lemma request_served (server server' : state) o mapper fn method id params result :
  cn_read_cb (rs_conn server) = true -> fits o ->
  json_rpc_unpack o = inr (REQUEST method id params) -> 1 <= id ->
  cn_mapper (rs_conn server) = Some mapper -> jrpc_mapper_find mapper method = Ok (Some fn) ->
  methods fn params (with_inbox server []) = Ok (0, Some result, server') ->
  cn_write_cb (rs_conn server') = true ->
  (forall r, make_result_obj (Some result) id = Some r -> fits r) ->
  exists r, make_result_obj (Some result) id = Some r /\ fits r /\
    jrpc_process pipe_read pipe_write methods callbacks handlers (with_inbox server (text_of o)) =
      Ok (JRPC_OK, posted server' (text_of r)).
Proof.
  intros Hr Hfits Hun Hid Hmap Hfind Hmeth Hw Hres.
  destruct (make_result_obj_fields result id) as (r & Er & _). exists r. split; [done|]. split; [by apply Hres|].
  rewrite process_text, process_object by (try done; rewrite app_nil_r; apply Hfits).
  rewrite Hun. unfold connection_process_request. simpl rs_conn. rewrite Hmap, Hfind. cbn [mbind outcome_bind].
  rewrite Hmeth. cbn [mbind outcome_bind]. change (negb (0 =? 0)) with false. cbn iota.
  replace (id =? 0) with false by lia. cbn [negb]. rewrite Er, send_object by (try done; by apply Hres). done.
Qed.

(** A result for a pending call: its callback runs, and is no longer pending. *)
Lemma result_delivered (client : state) m r id result e :
  conn_ok (rs_conn client) m -> cn_read_cb (rs_conn client) = true -> fits r ->
  make_result_obj (Some result) id = Some r -> 0 <= id < 2 ^ 63 -> m !! rpc_key id = Some (Some e) ->
  exists c, jrpc_process pipe_read pipe_write methods callbacks handlers (with_inbox client (text_of r)) =
      (s ← callbacks (rcb_cb e) result (rcb_user_data e) (with_conn (with_inbox client []) c); Ok (JRPC_OK, s)) /\
    conn_ok c (delete (rpc_key id) m) /\ same_conn (rs_conn client) c.
Proof.
  intros Hok Hr Hfits Er Hid Hm.
  destruct (make_result_obj_fields result id) as (r' & Er' & Hf).
  assert (r' = r) as -> by congruence.
  rewrite process_text, process_object by (try done; rewrite app_nil_r; apply Hfits).
  rewrite (result_understood result id r) by done. unfold connection_process_result.
  destruct (find_callback_ok (rs_conn client) m id Hok) as (c & E & Hok' & _ & Hsame).
  rewrite u64_small in * by lia. rewrite Hm in E. simpl rs_conn. rewrite E. cbn [mbind outcome_bind fst snd].
  exists c. by split_and!.
Qed.

End call.

(** C20: A whole call between two processes.  When a client calls a method with a
    callback, the server it is sent to has a method of that name that answers a
    result, and the two messages fit in the input buffer: the call is sent and
    pending; the server runs the method on exactly those parameters and writes one
    answer; when the client reads it, the callback is run with that result and its
    user data, once, and the client's pending calls are what they were. *)
Theorem call_answered {json} `{JanssonLaws json}
    (client_callbacks server_callbacks : nat -> json -> Z -> rpc_state pipe -> outcome (rpc_state pipe))
    (client_methods server_methods : nat -> option json -> rpc_state pipe -> outcome (Z * option json * rpc_state pipe))
    (client_handlers server_handlers :
       nat -> Z -> Z -> string -> option json -> rpc_state pipe -> outcome (rpc_state pipe))
    (client server server' : rpc_state pipe) (m : gmap skey (option rpc_callback_entry)) (mapper : jrpc_mapper)
    (fn cb : nat) (method : string) (params : option json) (user_data : Z) (result : json)
    (Hclient : conn_ok (rs_conn client) m) (Hid : cn_current_id (rs_conn client) + 1 < 2 ^ 32)
    (Hcw : cn_write_cb (rs_conn client) = true) (Hcr : cn_read_cb (rs_conn client) = true)
    (Hutf8 : json_utf8 method = true)
    (Hsr : cn_read_cb (rs_conn server) = true) (Hmapper : cn_mapper (rs_conn server) = Some mapper)
    (Hfind : jrpc_mapper_find mapper method = Ok (Some fn))
    (Hmethod : server_methods fn params (with_inbox server []) = Ok (0, Some result, server'))
    (Hsw : cn_write_cb (rs_conn server') = true)
    (Hreq : forall o, make_call_obj method params (cn_current_id (rs_conn client)) = Some o -> fits o)
    (Hres : forall o, make_result_obj (Some result) (cn_current_id (rs_conn client)) = Some o -> fits o) :
  exists request answer client1 c2,
    jrpc_call pipe_write client method params (Some (cb, user_data)) = Ok (JRPC_OK, posted client1 request) /\
    rs_world client1 = rs_world client /\
    conn_ok (rs_conn client1) (<[rpc_key (cn_current_id (rs_conn client)) := Some (CallbackEntry cb user_data)]> m) /\
    jrpc_process pipe_read pipe_write server_methods server_callbacks server_handlers (with_inbox server request) =
      Ok (JRPC_OK, posted server' answer) /\
    jrpc_process pipe_read pipe_write client_methods client_callbacks client_handlers
        (with_inbox (posted client1 request) answer) =
      (s ← client_callbacks cb result user_data (with_conn (with_inbox (posted client1 request) []) c2);
       Ok (JRPC_OK, s)) /\
    conn_ok c2 m /\ same_conn (rs_conn client) c2.
Proof.
  pose proof (conn_next _ _ Hclient) as Hnext.
  destruct (call_sent client m method params cb user_data) as (o & c & Hfo & Hun & Ecall & Hok1 & Hsame1); try done.
  destruct (request_served server_methods server_callbacks server_handlers server server' o mapper fn method
    (cn_current_id (rs_conn client)) params result) as (r & Er & Hfr & Eserve); try done; [lia|].
  destruct (result_delivered client_methods client_callbacks client_handlers
    (posted (with_conn client c) (text_of o)) _ r (cn_current_id (rs_conn client)) result
    (CallbackEntry cb user_data) Hok1) as (c2 & Edeliver & Hok2 & Hsame2); try done; [|lia|by rewrite lookup_insert_eq|].
  { destruct Hsame1 as (_ & Er1 & _). simpl. by rewrite Er1. }
  exists (text_of o), (text_of r), (with_conn client c), c2. split_and!; try done.
  - assert (m !! rpc_key (cn_current_id (rs_conn client)) = None) as Hfresh.
    { apply eq_None_not_Some. intros [v Hv].
      destruct (conn_ids _ _ Hclient _ _ Hv) as (i & e & <-%(inj rpc_key) & ? & _). lia. }
    by rewrite delete_insert_id in Hok2.
  - destruct Hsame1 as (? & ? & ? & ?), Hsame2 as (? & ? & ? & ?). simpl in *. repeat split; congruence.
Qed.

(** A client and a server of one method. *)
Definition sample_mapper : jrpc_mapper :=
  match jrpc_mapper_add jrpc_mapper_new 1 "scan" 0 with Ok r => r.2 | Fault _ => jrpc_mapper_new end.

Definition sample_peer (mapper : option jrpc_mapper) (handler : option nat) : rpc_state pipe :=
  {| rs_conn := jrpc_connection_set_error_handler
       (jrpc_connection_set_write_cb (jrpc_connection_set_read_cb (jrpc_connection_new mapper))) handler;
     rs_world := {| inbox := []; outbox := [] |} |}.

(** The method answers 42 for a string and fails with error 7 otherwise. *)
Definition sample_methods (fn : nat) (params : option Tree.jtree) (s : rpc_state pipe)
    : outcome (Z * option Tree.jtree * rpc_state pipe) :=
  match params with Some (Tree.JStr _) => Ok (0, Some (Tree.JInt 42), s) | _ => Ok (7, None, s) end.

Definition sample_callbacks (cb : nat) (result : Tree.jtree) (user_data : Z) (s : rpc_state pipe)
    : outcome (rpc_state pipe) := Ok s.

Definition sample_handlers (h : nat) (id code : Z) (message : string) (data : option Tree.jtree)
    (s : rpc_state pipe) : outcome (rpc_state pipe) := Ok s.

Lemma sample_peer_ok mapper handler : conn_ok (rs_conn (sample_peer mapper handler)) ∅.
Proof. by destruct (conn_ok_new mapper); split. Qed.

Lemma call_answered_witness :
  exists request answer client1 c2,
    jrpc_call pipe_write (sample_peer None None) "scan" (Some (Tree.JStr "/home")) (Some (5%nat, 99)) =
      Ok (JRPC_OK, posted client1 request) /\
    rs_world client1 = rs_world (sample_peer None None) /\
    conn_ok (rs_conn client1) (<[rpc_key 1 := Some (CallbackEntry 5 99)]> ∅) /\
    jrpc_process pipe_read pipe_write sample_methods sample_callbacks sample_handlers
        (with_inbox (sample_peer (Some sample_mapper) None) request) =
      Ok (JRPC_OK, posted (with_inbox (sample_peer (Some sample_mapper) None) []) answer) /\
    jrpc_process pipe_read pipe_write sample_methods sample_callbacks sample_handlers
        (with_inbox (posted client1 request) answer) =
      (s ← sample_callbacks 5 (Tree.JInt 42) 99 (with_conn (with_inbox (posted client1 request) []) c2);
       Ok (JRPC_OK, s)) /\
    conn_ok c2 ∅ /\ same_conn (rs_conn (sample_peer None None)) c2.
Proof.
  apply (call_answered sample_callbacks sample_callbacks sample_methods sample_methods sample_handlers sample_handlers
    (sample_peer None None) (sample_peer (Some sample_mapper) None)
    (with_inbox (sample_peer (Some sample_mapper) None) []) ∅ sample_mapper 0 5 "scan" (Some (Tree.JStr "/home")) 99
    (Tree.JInt 42)); try reflexivity.
  - apply sample_peer_ok.
  - intros o [= <-]. split_and!; [done|by eexists|by vm_compute].
  - intros o [= <-]. split_and!; [done|by eexists|by vm_compute].
Defined.

Lemma coalesced_messages_lost_witness :
  let o := Tree.JField "jsonrpc" (Tree.JStr "2.0") (Tree.JField "method" (Tree.JStr "scan") Tree.JEmptyObj) in
  jrpc_process pipe_read pipe_write sample_methods sample_callbacks sample_handlers
    (with_inbox (sample_peer (Some sample_mapper) None) (text_of o ++ text_of o)) =
  jrpc_process pipe_read pipe_write sample_methods sample_callbacks sample_handlers
    (with_inbox (sample_peer (Some sample_mapper) None) (text_of o)).
Proof.
  intros o. apply (coalesced_messages_lost sample_methods sample_callbacks sample_handlers).
  - done.
  - split_and!; [done|by eexists|by vm_compute].
  - by vm_compute.
Defined.

(** ** Calls that fail *)

(** How a server refuses a call: with a code, a message, and the state it is then in. *)
Inductive refusal {json} (methods : nat -> option json -> rpc_state pipe -> outcome (Z * option json * rpc_state pipe))
    (server : rpc_state pipe) (method : string) (params : option json) : Z -> string -> rpc_state pipe -> Prop :=
  | refused_unknown mapper :
      cn_mapper (rs_conn server) = Some mapper -> jrpc_mapper_find mapper method = Ok None ->
      refusal methods server method params JRPC_ERR_METHOD_NOT_FOUND "method was not found" (with_inbox server [])
  | refused_error mapper fn e result server' mapper' message :
      cn_mapper (rs_conn server) = Some mapper -> jrpc_mapper_find mapper method = Ok (Some fn) ->
      methods fn params (with_inbox server []) = Ok (e, result, server') -> e <> 0 ->
      cn_mapper (rs_conn server') = Some mapper' -> jrpc_mapper_get_error_message mapper' e = Ok message ->
      refusal methods server method params (JRPC_ERR_METHOD_TO_CODE e)
        (default "method returned an unknow error"%string message) server'.

Lemma refusal_code {json} methods server method (params : option json) code message server' :
  refusal methods server method params code message server' -> - 2 ^ 31 <= code < 2 ^ 31.
Proof.
  destruct 1; [done|]. unfold JRPC_ERR_METHOD_TO_CODE, JRPC_ERR_METHOD_ERROR.
  assert (Z.land e 0xff = e mod 2 ^ 8) as -> by (change 0xff with (Z.ones 8); by apply Z.land_ones).
  pose proof (Z.mod_pos_bound e (2 ^ 8) ltac:(lia)). lia.
Qed.

Section refused.
Context {json : Type} `{JanssonLaws json}.
Variable methods : nat -> option json -> rpc_state pipe -> outcome (Z * option json * rpc_state pipe).
Variable callbacks : nat -> json -> Z -> rpc_state pipe -> outcome (rpc_state pipe).
Variable handlers : nat -> Z -> Z -> string -> option json -> rpc_state pipe -> outcome (rpc_state pipe).

Lemma request_refused (server server' : rpc_state pipe) o method id params code message :
  cn_read_cb (rs_conn server) = true -> fits o -> json_rpc_unpack o = inr (REQUEST method id params) ->
  refusal methods server method params code message server' ->
  cn_write_cb (rs_conn server') = true -> json_utf8 message = true ->
  (forall r, make_error_obj code message None id = Some r -> fits r) ->
  exists r, make_error_obj code message None id = Some r /\ fits r /\
    jrpc_process pipe_read pipe_write methods callbacks handlers (with_inbox server (text_of o)) =
      Ok (code, posted server' (text_of r)).
Proof.
  intros Hr Hfits Hun Href Hw Hutf Herr.
  destruct (make_error_obj_fields code message None id Hutf) as (r & e & Er & _).
  exists r. split; [done|]. split; [by apply Herr|].
  rewrite process_text, process_object by (try done; rewrite app_nil_r; apply Hfits).
  rewrite Hun. unfold connection_process_request.
  destruct Href as [mapper Hmap Hfind|mapper fn c result server' mapper' text Hmap Hfind Hmeth Hc Hmap' Htext];
    simpl rs_conn; rewrite Hmap, Hfind; cbn [mbind outcome_bind].
  - rewrite Er, send_object by (try done; by apply Herr). done.
  - rewrite Hmeth. cbn [mbind outcome_bind]. replace (c =? 0) with false by lia. cbn [negb].
    rewrite Hmap', Htext. cbn [mbind outcome_bind]. rewrite Er, send_object by (try done; by apply Herr). done.
Qed.

Lemma error_delivered (client : rpc_state pipe) r code message id h :
  cn_read_cb (rs_conn client) = true -> fits r -> make_error_obj code message None id = Some r ->
  json_utf8 message = true -> 0 <= id < 2 ^ 63 -> - 2 ^ 31 <= code < 2 ^ 31 ->
  cn_error_handler (rs_conn client) = Some h ->
  jrpc_process pipe_read pipe_write methods callbacks handlers (with_inbox client (text_of r)) =
    (s ← handlers h id code message None (with_inbox client []); Ok (JRPC_OK, s)).
Proof.
  intros Hr Hfits Er Hutf Hid Hcode Hh.
  destruct (make_error_obj_fields code message None id Hutf) as (r' & e & Er' & Hf & He).
  assert (r' = r) as -> by congruence.
  rewrite process_text, process_object by (try done; rewrite app_nil_r; apply Hfits).
  rewrite (error_understood code message None id r e) by done. unfold connection_process_error.
  simpl rs_conn. by rewrite Hh.
Qed.

End refused.

(** C31: A call that fails.  When the server has no method of that name, or the method
    answers an error, the server writes one error response and returns its code; the
    client hands the identifier, code and message to its error handler.  The callback
    of the call is not run, and it is never forgotten: it stays pending. *)
Theorem call_refused {json} `{JanssonLaws json}
    (client_callbacks server_callbacks : nat -> json -> Z -> rpc_state pipe -> outcome (rpc_state pipe))
    (client_methods server_methods : nat -> option json -> rpc_state pipe -> outcome (Z * option json * rpc_state pipe))
    (client_handlers server_handlers :
       nat -> Z -> Z -> string -> option json -> rpc_state pipe -> outcome (rpc_state pipe))
    (client server server' : rpc_state pipe) (m : gmap skey (option rpc_callback_entry))
    (cb h : nat) (method : string) (params : option json) (user_data code : Z) (message : string)
    (Hclient : conn_ok (rs_conn client) m) (Hid : cn_current_id (rs_conn client) + 1 < 2 ^ 32)
    (Hcw : cn_write_cb (rs_conn client) = true) (Hcr : cn_read_cb (rs_conn client) = true)
    (Hhandler : cn_error_handler (rs_conn client) = Some h)
    (Hutf8 : json_utf8 method = true) (Hutf8' : json_utf8 message = true)
    (Hsr : cn_read_cb (rs_conn server) = true)
    (Hrefusal : refusal server_methods server method params code message server')
    (Hsw : cn_write_cb (rs_conn server') = true)
    (Hreq : forall o, make_call_obj method params (cn_current_id (rs_conn client)) = Some o -> fits o)
    (Hres : forall o, make_error_obj code message None (cn_current_id (rs_conn client)) = Some o -> fits o) :
  exists request answer client1,
    jrpc_call pipe_write client method params (Some (cb, user_data)) = Ok (JRPC_OK, posted client1 request) /\
    jrpc_process pipe_read pipe_write server_methods server_callbacks server_handlers (with_inbox server request) =
      Ok (code, posted server' answer) /\
    jrpc_process pipe_read pipe_write client_methods client_callbacks client_handlers
        (with_inbox (posted client1 request) answer) =
      (s ← client_handlers h (cn_current_id (rs_conn client)) code message None
             (with_inbox (posted client1 request) []); Ok (JRPC_OK, s)) /\
    conn_ok (rs_conn client1)
      (<[rpc_key (cn_current_id (rs_conn client)) := Some (CallbackEntry cb user_data)]> m).
Proof.
  pose proof (conn_next _ _ Hclient) as Hnext. pose proof (refusal_code _ _ _ _ _ _ _ Hrefusal) as Hcode.
  destruct (call_sent client m method params cb user_data) as (o & c & Hfo & Hun & Ecall & Hok1 & Hsame); try done.
  destruct Hsame as (_ & Er1 & _ & Eh1).
  destruct (request_refused server_methods server_callbacks server_handlers server server' o method
    (cn_current_id (rs_conn client)) params code message) as (r & Er & Hfr & Eserve); try done.
  exists (text_of o), (text_of r), (with_conn client c). split_and!; try done.
  apply error_delivered; try done; simpl; [by rewrite Er1|lia|by rewrite Eh1].
Qed.

Lemma call_refused_witness :
  exists request answer client1,
    jrpc_call pipe_write (sample_peer None (Some 1%nat)) "scan" None (Some (5%nat, 99)) = Ok (JRPC_OK, posted client1 request) /\
    jrpc_process pipe_read pipe_write sample_methods sample_callbacks sample_handlers
        (with_inbox (sample_peer (Some sample_mapper) None) request) =
      Ok (-29993, posted (with_inbox (sample_peer (Some sample_mapper) None) []) answer) /\
    jrpc_process pipe_read pipe_write sample_methods sample_callbacks sample_handlers
        (with_inbox (posted client1 request) answer) =
      (s ← sample_handlers 1 1 (-29993) "method returned an unknow error" None
             (with_inbox (posted client1 request) []); Ok (JRPC_OK, s)) /\
    conn_ok (rs_conn client1) (<[rpc_key 1 := Some (CallbackEntry 5 99)]> ∅).
Proof.
  apply (call_refused sample_callbacks sample_callbacks sample_methods sample_methods sample_handlers sample_handlers
    (sample_peer None (Some 1%nat)) (sample_peer (Some sample_mapper) None)
    (with_inbox (sample_peer (Some sample_mapper) None) []) ∅ 5 1 "scan" None 99); try reflexivity.
  - apply sample_peer_ok.
  - by apply (refused_error sample_methods _ "scan" None sample_mapper 0 7 None _ sample_mapper None).
  - intros o [= <-]. split_and!; [done|by eexists|by vm_compute].
  - intros o [= <-]. split_and!; [done|by eexists|by vm_compute].
Defined.

(** ** The mapper *)

(** Both tables of a mapper are in order. *)
Record mapper_ok (mp : jrpc_mapper) : Prop := {
  mapper_methods : exists m, ht_ok (method_table mp) m;
  mapper_methods_type : ht_type (method_table mp) = HASH_KEY_STR;
  mapper_errors : exists m, ht_ok (error_message_table mp) m;
  mapper_errors_type : ht_type (error_message_table mp) = HASH_KEY_INT;
  mapper_errors_null : null_clean (ht_table (error_message_table mp));
}.

Lemma mapper_ok_new : mapper_ok jrpc_mapper_new.
Proof.
  split; try done; [exists ∅; apply ht_ok_new..|].
  unfold hash_table_new, null_clean. by apply Forall_replicate.
Qed.

Lemma mapper_find_refines mp m method :
  ht_ok (method_table mp) m -> ht_type (method_table mp) = HASH_KEY_STR ->
  jrpc_mapper_find mp method = Ok (m !! (inr method : skey) ≫= id).
Proof. intros Hok Hty. unfold jrpc_mapper_find. apply (search_refines _ m _ (inr method)); [done|by rewrite Hty|done]. Qed.

Lemma mapper_message_total mp e : mapper_ok mp -> exists r, jrpc_mapper_get_error_message mp e = Ok r.
Proof.
  intros [_ _ [m Hok] Hty Hnull]. unfold jrpc_mapper_get_error_message.
  destruct (decide (u64 (u8 e) = 0)) as [E|Hne].
  - unfold H_INT_TO_POINTER. rewrite E. exists None. by eapply search_null.
  - eexists. apply (search_refines _ m _ (rpc_key (u64 (u8 e)))); [done|by rewrite Hty, canon_int|].
    by intros [= ?].
Qed.

(** Registering a list of methods, each name at its own address. *)
Fixpoint register_all (mp : jrpc_mapper) (l : list (Z * string * nat)) : outcome jrpc_mapper :=
  match l with
  | [] => Ok mp
  | (p, name, fn) :: l => r ← jrpc_mapper_add mp p name fn; register_all r.2 l
  end.

Lemma register_all_ok l mp m :
  ht_ok (method_table mp) m -> ht_type (method_table mp) = HASH_KEY_STR -> ht_size (method_table mp) = 64 ->
  ht_key_count (method_table mp) + Z.of_nat (length l) <= 45 ->
  NoDup (l.*1.*2) -> (forall name, name ∈ l.*1.*2 -> m !! (inr name : skey) = None) ->
  exists mp' m', register_all mp l = Ok mp' /\ ht_ok (method_table mp') m' /\
    ht_type (method_table mp') = HASH_KEY_STR /\
    error_message_table mp' = error_message_table mp /\
    forall name, m' !! (inr name : skey) =
      match list_find (fun f => f.1.2 = name) l with Some (_, f) => Some (Some f.2) | None => m !! (inr name : skey) end.
Proof.
  revert mp m. induction l as [|[[p name] fn] l IH]; intros mp m Hok Hty Hsz Hcnt Hnd Hfresh.
  { by exists mp, m. }
  cbn [fmap list_fmap fst snd length register_all] in *. apply list.NoDup_cons in Hnd as [Hnin Hnd].
  assert (ht_size (method_table mp) <= size_bound) as Hsb by (unfold size_bound; lia).
  assert (hash_table_must_rehash (method_table mp) = false) as Hmr.
  { apply not_true_is_false. rewrite (must_rehash_spec _ m) by done. lia. }
  destruct (insert_refines (method_table mp) m (PStr p name) (inr name) (Some fn)) as
    (ht' & tr & E & Hok' & Hty' & Hcnt' & _ & _ & _); try done; [by intros _|by rewrite Hty|left; apply Hfresh; by left|].
  assert (ht_size ht' = 64) as Hsz'.
  { unfold hash_table_insert, hash_table_check_overflow in E. rewrite Hmr in E. cbn [mbind outcome_bind] in E.
    apply bind_Ok_inv in E as (h & _ & E). apply bind_Ok_inv in E as ([[[[] ?] ?]|] & _ & E); [|done].
    apply bind_Ok_inv in E as (e & _ & E). injection E as <- _. done. }
  unfold jrpc_mapper_add. rewrite E. cbn [mbind outcome_bind fst snd]. change (1 =? 0) with false. cbn iota.
  cbn [mbind outcome_bind fst snd].
  destruct (IH {| method_table := ht'; error_message_table := error_message_table mp |} (<[inr name := Some fn]> m))
    as (mp' & m' & -> & Hok'' & Hty'' & Herr & Hm'); try done; cbn [method_table]; [congruence|lia| |].
  { intros name' Hin. rewrite lookup_insert_ne; [apply Hfresh; by right|]. intros [= <-]. done. }
  exists mp', m'. split_and!; try done. intros name'. rewrite Hm'. cbn [list_find fst snd].
  destruct (decide (name = name')) as [<-|Hne].
  - destruct (list_find (fun f : Z * string * nat => f.1.2 = name) l) as [[i f]|] eqn:Ef; [|by rewrite lookup_insert_eq].
    exfalso. apply list_find_Some in Ef as (Hi & Hf & _). apply Hnin. apply list_elem_of_fmap. exists f.1.
    split; [done|]. apply list_elem_of_fmap. exists f. split; [done|]. by eapply list_elem_of_lookup_2.
  - destruct (list_find (fun f : Z * string * nat => f.1.2 = name') l) as [[i f]|] eqn:Ef; simpl; [done|].
    rewrite lookup_insert_ne; [done|]. by intros [= ?].
Qed.

(** Method registration.  Up to 45 methods with distinct names can be registered
    on a new mapper; every one is then found under its name and no other name is. *)
Theorem mapper_registers (l : list (Z * string * nat)) (Hnd : NoDup (l.*1.*2)) (Hlen : (length l <= 45)%nat) :
  exists mp, register_all jrpc_mapper_new l = Ok mp /\
    forall name, jrpc_mapper_find mp name =
      Ok (match list_find (fun f => f.1.2 = name) l with Some (_, f) => Some f.2 | None => None end).
Proof.
  destruct (register_all_ok l jrpc_mapper_new ∅) as (mp & m & -> & Hok & Hty & _ & Hm);
    [apply ht_ok_new|done|done|simpl; lia|done|done|].
  exists mp. split; [done|]. intros name. rewrite (mapper_find_refines mp m) by done.
  rewrite Hm. by destruct (list_find _ l) as [[? ?]|].
Qed.

Lemma mapper_registers_witness :
  exists mp, register_all jrpc_mapper_new [(16, "scan", 1%nat); (32, "status", 2%nat)] = Ok mp /\
    forall name, jrpc_mapper_find mp name =
      Ok (match list_find (fun f => f.1.2 = name) [(16, "scan", 1%nat); (32, "status", 2%nat)] with
          | Some (_, f) => Some f.2 | None => None end).
Proof.
  apply (mapper_registers [(16, "scan", 1%nat); (32, "status", 2%nat)]); [|simpl; lia].
  by apply (bool_decide_eq_true_1 (NoDup ["scan"; "status"]%string)).
Defined.

(** ** Whatever is received *)

(** A state in which messages can be processed. *)
Record rpc_inv (s : rpc_state pipe) : Prop := {
  inv_read : cn_read_cb (rs_conn s) = true;
  inv_write : cn_write_cb (rs_conn s) = true;
  inv_pending : exists m, conn_ok (rs_conn s) m;
  inv_mapper : forall mp, cn_mapper (rs_conn s) = Some mp -> mapper_ok mp;
}.

Lemma rpc_inv_conn (s s' : rpc_state pipe) : rpc_inv s -> rs_conn s' = rs_conn s -> rpc_inv s'.
Proof. intros [] E. split; rewrite E; assumption. Qed.

Section total.
Context {json : Type} `{JanssonLaws json}.
Variable methods : nat -> option json -> rpc_state pipe -> outcome (Z * option json * rpc_state pipe).
Variable callbacks : nat -> json -> Z -> rpc_state pipe -> outcome (rpc_state pipe).
Variable handlers : nat -> Z -> Z -> string -> option json -> rpc_state pipe -> outcome (rpc_state pipe).

(** The program's functions return, in a state as good as they were called in. *)
Record functions_total : Prop := {
  methods_total : forall fn params s, rpc_inv s -> exists ret result s',
    methods fn params s = Ok (ret, result, s') /\ rpc_inv s' /\ cn_mapper (rs_conn s') = cn_mapper (rs_conn s);
  callbacks_total : forall cb result user_data s, rpc_inv s -> exists s',
    callbacks cb result user_data s = Ok s' /\ rpc_inv s';
  handlers_total : forall h id code message data s, rpc_inv s -> exists s',
    handlers h id code message data s = Ok s' /\ rpc_inv s';
}.
Hypothesis total : functions_total.

Lemma send_inv (s : rpc_state pipe) obj :
  rpc_inv s -> exists ret s', connection_send pipe_write s obj = Ok (ret, s') /\ rpc_inv s'.
Proof.
  intros Hs. rewrite send_total by apply Hs.
  destruct (obj ≫= json_dump_callback); eexists _, _; (split; [reflexivity|]);
    by apply (rpc_inv_conn s).
Qed.

Lemma request_inv (s : rpc_state pipe) method id params :
  rpc_inv s -> exists ret s', connection_process_request pipe_write methods s method id params = Ok (ret, s') /\ rpc_inv s'.
Proof.
  intros Hs. unfold connection_process_request.
  assert (exists r, match cn_mapper (rs_conn s) with None => Ok None | Some mapper => jrpc_mapper_find mapper method end = Ok r /\
    (is_Some r -> is_Some (cn_mapper (rs_conn s)))) as ([fn|] & -> & Hmap).
  { destruct (cn_mapper (rs_conn s)) as [mp|] eqn:E; [|by exists None].
    destruct (inv_mapper _ Hs mp E) as [[m Hm] Hty _ _ _]. eexists. split; [by eapply mapper_find_refines|done]. }
  - cbn [mbind outcome_bind].
    destruct (methods_total total fn params s Hs) as (ret & result & s' & -> & Hs' & Emap). cbn [mbind outcome_bind].
    destruct (ret =? 0); cbn [negb].
    + destruct (negb (id =? 0)); [|by eexists _, _].
      destruct (send_inv s' (make_result_obj result id) Hs') as (r & s2 & -> & Hs2). by eexists _, _.
    + destruct (Hmap ltac:(done)) as [mp Emp]. rewrite Emap, Emp.
      destruct (mapper_message_total mp ret) as [text ->]; [by apply (inv_mapper _ Hs)|]. cbn [mbind outcome_bind].
      edestruct (send_inv s') as (r & s2 & -> & Hs2); [done|]. by eexists _, _.
  - cbn [mbind outcome_bind]. edestruct (send_inv s) as (r & s2 & -> & Hs2); [done|]. by eexists _, _.
Qed.

Lemma result_inv (s : rpc_state pipe) id result :
  rpc_inv s -> exists ret s', connection_process_result callbacks s id result = Ok (ret, s') /\ rpc_inv s'.
Proof.
  intros Hs. destruct Hs as [Hr Hw [m Hm] Hmap]. unfold connection_process_result.
  destruct (find_callback_ok (rs_conn s) m id Hm) as (c & -> & Hc & _ & Em & Er & Ew & _). cbn [mbind outcome_bind fst snd].
  assert (rpc_inv (with_conn s c)) as Hs' by (split; simpl; [congruence|congruence|by eexists|by rewrite Em]).
  destruct (m !! rpc_key (u64 id) ≫= Datatypes.id) as [e|]; [|by eexists _, _].
  destruct (callbacks_total total (rcb_cb e) result (rcb_user_data e) _ Hs') as (s2 & -> & Hs2). by eexists _, _.
Qed.

Lemma process_inv (s : rpc_state pipe) :
  rpc_inv s -> exists ret s', jrpc_process pipe_read pipe_write methods callbacks handlers s = Ok (ret, s') /\ rpc_inv s'.
Proof.
  intros Hs. unfold jrpc_process, connection_receive. rewrite (inv_read _ Hs). cbn [c_assert mbind outcome_bind].
  destruct (pipe_read DEFAULT_INPUT_BUFFER_SIZE (rs_world s)) as [[n text] w].
  assert (rpc_inv (with_world s w)) as Hw by (by apply (rpc_inv_conn s)).
  destruct (n <? 0); [by eexists _, _|]. destruct (n =? 0); [by eexists _, _|]. cbn [mbind outcome_bind].
  destruct (json_loadb _) as [o|]; cbn [mbind outcome_bind]; [|by eexists _, _].
  destruct (json_rpc_unpack o) as [ret|[method id params|id code message data|id result]].
  - destruct (ret =? JRPC_ERR_INVALID_REQUEST); [|by eexists _, _].
    edestruct (send_inv (with_world s w)) as (r & s2 & -> & Hs2); [done|]. by eexists _, _.
  - by apply request_inv.
  - unfold connection_process_error. destruct (cn_error_handler _) as [h|]; [|by eexists _, _].
    destruct (handlers_total total h id code message data _ Hw) as (s2 & -> & Hs2). by eexists _, _.
  - by apply result_inv.
Qed.

End total.

(** C21: Whatever bytes a peer sends, [jrpc_process] returns, without a fault, and
    leaves the connection in order, provided the methods, callbacks and error handlers
    of the program do: malformed JSON, objects that are no message, unknown methods,
    responses to calls that were never made or were answered already, null
    identifiers. *)
Theorem process_any_input {json} `{JanssonLaws json}
    (methods : nat -> option json -> rpc_state pipe -> outcome (Z * option json * rpc_state pipe))
    (callbacks : nat -> json -> Z -> rpc_state pipe -> outcome (rpc_state pipe))
    (handlers : nat -> Z -> Z -> string -> option json -> rpc_state pipe -> outcome (rpc_state pipe))
    (s : rpc_state pipe) (input : list ascii)
    (Htotal : functions_total methods callbacks handlers) (Hs : rpc_inv s) :
  exists ret s', jrpc_process pipe_read pipe_write methods callbacks handlers (with_inbox s input) = Ok (ret, s') /\
    rpc_inv s'.
Proof. apply process_inv; [done|]. by apply (rpc_inv_conn s). Qed.

Lemma sample_mapper_ok : mapper_ok sample_mapper.
Proof.
  destruct (register_all_ok [(1, "scan", 0%nat)] jrpc_mapper_new ∅) as (mp & m & E & Hok & Hty & Herr & _);
    [apply ht_ok_new|done|done|done|by apply list.NoDup_singleton|done|].
  assert (mp = sample_mapper) as <- by (apply (inj Ok); rewrite <- E; vm_compute; reflexivity).
  pose proof mapper_ok_new as [_ _ He Het Hen]. rewrite <- Herr in He, Het, Hen.
  split; [by exists m|exact Hty|exact He|exact Het|exact Hen].
Qed.

Lemma process_any_input_witness :
  exists ret s', jrpc_process pipe_read pipe_write sample_methods sample_callbacks sample_handlers
      (with_inbox (sample_peer (Some sample_mapper) (Some 1%nat)) (bytes "{not json")) = Ok (ret, s') /\ rpc_inv s'.
Proof.
  apply (process_any_input sample_methods sample_callbacks sample_handlers).
  - split; [|by intros; eexists|by intros; eexists].
    intros fn params s0 Hs. unfold sample_methods.
    destruct params as [[]|]; eexists _, _, s0; by split_and!.
  - split; [done|done|by exists ∅; apply sample_peer_ok|]. intros mp E%(inj Some). rewrite <- E. exact sample_mapper_ok.
Defined.
