(* ===== verification/Marshall.v ===== *)
(** * Marshalling C structures to JSON
    ([src/librpc/jrpc/marshall.c], [libjrpc/marshall.h])

    The macros of marshall.h expand a description of the structures, enums and unions
    of a program into one function for each direction.  Here the descriptions are the
    types [struct_def] and [union_def], with one constructor for each macro, and the
    functions interpret them: every case below is the expansion of a macro.  A value of
    a described structure has the type [sval], computed from the description, so that
    a field has the type C gives it.

    [JRPC_STRUCT_FIELD_STRUCT_PTR] has no constructor: its unmarshalling expansion names
    the function [jrpc_unmarshall_struct_S], which does not exist, so that a
    description that uses it does not compile. *)
From S2P Require Import Prelude Json.

#[local] Open Scope Z_scope.

Definition JRPC_ERR_MARSHALL_FIELD_NOT_FOUND : Z := -32099.
Definition JRPC_ERR_MARSHALL_TYPE_MISMATCH : Z := -32098.
Definition JRPC_ERR_MARSHALL_INVALID_ENUM_STRING : Z := -32097.
Definition JRPC_ERR_MARSHALL_INVALID_ENUM_VALUE : Z := -32096.

(** ** Descriptions *)

Record int_type := IntType { it_width : Z; it_signed : bool }.

Definition c_int : int_type := IntType 32 true.
Definition c_unsigned_int : int_type := IntType 32 false.
Definition c_size_t : int_type := IntType 64 false.
Definition c_time_t : int_type := IntType 64 true.

Definition cast (ty : int_type) (z : Z) : Z :=
  if it_signed ty then signed (it_width ty) z else wrap (it_width ty) z.

Abbreviation enum_def := (list (string * Z)).

Inductive struct_def : Set :=
  | STRUCT_END
  | FIELD_INT (ty : int_type) (name : string) (rest : struct_def)
  | FIELD_STRING (name : string) (rest : struct_def)
  | FIELD_ENUM (e : enum_def) (name : string) (rest : struct_def)
  | FIELD_PTR_ARRAY (elem : struct_def) (name : string) (rest : struct_def)
  | FIELD_STRUCT (s : struct_def) (name : string) (rest : struct_def)
  | FIELD_UNION (u : union_def) (name tag : string) (rest : struct_def)
with union_def : Set :=
  | UNION_END
  | UNION_FIELD_INT (ty : int_type) (name : string) (tag_value : Z) (rest : union_def)
  | UNION_FIELD_STRING (name : string) (tag_value : Z) (rest : union_def)
  | UNION_FIELD_STRUCT (s : struct_def) (name : string) (tag_value : Z) (rest : union_def).

(** The values of a structure: strings and arrays are pointers, possibly NULL, and an
    array ends at its first NULL.  A union stores one of its members. *)
Fixpoint sval (s : struct_def) : Type :=
  match s with
  | STRUCT_END => unit
  | FIELD_INT _ _ rest => Z * sval rest
  | FIELD_STRING _ rest => option string * sval rest
  | FIELD_ENUM _ _ rest => Z * sval rest
  | FIELD_PTR_ARRAY elem _ rest => option (list (sval elem)) * sval rest
  | FIELD_STRUCT st _ rest => sval st * sval rest
  | FIELD_UNION u _ _ rest => uval u * sval rest
  end
with uval (u : union_def) : Type :=
  match u with
  | UNION_END => unit
  | UNION_FIELD_INT _ _ _ rest => Z + uval rest
  | UNION_FIELD_STRING _ _ rest => option string + uval rest
  | UNION_FIELD_STRUCT s _ _ rest => sval s + uval rest
  end.

(** A union seen as storing none of the members that follow. *)
Fixpoint no_member (u : union_def) : uval u :=
  match u with
  | UNION_END => tt
  | UNION_FIELD_INT _ _ _ rest => inr (no_member rest)
  | UNION_FIELD_STRING _ _ rest => inr (no_member rest)
  | UNION_FIELD_STRUCT _ _ _ rest => inr (no_member rest)
  end.

(** [s->TAG]: an integer or enum field. *)
Fixpoint tag_of (s : struct_def) : sval s -> string -> option Z :=
  match s with
  | STRUCT_END => fun _ _ => None
  | FIELD_INT _ name rest => fun v tag => if decide (name = tag) then Some v.1 else tag_of rest v.2 tag
  | FIELD_ENUM _ name rest => fun v tag => if decide (name = tag) then Some v.1 else tag_of rest v.2 tag
  | FIELD_STRING _ rest => fun v tag => tag_of rest v.2 tag
  | FIELD_PTR_ARRAY _ _ rest => fun v tag => tag_of rest v.2 tag
  | FIELD_STRUCT _ _ rest => fun v tag => tag_of rest v.2 tag
  | FIELD_UNION _ _ _ rest => fun v tag => tag_of rest v.2 tag
  end.

(** [if ((ret = m)) goto error_end;] *)
Definition or_fail {A B} (m : outcome (Z + A)) (k : A -> outcome (Z + B)) : outcome (Z + B) :=
  r ← m; match r with inl ret => Ok (inl ret) | inr x => k x end.

Section marshall.
Context {json : Type} `{Jansson json}.

(** ** Marshalling *)

Fixpoint jrpc_marshall_enum (e : enum_def) (value : Z) : outcome (Z + json) :=
  match e with
  | [] => Ok (inl JRPC_ERR_MARSHALL_INVALID_ENUM_VALUE)
  | (name, z) :: e => if value =? z then Ok (inr (json_string name)) else jrpc_marshall_enum e value
  end.

Fixpoint marshall_elems {A} (marshall_elem_cb : A -> outcome (Z + json)) (l : list A) (obj : json)
    : outcome (Z + json) :=
  match l with
  | [] => Ok (inr obj)
  | p :: l => or_fail (marshall_elem_cb p) (fun elem => marshall_elems marshall_elem_cb l (json_array_append obj elem))
  end.

Definition jrpc_marshall_array {A} (array : option (list A)) (marshall_elem_cb : A -> outcome (Z + json))
    : outcome (Z + json) :=
  match array with
  | None => Ok (inr json_null)
  | Some l => marshall_elems marshall_elem_cb l json_array
  end.

(** The fields of a structure are set one after the other in [obj]; [tags] is what
    [s->TAG] reads. *)
Fixpoint marshall_fields (s : struct_def) (tags : string -> option Z) {struct s} : sval s -> json -> outcome (Z + json) :=
  match s with
  | STRUCT_END => fun _ obj => Ok (inr obj)
  | FIELD_INT _ name rest => fun v obj =>
      marshall_fields rest tags v.2 (json_object_set_new obj name (Some (json_integer (i64 v.1))))
  | FIELD_STRING name rest => fun v obj =>
      marshall_fields rest tags v.2 (json_object_set_new obj name (json_string_opt v.1))
  | FIELD_ENUM e name rest => fun v obj =>
      or_fail (jrpc_marshall_enum e v.1) (fun field =>
      marshall_fields rest tags v.2 (json_object_set_new obj name (Some field)))
  | FIELD_PTR_ARRAY elem name rest => fun v obj =>
      or_fail (jrpc_marshall_array (A := sval elem) v.1 (fun p => marshall_fields elem (tag_of elem p) p json_object)) (fun field =>
      marshall_fields rest tags v.2 (json_object_set_new obj name (Some field)))
  | FIELD_STRUCT st name rest => fun v obj =>
      or_fail (marshall_fields st (tag_of st v.1) v.1 json_object) (fun field =>
      marshall_fields rest tags v.2 (json_object_set_new obj name (Some field)))
  | FIELD_UNION u name tag rest => fun v obj =>
      match tags tag with
      | None => Fault UninitRead
      | Some tag =>
          or_fail (marshall_union u v.1 tag) (fun field =>
          marshall_fields rest tags v.2 (json_object_set_new obj name (Some field)))
      end
  end
(** The [switch] on the tag: the member read must be the one stored. *)
with marshall_union (u : union_def) {struct u} : uval u -> Z -> outcome (Z + json) :=
  match u with
  | UNION_END => fun _ _ => Ok (inr json_object)
  | UNION_FIELD_INT _ name tag_value rest => fun v tag =>
      if tag =? tag_value then
        match v with
        | inl z => Ok (inr (json_object_set_new json_object name (Some (json_integer (i64 z)))))
        | inr _ => Fault UninitRead
        end
      else marshall_union rest (match v with inl _ => no_member rest | inr v => v end) tag
  | UNION_FIELD_STRING name tag_value rest => fun v tag =>
      if tag =? tag_value then
        match v with
        | inl s => Ok (inr (json_object_set_new json_object name (json_string_opt s)))
        | inr _ => Fault UninitRead
        end
      else marshall_union rest (match v with inl _ => no_member rest | inr v => v end) tag
  | UNION_FIELD_STRUCT st name tag_value rest => fun v tag =>
      if tag =? tag_value then
        match v with
        | inl x =>
            or_fail (marshall_fields st (tag_of st x) x json_object) (fun field =>
            Ok (inr (json_object_set_new json_object name (Some field))))
        | inr _ => Fault UninitRead
        end
      else marshall_union rest (match v with inl _ => no_member rest | inr v => v end) tag
  end.

(** [p] is NULL or points to a structure; also [JRPC_STRUCT2JSON]. *)
Definition jrpc_marshall_struct (s : struct_def) (p : option (sval s)) : outcome (Z + json) :=
  match p with
  | None => Ok (inr json_null)
  | Some v => marshall_fields s (tag_of s v) v json_object
  end.

(** ** Unmarshalling *)

(** [obj] may be NULL or not an object: no field is found then. *)
Definition jrpc_unmarshall_field (obj : option json) (name : string) (expected_json_type : json_type)
    (allow_null : bool) : outcome (Z + json) :=
  match o ← obj; json_object_get o name with
  | None => Ok (inl JRPC_ERR_MARSHALL_FIELD_NOT_FOUND)
  | Some field =>
      if allow_null && json_is_null field then Ok (inr field)
      else if negb (bool_decide (json_typeof field = expected_json_type)) then Ok (inl JRPC_ERR_MARSHALL_TYPE_MISMATCH)
      else Ok (inr field)
  end.

(** The chain of [strcmp], which dereferences the string of the field. *)
Fixpoint enum_lookup (e : enum_def) (enum_string : string) : option Z :=
  match e with
  | [] => None
  | (name, z) :: e => if decide (enum_string = name) then Some z else enum_lookup e enum_string
  end.

Definition jrpc_unmarshall_enum (e : enum_def) (obj : json) : outcome (Z + Z) :=
  match json_string_value obj with
  | None => match e with [] => Ok (inl JRPC_ERR_MARSHALL_INVALID_ENUM_STRING) | _ => Fault NullDeref end
  | Some enum_string =>
      match enum_lookup e enum_string with
      | Some z => Ok (inr z)
      | None => Ok (inl JRPC_ERR_MARSHALL_INVALID_ENUM_STRING)
      end
  end.

(** [strdup(json_string_value(field))] *)
Definition dup_string (field : json) : outcome (Z + option string) :=
  match json_string_value field with None => Fault NullDeref | Some s => Ok (inr (Some s)) end.

Fixpoint unmarshall_elems {A} (unmarshall_cb : option json -> outcome (Z + A)) (l : list json) : outcome (Z + list A) :=
  match l with
  | [] => Ok (inr [])
  | elem :: l =>
      or_fail (unmarshall_cb (Some elem)) (fun x =>
      or_fail (unmarshall_elems unmarshall_cb l) (fun xs => Ok (inr (x :: xs))))
  end.

Definition jrpc_unmarshall_array {A} (obj : json) (unmarshall_cb : option json -> outcome (Z + A))
    : outcome (Z + option (list A)) :=
  if json_is_null obj then Ok (inr None)
  else or_fail (unmarshall_elems unmarshall_cb (json_array_elems obj)) (fun array => Ok (inr (Some array))).

(** [s->NAME = z] *)
Definition set_tag (tags : string -> option Z) (name : string) (z : Z) : string -> option Z :=
  fun tag => if decide (name = tag) then Some z else tags tag.

(** The structure comes from [calloc]: a tag that is not set yet reads 0. *)
Fixpoint unmarshall_fields (s : struct_def) (tags : string -> option Z) (obj : option json) {struct s}
    : outcome (Z + sval s) :=
  match s with
  | STRUCT_END => Ok (inr tt)
  | FIELD_INT ty name rest =>
      or_fail (jrpc_unmarshall_field obj name JSON_INTEGER false) (fun field =>
      let z := cast ty (json_integer_value field) in
      or_fail (unmarshall_fields rest (set_tag tags name z) obj) (fun v => Ok (inr (z, v))))
  | FIELD_STRING name rest =>
      or_fail (jrpc_unmarshall_field obj name JSON_STRING false) (fun field =>
      or_fail (dup_string field) (fun p =>
      or_fail (unmarshall_fields rest tags obj) (fun v => Ok (inr (p, v)))))
  | FIELD_ENUM e name rest =>
      or_fail (jrpc_unmarshall_field obj name JSON_STRING false) (fun field =>
      or_fail (jrpc_unmarshall_enum e field) (fun z =>
      or_fail (unmarshall_fields rest (set_tag tags name z) obj) (fun v => Ok (inr (z, v)))))
  | FIELD_PTR_ARRAY elem name rest =>
      or_fail (jrpc_unmarshall_field obj name JSON_ARRAY true) (fun field =>
      or_fail (jrpc_unmarshall_array field (unmarshall_fields elem (fun _ => None))) (fun a =>
      or_fail (unmarshall_fields rest tags obj) (fun v => Ok (inr (a, v)))))
  | FIELD_STRUCT st name rest =>
      or_fail (jrpc_unmarshall_field obj name JSON_OBJECT true) (fun field =>
      or_fail (unmarshall_fields st (fun _ => None) (Some field)) (fun x =>
      or_fail (unmarshall_fields rest tags obj) (fun v => Ok (inr (x, v)))))
  | FIELD_UNION u name tag rest =>
      or_fail (jrpc_unmarshall_field obj name JSON_OBJECT false) (fun field =>
      or_fail (unmarshall_union u (Some field) (default 0 (tags tag))) (fun x =>
      or_fail (unmarshall_fields rest tags obj) (fun v => Ok (inr (x, v)))))
  end
with unmarshall_union (u : union_def) (obj : option json) (tag : Z) {struct u} : outcome (Z + uval u) :=
  match u with
  | UNION_END => Ok (inr tt)
  | UNION_FIELD_INT ty name tag_value rest =>
      if tag =? tag_value then
        or_fail (jrpc_unmarshall_field obj name JSON_INTEGER false) (fun field =>
        Ok (inr (inl (cast ty (json_integer_value field)))))
      else or_fail (unmarshall_union rest obj tag) (fun v => Ok (inr (inr v)))
  | UNION_FIELD_STRING name tag_value rest =>
      if tag =? tag_value then
        or_fail (jrpc_unmarshall_field obj name JSON_INTEGER false) (fun field =>
        or_fail (dup_string field) (fun p => Ok (inr (inl p))))
      else or_fail (unmarshall_union rest obj tag) (fun v => Ok (inr (inr v)))
  | UNION_FIELD_STRUCT st name tag_value rest =>
      if tag =? tag_value then
        or_fail (jrpc_unmarshall_field obj name JSON_OBJECT false) (fun field =>
        or_fail (unmarshall_fields st (fun _ => None) (Some field)) (fun x => Ok (inr (inl x))))
      else or_fail (unmarshall_union rest obj tag) (fun v => Ok (inr (inr v)))
  end.

(** Also [JRPC_JSON2STRUCT]. *)
Definition jrpc_unmarshall_struct_ptr (obj : option json) (s : struct_def) : outcome (Z + option (sval s)) :=
  if match obj with Some o => json_is_null o | None => false end then Ok (inr None)
  else or_fail (unmarshall_fields s (fun _ => None) obj) (fun v => Ok (inr (Some v))).

End marshall.
