(* ===== verification/MarshallSpec.v ===== *)
(** * Round trips and typing of marshalled structures

    Both theorems hold for every description that satisfies [schema_ok], by induction
    on descriptions. *)
From S2P Require Import Prelude Json Marshall.

#[local] Open Scope Z_scope.

Scheme struct_def_mind := Induction for struct_def Sort Prop
  with union_def_mind := Induction for union_def Sort Prop.
Combined Scheme def_mutind from struct_def_mind, union_def_mind.

(** ** Descriptions and values *)

Fixpoint field_names (s : struct_def) : list string :=
  match s with
  | STRUCT_END => []
  | FIELD_INT _ name rest | FIELD_STRING name rest | FIELD_ENUM _ name rest
  | FIELD_PTR_ARRAY _ name rest | FIELD_STRUCT _ name rest | FIELD_UNION _ name _ rest => name :: field_names rest
  end.

Definition int_ok (ty : int_type) : bool := (0 <? it_width ty) && (it_width ty <=? 64).

Definition enum_ok (e : enum_def) : bool :=
  bool_decide (NoDup e.*1) && bool_decide (NoDup e.*2) && forallb is_ascii e.*1.

(** Field names are distinct, integers have at most 64 bits, the names and the values
    of an enum are distinct, the tag of a union is an integer field before it, and no
    union has a string member ([seen]: the integer fields before). *)
Fixpoint schema_ok (seen : list string) (s : struct_def) : bool :=
  match s with
  | STRUCT_END => true
  | FIELD_INT ty name rest =>
      int_ok ty && bool_decide (name ∉ field_names rest) && schema_ok (name :: seen) rest
  | FIELD_STRING name rest => bool_decide (name ∉ field_names rest) && schema_ok seen rest
  | FIELD_ENUM e name rest =>
      enum_ok e && bool_decide (name ∉ field_names rest) && schema_ok (name :: seen) rest
  | FIELD_PTR_ARRAY elem name rest =>
      schema_ok [] elem && bool_decide (name ∉ field_names rest) && schema_ok seen rest
  | FIELD_STRUCT st name rest =>
      schema_ok [] st && bool_decide (name ∉ field_names rest) && schema_ok seen rest
  | FIELD_UNION u name tag rest =>
      union_ok u && bool_decide (tag ∈ seen) && bool_decide (name ∉ field_names rest) && schema_ok seen rest
  end
with union_ok (u : union_def) : bool :=
  match u with
  | UNION_END => true
  | UNION_FIELD_INT ty _ _ rest => int_ok ty && union_ok rest
  | UNION_FIELD_STRING _ _ _ => false
  | UNION_FIELD_STRUCT st _ _ rest => schema_ok [] st && union_ok rest
  end.

Definition in_range (ty : int_type) (z : Z) : Prop := cast ty z = z.

(** Split the conditions of [schema_ok]. *)
Ltac split_ok :=
  repeat match goal with
  | Hok : _ && _ = true |- _ => apply andb_prop in Hok; destruct Hok
  | Hok : bool_decide _ = true |- _ => apply bool_decide_eq_true in Hok
  end.

Section values.
Context {json : Type} `{Jansson json}.

(** Integers are in the range of the type of their field, enums have a value of the
    description, strings are UTF-8 or NULL, and a union stores the member its tag
    selects. *)
Fixpoint good (s : struct_def) (tags : string -> option Z) {struct s} : sval s -> Prop :=
  match s with
  | STRUCT_END => fun _ => True
  | FIELD_INT ty _ rest => fun v => in_range ty v.1 /\ good rest tags v.2
  | FIELD_STRING _ rest => fun v =>
      match v.1 with Some s => json_utf8 s = true | None => True end /\ good rest tags v.2
  | FIELD_ENUM e _ rest => fun v => v.1 ∈ e.*2 /\ good rest tags v.2
  | FIELD_PTR_ARRAY elem _ rest => fun v =>
      match v.1 with Some l => Forall (fun p => good elem (tag_of elem p) p) l | None => True end /\
      good rest tags v.2
  | FIELD_STRUCT st _ rest => fun v => good st (tag_of st v.1) v.1 /\ good rest tags v.2
  | FIELD_UNION u _ tag rest => fun v =>
      match tags tag with Some t => good_union u t v.1 | None => False end /\ good rest tags v.2
  end
with good_union (u : union_def) (tag : Z) {struct u} : uval u -> Prop :=
  match u with
  | UNION_END => fun _ => True
  | UNION_FIELD_INT ty _ tag_value rest => fun v =>
      match v with
      | inl z => tag = tag_value /\ in_range ty z
      | inr v => tag <> tag_value /\ good_union rest tag v
      end
  | UNION_FIELD_STRING _ tag_value rest => fun v =>
      match v with
      | inl _ => False
      | inr v => tag <> tag_value /\ good_union rest tag v
      end
  | UNION_FIELD_STRUCT st _ tag_value rest => fun v =>
      match v with
      | inl x => tag = tag_value /\ good st (tag_of st x) x
      | inr v => tag <> tag_value /\ good_union rest tag v
      end
  end.

Definition good_struct (s : struct_def) (v : sval s) : Prop := good s (tag_of s v) v.

(** No string is NULL. *)
Fixpoint complete (s : struct_def) : sval s -> bool :=
  match s with
  | STRUCT_END => fun _ => true
  | FIELD_INT _ _ rest => fun v => complete rest v.2
  | FIELD_STRING _ rest => fun v => match v.1 with Some _ => true | None => false end && complete rest v.2
  | FIELD_ENUM _ _ rest => fun v => complete rest v.2
  | FIELD_PTR_ARRAY elem _ rest => fun v =>
      match v.1 with Some l => forallb (complete elem) l | None => true end && complete rest v.2
  | FIELD_STRUCT st _ rest => fun v => complete st v.1 && complete rest v.2
  | FIELD_UNION u _ _ rest => fun v => complete_union u v.1 && complete rest v.2
  end
with complete_union (u : union_def) : uval u -> bool :=
  match u with
  | UNION_END => fun _ => true
  | UNION_FIELD_INT _ _ _ rest => fun v => match v with inl _ => true | inr v => complete_union rest v end
  | UNION_FIELD_STRING _ _ rest => fun v => match v with inl _ => true | inr v => complete_union rest v end
  | UNION_FIELD_STRUCT st _ _ rest => fun v =>
      match v with inl x => complete st x | inr v => complete_union rest v end
  end.

(** What the peer gets for a value: the value itself, or the refusal of a structure
    with a NULL string. *)
Definition received {A} (ok : bool) (v : A) : Z + A :=
  if ok then inr v else inl JRPC_ERR_MARSHALL_FIELD_NOT_FOUND.

Lemma or_fail_inr {A B} (x : A) (k : A -> outcome (Z + B)) : or_fail (Ok (inr x)) k = k x.
Proof. done. Qed.

Lemma or_fail_inl {A B} z (k : A -> outcome (Z + B)) : or_fail (Ok (inl z)) k = Ok (inl z).
Proof. done. Qed.

(** The tags a value carries are those [tag_of] reads. *)
Fixpoint carries (s : struct_def) (tags : string -> option Z) : sval s -> Prop :=
  match s with
  | STRUCT_END => fun _ => True
  | FIELD_INT _ name rest | FIELD_ENUM _ name rest => fun v => tags name = Some v.1 /\ carries rest tags v.2
  | FIELD_STRING _ rest => fun v => carries rest tags v.2
  | FIELD_PTR_ARRAY _ _ rest => fun v => carries rest tags v.2
  | FIELD_STRUCT _ _ rest => fun v => carries rest tags v.2
  | FIELD_UNION _ _ _ rest => fun v => carries rest tags v.2
  end.

Lemma carries_tag_of s seen tags v :
  schema_ok seen s = true -> (forall n, n ∈ field_names s -> tags n = tag_of s v n) -> carries s tags v.
Proof.
  revert seen tags v. induction s; intros seen tags v Hok Ht; cbn [schema_ok carries field_names tag_of] in *;
    split_ok; try done.
  all: try (eapply IHs; [done|]; intros n Hn; apply Ht; by right).
  all: try (eapply IHs2; [done|]; intros n Hn; apply Ht; by right).
  all: split; [rewrite Ht by left; by rewrite decide_True|].
  all: eapply IHs; [done|]; intros n Hn; rewrite Ht by (by right); apply decide_False; by intros ->.
Qed.

(** ** Integers *)

Lemma wrap_mul_add w m z k : 0 < w <= m -> wrap w (z + k * 2 ^ m) = wrap w z.
Proof.
  intros Hw. unfold wrap. replace m with (m - w + w) by lia.
  rewrite Z.pow_add_r, Z.mul_assoc by lia. apply Z.mod_add. lia.
Qed.

Lemma wrap_i64 w z : 0 < w <= 64 -> wrap w (i64 z) = wrap w z.
Proof.
  intros Hw. assert (exists k, i64 z = z + k * 2 ^ 64) as [k ->].
  { unfold i64, signed, wrap. rewrite Z.mod_eq by lia. case_match.
    - exists (- (z / 2 ^ 64)). lia.
    - exists (- (z / 2 ^ 64) - 1). lia. }
  by apply wrap_mul_add.
Qed.

Lemma cast_i64 ty z : int_ok ty = true -> in_range ty z -> cast ty (i64 z) = z.
Proof.
  intros Hok%andb_prop Hr. rewrite <- Hr at 2. unfold cast, signed. rewrite wrap_i64 by lia. done.
Qed.

Lemma cast_in_range ty z : int_ok ty = true -> in_range ty (cast ty z).
Proof.
  intros Hok%andb_prop. unfold in_range, cast. destruct (it_signed ty).
  - apply signed_small, signed_bound; lia.
  - apply wrap_wrap. lia.
Qed.

(** ** Fields of an object *)

Lemma unmarshall_found j name ty b field :
  json_object_get j name = Some field -> json_typeof field = ty ->
  jrpc_unmarshall_field (Some j) name ty b = Ok (inr field).
Proof.
  intros Hg <-. unfold jrpc_unmarshall_field. simpl. rewrite Hg.
  destruct (_ && _); [done|]. by rewrite bool_decide_eq_true_2.
Qed.

Lemma unmarshall_missing j name ty b :
  json_object_get j name = None ->
  jrpc_unmarshall_field (Some j) name ty b = Ok (inl JRPC_ERR_MARSHALL_FIELD_NOT_FOUND).
Proof. intros Hg. unfold jrpc_unmarshall_field. simpl. by rewrite Hg. Qed.

(** The object [obj] with the field [name] set, or not. *)
Lemma get_set_new `{!JanssonLaws json} obj name v k :
  json_typeof obj = JSON_OBJECT ->
  json_object_get (json_object_set_new obj name v) k = if decide (name = k) then v ∪ json_object_get obj k else json_object_get obj k.
Proof.
  intros Ho. destruct v as [v|]; simpl; [|by case_decide; destruct (json_object_get obj k)].
  rewrite (proj2 (set_object obj name v Ho)). case_decide; [|done]. by destruct (json_object_get obj k).
Qed.

Lemma typeof_set_new `{!JanssonLaws json} obj name v :
  json_typeof obj = JSON_OBJECT -> json_typeof (json_object_set_new obj name v) = JSON_OBJECT.
Proof. intros Ho. destruct v as [v|]; [|done]. apply (set_object obj name v Ho). Qed.

(** ** Enums *)

Lemma enum_marshalled e z :
  enum_ok e = true -> z ∈ e.*2 ->
  exists name, (name, z) ∈ e /\ is_ascii name = true /\ jrpc_marshall_enum e z = Ok (inr (json_string name)).
Proof.
  intros [_ Ha]%andb_prop Hz. induction e as [|[n z'] e IH]; [by apply elem_of_nil in Hz|].
  cbn [jrpc_marshall_enum] in *. cbn [fmap list_fmap forallb fst] in Ha. apply andb_prop in Ha as [Hn Ha].
  destruct (Z.eqb_spec z z') as [<-|Hne]; [exists n; split_and!; try done; left|].
  destruct IH as (name & Hin & Hn' & Hm); [done| |exists name; split_and!; try done; by right].
  by apply elem_of_cons in Hz as [Hz|Hz].
Qed.

Lemma enum_lookup_in e name z : NoDup e.*1 -> (name, z) ∈ e -> enum_lookup e name = Some z.
Proof.
  intros Hn Hin. induction e as [|[n z'] e IH]; [by apply elem_of_nil in Hin|].
  cbn [enum_lookup fmap list_fmap fst] in *. apply list.NoDup_cons in Hn as [Hn1 Hn].
  apply elem_of_cons in Hin as [[= -> ->]|Hin]; [by rewrite decide_True|].
  rewrite decide_False; [by apply IH|]. intros ->. apply Hn1, list_elem_of_fmap. by exists (n, z).
Qed.

Lemma enum_lookup_value e name z : enum_lookup e name = Some z -> z ∈ e.*2.
Proof.
  induction e as [|[n z'] e IH]; [done|]. cbn [enum_lookup fmap list_fmap snd]. case_decide.
  - intros [= ->]. left.
  - intros. right. by apply IH.
Qed.

Lemma enum_roundtrip `{!JanssonLaws json} e z :
  enum_ok e = true -> z ∈ e.*2 ->
  exists field, jrpc_marshall_enum e z = Ok (inr field) /\ json_typeof field = JSON_STRING /\
    jrpc_unmarshall_enum e field = Ok (inr z).
Proof.
  intros Hok Hz. destruct (enum_marshalled e z Hok Hz) as (name & Hin & Ha & Hm).
  exists (json_string name). unfold jrpc_unmarshall_enum. apply utf8_ascii in Ha.
  rewrite string_value_string, (enum_lookup_in e name z) by (unfold enum_ok in Hok; split_ok; done).
  split_and!; [done| |done]. by apply typeof_string.
Qed.

(** ** Objects under construction *)

Definition fresh (names : list string) (obj : json) : Prop :=
  json_typeof obj = JSON_OBJECT /\ forall k, k ∈ names -> json_object_get obj k = None.

Definition extends (names : list string) (obj j : json) : Prop :=
  json_typeof j = JSON_OBJECT /\ forall k, k ∉ names -> json_object_get j k = json_object_get obj k.

Lemma fresh_object `{!JanssonLaws json} names : fresh names json_object.
Proof. split; [apply typeof_object|]. intros k _. apply object_empty. Qed.

Lemma fresh_set `{!JanssonLaws json} names name obj v :
  name ∉ names -> fresh (name :: names) obj -> fresh names (json_object_set_new obj name v).
Proof.
  intros Hn [Ho Hf]. split; [by apply typeof_set_new|]. intros k Hk. rewrite get_set_new by done.
  rewrite decide_False by (by intros ->). apply Hf. by right.
Qed.

Lemma extends_set `{!JanssonLaws json} names name obj v j :
  name ∉ names -> fresh (name :: names) obj -> extends names (json_object_set_new obj name v) j ->
  json_object_get j name = v /\ extends (name :: names) obj j.
Proof.
  intros Hn [Ho Hf] [Hj He]. split; [|split; [done|]].
  - rewrite He, get_set_new, decide_True, Hf by (try done; left). by destruct v.
  - intros k [Hk1 Hk2]%not_elem_of_cons. rewrite He, get_set_new, decide_False by done. done.
Qed.

(** ** Round trips *)

(** Marshalling [v] into [obj] gives an object from which [v] is read back, whatever the
    tags of the other fields; [seen] are the fields already read. *)
Definition roundtrips (seen : list string) (s : struct_def) (tags : string -> option Z) (v : sval s) (obj : json) : Prop :=
  exists j, marshall_fields s tags v obj = Ok (inr j) /\ extends (field_names s) obj j /\
    forall tags', (forall n, n ∈ seen -> tags' n = tags n) ->
      unmarshall_fields s tags' (Some j) = Ok (received (complete s v) v).

Lemma received_pair {A B} (b c : bool) (x : A) (y : B) m k :
  m = Ok (received b x) -> (b = true -> k = Ok (received c y)) ->
  or_fail m (fun x => or_fail k (fun y => Ok (inr (x, y)))) = Ok (received (b && c) (x, y)).
Proof. intros -> Hk. destruct b; [|done]. cbn. rewrite Hk by done. by destruct c. Qed.

Definition struct_roundtrips (s : struct_def) : Prop :=
  forall seen tags v obj, schema_ok seen s = true -> good s tags v -> carries s tags v ->
    fresh (field_names s) obj -> roundtrips seen s tags v obj.

Definition union_roundtrips (u : union_def) : Prop :=
  forall tag v, union_ok u = true -> good_union u tag v ->
    exists j, marshall_union u v tag = Ok (inr j) /\ json_typeof j = JSON_OBJECT /\
      unmarshall_union u (Some j) tag = Ok (received (complete_union u v) v).

(** A whole structure, on its own. *)
Lemma struct_roundtrip `{!JanssonLaws json} s v :
  struct_roundtrips s -> schema_ok [] s = true -> good_struct s v ->
  exists j, marshall_fields s (tag_of s v) v json_object = Ok (inr j) /\ json_typeof j = JSON_OBJECT /\
    forall tags, unmarshall_fields s tags (Some j) = Ok (received (complete s v) v).
Proof.
  intros Hs Hok Hg. destruct (Hs [] (tag_of s v) v json_object) as (j & Hm & [Ht _] & Hu); try done.
  - by eapply carries_tag_of.
  - apply fresh_object.
  - exists j. split_and!; [done..|]. intros tags. apply Hu. intros n Hn. by apply elem_of_nil in Hn.
Qed.

Lemma elems_roundtrip `{!JanssonLaws json} elem l a :
  struct_roundtrips elem -> schema_ok [] elem = true -> Forall (good_struct elem) l -> json_typeof a = JSON_ARRAY ->
  exists a' js,
    marshall_elems (fun p => marshall_fields elem (tag_of elem p) p json_object) l a = Ok (inr a') /\
    json_typeof a' = JSON_ARRAY /\ json_array_elems a' = json_array_elems a ++ js /\
    unmarshall_elems (unmarshall_fields elem (fun _ => None)) js = Ok (received (forallb (complete elem) l) l).
Proof.
  intros Hs Hok Hg. revert a. induction Hg as [|p l Hp Hg IH]; intros a Ha.
  - exists a, []. cbn. split_and!; try done. by rewrite app_nil_r.
  - destruct (struct_roundtrip elem p Hs Hok Hp) as (j & Hm & Ht & Hu).
    destruct (append_array a j Ha) as [Ha' He]. destruct (IH _ Ha') as (a' & js & Hm' & Ht' & He' & Hu').
    exists a', (j :: js). cbn [marshall_elems unmarshall_elems forallb]. rewrite Hm, or_fail_inr, Hm'.
    split_and!; [done..|by rewrite He', He, <- app_assoc|]. rewrite Hu.
    destruct (complete elem p); [|done]. cbn. rewrite Hu'. by destruct (forallb _ l).
Qed.

Lemma array_roundtrip `{!JanssonLaws json} elem array :
  struct_roundtrips elem -> schema_ok [] elem = true ->
  match array with Some l => Forall (good_struct elem) l | None => True end ->
  exists field,
    jrpc_marshall_array array (fun p => marshall_fields elem (tag_of elem p) p json_object) = Ok (inr field) /\
    (json_typeof field = JSON_ARRAY \/ json_is_null field = true) /\
    jrpc_unmarshall_array field (unmarshall_fields elem (fun _ => None)) =
      Ok (received (match array with Some l => forallb (complete elem) l | None => true end) array).
Proof.
  intros Hs Hok Hg. unfold jrpc_unmarshall_array, json_is_null. destruct array as [l|]; cbn [jrpc_marshall_array].
  - destruct (elems_roundtrip elem l json_array Hs Hok Hg) as (a & js & Hm & Ht & He & Hu); [apply typeof_array|].
    exists a. rewrite Hm, bool_decide_eq_false_2 by (by rewrite Ht). rewrite array_empty in He. simpl in He. rewrite He, Hu.
    split_and!; [done|by left|]. by destruct (forallb _ l).
  - exists json_null. rewrite bool_decide_eq_true_2 by apply typeof_null. by split_and!; [|right|].
Qed.

(** One field [name] whose value is set to [field], and the fields after it. *)
Lemma field_roundtrip `{!JanssonLaws json} name rest tags v obj seen (field : option json) :
  struct_roundtrips rest -> schema_ok seen rest = true -> name ∉ field_names rest ->
  good rest tags v -> carries rest tags v -> fresh (name :: field_names rest) obj ->
  exists j, marshall_fields rest tags v (json_object_set_new obj name field) = Ok (inr j) /\
    extends (name :: field_names rest) obj j /\ json_object_get j name = field /\
    forall tags', (forall n, n ∈ seen -> tags' n = tags n) ->
      unmarshall_fields rest tags' (Some j) = Ok (received (complete rest v) v).
Proof.
  intros Hr Hok Hn Hg Hc Hf.
  destruct (Hr seen tags v (json_object_set_new obj name field)) as (j & Hm & He & Hu); [done..|by apply fresh_set|].
  destruct (extends_set _ _ _ _ _ Hn Hf He) as [Hj He']. exists j. by split_and!.
Qed.

Lemma set_tag_agrees name z seen (tags tags' : string -> option Z) :
  tags name = Some z -> (forall n, n ∈ seen -> tags' n = tags n) ->
  forall n, n ∈ name :: seen -> set_tag tags' name z n = tags n.
Proof.
  intros Hz Ht n Hn. unfold set_tag. case_decide as Hd; [by subst|].
  apply elem_of_cons in Hn as [->|Hn]; [done|by apply Ht].
Qed.

Ltac rest_roundtrips fld :=
  match goal with
  | IH : struct_roundtrips ?rest, Hn : ?name ∉ field_names ?rest, Hok : schema_ok _ ?rest = true |- _ =>
      destruct (field_roundtrip name rest _ _ _ _ fld IH Hok Hn ltac:(eassumption) ltac:(eassumption) ltac:(eassumption))
        as (j & Hm & He & Hj & Hu)
  end.

(** The object of a union has the field of its member. *)
Lemma member_field `{!JanssonLaws json} name field ty :
  json_typeof field = ty ->
  let j := json_object_set_new json_object name (Some field) in
  json_typeof j = JSON_OBJECT /\ jrpc_unmarshall_field (Some j) name ty false = Ok (inr field).
Proof.
  intros Ht j. split; [apply typeof_set_new, typeof_object|]. apply unmarshall_found; [|done].
  unfold j. by rewrite get_set_new, decide_True, object_empty by (try done; apply typeof_object).
Qed.

(** Names for the mutual definitions that reduction exposes. *)
Ltac refold :=
  fold (@marshall_union json _) (@unmarshall_union json _) (@marshall_fields json _) (@unmarshall_fields json _)
    complete complete_union in *.

(** Introduce the hypotheses of a case of the induction on descriptions. *)
Ltac intro_case :=
  let x := fresh "x" in let v := fresh "v" in
  intros seen tags [x v] obj Hok Hg Hc Hf;
  cbn [schema_ok good carries field_names fst snd] in Hok, Hg, Hc, Hf; split_ok; destruct_and?;
  unfold roundtrips; cbn [marshall_fields unmarshall_fields complete field_names fst snd]; refold.

(** A union that does not store the member at hand. *)
Ltac other_member IH :=
  match goal with |- context [marshall_union _ (inr ?v) ?tag] =>
    destruct (IH tag v) as (j & Hm & Hj & Hu); [done..|]; exists j; cbn [marshall_union unmarshall_union complete_union];
    rewrite (proj2 (Z.eqb_neq _ _)) by done; split_and!; [done..|]; rewrite Hu, ?or_fail_inr;
    by destruct (complete_union _ v)
  end.

Lemma all_roundtrip `{!JanssonLaws json} :
  (forall s, struct_roundtrips s) /\ (forall u, union_roundtrips u).
Proof.
  apply def_mutind.
  - intros seen tags [] obj _ _ _ [Ho _]. exists obj. split_and!; [done|by split|done].
  - intros ty name rest IH. intro_case. rest_roundtrips (Some (json_integer (i64 x))). exists j. split_and!; [done..|].
    intros tags' Ha. rewrite (unmarshall_found _ _ _ _ _ Hj), or_fail_inr by apply typeof_integer.
    rewrite integer_value_integer, cast_i64 by (try done; apply i64_bound).
    rewrite (Hu _ (set_tag_agrees _ _ _ _ _ ltac:(eassumption) Ha)). by destruct (complete rest v).
  - intros name rest IH. intro_case. rest_roundtrips (json_string_opt x). exists j. split_and!; [done..|].
    intros tags' Ha. unfold json_string_opt in Hj. destruct x as [str|]; cbn in Hj.
    + assert (json_utf8 str = true) as Hs by done. rewrite Hs in Hj.
      rewrite (unmarshall_found _ _ _ _ _ Hj), or_fail_inr by (by apply typeof_string).
      unfold dup_string. rewrite string_value_string, or_fail_inr, Hu by done. by destruct (complete rest v).
    + by rewrite (unmarshall_missing _ _ _ _ Hj).
  - intros e name rest IH. intro_case. destruct (enum_roundtrip e x) as (field & Hm' & Ht & Hu'); [done..|].
    rewrite Hm', or_fail_inr. rest_roundtrips (Some field). exists j. split_and!; [done..|].
    intros tags' Ha. rewrite (unmarshall_found _ _ _ _ _ Hj Ht), or_fail_inr, Hu', or_fail_inr.
    rewrite (Hu _ (set_tag_agrees _ _ _ _ _ ltac:(eassumption) Ha)). by destruct (complete rest v).
  - intros elem IHe name rest IH. intro_case.
    destruct (array_roundtrip elem x) as (field & Hm' & Ht & Hu'); [done..|].
        rewrite Hm', or_fail_inr. rest_roundtrips (Some field). exists j. split_and!; [done..|]. intros tags' Ha.
    assert (jrpc_unmarshall_field (Some j) name JSON_ARRAY true = Ok (inr field)) as ->.
    { destruct Ht as [Ht|Ht]; [by apply unmarshall_found|]. unfold jrpc_unmarshall_field. cbn. by rewrite Hj, Ht. }
    rewrite or_fail_inr. apply received_pair; [done|by rewrite Hu].
  - intros st IHs name rest IH. intro_case.
    destruct (struct_roundtrip st x) as (field & Hm' & Ht & Hu'); [done..|].
    rewrite Hm', or_fail_inr. rest_roundtrips (Some field). exists j. split_and!; [done..|]. intros tags' Ha.
    rewrite (unmarshall_found _ _ _ _ _ Hj Ht), or_fail_inr. apply received_pair; [done|by rewrite Hu].
  - intros u IHu name tag rest IH. intro_case. destruct (tags tag) as [t|] eqn:Et; [|done].
    destruct (IHu t x) as (field & Hm' & Ht & Hu'); [done..|].
        rewrite Hm', or_fail_inr. rest_roundtrips (Some field). exists j. split_and!; [done..|]. intros tags' Ha.
    rewrite (unmarshall_found _ _ _ _ _ Hj Ht), or_fail_inr, Ha, Et by done.
    apply received_pair; [done|by rewrite Hu].
  - intros tag [] _ _. exists json_object. split_and!; [done|apply typeof_object|done].
  - intros ty name tv rest IH tag [z|v] Hok [Ht Hg]; cbn [union_ok] in Hok; split_ok; [|by other_member IH].
    subst. destruct (member_field name (json_integer (i64 z)) JSON_INTEGER) as [Hj Hf]; [apply typeof_integer|].
    eexists. cbn [marshall_union unmarshall_union]. rewrite Z.eqb_refl, Hf, or_fail_inr. split_and!; [done..|].
    by rewrite integer_value_integer, cast_i64 by (try done; apply i64_bound).
  - done.
  - intros st IHs name tv rest IH tag [x|v] Hok [Ht Hg]; cbn [union_ok] in Hok; split_ok; [|by other_member IH].
    subst. destruct (struct_roundtrip st x) as (field & Hm & Ht & Hu); [done..|].
    destruct (member_field name field JSON_OBJECT Ht) as [Hj Hf].
    eexists. cbn [marshall_union unmarshall_union complete_union]; refold. rewrite Z.eqb_refl, Hm, or_fail_inr, Hf, or_fail_inr, Hu.
    split_and!; [done..|]. cbn. by destruct (complete st x).
Qed.

(** ** Typing of what is unmarshalled *)

Definition marshalling_error (ret : Z) : Prop :=
  ret ∈ [JRPC_ERR_MARSHALL_FIELD_NOT_FOUND; JRPC_ERR_MARSHALL_TYPE_MISMATCH;
         JRPC_ERR_MARSHALL_INVALID_ENUM_STRING; JRPC_ERR_MARSHALL_INVALID_ENUM_VALUE].

(** No fault: either a marshalling error or a result that satisfies [Q]. *)
Definition yields {A} (m : outcome (Z + A)) (Q : A -> Prop) : Prop :=
  match m with Ok (inl ret) => marshalling_error ret | Ok (inr x) => Q x | Fault _ => False end.

Lemma yields_or_fail {A B} (m : outcome (Z + A)) (k : A -> outcome (Z + B)) P Q :
  yields m P -> (forall x, P x -> yields (k x) Q) -> yields (or_fail m k) Q.
Proof. destruct m as [[ret|x]|]; cbn; auto. Qed.

Lemma yields_ret {A} (x : A) (Q : A -> Prop) : Q x -> yields (Ok (inr x)) Q.
Proof. done. Qed.

Lemma unmarshall_field_typed obj name ty b :
  yields (jrpc_unmarshall_field obj name ty b) (fun f => json_typeof f = ty \/ b = true /\ json_is_null f = true).
Proof.
  unfold jrpc_unmarshall_field. destruct (obj ≫= _) as [f|]; [|by left].
  destruct b, (json_is_null f) eqn:En; cbn; try (by right); by case_bool_decide; [left|right; left].
Qed.

Lemma enum_typed `{!JanssonLaws json} e f :
  json_typeof f = JSON_STRING -> yields (jrpc_unmarshall_enum e f) (fun z => z ∈ e.*2).
Proof.
  intros [str [Hs _]]%string_value_some. unfold jrpc_unmarshall_enum. rewrite Hs.
  destruct (enum_lookup e str) as [z|] eqn:He; [by apply enum_lookup_value in He|]. cbn. right; right; left.
Qed.

Lemma dup_string_typed `{!JanssonLaws json} f :
  json_typeof f = JSON_STRING ->
  yields (dup_string f) (fun p => match p with Some str => json_utf8 str = true | None => False end).
Proof. intros [str [Hs Hu]]%string_value_some. unfold dup_string. by rewrite Hs. Qed.

(** The tags that unmarshalling uses, [tags], are those the value has once it is
    complete, [tags']. *)
Definition agree (seen : list string) (tags tags' : string -> option Z) : Prop :=
  forall n, n ∈ seen -> tags' n = Some (default 0 (tags n)).

Lemma agree_set seen tags tags' name z :
  agree seen tags tags' -> tags' name = Some z -> agree (name :: seen) (set_tag tags name z) tags'.
Proof.
  intros Ha Hz n Hn. unfold set_tag. case_decide as Hd; [by subst|].
  apply elem_of_cons in Hn as [->|Hn]; [done|by apply Ha].
Qed.

Definition struct_typed (s : struct_def) : Prop :=
  forall seen tags obj, schema_ok seen s = true ->
    yields (unmarshall_fields s tags obj) (fun v => complete s v = true /\
      forall tags', agree seen tags tags' -> carries s tags' v -> good s tags' v).

Definition union_typed (u : union_def) : Prop :=
  forall tag obj, union_ok u = true ->
    yields (unmarshall_union u obj tag) (fun v => complete_union u v = true /\ good_union u tag v).

Lemma whole_typed s obj :
  struct_typed s -> schema_ok [] s = true ->
  yields (unmarshall_fields s (fun _ => None) obj) (fun v => complete s v = true /\ good_struct s v).
Proof.
  intros Hs Hok. specialize (Hs [] (fun _ => None) obj Hok).
  destruct (unmarshall_fields s _ obj) as [[ret|v]|]; [done| |done]. destruct Hs as [Hc Hg].
  split; [done|]. apply Hg; [by intros n Hn%elem_of_nil|]. by eapply carries_tag_of.
Qed.

Lemma elems_typed elem l :
  struct_typed elem -> schema_ok [] elem = true ->
  yields (unmarshall_elems (unmarshall_fields elem (fun _ => None)) l)
    (fun xs => forallb (complete elem) xs = true /\ Forall (good_struct elem) xs).
Proof.
  intros Hs Hok. induction l as [|j l IH]; [by apply yields_ret|]. cbn [unmarshall_elems].
  eapply yields_or_fail; [by apply whole_typed|]. intros x [Hc Hg].
  eapply yields_or_fail; [exact IH|]. intros xs [Hcs Hgs]. apply yields_ret.
  split; [cbn; by rewrite Hc|by constructor].
Qed.

Lemma array_typed elem f :
  struct_typed elem -> schema_ok [] elem = true ->
  yields (jrpc_unmarshall_array f (unmarshall_fields elem (fun _ => None))) (fun a =>
    match a with Some l => forallb (complete elem) l | None => true end = true /\
    match a with Some l => Forall (good_struct elem) l | None => True end).
Proof.
  intros Hs Hok. unfold jrpc_unmarshall_array. destruct (json_is_null f); [by apply yields_ret|].
  eapply yields_or_fail; [by apply elems_typed|]. intros xs [Hc Hg]. by apply yields_ret.
Qed.

(** The field [name] of the type expected, then the rest of the structure. *)
Ltac typed_case :=
  intros seen tags obj Hok; cbn [schema_ok] in Hok; split_ok; cbn [unmarshall_fields]; refold;
  (eapply yields_or_fail; [apply unmarshall_field_typed|]); intros f Hf; try (destruct Hf as [Hf|[? _]]; [|done]).

Ltac rest_typed IH :=
  (eapply yields_or_fail; [by eapply IH|]); intros v [Hcv Hgv]; apply yields_ret;
  cbn [complete good carries fst snd].

Ltac member_case IH :=
  cbn [union_ok] in *; split_ok; cbn [unmarshall_union]; refold;
  match goal with |- context [?t =? ?tv] => destruct (Z.eqb_spec t tv) end;
  [eapply yields_or_fail; [apply unmarshall_field_typed|]; intros f [Hf|[? _]]; [|done]
  |eapply yields_or_fail; [by apply IH|]; intros v [Hcv Hgv]; by apply yields_ret].

Lemma all_typed `{!JanssonLaws json} : (forall s, struct_typed s) /\ (forall u, union_typed u).
Proof.
  apply def_mutind.
  - intros seen tags obj _. by apply yields_ret.
  - intros ty name rest IH. typed_case. rest_typed IH. split; [done|]. intros tags' Ha [Ht Hc].
    split; [by apply cast_in_range|]. apply Hgv; [by apply agree_set|done].
  - intros name rest IH. typed_case. eapply yields_or_fail; [by apply dup_string_typed|]. intros [str|] Hs; [|done].
    rest_typed IH. split; [done|]. intros tags' Ha Hc. split; [done|by apply Hgv].
  - intros e name rest IH. typed_case. eapply yields_or_fail; [by apply enum_typed|]. intros z Hz.
    rest_typed IH. split; [done|]. intros tags' Ha [Ht Hc]. split; [done|]. apply Hgv; [by apply agree_set|done].
  - intros elem IHe name rest IH. typed_case. eapply yields_or_fail; [by apply array_typed|]. intros a [Hca Hga].
    rest_typed IH. split; [by apply andb_true_intro|]. intros tags' Ha Hc. split; [done|by apply Hgv].
  - intros st IHs name rest IH. typed_case. eapply yields_or_fail; [by apply whole_typed|]. intros x [Hcx Hgx].
    rest_typed IH. split; [by rewrite Hcx|]. intros tags' Ha Hc. split; [done|by apply Hgv].
  - intros u IHu name tag rest IH. typed_case. eapply yields_or_fail; [by apply IHu|]. intros x [Hcx Hgx].
    rest_typed IH. refold. split; [by rewrite Hcx|]. intros tags' Ha Hc. split; [by rewrite Ha|by apply Hgv].
  - intros tag obj _. by apply yields_ret.
  - intros ty name tv rest IH tag obj Hok. member_case IH.
    apply yields_ret. cbn. split_and!; [done..|by apply cast_in_range].
  - done.
  - intros st IHs name tv rest IH tag obj Hok. member_case IH.
    eapply yields_or_fail; [by apply whole_typed|]. intros x [Hcx Hgx]. by apply yields_ret.
Qed.

End values.

(** ** The two directions *)

Section wire.
Context {json : Type} `{JanssonLaws json}.



End wire.

(** ** A structure with every kind of field *)

Definition sample_elem : struct_def := FIELD_STRING "name" (FIELD_INT c_size_t "size" STRUCT_END).

Definition sample_enum : enum_def := [("RED", 1); ("GREEN", 2)].

Definition sample_struct : struct_def :=
  FIELD_ENUM sample_enum "color" (FIELD_STRUCT sample_elem "elem" (FIELD_PTR_ARRAY sample_elem "more" (
  FIELD_UNION (UNION_FIELD_INT c_int "i" 1 (UNION_FIELD_STRUCT sample_elem "e" 2 UNION_END)) "u" "color" STRUCT_END))).

Definition sample_value : sval sample_struct :=
  (2, ((Some "a"%string, (2 ^ 64 - 1, tt)), (Some [(Some "b"%string, (7, tt)); (Some "c"%string, (8, tt))],
    (inr (inl (Some "d"%string, (9, tt))), tt)))).

(** The second element of the array has no name. *)
Definition sample_incomplete : sval sample_struct :=
  (1, ((Some "a"%string, (0, tt)), (Some [(Some "b"%string, (7, tt)); (None, (8, tt))], (inl (-5), tt)))).

Lemma sample_elem_good name z : cast c_size_t z = z ->
  good_struct (json := Tree.jtree) sample_elem (Some name, (z, tt)).
Proof. done. Qed.


