(* ===== verification/RpcDefs.v ===== *)
(** * The structures of the RPC interface ([src/librpc/include/rpc/rpcdefs.h])

    The descriptions of the structures, and the C structures of [event.h], [info.h] and
    [rpctypes.h] seen as values of them.  A description lists its fields in the order
    of rpcdefs.h, whatever the order in the C structure. *)
From S2P Require Import Prelude Json Status Module Info Event Marshall MarshallSpec.

#[local] Open Scope Z_scope.
#[local] Open Scope string_scope.

Definition enum_a6o_file_status : enum_def :=
  (fun s => (a6o_file_status_str s, a6o_file_status_val s)) <$>
    [A6O_FILE_UNDECIDED; A6O_FILE_CLEAN; A6O_FILE_UNKNOWN_TYPE; A6O_FILE_EINVAL; A6O_FILE_IERROR;
     A6O_FILE_SUSPICIOUS; A6O_FILE_WHITE_LISTED; A6O_FILE_MALWARE].

(** The values of [enum a6o_update_status]. *)
Definition a6o_update_status_val (s : a6o_update_status) : Z :=
  match s with
  | A6O_UPDATE_OK => 0 | A6O_UPDATE_LATE => 1 | A6O_UPDATE_CRITICAL => 2 | A6O_UPDATE_NON_AVAILABLE => 3
  end.

Definition enum_a6o_update_status : enum_def :=
  (fun s => (a6o_update_status_str s, a6o_update_status_val s)) <$>
    [A6O_UPDATE_OK; A6O_UPDATE_LATE; A6O_UPDATE_CRITICAL; A6O_UPDATE_NON_AVAILABLE].

Definition struct_a6o_base_info : struct_def :=
  FIELD_STRING "name" (FIELD_INT c_time_t "base_update_ts" (FIELD_STRING "version"
  (FIELD_INT c_size_t "signature_count" (FIELD_STRING "full_path" STRUCT_END)))).

Definition struct_a6o_module_info : struct_def :=
  FIELD_STRING "name" (FIELD_ENUM enum_a6o_update_status "mod_status" (FIELD_INT c_time_t "mod_update_ts"
  (FIELD_PTR_ARRAY struct_a6o_base_info "base_infos" STRUCT_END))).

Definition struct_a6o_info : struct_def :=
  FIELD_STRING "antivirus_version" (FIELD_ENUM enum_a6o_update_status "global_status"
  (FIELD_INT c_time_t "global_update_ts" (FIELD_PTR_ARRAY struct_a6o_module_info "module_infos" STRUCT_END))).

Definition enum_a6o_action : enum_def :=
  [("A6O_ACTION_NONE", A6O_ACTION_NONE); ("A6O_ACTION_ALERT", A6O_ACTION_ALERT);
   ("A6O_ACTION_QUARANTINE", A6O_ACTION_QUARANTINE); ("A6O_ACTION_REMOVE", A6O_ACTION_REMOVE)].

Definition enum_a6o_event_type : enum_def :=
  [("EVENT_DETECTION", EVENT_DETECTION); ("EVENT_ON_DEMAND_START", EVENT_ON_DEMAND_START);
   ("EVENT_ON_DEMAND_COMPLETED", EVENT_ON_DEMAND_COMPLETED); ("EVENT_ON_DEMAND_PROGRESS", EVENT_ON_DEMAND_PROGRESS);
   ("EVENT_QUARANTINE", EVENT_QUARANTINE); ("EVENT_REAL_TIME_PROT", EVENT_REAL_TIME_PROT);
   ("EVENT_AV_UPDATE", EVENT_AV_UPDATE)].

Definition a6o_detection_context_val (c : a6o_detection_context) : Z :=
  match c with CONTEXT_REAL_TIME => 0 | CONTEXT_ON_DEMAND => 1 end.

Definition enum_a6o_detection_context : enum_def :=
  [("CONTEXT_REAL_TIME", a6o_detection_context_val CONTEXT_REAL_TIME);
   ("CONTEXT_ON_DEMAND", a6o_detection_context_val CONTEXT_ON_DEMAND)].

Definition a6o_quarantine_action_val (a : a6o_quarantine_action) : Z :=
  match a with QUARANTINE_ENTER => 0 | QUARANTINE_EXIT => 1 end.

Definition enum_a6o_quarantine_action : enum_def :=
  [("QUARANTINE_ENTER", a6o_quarantine_action_val QUARANTINE_ENTER);
   ("QUARANTINE_EXIT", a6o_quarantine_action_val QUARANTINE_EXIT)].

Definition struct_a6o_detection_event : struct_def :=
  FIELD_ENUM enum_a6o_detection_context "context" (FIELD_INT c_unsigned_int "scan_id" (FIELD_STRING "path"
  (FIELD_ENUM enum_a6o_file_status "scan_status" (FIELD_ENUM enum_a6o_action "scan_action"
  (FIELD_STRING "module_name" (FIELD_STRING "module_report" STRUCT_END)))))).

Definition struct_a6o_on_demand_start_event : struct_def :=
  FIELD_STRING "root_path" (FIELD_INT c_unsigned_int "scan_id" STRUCT_END).

Definition struct_a6o_on_demand_completed_event : struct_def :=
  FIELD_INT c_unsigned_int "scan_id" (FIELD_INT c_int "cancelled" (FIELD_INT c_size_t "total_malware_count"
  (FIELD_INT c_size_t "total_suspicious_count" (FIELD_INT c_size_t "total_scanned_count"
  (FIELD_INT c_time_t "duration" STRUCT_END))))).

Definition struct_a6o_on_demand_progress_event : struct_def :=
  FIELD_INT c_unsigned_int "scan_id" (FIELD_INT c_int "progress" (FIELD_STRING "path"
  (FIELD_INT c_size_t "malware_count" (FIELD_INT c_size_t "suspicious_count"
  (FIELD_INT c_size_t "scanned_count" STRUCT_END))))).

Definition struct_a6o_quarantine_event : struct_def :=
  FIELD_ENUM enum_a6o_quarantine_action "quarantine_action" (FIELD_STRING "orig_path"
  (FIELD_STRING "quarantine_path" STRUCT_END)).

Definition struct_a6o_real_time_prot_event : struct_def := FIELD_INT c_int "rt_prot_new_state" STRUCT_END.

Definition struct_a6o_av_update_event : struct_def := FIELD_INT c_int "foo" STRUCT_END.

Definition union_a6o_event_union : union_def :=
  UNION_FIELD_STRUCT struct_a6o_detection_event "ev_detection" EVENT_DETECTION (
  UNION_FIELD_STRUCT struct_a6o_on_demand_start_event "ev_on_demand_start" EVENT_ON_DEMAND_START (
  UNION_FIELD_STRUCT struct_a6o_on_demand_completed_event "ev_on_demand_completed" EVENT_ON_DEMAND_COMPLETED (
  UNION_FIELD_STRUCT struct_a6o_on_demand_progress_event "ev_on_demand_progress" EVENT_ON_DEMAND_PROGRESS (
  UNION_FIELD_STRUCT struct_a6o_quarantine_event "ev_quarantine" EVENT_QUARANTINE (
  UNION_FIELD_STRUCT struct_a6o_real_time_prot_event "ev_real_time_prot" EVENT_REAL_TIME_PROT (
  UNION_FIELD_STRUCT struct_a6o_av_update_event "ev_av_update" EVENT_AV_UPDATE UNION_END)))))).

Definition struct_a6o_event : struct_def :=
  FIELD_INT c_time_t "timestamp" (FIELD_ENUM enum_a6o_event_type "type"
  (FIELD_UNION union_a6o_event_union "u" "type" STRUCT_END)).

Definition struct_a6o_rpc_scan_param : struct_def :=
  FIELD_STRING "root_path" (FIELD_INT c_int "send_progress" (FIELD_INT c_int "recursive"
  (FIELD_INT c_int "threaded" (FIELD_INT c_time_t "scan_id" STRUCT_END)))).

Definition struct_a6o_rpc_listen_param : struct_def :=
  FIELD_INT c_int "detection" (FIELD_INT c_int "on_demand" (FIELD_INT c_int "on_demand_progress"
  (FIELD_INT c_int "quarantine" (FIELD_INT c_int "real_time_prot" (FIELD_INT c_int "av_update" STRUCT_END))))).

(** ** The C structures as values of their descriptions *)

Record a6o_rpc_scan_param := ScanParam {
  sp_root_path : option string;
  sp_send_progress : Z;
  sp_recursive : Z;
  sp_threaded : Z;
  sp_scan_id : Z;
}.

Record a6o_rpc_listen_param := ListenParam {
  lp_detection : Z;
  lp_on_demand : Z;
  lp_on_demand_progress : Z;
  lp_quarantine : Z;
  lp_real_time_prot : Z;
  lp_av_update : Z;
}.

Definition scan_param_of (v : sval struct_a6o_rpc_scan_param) : a6o_rpc_scan_param :=
  let '(root_path, (send_progress, (recursive, (threaded, (scan_id, _))))) := v in
  ScanParam root_path send_progress recursive threaded scan_id.

Definition scan_param_val (p : a6o_rpc_scan_param) : sval struct_a6o_rpc_scan_param :=
  (sp_root_path p, (sp_send_progress p, (sp_recursive p, (sp_threaded p, (sp_scan_id p, tt))))).

Definition listen_param_of (v : sval struct_a6o_rpc_listen_param) : a6o_rpc_listen_param :=
  let '(detection, (on_demand, (on_demand_progress, (quarantine, (real_time_prot, (av_update, _)))))) := v in
  ListenParam detection on_demand on_demand_progress quarantine real_time_prot av_update.

Definition listen_param_val (p : a6o_rpc_listen_param) : sval struct_a6o_rpc_listen_param :=
  (lp_detection p, (lp_on_demand p, (lp_on_demand_progress p, (lp_quarantine p, (lp_real_time_prot p, (lp_av_update p, tt)))))).

Definition base_info_val (b : a6o_base_info) : sval struct_a6o_base_info :=
  (base_name b, (base_update_ts b, (base_version b, (base_signature_count b, (base_full_path b, tt))))).

Definition module_info_val (m : a6o_module_info) : sval struct_a6o_module_info :=
  (mi_name m, (a6o_update_status_val (mi_mod_status m), (mi_mod_update_ts m,
    (option_map (map base_info_val) (mi_base_infos m), tt)))).

Definition info_val (i : a6o_info) : sval struct_a6o_info :=
  (Some (in_antivirus_version i), (a6o_update_status_val (in_global_status i), (in_global_update_ts i,
    (Some (map module_info_val (in_module_infos i)), tt)))).

Definition detection_val (e : a6o_detection_event) : sval struct_a6o_detection_event :=
  (a6o_detection_context_val (de_context e), (de_scan_id e, (de_path e, (a6o_file_status_val (de_scan_status e),
    (de_scan_action e, (de_module_name e, (de_module_report e, tt))))))).

Definition on_demand_start_val (e : a6o_on_demand_start_event) : sval struct_a6o_on_demand_start_event :=
  (se_root_path e, (se_scan_id e, tt)).

Definition on_demand_completed_val (e : a6o_on_demand_completed_event) : sval struct_a6o_on_demand_completed_event :=
  (ce_scan_id e, (ce_cancelled e, (ce_total_malware_count e, (ce_total_suspicious_count e,
    (ce_total_scanned_count e, (ce_duration e, tt)))))).

Definition on_demand_progress_val (e : a6o_on_demand_progress_event) : sval struct_a6o_on_demand_progress_event :=
  (pe_scan_id e, (pe_progress e, (pe_path e, (pe_malware_count e, (pe_suspicious_count e, (pe_scanned_count e, tt)))))).

Definition quarantine_val (e : a6o_quarantine_event) : sval struct_a6o_quarantine_event :=
  (a6o_quarantine_action_val (qe_quarantine_action e), (qe_orig_path e, (qe_quarantine_path e, tt))).

(** [foo] is what [malloc] left in the payload of an update event, which nothing sets. *)
Definition event_union_val (foo : Z) (u : a6o_event_union) : uval union_a6o_event_union :=
  match u with
  | ev_detection e => inl (detection_val e)
  | ev_on_demand_start e => inr (inl (on_demand_start_val e))
  | ev_on_demand_completed e => inr (inr (inl (on_demand_completed_val e)))
  | ev_on_demand_progress e => inr (inr (inr (inl (on_demand_progress_val e))))
  | ev_quarantine e => inr (inr (inr (inr (inl (quarantine_val e)))))
  | ev_real_time_prot state => inr (inr (inr (inr (inr (inl (state, tt))))))
  | ev_av_update => inr (inr (inr (inr (inr (inr (inl (foo, tt)))))))
  end.

Definition event_val (foo : Z) (e : a6o_event) : sval struct_a6o_event :=
  (ev_timestamp e, (ev_type e, (event_union_val foo (ev_u e), tt))).

(** ** Every structure that is sent can be described *)

Lemma schema_event : schema_ok [] struct_a6o_event = true.
Proof. reflexivity. Qed.
Lemma schema_info : schema_ok [] struct_a6o_info = true.
Proof. reflexivity. Qed.
Lemma schema_scan_param : schema_ok [] struct_a6o_rpc_scan_param = true.
Proof. reflexivity. Qed.
Lemma schema_listen_param : schema_ok [] struct_a6o_rpc_listen_param = true.
Proof. reflexivity. Qed.
