(* ===== verification/SchemaSpec.v ===== *)
(** * The JSON schema of the RPC interface
    ([src/librpc/jrpc/include/libjrpc/jsonschema.h], [src/librpc/include/rpc/rpcschema.h])

    Compiled with other macros, the descriptions of the structures become the text of a
    JSON schema instead of functions.  Each case of [props_of] and [union_props] is the
    expansion of one macro; a [$ref] is replaced by what it refers to, which is possible
    because no structure contains itself.  [valid] is what the keywords mean (JSON Schema,
    draft 4), so that what the marshalling functions send can be compared with what the
    schema allows.

    The theorems say which values have messages that their own schema accepts, exactly; and
    which structures have messages that the root of the schema accepts. *)
From S2P Require Import Prelude Json Status Module Info Event Marshall MarshallSpec RpcDefs.

#[local] Open Scope Z_scope.
#[local] Open Scope string_scope.

(** ** Schemas *)

#[local] Unset Elimination Schemes.

Inductive schema : Set :=
  | SInteger                                           (** ["type" : "integer"] *)
  | SString                                            (** ["type" : "string"] *)
  | SEnum (names : list string)                        (** ["type" : "string", "enum" : [...]] *)
  | SArray (items : schema)                            (** ["type" : "array", "items" : ...] *)
  | SStruct (properties : list (string * schema))      (** ["type" : "object", "properties" : ..., "additionalProperties" : false] *)
  | SUnion (properties : list (string * schema))       (** ["properties" : ...] *)
  | SOneOf (schemas : list schema).                    (** ["oneOf" : [...]] *)

#[local] Set Elimination Schemes.

(** Exactly one of the propositions holds. *)
Fixpoint exactly_one (l : list Prop) : Prop :=
  match l with
  | [] => False
  | P :: l => P /\ Forall not l \/ ~ P /\ exactly_one l
  end.

Section valid.
Context {json : Type} `{Jansson json}.

(** [properties] constrains the fields that are there; keywords about objects say nothing
    of the other values. *)
Fixpoint valid (s : schema) (j : json) : Prop :=
  match s with
  | SInteger => json_typeof j = JSON_INTEGER
  | SString => json_typeof j = JSON_STRING
  | SEnum names => json_typeof j = JSON_STRING /\ exists name, json_string_value j = Some name /\ name ∈ names
  | SArray items => json_typeof j = JSON_ARRAY /\ Forall (valid items) (json_array_elems j)
  | SStruct properties =>
      json_typeof j = JSON_OBJECT /\
      Forall id (map (fun p => forall x, json_object_get j p.1 = Some x -> valid p.2 x) properties) /\
      forall key, is_Some (json_object_get j key) -> key ∈ properties.*1
  | SUnion properties => Forall id (map (fun p => forall x, json_object_get j p.1 = Some x -> valid p.2 x) properties)
  | SOneOf schemas => exactly_one (map (fun s => valid s j) schemas)
  end.

End valid.

(** ** The expansion of the macros *)

(** [JRPC_STRUCT_FIELD_STRUCT] expands to nothing. *)
Fixpoint props_of (s : struct_def) : list (string * schema) :=
  match s with
  | STRUCT_END => []
  | FIELD_INT _ name rest => (name, SInteger) :: props_of rest
  | FIELD_STRING name rest => (name, SString) :: props_of rest
  | FIELD_ENUM e name rest => (name, SEnum e.*1) :: props_of rest
  | FIELD_PTR_ARRAY elem name rest => (name, SArray (SStruct (props_of elem))) :: props_of rest
  | FIELD_STRUCT _ _ rest => props_of rest
  | FIELD_UNION u name _ rest => (name, SOneOf [SUnion (union_props u)]) :: props_of rest
  end
with union_props (u : union_def) : list (string * schema) :=
  match u with
  | UNION_END => []
  | UNION_FIELD_INT _ name _ rest => (name, SInteger) :: union_props rest
  | UNION_FIELD_STRING name _ rest => (name, SString) :: union_props rest
  | UNION_FIELD_STRUCT s name _ rest => (name, SStruct (props_of s)) :: union_props rest
  end.

Definition schema_of (s : struct_def) : schema := SStruct (props_of s).

(** [rpcdefs.h], in its order. *)
Definition rpc_structs : list (string * struct_def) :=
  [("a6o_base_info", struct_a6o_base_info); ("a6o_module_info", struct_a6o_module_info); ("a6o_info", struct_a6o_info);
   ("a6o_detection_event", struct_a6o_detection_event); ("a6o_on_demand_start_event", struct_a6o_on_demand_start_event);
   ("a6o_on_demand_completed_event", struct_a6o_on_demand_completed_event);
   ("a6o_on_demand_progress_event", struct_a6o_on_demand_progress_event);
   ("a6o_quarantine_event", struct_a6o_quarantine_event); ("a6o_real_time_prot_event", struct_a6o_real_time_prot_event);
   ("a6o_av_update_event", struct_a6o_av_update_event); ("a6o_event", struct_a6o_event);
   ("a6o_rpc_scan_param", struct_a6o_rpc_scan_param); ("a6o_rpc_listen_param", struct_a6o_rpc_listen_param)].

(** The root of the schema: an object, of exactly one of the structures. *)
Definition rpc_schema : schema := SOneOf (map (fun d => schema_of d.2) rpc_structs).

Definition rpc_valid {json} `{Jansson json} (j : json) : Prop := json_typeof j = JSON_OBJECT /\ valid rpc_schema j.

(** ** Descriptions and values *)

Fixpoint member_names (u : union_def) : list string :=
  match u with
  | UNION_END => []
  | UNION_FIELD_INT _ name _ rest | UNION_FIELD_STRING name _ rest | UNION_FIELD_STRUCT _ name _ rest =>
      name :: member_names rest
  end.

(** The members of every union have distinct names. *)
Fixpoint members_ok (s : struct_def) : bool :=
  match s with
  | STRUCT_END => true
  | FIELD_INT _ _ rest | FIELD_STRING _ rest | FIELD_ENUM _ _ rest => members_ok rest
  | FIELD_PTR_ARRAY elem _ rest => members_ok elem && members_ok rest
  | FIELD_STRUCT st _ rest => members_ok st && members_ok rest
  | FIELD_UNION u _ _ rest => union_members_ok u && members_ok rest
  end
with union_members_ok (u : union_def) : bool :=
  match u with
  | UNION_END => true
  | UNION_FIELD_INT _ name _ rest | UNION_FIELD_STRING name _ rest =>
      bool_decide (name ∉ member_names rest) && union_members_ok rest
  | UNION_FIELD_STRUCT st name _ rest =>
      members_ok st && bool_decide (name ∉ member_names rest) && union_members_ok rest
  end.

(** No structure is embedded, and no array is NULL. *)
Fixpoint describable (s : struct_def) : sval s -> bool :=
  match s with
  | STRUCT_END => fun _ => true
  | FIELD_INT _ _ rest => fun v => describable rest v.2
  | FIELD_STRING _ rest => fun v => describable rest v.2
  | FIELD_ENUM _ _ rest => fun v => describable rest v.2
  | FIELD_PTR_ARRAY elem _ rest => fun v =>
      match v.1 with Some l => forallb (describable elem) l | None => false end && describable rest v.2
  | FIELD_STRUCT _ _ _ => fun _ => false
  | FIELD_UNION u _ _ rest => fun v => describable_union u v.1 && describable rest v.2
  end
with describable_union (u : union_def) : uval u -> bool :=
  match u with
  | UNION_END => fun _ => true
  | UNION_FIELD_INT _ _ _ rest => fun v => match v with inl _ => true | inr v => describable_union rest v end
  | UNION_FIELD_STRING _ _ rest => fun v => match v with inl _ => true | inr v => describable_union rest v end
  | UNION_FIELD_STRUCT st _ _ rest => fun v =>
      match v with inl x => describable st x | inr v => describable_union rest v end
  end.

Lemma props_of_names s name : name ∈ (props_of s).*1 -> name ∈ field_names s.
Proof.
  induction s; cbn [props_of field_names fmap list_fmap fst]; try done; intros Hin;
    first [apply elem_of_cons in Hin as [->|Hin]; [by left|by right; auto]|by right; auto].
Qed.

Lemma union_props_names u : (union_props u).*1 = member_names u.
Proof. induction u; cbn [union_props member_names fmap list_fmap fst]; by f_equal. Qed.

Section schema.
Context {json : Type} `{JanssonLaws json}.

(** ** Objects *)

Definition prop_valid (j : json) (p : string * schema) : Prop :=
  forall x, json_object_get j p.1 = Some x -> valid p.2 x.

(** The properties hold, and the keys that [obj] did not have are theirs. *)
Definition fits (ps : list (string * schema)) (obj j : json) : Prop :=
  Forall (prop_valid j) ps /\
  forall key, is_Some (json_object_get j key) -> is_Some (json_object_get obj key) \/ key ∈ ps.*1.

Lemma Forall_id_map {A} (P : A -> Prop) l : Forall id (map P l) <-> Forall P l.
Proof. induction l as [|x l IH]; cbn [map]; [by rewrite !list.Forall_nil|]. by rewrite !list.Forall_cons, IH. Qed.

Lemma valid_struct ps j :
  valid (SStruct ps) j <-> json_typeof j = JSON_OBJECT /\ fits ps json_object j.
Proof.
  cbn [valid]. rewrite Forall_id_map. unfold fits. split.
  - intros (Ht & Hp & Hk). split_and!; [done..|]. intros key Hkey. right. by apply Hk.
  - intros (Ht & Hp & Hk). split_and!; [done..|]. intros key Hkey.
    destruct (Hk key Hkey) as [[x Hx]|Hin]; [|done]. by rewrite object_empty in Hx.
Qed.

Lemma valid_union ps j : valid (SUnion ps) j <-> Forall (prop_valid j) ps.
Proof. cbn [valid]. by rewrite Forall_id_map. Qed.

Lemma valid_one s j : valid (SOneOf [s]) j <-> valid s j.
Proof. cbn [valid map exactly_one]. rewrite list.Forall_nil. tauto. Qed.

Lemma valid_array s j :
  valid (SArray s) j <-> json_typeof j = JSON_ARRAY /\ Forall (valid s) (json_array_elems j).
Proof. done. Qed.

(** The field [name] is set to [field], then the fields of [rest]. *)
Lemma fits_cons name sch ps (names : list string) obj field j :
  (forall key, key ∈ ps.*1 -> key ∈ names) -> json_typeof obj = JSON_OBJECT -> json_object_get j name = field ->
  fits ((name, sch) :: ps) obj j <->
  (forall x, field = Some x -> valid sch x) /\ fits ps (json_object_set_new obj name field) j.
Proof.
  intros Hps Ho Hf. unfold fits, prop_valid at 1. rewrite list.Forall_cons. cbn [fmap list_fmap fst snd]. rewrite Hf.
  assert (forall key, is_Some (json_object_get (json_object_set_new obj name field) key) <->
    (key = name /\ is_Some field) \/ is_Some (json_object_get obj key)) as Hk.
  { intros key. rewrite get_set_new by done. case_decide as Hn; [|naive_solver]. subst key.
    destruct field as [x|]; [split; [left; by eauto|intros _; exists x; by destruct (json_object_get obj name)]|].
    destruct (json_object_get obj name); split; naive_solver. }
  split.
  - intros [[Hv Hp] Hkeys]. split_and!; [done..|]. intros key Hkey. rewrite Hk.
    destruct (Hkeys key Hkey) as [?|[->|?]%elem_of_cons]; [by left; right| |by right].
    left; left. by rewrite <- Hf.
  - intros [Hv [Hp Hkeys]]. split_and!; [done..|]. intros key Hkey. rewrite elem_of_cons.
    destruct (Hkeys key Hkey) as [[[-> _]|?]%Hk|?]; [right; by left|by left|right; by right].
Qed.

(** A field that no property describes. *)
Lemma fits_undescribed name ps (names : list string) obj j :
  (forall key, key ∈ ps.*1 -> key ∈ names) -> name ∉ names -> fresh (name :: names) obj ->
  is_Some (json_object_get j name) -> ~ fits ps obj j.
Proof.
  intros Hps Hn [_ Hf] Hj [_ Hk]. destruct (Hk name Hj) as [[x Hx]|Hin]; [|by apply Hn, Hps].
  rewrite Hf in Hx by left. done.
Qed.

(** ** What is marshalled *)

Lemma or_fail_ok {A B} (m : outcome (Z + A)) (k : A -> outcome (Z + B)) y :
  or_fail m k = Ok (inr y) -> exists x, m = Ok (inr x) /\ k x = Ok (inr y).
Proof. destruct m as [[ret|x]|]; cbn; [done|by exists x|done]. Qed.

Definition struct_described (s : struct_def) : Prop :=
  forall seen tags v obj j, schema_ok seen s = true -> members_ok s = true -> good s tags v -> carries s tags v ->
    fresh (field_names s) obj -> marshall_fields s tags v obj = Ok (inr j) ->
    fits (props_of s) obj j <-> describable s v = true.

Definition union_described (u : union_def) : Prop :=
  forall tag v j, union_ok u = true -> union_members_ok u = true -> good_union u tag v ->
    marshall_union u v tag = Ok (inr j) ->
    (Forall (prop_valid j) (union_props u) <-> describable_union u v = true) /\
    forall key, is_Some (json_object_get j key) -> key ∈ member_names u.

Lemma struct_valid s v j :
  struct_described s -> schema_ok [] s = true -> members_ok s = true -> good_struct s v ->
  marshall_fields s (tag_of s v) v json_object = Ok (inr j) ->
  valid (SStruct (props_of s)) j <-> describable s v = true.
Proof.
  intros Hs Hok Hm Hg Hj. rewrite valid_struct.
  destruct (struct_roundtrip s v (proj1 all_roundtrip s) Hok Hg) as (j' & Hj' & Ht & _). assert (j' = j) as -> by congruence.
  rewrite (Hs [] (tag_of s v) v json_object j); try done; [tauto|by eapply carries_tag_of|by apply fresh_object].
Qed.

(** One field, and the fields after it. *)
Lemma field_described name sch rest seen tags v obj field j :
  struct_described rest -> schema_ok seen rest = true -> members_ok rest = true -> name ∉ field_names rest ->
  good rest tags v -> carries rest tags v -> fresh (name :: field_names rest) obj ->
  marshall_fields rest tags v (json_object_set_new obj name field) = Ok (inr j) ->
  fits ((name, sch) :: props_of rest) obj j <->
  (forall x, field = Some x -> valid sch x) /\ describable rest v = true.
Proof.
  intros Hr Hok Hm Hn Hg Hc Hf Hj.
  destruct (field_roundtrip name rest tags v obj seen field (proj1 all_roundtrip rest)) as (j' & Hj' & _ & Hfield & _); [done..|].
  assert (j' = j) as -> by congruence. rewrite (fits_cons name sch _ (field_names rest)) by (first [apply props_of_names|apply Hf|done]).
  rewrite (Hr seen tags v _ j); try done. by apply fresh_set.
Qed.

Lemma elems_marshalled {A} (cb : A -> outcome (Z + json)) l a a' :
  json_typeof a = JSON_ARRAY -> marshall_elems cb l a = Ok (inr a') ->
  json_typeof a' = JSON_ARRAY /\
  exists js, json_array_elems a' = (json_array_elems a ++ js)%list /\ Forall2 (fun p j => cb p = Ok (inr j)) l js.
Proof.
  revert a. induction l as [|p l IH]; intros a Ha; cbn [marshall_elems].
  - intros [= <-]. split; [done|]. exists []. by rewrite app_nil_r.
  - intros (j & Hj & Hl)%or_fail_ok. destruct (append_array a j Ha) as [Ha' He].
    destruct (IH _ Ha' Hl) as (Ht & js & Hjs & Hall). split; [done|]. exists (j :: js).
    rewrite Hjs, He, <- app_assoc. split; [done|by constructor].
Qed.

Lemma array_valid elem x field :
  struct_described elem -> schema_ok [] elem = true -> members_ok elem = true ->
  match x with Some l => Forall (good_struct elem) l | None => True end ->
  jrpc_marshall_array x (fun p => marshall_fields elem (tag_of elem p) p json_object) = Ok (inr field) ->
  valid (SArray (SStruct (props_of elem))) field <->
  match x with Some l => forallb (describable elem) l | None => false end = true.
Proof.
  intros Hs Hok Hm Hg. rewrite valid_array. destruct x as [l|]; cbn [jrpc_marshall_array].
  - intros (Ht & js & He & Hall)%elems_marshalled; [|apply typeof_array]. rewrite array_empty in He. cbn in He. rewrite He, Ht.
    clear He Ht field. enough (Forall (valid (SStruct (props_of elem))) js <-> forallb (describable elem) l = true) as <- by tauto.
    induction Hall as [|p j l js Hj Hall IH]; cbn [forallb]; [by rewrite list.Forall_nil|].
    apply list.Forall_cons in Hg as [Hp Hg]. rewrite list.Forall_cons, andb_true_iff, IH, (struct_valid elem p j) by done. done.
  - intros [= <-]. rewrite typeof_null. naive_solver.
Qed.

Lemma enum_valid e z field :
  enum_ok e = true -> z ∈ e.*2 -> jrpc_marshall_enum e z = Ok (inr field) -> valid (SEnum e.*1) field.
Proof.
  intros Hok Hz Hf. destruct (enum_marshalled e z Hok Hz) as (name & Hin & Ha & Hf'). apply utf8_ascii in Ha.
  assert (field = json_string name) as -> by congruence.
  split; [by apply typeof_string|]. exists name. split; [by apply string_value_string|].
  apply list_elem_of_fmap. by exists (name, z).
Qed.

Lemma string_valid x field :
  match x with Some s => json_utf8 s = true | None => True end -> json_string_opt x = Some field -> valid SString field.
Proof.
  unfold json_string_opt. destruct x as [s|]; [|done]. cbn. intros Hs. rewrite Hs. intros [= <-]. by apply typeof_string.
Qed.

(** The object of a union that stores the member [name]. *)
Lemma member_described name sch ps names field j :
  ps.*1 = names -> name ∉ names -> j = json_object_set_new json_object name (Some field) ->
  (Forall (prop_valid j) ((name, sch) :: ps) <-> valid sch field) /\
  forall key, is_Some (json_object_get j key) -> key ∈ name :: names.
Proof.
  intros Hps Hn ->. assert (forall key, json_object_get (json_object_set_new json_object name (Some field)) key =
    if decide (name = key) then Some field else None) as Hget.
  { intros key. rewrite get_set_new, object_empty by apply typeof_object. by case_decide. }
  split; [|intros key [x Hx]; rewrite Hget in Hx; case_decide; [subst; by left|done]].
  rewrite list.Forall_cons. unfold prop_valid at 1. cbn [fst snd]. rewrite Hget, decide_True by done. split; [naive_solver|].
  intros Hv. split; [naive_solver|]. apply list.Forall_forall. intros p Hp x. rewrite Hget. case_decide; [|done]. subst.
  destruct Hn. apply list_elem_of_fmap. by exists p.
Qed.

(** A member that is not the one stored says nothing. *)
Lemma other_described name sch ps names j (P : Prop) :
  name ∉ names -> (Forall (prop_valid j) ps <-> P) /\ (forall key, is_Some (json_object_get j key) -> key ∈ names) ->
  (Forall (prop_valid j) ((name, sch) :: ps) <-> P) /\ forall key, is_Some (json_object_get j key) -> key ∈ name :: names.
Proof.
  intros Hn [Hps Hk]. split; [|intros key Hkey; right; by apply Hk]. rewrite list.Forall_cons, Hps.
  split; [naive_solver|]. intros HP. split; [|done]. intros x Hx. destruct Hn. apply Hk. by exists x.
Qed.

(** Names for the mutual definitions that reduction exposes. *)
Ltac refold_described :=
  fold (@marshall_union json _) (@marshall_fields json _) describable describable_union props_of union_props in *.

Ltac described_case :=
  let x := fresh "x" in let v := fresh "v" in
  intros seen tags [x v] obj j Hok Hm Hg Hc Hf Hj;
  cbn [schema_ok members_ok good carries field_names marshall_fields props_of describable fst snd] in *;
  split_ok; destruct_and?; refold_described.

Lemma all_described : (forall s, struct_described s) /\ (forall u, union_described u).
Proof.
  apply def_mutind.
  - intros seen tags [] obj j _ _ _ _ _ [= <-]. split; [done|]. intros _. split; [by apply list.Forall_nil|by left].
  - intros ty name rest IH. described_case. rewrite (field_described name _ rest) by done. cbn [describable].
    split; [by intros [_ ?]|]. intros ?. split; [|done]. intros y [= <-]. apply typeof_integer.
  - intros name rest IH. described_case. rewrite (field_described name _ rest) by done.
    split; [by intros [_ ?]|]. intros ?. split; [|done]. intros y. by apply string_valid.
  - intros e name rest IH. described_case. apply or_fail_ok in Hj as (field & Hfield & Hj).
    rewrite (field_described name _ rest) by done.
    split; [by intros [_ ?]|]. intros ?. split; [|done]. intros y [= <-]. by eapply enum_valid.
  - intros elem IHe name rest IH. described_case. apply or_fail_ok in Hj as (field & Hfield & Hj).
    rewrite (field_described name _ rest) by done. rewrite andb_true_iff, <- (array_valid elem x field) by done. naive_solver.
  - intros st IHs name rest IH. described_case. apply or_fail_ok in Hj as (field & Hfield & Hj). split; [|done].
    intros Hfits. exfalso. revert Hfits. eapply (fits_undescribed name _ (field_names rest)); try done; [by apply props_of_names|].
    edestruct (field_roundtrip name rest tags v obj seen (Some field) (proj1 all_roundtrip rest)) as (j' & Hj' & _ & Hget & _); try done.
    assert (j' = j) as -> by congruence. by exists field.
  - intros u IHu name tag rest IH. described_case. destruct (tags tag) as [t|]; [|done].
    apply or_fail_ok in Hj as (field & Hfield & Hj). rewrite (field_described name _ rest) by done.
    destruct (IHu t x field) as [Hu _]; [done..|]. rewrite andb_true_iff, <- Hu, <- valid_union, <- valid_one. naive_solver.
  - intros tag [] j _ _ _ [= <-]. split; [by rewrite list.Forall_nil|]. intros key [x Hx]. by rewrite object_empty in Hx.
  - intros ty name tv rest IH tag [z|v] j Hok Hm Hg Hj; cbn [union_ok union_members_ok] in *; split_ok;
      destruct Hg as [Ht Hg]; cbn [marshall_union union_props describable_union member_names] in *; refold_described.
    + subst tv. rewrite Z.eqb_refl in Hj. injection Hj as Hj.
      edestruct (member_described name SInteger (union_props rest) (member_names rest)) as [Hp Hk];
        [apply union_props_names|done|symmetry; exact Hj|].
      split; [|done]. rewrite Hp. split; [done|]. intros _. apply typeof_integer.
    + rewrite (proj2 (Z.eqb_neq _ _)) in Hj by done. apply other_described; [done|]. by eapply IH.
  - done.
  - intros st IHs name tv rest IH tag [x|v] j Hok Hm Hg Hj; cbn [union_ok union_members_ok] in *; split_ok;
      destruct Hg as [Ht Hg]; cbn [marshall_union union_props describable_union member_names] in *; refold_described.
    + subst tv. rewrite Z.eqb_refl in Hj. apply or_fail_ok in Hj as (field & Hfield & Hj). injection Hj as Hj.
      edestruct (member_described name (SStruct (props_of st)) (union_props rest) (member_names rest)) as [Hp Hk];
        [apply union_props_names|done|symmetry; exact Hj|].
      split; [|done]. rewrite Hp. by apply struct_valid.
    + rewrite (proj2 (Z.eqb_neq _ _)) in Hj by done. apply other_described; [done|]. by eapply IH.
Qed.

End schema.

(** ** The root of the schema *)

Section root.
Context {json : Type} `{JanssonLaws json}.

Lemma unmarshalled_fields s tags (j : json) v name :
  unmarshall_fields s tags (Some j) = Ok (inr v) -> name ∈ field_names s -> is_Some (json_object_get j name).
Proof.
  revert tags v. induction s; intros tags v; cbn [unmarshall_fields field_names]; intros Hu Hin;
    first [by apply elem_of_nil in Hin|apply or_fail_ok in Hu as (field & Hfield & Hu)].
  all: unfold jrpc_unmarshall_field in Hfield; cbn in Hfield.
  all: apply elem_of_cons in Hin as [->|Hin]; [by destruct (json_object_get j _); eauto|].
  all: repeat (apply or_fail_ok in Hu as (? & ? & Hu)); eauto.
Qed.

(** Some field of [s] is not one of [t]. *)
Definition distinguished (s t : struct_def) : bool :=
  existsb (fun name => bool_decide (name ∉ (props_of t).*1)) (field_names s).

Lemma distinguished_invalid s t (j : json) :
  distinguished s t = true -> (forall name, name ∈ field_names s -> is_Some (json_object_get j name)) ->
  ~ valid (schema_of t) j.
Proof.
  intros (name & Hin & Hn)%existsb_exists Hj (_ & _ & Hk). apply bool_decide_eq_true in Hn.
  apply Hn, Hk, Hj. by apply list_elem_of_In.
Qed.

Lemma exactly_one_split (l1 l2 : list Prop) P :
  P -> Forall not l1 -> Forall not l2 -> exactly_one (l1 ++ P :: l2)%list.
Proof. intros HP H1 H2. induction H1 as [|Q l1 HQ H1 IH]; cbn; [by left|by right]. Qed.

Lemma exactly_one_two (l1 l2 : list Prop) P Q : P -> Q -> Q ∈ l2 -> ~ exactly_one (l1 ++ P :: l2)%list.
Proof.
  intros HP HQ Hin Hone. induction l1 as [|R l1 IH]; cbn in Hone.
  - destruct Hone as [[_ Hall]|[Hn _]]; [|done]. rewrite list.Forall_forall in Hall. by apply (Hall Q).
  - destruct Hone as [[_ Hall]|[_ Hone]]; [|by apply IH]. rewrite list.Forall_forall in Hall. apply (Hall P); [set_solver|done].
Qed.

(** The structure [i] of rpcdefs.h is distinguished from all the others. *)
Definition alone (i : nat) : bool :=
  match rpc_structs !! i with
  | Some d => forallb (fun t => distinguished d.2 t.2) (take i rpc_structs ++ drop (S i) rpc_structs)
  | None => true
  end.

Lemma alone_others i d : rpc_structs !! i = Some d -> i <> 4%nat -> alone i = true.
Proof.
  intros Hi%lookup_lt_Some Hne. cbn in Hi.
  assert (forallb (fun i => (i =? 4)%nat || alone i) (seq 0 13) = true) as Hall by reflexivity.
  eapply forallb_forall in Hall; [|apply in_seq; split; [apply Nat.le_0_l|exact Hi]].
  apply orb_prop in Hall as [->%Nat.eqb_eq|?]; done.
Qed.

Lemma alone_valid i name s (j : json) :
  rpc_structs !! i = Some (name, s) -> alone i = true -> valid (schema_of s) j ->
  (forall name, name ∈ field_names s -> is_Some (json_object_get j name)) -> rpc_valid j.
Proof.
  intros Hi Ha Hv Hj. split; [apply Hv|]. unfold rpc_schema. cbn [valid]. unfold alone in Ha. rewrite Hi in Ha.
  rewrite map_map. rewrite <- (take_drop_middle _ _ _ Hi), map_app. cbn [map fst snd].
  rewrite forallb_app in Ha. apply andb_prop in Ha as [H1 H2].
  apply exactly_one_split; [done|..]; apply List.Forall_map, list.Forall_forall; intros t Ht;
    apply (distinguished_invalid s); try done; [eapply forallb_forall in H1; [exact H1|]|eapply forallb_forall in H2; [exact H2|]];
    by apply list_elem_of_In.
Qed.

Lemma NoDup_fst_inj {A} (l : list (string * A)) k a b : NoDup l.*1 -> (k, a) ∈ l -> (k, b) ∈ l -> a = b.
Proof.
  induction l as [|[k' c] l IH]; cbn [fmap list_fmap fst]; [by intros _ ?%elem_of_nil|].
  intros [Hk Hn]%list.NoDup_cons [[= -> ->]|Ha]%elem_of_cons [[= Hb]|Hb]%elem_of_cons; subst; auto.
  - destruct Hk. apply list_elem_of_fmap. by exists (k', b).
  - destruct Hk. apply list_elem_of_fmap. by exists (k', a).
Qed.

(** More properties, when nothing else was there, do not matter. *)
Lemma valid_more ps ps' (j : json) :
  ps ⊆ ps' -> NoDup ps'.*1 -> valid (SStruct ps) j -> valid (SStruct ps') j.
Proof.
  cbn [valid]. rewrite !Forall_id_map, !list.Forall_forall. intros Hsub Hn (Ht & Hp & Hk). split_and!; [done| |].
  - intros [key sch] Hin x Hx. cbn [fst snd] in *. destruct (proj1 (list_elem_of_fmap _ _ _) (Hk key (ex_intro _ x Hx))) as ([key' sch'] & Hkey & Hin').
    cbn in Hkey. subst key'. replace sch with sch'; [by apply (Hp (key, sch'))|].
    eapply (NoDup_fst_inj ps' key); [done|by apply Hsub|done].
  - intros key Hkey. destruct (proj1 (list_elem_of_fmap _ _ _) (Hk key Hkey)) as (p & -> & Hin).
    apply list_elem_of_fmap. exists p. auto.
Qed.


(** The root of the schema accepts the message of every structure of rpcdefs.h whose strings
    and arrays are set, except the event that starts an on-demand scan: its two fields are
    also those of a scan request without options, and the root wants one structure only. *)
Theorem root_accepts (name : string) (s : struct_def) (v : sval s)
    (Hin : (name, s) ∈ rpc_structs) (Hg : good_struct (json := json) s v) (Hc : complete s v = true) (Hd : describable s v = true) :
  exists j : json, jrpc_marshall_struct s (Some v) = Ok (inr j) /\
    (rpc_valid j <-> name <> "a6o_on_demand_start_event").
Proof.
  destruct (list_elem_of_lookup_1 _ _ Hin) as [i Hi].
  assert (forallb (fun d => schema_ok [] d.2 && members_ok d.2) rpc_structs = true) as Hoks by reflexivity.
  eapply forallb_forall in Hoks; [|by apply list_elem_of_In]. apply andb_prop in Hoks as [Hok Hm]. cbn [snd] in *.
  destruct (struct_roundtrip s v (proj1 all_roundtrip s) Hok Hg) as (j & Hj & _ & Hu). rewrite Hc in Hu.
  exists j. split; [done|].
  assert (valid (schema_of s) j) as Hv by (eapply struct_valid; try done; apply all_described).
  assert (forall n, n ∈ field_names s -> is_Some (json_object_get j n)) as Hfields by (intros; by eapply unmarshalled_fields;
    [exact (Hu (fun _ => None))|]).
  destruct (decide (i = 4)%nat) as [->|Hne].
  - injection Hi as <- <-. split; [|done]. intros [_ Hone]. exfalso. revert Hone.
    apply (exactly_one_two (map (fun d => valid (schema_of d.2) j) (take 4 rpc_structs))
      (map (fun d => valid (schema_of d.2) j) (drop 5 rpc_structs)) _ (valid (schema_of struct_a6o_rpc_scan_param) j));
      [exact Hv| |apply list_elem_of_In; cbn; tauto].
    eapply valid_more; [|by apply (proj1 (bool_decide_eq_true _))|exact Hv].
    cbn. intros p [->|[->|[]%elem_of_nil]%elem_of_cons]%elem_of_cons; [left|by do 4 right; left].
  - split; [|intros _; eapply alone_valid; try done; by eapply alone_others]. intros _ ->.
    apply Hne, (list.NoDup_lookup rpc_structs.*1 i 4 "a6o_on_demand_start_event"); [|by rewrite list_lookup_fmap, Hi|done].
    by apply (proj1 (bool_decide_eq_true _)).
Qed.

End root.

(** ** Messages *)

Definition sample_detection : sval struct_a6o_event :=
  (1459433997, (EVENT_DETECTION, (inl (a6o_detection_context_val CONTEXT_ON_DEMAND, (7, (Some "/tmp/eicar.com",
    (a6o_file_status_val A6O_FILE_MALWARE, (A6O_ACTION_ALERT, (Some "clamav", (Some "Eicar-Test-Signature", tt))))))), tt))).

Definition sample_start : sval struct_a6o_on_demand_start_event := (Some "/home", (7, tt)).

(** A module that never filled its list of bases. *)
Definition sample_info : a6o_info :=
  {| in_antivirus_version := "0.12"; in_global_status := A6O_UPDATE_OK; in_global_update_ts := 0;
     in_module_infos := [ModuleInfo (Some "moduleH1") A6O_UPDATE_OK 0 None] |}.


Lemma root_accepts_witness :
  (exists j : Tree.jtree, jrpc_marshall_struct struct_a6o_event (Some sample_detection) = Ok (inr j) /\ rpc_valid j) /\
  (exists j : Tree.jtree, jrpc_marshall_struct struct_a6o_on_demand_start_event (Some sample_start) = Ok (inr j) /\ ~ rpc_valid j).
Proof.
  split.
  - destruct (root_accepts (json := Tree.jtree) "a6o_event" struct_a6o_event sample_detection) as (j & Hj & Hv);
      [by do 10 right; left|cbn; split_and!; done || set_solver|reflexivity|reflexivity|].
    exists j. split; [exact Hj|]. by apply Hv.
  - destruct (root_accepts (json := Tree.jtree) "a6o_on_demand_start_event" struct_a6o_on_demand_start_event sample_start) as (j & Hj & Hv);
      [by do 4 right; left|cbn; split_and!; done|reflexivity|reflexivity|].
    exists j. split; [exact Hj|]. intros H. by apply Hv in H.
Defined.
