(* ===== verification/Log.v ===== *)
(** * Logging ([src/libmodule/log.c], [src/arch/linux/daemon/log.c], [journal.c])

    The filter, the two handlers and the levels of the messages.  The text of a message
    is what [g_string_vprintf] made of its format.  After a message of level ERROR
    [a6o_log] calls [abort], so that in the rest of the library the code that follows
    such a message is never run: it is [Fault Aborted].  Windows has no such [abort]. *)
From S2P Require Import Prelude Status Conf Event.

#[local] Open Scope Z_scope.
#[local] Open Scope string_scope.

Inductive a6o_log_level :=
  | A6O_LOG_LEVEL_ERROR | A6O_LOG_LEVEL_WARNING | A6O_LOG_LEVEL_INFO | A6O_LOG_LEVEL_DEBUG | A6O_LOG_LEVEL_NONE.

#[export] Instance a6o_log_level_eq_dec : EqDecision a6o_log_level.
Proof. solve_decision. Defined.

Definition a6o_log_level_val (l : a6o_log_level) : Z :=
  match l with
  | A6O_LOG_LEVEL_ERROR => Z.shiftl 1 1 | A6O_LOG_LEVEL_WARNING => Z.shiftl 1 2 | A6O_LOG_LEVEL_INFO => Z.shiftl 1 3
  | A6O_LOG_LEVEL_DEBUG => Z.shiftl 1 4 | A6O_LOG_LEVEL_NONE => Z.shiftl 1 5
  end.

Inductive a6o_log_domain := A6O_LOG_LIB | A6O_LOG_MODULE | A6O_LOG_SERVICE.

Definition domain_str (domain : a6o_log_domain) : string :=
  match domain with A6O_LOG_LIB => "lib" | A6O_LOG_MODULE => "module" | A6O_LOG_SERVICE => "service" end.

Definition a6o_log_level_str (l : a6o_log_level) : string :=
  match l with
  | A6O_LOG_LEVEL_ERROR => "error" | A6O_LOG_LEVEL_WARNING => "warning"
  | A6O_LOG_LEVEL_INFO => "info" | A6O_LOG_LEVEL_DEBUG => "debug" | A6O_LOG_LEVEL_NONE => ""
  end.

(** What a handler does with a message. *)
Inductive log_output := Stdout (s : string) | Stderr (s : string) | Syslog (priority : Z) (s : string).

Definition newline : string := String "010"%char "".

Definition get_stream (l : a6o_log_level) : string -> log_output :=
  if (Z.land (a6o_log_level_val l) (Z.lor (a6o_log_level_val A6O_LOG_LEVEL_ERROR) (a6o_log_level_val A6O_LOG_LEVEL_WARNING)) =? 0)%Z
  then Stdout else Stderr.

(** The priorities of syslog.h. *)
Definition priority_from_level (l : a6o_log_level) : Z :=
  match l with
  | A6O_LOG_LEVEL_ERROR => 3 | A6O_LOG_LEVEL_WARNING => 4 | A6O_LOG_LEVEL_INFO => 6 | A6O_LOG_LEVEL_DEBUG => 7
  | A6O_LOG_LEVEL_NONE => 6
  end.

Definition level_prefix (l : a6o_log_level) : string :=
  if bool_decide (l <> A6O_LOG_LEVEL_NONE) then "<" +:+ a6o_log_level_str l +:+ "> " else "".

Definition a6o_syslog_handler (domain : a6o_log_domain) (l : a6o_log_level) (message : string) : log_output :=
  Syslog (priority_from_level l) (level_prefix l +:+ message +:+ newline).

Section log.
(** What [append_uptime] appends, and the number of the process. *)
Variable uptime : string.
Variable pid : string.

Definition a6o_log_default_handler (domain : a6o_log_domain) (l : a6o_log_level) (message : string) : log_output :=
  get_stream l (uptime +:+ "armadito" +:+ "[" +:+ pid +:+ "]: " +:+ level_prefix l +:+ message +:+ newline).

Abbreviation log_handler := (a6o_log_domain -> a6o_log_level -> string -> log_output).

(** The static variables; the maximal level is an [unsigned int]. *)
Record log_state := LogState { current_max_level : Z; current_handler : log_handler }.

Definition initial_log : log_state :=
  {| current_max_level := a6o_log_level_val A6O_LOG_LEVEL_WARNING; current_handler := a6o_log_default_handler |}.

(** What is output, and whether the call returns. *)
Definition a6o_log (st : log_state) (domain : a6o_log_domain) (level : a6o_log_level) (message : string)
    : list log_output * outcome unit :=
  if bool_decide (level <> A6O_LOG_LEVEL_NONE) && (current_max_level st <? a6o_log_level_val level)%Z then ([], Ok tt)
  else
    ([current_handler st domain level message],
     if (Z.land (a6o_log_level_val level) (a6o_log_level_val A6O_LOG_LEVEL_ERROR) =? 0)%Z then Ok tt else Fault Aborted).

Definition a6o_log_set_handler (max_level : Z) (handler : option log_handler) : log_state :=
  {| current_max_level := u32 max_level; current_handler := default a6o_log_default_handler handler |}.

(** ** The daemon's log *)

Definition get_a6o_log_level_from_str (s_log_level : string) : Z :=
  if bool_decide (s_log_level = "error") then a6o_log_level_val A6O_LOG_LEVEL_ERROR
  else if bool_decide (s_log_level = "warning") then a6o_log_level_val A6O_LOG_LEVEL_WARNING
  else if bool_decide (s_log_level = "info") then a6o_log_level_val A6O_LOG_LEVEL_INFO
  else if bool_decide (s_log_level = "debug") then a6o_log_level_val A6O_LOG_LEVEL_DEBUG
  else -1.

Definition log_init_with_a6o_log (s_log_level : string) (use_syslog : bool) : log_state :=
  let level := get_a6o_log_level_from_str s_log_level in
  if use_syslog then a6o_log_set_handler level (Some a6o_syslog_handler)
  else a6o_log_set_handler level (Some a6o_log_default_handler).

Definition log_init (s_log_level : string) (use_syslog : bool) : log_state :=
  log_init_with_a6o_log s_log_level use_syslog.

(** How much a level says. *)
Definition verbosity (l : a6o_log_level) : nat :=
  match l with
  | A6O_LOG_LEVEL_ERROR => 1 | A6O_LOG_LEVEL_WARNING => 2 | A6O_LOG_LEVEL_INFO => 3 | A6O_LOG_LEVEL_DEBUG => 4
  | A6O_LOG_LEVEL_NONE => 0
  end.

Lemma val_le l l' : l <> A6O_LOG_LEVEL_NONE -> l' <> A6O_LOG_LEVEL_NONE ->
  (a6o_log_level_val l <? a6o_log_level_val l')%Z = bool_decide (verbosity l < verbosity l')%nat.
Proof. by destruct l, l'. Qed.

(** Whatever the handler, once the log is initialised with the name of a level, a
    message is output, once, exactly when it says no more than that level, or has no
    level; and the call returns for every message but those of level ERROR, which are
    always output and abort the process (the abort is left out on Windows). *)
Theorem log_levels (l : a6o_log_level) use_syslog domain level message (Hl : l <> A6O_LOG_LEVEL_NONE) :
  let st := log_init (a6o_log_level_str l) use_syslog in
  a6o_log st domain level message =
    (if (verbosity level <=? verbosity l)%nat
     then [(if use_syslog then a6o_syslog_handler else a6o_log_default_handler) domain level message] else [],
     if bool_decide (level = A6O_LOG_LEVEL_ERROR) then Fault Aborted else Ok tt).
Proof. by destruct l, use_syslog, level. Qed.

End log.

Lemma log_levels_witness :
  a6o_log (log_init "[12.000000] " "7" "info" false) A6O_LOG_LIB A6O_LOG_LEVEL_WARNING "x" =
    ([Stderr (String.append "[12.000000] armadito[7]: <warning> x" newline)], Ok tt).
Proof. apply (log_levels "[12.000000] " "7" A6O_LOG_LEVEL_INFO false). discriminate. Defined.

(** The options check that the level is one of those [log_init] knows. *)
Definition check_log_level (s : string) : bool :=
  negb (bool_decide (s = "error")) && negb (bool_decide (s = "warning")) &&
  negb (bool_decide (s = "info")) && negb (bool_decide (s = "debug")).

Lemma checked_level s :
  check_log_level s = false <-> exists l, l <> A6O_LOG_LEVEL_NONE /\ s = a6o_log_level_str l.
Proof.
  unfold check_log_level. split.
  - destruct (bool_decide_reflect (s = "error")) as [->|]; [by exists A6O_LOG_LEVEL_ERROR|].
    destruct (bool_decide_reflect (s = "warning")) as [->|]; [by exists A6O_LOG_LEVEL_WARNING|].
    destruct (bool_decide_reflect (s = "info")) as [->|]; [by exists A6O_LOG_LEVEL_INFO|].
    destruct (bool_decide_reflect (s = "debug")) as [->|]; [by exists A6O_LOG_LEVEL_DEBUG|done].
  - by intros ([] & Hl & ->).
Qed.

(** ** The journal of the daemon ([src/arch/linux/daemon/journal.c])

    What the daemon passes to [syslog] for each event. *)

(** ["%ld"]: a [long] has at most nineteen digits. *)
Definition print_long (z : Z) : string :=
  of_bytes (if (z <? 0)%Z then "-"%char :: dec 20 (- z) [] else dec 20 z []).

Definition print_str (s : option string) : string := of_bytes (print_string s).

Definition quote : string := String "034"%char "".

(** A key and a quoted value; the value is not escaped. *)
Definition quoted (key value : string) : string := key +:+ "=" +:+ quote +:+ value +:+ quote.

Definition number (key : string) (z : Z) : string := key +:+ "=" +:+ print_long z.

Fixpoint line (fields : list string) : string :=
  match fields with
  | [] => ""
  | [f] => f
  | f :: fields => f +:+ ", " +:+ line fields
  end.

Definition detection_event_journal (e : a6o_detection_event) : string :=
  line [quoted "type" "detection";
        quoted "context" (match de_context e with CONTEXT_REAL_TIME => "real-time" | CONTEXT_ON_DEMAND => "on-demand" end);
        number "scan_id" (de_scan_id e);
        quoted "path" (print_str (de_path e));
        quoted "scan_status" (a6o_file_status_pretty_str (de_scan_status e));
        quoted "scan_action" (a6o_action_pretty_str (de_scan_action e));
        quoted "module_name" (print_str (de_module_name e));
        quoted "module_report" (print_str (de_module_report e))].

Definition on_demand_start_event_journal (e : a6o_on_demand_start_event) : string :=
  line [quoted "type" "on_demand_start"; number "scan_id" (se_scan_id e);
        quoted "root_path" (print_str (se_root_path e))].

(** The counts are [size_t]s printed as [long]s. *)
Definition on_demand_completed_event_journal (e : a6o_on_demand_completed_event) : string :=
  line [quoted "type" "on_demand_completed"; number "scan_id" (ce_scan_id e); number "cancelled" (ce_cancelled e);
        number "total_malware_count" (i64 (ce_total_malware_count e));
        number "total_suspicious_count" (i64 (ce_total_suspicious_count e));
        number "total_scanned_count" (i64 (ce_total_scanned_count e));
        number "duration" (ce_duration e)].

Definition quarantine_event_journal (e : a6o_quarantine_event) : string :=
  line [quoted "type" "quarantine";
        quoted "action" (match qe_quarantine_action e with QUARANTINE_ENTER => "enter" | QUARANTINE_EXIT => "exit" end);
        quoted "orig_path" (print_str (qe_orig_path e));
        quoted "quarantine_path" (print_str (qe_quarantine_path e))].

Definition real_time_prot_event_journal (state : Z) : string :=
  line [quoted "type" "real_time_prot"; quoted "rt_prot_new_state" (print_long state)].

(** What is logged for an event. *)
Definition journal_event_cb (ev : a6o_event) : list string :=
  match ev_u ev with
  | ev_detection e => [detection_event_journal e]
  | ev_on_demand_start e => [on_demand_start_event_journal e]
  | ev_on_demand_completed e => [on_demand_completed_event_journal e]
  | ev_on_demand_progress _ => []
  | ev_quarantine e => [quarantine_event_journal e]
  | ev_real_time_prot state => [real_time_prot_event_journal state]
  | ev_av_update => []
  end.

Definition journal_mask : Z :=
  foldr Z.lor EVENT_AV_UPDATE
    [EVENT_DETECTION; EVENT_ON_DEMAND_START; EVENT_ON_DEMAND_COMPLETED; EVENT_QUARANTINE; EVENT_REAL_TIME_PROT].

(** [cb] is the address of [journal_event_cb]. *)
Definition journal_init (cb : nat) (s : a6o_event_source) : a6o_event_source :=
  a6o_event_source_add_cb s journal_mask cb 0.

(** The line of the example in the source. *)
Example detection_line :
  detection_event_journal (DetectionEvent CONTEXT_ON_DEMAND 316020368 (Some "/home/joebar/EICAR/eicar.com")
    A6O_FILE_MALWARE A6O_ACTION_NONE (Some "clamav") (Some "Eicar-Test-Signature")) =
  line [quoted "type" "detection"; quoted "context" "on-demand"; "scan_id=316020368";
        quoted "path" "/home/joebar/EICAR/eicar.com"; quoted "scan_status" "malware"; quoted "scan_action" "none";
        quoted "module_name" "clamav"; quoted "module_report" "Eicar-Test-Signature"].
Proof. vm_compute. reflexivity. Qed.

(** The lines are meant to be parsed, but a path or a report with quotes makes two
    different events give the same line: here a detection of malware in a file whose
    name imitates the fields of a clean one. *)
Lemma journal_ambiguous :
  exists e1 e2, detection_event_journal e1 = detection_event_journal e2 /\
    de_path e1 <> de_path e2 /\ de_scan_status e1 <> de_scan_status e2.
Proof.
  set (fake := line ["/tmp/a" +:+ quote; quoted "scan_status" "suspicious"; quoted "scan_action" "none";
    quoted "module_name" "m"; "module_report=" +:+ quote +:+ "r"]).
  set (tail := line ["r" +:+ quote; quoted "scan_status" "malware"; quoted "scan_action" "none";
    quoted "module_name" "m"; "module_report=" +:+ quote +:+ "r"]).
  exists (DetectionEvent CONTEXT_ON_DEMAND 1 (Some fake) A6O_FILE_MALWARE 0 (Some "m") (Some "r")),
    (DetectionEvent CONTEXT_ON_DEMAND 1 (Some "/tmp/a") A6O_FILE_SUSPICIOUS 0 (Some "m") (Some tail)).
  split_and!; [by vm_compute|done|done].
Qed.
