(* ===== verification/RpcBe.v ===== *)
(** * The RPC backend and the server of the daemon
    ([src/librpc/rpcbe.c], [src/arch/linux/daemon/server.c])

    The state joins what the clients' threads and the scan threads share: the callbacks
    of the event source, and the heap objects that pointers reach, by their address:
    connections with their socket, on-demand scans, and the data of the scan callbacks.
    A freed object leaves the heap, and its address is not used again.  [N] is the rest
    of the world: the sockets and the file system.

    Each client thread and each scan thread advances by whole steps: one message
    processed, or one event fired. *)
From S2P Require Import Prelude Status Module Info Hash Event OnDemand Json Jrpc Marshall RpcDefs Log.

#[local] Open Scope Z_scope.

Record client := Client { cl_sock : Z; cl_conn : jrpc_connection }.

(** [on_demand] is NULL when the scan could not be created. *)
Record scan_event_data := ScanEventData { sd_conn : Z; sd_on_demand : option Z }.

Record backend (N : Type) := Backend {
  be_source : a6o_event_source;
  be_conns : gmap Z client;
  be_scans : gmap Z a6o_on_demand;
  be_data : gmap Z scan_event_data;
  be_threads : list (option Z);       (** scan threads started and not finished *)
  be_journal : list string;
  be_next : Z;                        (** the next address *)
  be_net : N;
}.
Arguments Backend {N} be_source be_conns be_scans be_data be_threads be_journal be_next be_net.
Arguments be_source {N} b.
Arguments be_conns {N} b.
Arguments be_scans {N} b.
Arguments be_data {N} b.
Arguments be_threads {N} b.
Arguments be_journal {N} b.
Arguments be_next {N} b.
Arguments be_net {N} b.

Section setters.
Context {N : Type}.
Implicit Types (b : backend N).

Definition set_net b (net : N) : backend N :=
  Backend (be_source b) (be_conns b) (be_scans b) (be_data b) (be_threads b) (be_journal b) (be_next b) net.

Definition set_conns b (conns : gmap Z client) : backend N :=
  Backend (be_source b) conns (be_scans b) (be_data b) (be_threads b) (be_journal b) (be_next b) (be_net b).

Definition set_source b (s : a6o_event_source) : backend N :=
  Backend s (be_conns b) (be_scans b) (be_data b) (be_threads b) (be_journal b) (be_next b) (be_net b).

Definition set_scans b (scans : gmap Z a6o_on_demand) (threads : list (option Z)) : backend N :=
  Backend (be_source b) (be_conns b) scans (be_data b) threads (be_journal b) (be_next b) (be_net b).

Definition add_journal b (lines : list string) : backend N :=
  Backend (be_source b) (be_conns b) (be_scans b) (be_data b) (be_threads b) (be_journal b ++ lines)
    (be_next b) (be_net b).

(** [malloc] of an on-demand scan, of the data of a callback, of a connection. *)
Definition new_scan b (od : a6o_on_demand) : Z * backend N :=
  (be_next b, Backend (be_source b) (be_conns b) (<[be_next b := od]> (be_scans b)) (be_data b) (be_threads b)
                (be_journal b) (be_next b + 1) (be_net b)).

Definition new_data b (d : scan_event_data) : Z * backend N :=
  (be_next b, Backend (be_source b) (be_conns b) (be_scans b) (<[be_next b := d]> (be_data b)) (be_threads b)
                (be_journal b) (be_next b + 1) (be_net b)).

Definition new_client b (c : client) : Z * backend N :=
  (be_next b, Backend (be_source b) (<[be_next b := c]> (be_conns b)) (be_scans b) (be_data b) (be_threads b)
                (be_journal b) (be_next b + 1) (be_net b)).

End setters.

(** The addresses of the functions of the program. *)
Definition SCAN_METHOD : nat := 0.
Definition STATUS_METHOD : nat := 1.
Definition LISTEN_METHOD : nat := 2.
Definition SCAN_EVENT_CB : nat := 0.
Definition LISTEN_EVENT_CB : nat := 1.
Definition JOURNAL_EVENT_CB : nat := 2.

(** [p] is where the copies of the names are. *)
Definition create_rpcbe_mapper (p : string -> Z) : outcome jrpc_mapper :=
  r ← jrpc_mapper_add jrpc_mapper_new (p "scan"%string) "scan" SCAN_METHOD;
  r ← jrpc_mapper_add r.2 (p "status"%string) "status" STATUS_METHOD;
  r ← jrpc_mapper_add r.2 (p "listen"%string) "listen" LISTEN_METHOD;
  Ok r.2.

(** The static variable, and the mapper returned. *)
Definition a6o_get_rpcbe_mapper (p : string -> Z) (rpcbe_mapper : option jrpc_mapper) : outcome jrpc_mapper :=
  match rpcbe_mapper with None => create_rpcbe_mapper p | Some m => Ok m end.

Section rpcbe.
Context {json : Type} `{Jansson json} {N : Type}.
(** [recv] and [send] on a socket, [realpath] and the information of the modules. *)
Variable recv : Z -> Z -> N -> (Z * list ascii) * N.
Variable send : Z -> list ascii -> N -> Z * N.
Variable realpath : option string -> N -> option string.
Variable info_new : N -> a6o_info * N.
(** The payload of an update event. *)
Variable foo : Z.
#[local] Abbreviation state := (rpc_state (backend N)).

(** The daemon makes no call that has a result, and sets no error handler. *)
Definition no_callback (cb : nat) (result : json) (user_data : Z) (s : state) : outcome state := Fault UninitRead.
Definition no_handler (h : nat) (id code : Z) (message : string) (data : option json) (s : state) : outcome state :=
  Fault UninitRead.

(** ** Input and output of a connection *)

Definition unix_fd_write_cb (fd : Z) (buffer : list ascii) (b : backend N) : Z * backend N :=
  let (n, net) := send fd buffer (be_net b) in (n, set_net b net).

Definition unix_fd_read_cb (fd : Z) (size : Z) (b : backend N) : (Z * list ascii) * backend N :=
  let (r, net) := recv fd size (be_net b) in (r, set_net b net).

(** [jrpc_notify] on the connection at an address. *)
Definition notify_conn (b : backend N) (conn : Z) (method : string) (params : option json) : outcome (backend N) :=
  match be_conns b !! conn with
  | None => Fault UseAfterFree
  | Some cl =>
      r ← jrpc_notify (unix_fd_write_cb (cl_sock cl)) (RpcState (cl_conn cl) b) method params;
      Ok (rs_world r.2)
  end.

(** ** Event callbacks *)

(** The data of a scan callback is never freed. *)
Definition scan_data_of (b : backend N) (data : Z) : outcome scan_event_data :=
  match be_data b !! data with Some d => Ok d | None => Fault UseAfterFree end.

(** [a6o_on_demand_get_id] through the pointer. *)
Definition expected_scan_id (b : backend N) (d : scan_event_data) : outcome Z :=
  match sd_on_demand d with
  | None => Fault NullDeref
  | Some p => match be_scans b !! p with Some od => Ok (a6o_on_demand_get_id od) | None => Fault UseAfterFree end
  end.

(** The events of other scans. *)
Definition other_scan (ev : a6o_event) (expected : Z) : bool :=
  match ev_u ev with
  | ev_detection e => negb (de_scan_id e =? expected)
  | ev_on_demand_completed e => negb (ce_scan_id e =? expected)
  | ev_on_demand_progress e => negb (pe_scan_id e =? expected)
  | _ => false
  end.

(** An event that cannot be marshalled is dropped. *)
Definition notify_event (b : backend N) (conn : Z) (ev : a6o_event) : outcome (backend N) :=
  r ← jrpc_marshall_struct struct_a6o_event (Some (event_val foo ev));
  match r with
  | inl _ => Ok b
  | inr j_ev => notify_conn b conn "notify_event" (Some j_ev)
  end.

Definition scan_event_cb (ev : a6o_event) (data : Z) (b : backend N) : outcome (backend N) :=
  d ← scan_data_of b data;
  id ← expected_scan_id b d;
  if other_scan ev id then Ok b else notify_event b (sd_conn d) ev.

Definition listen_event_cb (ev : a6o_event) (data : Z) (b : backend N) : outcome (backend N) :=
  notify_event b data ev.

(** The call of a callback of the event source. *)
Definition event_cb (cb : nat) (data : Z) (ev : a6o_event) (b : backend N) : outcome (backend N) :=
  if decide (cb = SCAN_EVENT_CB) then scan_event_cb ev data b
  else if decide (cb = LISTEN_EVENT_CB) then listen_event_cb ev data b
  else if decide (cb = JOURNAL_EVENT_CB) then Ok (add_journal b (journal_event_cb ev))
  else Ok b.

Fixpoint run_calls (calls : list (nat * Z)) (ev : a6o_event) (b : backend N) : outcome (backend N) :=
  match calls with
  | [] => Ok b
  | (cb, data) :: calls => b ← event_cb cb data ev b; run_calls calls ev b
  end.

(** [a6o_event_source_fire_event], with its calls. *)
Definition fire_event (ev : a6o_event) (b : backend N) : outcome (backend N) :=
  run_calls (a6o_event_source_fire_event (be_source b) ev) ev b.

Fixpoint fire_events (evs : list a6o_event) (b : backend N) : outcome (backend N) :=
  match evs with [] => Ok b | ev :: evs => b ← fire_event ev b; fire_events evs b end.

(** ** Methods

    [conn] is the address of the connection. *)

Definition b_mask (z mask : Z) : Z := if z =? 0 then 0 else mask.

Definition scan_flags (p : a6o_rpc_scan_param) : Z :=
  Z.lor (b_mask (sp_threaded p) A6O_SCAN_THREADED) (b_mask (sp_recursive p) A6O_SCAN_RECURSE).

Definition scan_mask (p : a6o_rpc_scan_param) : Z :=
  Z.lor (Z.lor EVENT_DETECTION EVENT_ON_DEMAND_COMPLETED) (b_mask (sp_send_progress p) EVENT_ON_DEMAND_PROGRESS).

(** A scan that cannot be created is registered and started all the same. *)
Definition start_scan (conn : Z) (p : a6o_rpc_scan_param) (b : backend N) : backend N :=
  let od := a6o_on_demand_new (realpath (sp_root_path p) (be_net b)) (sp_scan_id p) (scan_flags p)
              (negb (sp_send_progress p =? 0)) in
  let '(on_demand, b) :=
    match od with None => (None, b) | Some od => let (p, b) := new_scan b od in (Some p, b) end in
  let '(ev_data, b) := new_data b {| sd_conn := conn; sd_on_demand := on_demand |} in
  let b := set_source b (a6o_event_source_add_cb (be_source b) (scan_mask p) SCAN_EVENT_CB ev_data) in
  set_scans b (be_scans b) (be_threads b ++ [on_demand]).

Definition scan_method (conn : Z) (params : option json) (s : state) : outcome (Z * option json * state) :=
  r ← jrpc_unmarshall_struct_ptr params struct_a6o_rpc_scan_param;
  match r with
  | inl ret => Ok (ret, None, s)
  | inr None => Fault NullDeref
  | inr (Some v) => Ok (JRPC_OK, None, with_world s (start_scan conn (scan_param_of v) (rs_world s)))
  end.

Definition status_method (params : option json) (s : state) : outcome (Z * option json * state) :=
  let (info, net) := info_new (be_net (rs_world s)) in
  let s := with_world s (set_net (rs_world s) net) in
  r ← jrpc_marshall_struct struct_a6o_info (Some (info_val info));
  match r with
  | inl ret => Ok (ret, None, s)
  | inr result => Ok (JRPC_OK, Some result, s)
  end.

Definition listen_mask (p : a6o_rpc_listen_param) : Z :=
  foldl Z.lor 0
    [b_mask (lp_detection p) EVENT_DETECTION;
     b_mask (lp_on_demand p) (Z.lor EVENT_ON_DEMAND_START EVENT_ON_DEMAND_COMPLETED);
     b_mask (lp_on_demand_progress p) EVENT_ON_DEMAND_PROGRESS;
     b_mask (lp_quarantine p) EVENT_QUARANTINE;
     b_mask (lp_real_time_prot p) EVENT_REAL_TIME_PROT;
     b_mask (lp_av_update p) EVENT_AV_UPDATE].

Definition listen_method (conn : Z) (params : option json) (s : state) : outcome (Z * option json * state) :=
  r ← jrpc_unmarshall_struct_ptr params struct_a6o_rpc_listen_param;
  match r with
  | inl ret => Ok (ret, None, s)
  | inr None => Fault NullDeref
  | inr (Some v) =>
      let b := rs_world s in
      Ok (JRPC_OK, None, with_world s
        (set_source b (a6o_event_source_add_cb (be_source b) (listen_mask (listen_param_of v)) LISTEN_EVENT_CB conn)))
  end.

Definition rpcbe_methods (conn : Z) (fn : nat) (params : option json) (s : state)
    : outcome (Z * option json * state) :=
  if decide (fn = SCAN_METHOD) then scan_method conn params s
  else if decide (fn = STATUS_METHOD) then status_method params s
  else listen_method conn params s.

(** ** Threads *)

(** [jrpc_process] on the connection at an address. *)
Definition process_conn (conn : Z) (b : backend N) : outcome (Z * backend N) :=
  match be_conns b !! conn with
  | None => Fault UseAfterFree
  | Some cl =>
      r ← jrpc_process (unix_fd_read_cb (cl_sock cl)) (unix_fd_write_cb (cl_sock cl)) (rpcbe_methods conn)
            no_callback no_handler (RpcState (cl_conn cl) b);
      let b := rs_world r.2 in
      Ok (r.1, set_conns b (<[conn := Client (cl_sock cl) (rs_conn r.2)]> (be_conns b)))
  end.

(** [jrpc_connection_free] and the rest of the end of a client. *)
Definition client_end (conn : Z) (b : backend N) : backend N := set_conns b (delete conn (be_conns b)).

(** The thread of a client, for at most [fuel] messages. *)
Fixpoint client_thread (fuel : nat) (conn : Z) (b : backend N) : outcome (backend N) :=
  match fuel with
  | O => Fault Diverges
  | S fuel =>
      r ← process_conn conn b;
      if r.1 =? JRPC_EOF then Ok (client_end conn r.2) else client_thread fuel conn r.2
  end.

(** [accept] gave [client_sock]; a failure is logged at level ERROR, which aborts. *)
Definition server_listen_cb (mapper : jrpc_mapper) (client_sock : Z) (b : backend N) : outcome (bool * Z * backend N) :=
  if client_sock <? 0 then Fault Aborted
  else
    let conn := jrpc_connection_set_write_cb (jrpc_connection_set_read_cb (jrpc_connection_new (Some mapper))) in
    let (p, b) := new_client b {| cl_sock := client_sock; cl_conn := conn |} in
    Ok (true, p, b).

(** [a6o_on_demand_free] and the end of the thread. *)
Definition scan_end (p : Z) (b : backend N) : backend N :=
  set_scans b (delete p (be_scans b)) (filter (fun t => t <> Some p) (be_threads b)).

(** [scan_thread_fun]: [run] is what [a6o_on_demand_run] does, seen from its events. *)
Definition scan_thread_fun (run : a6o_on_demand -> outcome (list a6o_event)) (on_demand : option Z) (b : backend N)
    : outcome (backend N) :=
  match on_demand with
  | None => Fault NullDeref
  | Some p =>
      match be_scans b !! p with
      | None => Fault UseAfterFree
      | Some od =>
          evs ← run od;
          b ← fire_events evs b;
          Ok (scan_end p b)
      end
  end.

(** ** Interleaving

    What one thread does between two switches: a client connects, a message is
    processed, a client leaves, any part of the program fires an event, a scan thread
    ends after its last event. *)
Inductive be_step : backend N -> backend N -> Prop :=
  | step_accept mapper sock b p b' :
      server_listen_cb mapper sock b = Ok (true, p, b') -> be_step b b'
  | step_message conn b ret b' : process_conn conn b = Ok (ret, b') -> be_step b b'
  | step_leave conn b : is_Some (be_conns b !! conn) -> be_step b (client_end conn b)
  | step_event ev b b' : fire_event ev b = Ok b' -> be_step b b'
  | step_scan_end p b : Some p ∈ be_threads b -> be_step b (scan_end p b).

End rpcbe.
