(* ===== verification/RpcBeSpec.v ===== *)
(** * What the clients of the daemon see *)
From S2P Require Import Prelude Status Dir Module ScanConf ScanCtx ScanSpec Info Hash Event OnDemand OnDemandTheory OnDemandSpec.
From S2P Require Import Json Jrpc JrpcTheory JrpcSpec Marshall MarshallSpec RpcDefs Log RpcBe.

#[local] Open Scope Z_scope.

(** ** The mapper of the backend *)

(** The copies of the names are at fixed addresses here. *)
Definition name_address (name : string) : Z := 16 * Z.of_nat (String.length name).

Definition rpcbe_mapper : jrpc_mapper :=
  match create_rpcbe_mapper name_address with Ok m => m | Fault _ => jrpc_mapper_new end.

(** The three methods are found under their names. *)
Definition serves (mapper : jrpc_mapper) : Prop :=
  jrpc_mapper_find mapper "scan" = Ok (Some SCAN_METHOD) /\
  jrpc_mapper_find mapper "status" = Ok (Some STATUS_METHOD) /\
  jrpc_mapper_find mapper "listen" = Ok (Some LISTEN_METHOD).

Lemma rpcbe_mapper_serves : serves rpcbe_mapper.
Proof. by split_and!; vm_compute. Qed.

(** ** Masks *)

(** The event is of a type the parameters ask for. *)
Definition wanted (p : a6o_rpc_listen_param) (ev : a6o_event) : bool :=
  match ev_u ev with
  | ev_detection _ => negb (lp_detection p =? 0)
  | ev_on_demand_start _ | ev_on_demand_completed _ => negb (lp_on_demand p =? 0)
  | ev_on_demand_progress _ => negb (lp_on_demand_progress p =? 0)
  | ev_quarantine _ => negb (lp_quarantine p =? 0)
  | ev_real_time_prot _ => negb (lp_real_time_prot p =? 0)
  | ev_av_update => negb (lp_av_update p =? 0)
  end.

Lemma listen_mask_wanted p ev : (Z.land (listen_mask p) (ev_type ev) =? 0) = negb (wanted p ev).
Proof.
  unfold listen_mask, wanted, ev_type, b_mask.
  destruct (lp_detection p =? 0), (lp_on_demand p =? 0), (lp_on_demand_progress p =? 0), (lp_quarantine p =? 0),
    (lp_real_time_prot p =? 0), (lp_av_update p =? 0), (ev_u ev); reflexivity.
Qed.

(** The events a scan request asks for. *)
Definition scan_wanted (p : a6o_rpc_scan_param) (ev : a6o_event) : bool :=
  match ev_u ev with
  | ev_detection _ | ev_on_demand_completed _ => true
  | ev_on_demand_progress _ => negb (sp_send_progress p =? 0)
  | _ => false
  end.

Lemma scan_mask_wanted p ev : (Z.land (scan_mask p) (ev_type ev) =? 0) = negb (scan_wanted p ev).
Proof.
  unfold scan_mask, scan_wanted, ev_type, b_mask. destruct (sp_send_progress p =? 0), (ev_u ev); reflexivity.
Qed.

Lemma journal_mask_wanted ev :
  (Z.land journal_mask (ev_type ev) =? 0) = match ev_u ev with ev_on_demand_progress _ => true | _ => false end.
Proof. unfold ev_type. destruct (ev_u ev); reflexivity. Qed.

Lemma fire_calls_cons mask cb data src ev :
  a6o_event_source_fire_event (a6o_event_source_add_cb src mask cb data) ev =
    (if Z.land mask (ev_type ev) =? 0 then [] else [(cb, data)]) ++ a6o_event_source_fire_event src ev.
Proof. done. Qed.

Section backend.
Context {json : Type} `{JanssonLaws json} {N : Type}.
Variable recv : Z -> Z -> N -> (Z * list ascii) * N.
Variable send : Z -> list ascii -> N -> Z * N.
Variable realpath : option string -> N -> option string.
Variable info_new : N -> a6o_info * N.
Variable foo : Z.
Implicit Types (b : backend N).

(** ** Notifications *)

(** What is left of the world once [o] has been written on a socket. *)
Definition sent (sock : Z) (o : json) (net : N) : N :=
  match json_dump_callback o with Some _ => (send sock (text_of o) net).2 | None => net end.

(** An event the marshaller accepts. *)
Definition event_ok (ev : a6o_event) : Prop := good_struct (json := json) struct_a6o_event (event_val foo ev).

(** A client is sent one notification, from which it unmarshals the event, or refuses
    it when one of its strings is NULL. *)
Definition delivers (sock : Z) (ev : a6o_event) (net net' : N) : Prop :=
  exists (j o : json), json_rpc_unpack o = inr (REQUEST "notify_event" 0 (Some j)) /\
    jrpc_unmarshall_struct_ptr (Some j) struct_a6o_event =
      Ok (received (complete struct_a6o_event (event_val foo ev)) (Some (event_val foo ev))) /\
    net' = sent sock o net.

Lemma set_net_same b : set_net b (be_net b) = b.
Proof. by destruct b. Qed.

Lemma set_source_same b : set_source b (be_source b) = b.
Proof. by destruct b. Qed.

Lemma notify_conn_ok b conn cl method p :
  be_conns b !! conn = Some cl -> cn_write_cb (cl_conn cl) = true -> json_utf8 method = true ->
  exists o, make_call_obj method (Some p) 0 = Some o /\ json_rpc_unpack o = inr (REQUEST method 0 (Some p)) /\
    notify_conn send b conn method (Some p) = Ok (set_net b (sent (cl_sock cl) o (be_net b))).
Proof.
  intros Hcl Hw Hm. destruct (make_call_obj_fields method (Some p) 0 Hm) as (o & Eo & Hf). exists o.
  split; [done|]. split; [by apply (request_understood method (Some p) 0)|].
  unfold notify_conn. rewrite Hcl. unfold jrpc_notify, jrpc_call. cbn [mbind outcome_bind fst snd]. rewrite Eo.
  unfold connection_send. cbn [rs_conn rs_world with_conn]. rewrite Hw. cbn [c_assert mbind outcome_bind option_bind].
  unfold sent, text_of. destruct (json_dump_callback o) as [chunks|] eqn:E.
  - rewrite message_bytes_ok by exact (dump_bound o chunks E). cbn [mbind outcome_bind].
    unfold unix_fd_write_cb. by destruct (send _ _ _).
  - cbn [mbind outcome_bind snd]. by rewrite set_net_same.
Qed.

Lemma notify_event_ok b conn cl ev :
  be_conns b !! conn = Some cl -> cn_write_cb (cl_conn cl) = true -> event_ok ev ->
  exists net', notify_event send foo b conn ev = Ok (set_net b net') /\ delivers (cl_sock cl) ev (be_net b) net'.
Proof.
  intros Hcl Hw Hev. destruct (struct_roundtrip struct_a6o_event (event_val foo ev)) as (j & Hm & Ht & Hu);
    [apply all_roundtrip|apply schema_event|done|].
  unfold notify_event, jrpc_marshall_struct. rewrite Hm. cbn [mbind outcome_bind].
  destruct (notify_conn_ok b conn cl "notify_event" j Hcl Hw) as (o & _ & Hun & Hn); [by apply utf8_ascii|].
  exists (sent (cl_sock cl) o (be_net b)). split; [done|]. exists j, o. split_and!; [done| |done].
  unfold jrpc_unmarshall_struct_ptr, json_is_null. rewrite bool_decide_eq_false_2, Hu by (by rewrite Ht).
  by destruct (complete _ _).
Qed.

(** ** Requests *)

(** A request that one read takes in. *)
Lemma process_conn_request b conn cl mapper o method fn id params net1 :
  be_conns b !! conn = Some cl -> cn_read_cb (cl_conn cl) = true -> cn_mapper (cl_conn cl) = Some mapper ->
  jrpc_mapper_find mapper method = Ok (Some fn) ->
  fits o -> json_rpc_unpack o = inr (REQUEST method id params) ->
  recv (cl_sock cl) DEFAULT_INPUT_BUFFER_SIZE (be_net b) = ((Z.of_nat (length (text_of o)), text_of o), net1) ->
  process_conn recv send realpath info_new conn b =
    (r ← connection_process_request (unix_fd_write_cb send (cl_sock cl))
           (rpcbe_methods realpath info_new conn) (RpcState (cl_conn cl) (set_net b net1)) method id params;
     Ok (r.1, set_conns (rs_world r.2) (<[conn := Client (cl_sock cl) (rs_conn r.2)]> (be_conns (rs_world r.2))))).
Proof.
  intros Hcl Hr Hmap Hfind Hfits Hun Hrecv. unfold process_conn. rewrite Hcl. unfold jrpc_process, connection_receive.
  cbn [rs_conn rs_world]. rewrite Hr. cbn [c_assert mbind outcome_bind]. unfold unix_fd_read_cb. rewrite Hrecv.
  pose proof Hfits as (_ & [chunks E] & _).
  assert (0 < Z.of_nat (length (text_of o))) as Hpos by (unfold text_of; rewrite E, length_app; simpl; lia).
  replace (Z.of_nat (length (text_of o)) <? 0) with false by lia.
  replace (Z.of_nat (length (text_of o)) =? 0) with false by lia. cbn [mbind outcome_bind].
  rewrite Nat2Z.id, take_app_length. rewrite <- (app_nil_r (text_of o)), load_text by done.
  cbn [mbind outcome_bind]. by rewrite Hun.
Qed.

(** The request [o] for a method waits on the socket of the connection. *)
Definition asks (b : backend N) (conn : Z) (cl : client) (o : json) (method : string) (id : Z) (params : option json)
    (net1 : N) : Prop :=
  be_conns b !! conn = Some cl /\ cn_read_cb (cl_conn cl) = true /\ cn_write_cb (cl_conn cl) = true /\
  (exists mapper, cn_mapper (cl_conn cl) = Some mapper /\ serves mapper) /\
  fits o /\ json_rpc_unpack o = inr (REQUEST method id params) /\
  recv (cl_sock cl) DEFAULT_INPUT_BUFFER_SIZE (be_net b) = ((Z.of_nat (length (text_of o)), text_of o), net1).

#[local] Abbreviation process := (process_conn recv send realpath info_new).

(** A method that succeeds without a result: nothing is answered, whatever the id. *)
Lemma process_silent b conn cl o method fn id params net1 b2 :
  asks b conn cl o method id params net1 ->
  (forall mapper, serves mapper -> jrpc_mapper_find mapper method = Ok (Some fn)) ->
  rpcbe_methods realpath info_new conn fn params (RpcState (cl_conn cl) (set_net b net1)) =
    Ok (0, None, RpcState (cl_conn cl) b2) ->
  be_conns b2 = be_conns b ->
  process conn b = Ok (JRPC_OK, b2).
Proof.
  intros (Hcl & Hr & Hw & (mapper & Hmap & Hserves) & Hfits & Hun & Hrecv) Hfind Hmeth Hconns.
  rewrite (process_conn_request b conn cl mapper o method fn id params net1) by auto.
  unfold connection_process_request. cbn [rs_conn]. rewrite Hmap, (Hfind _ Hserves). cbn [mbind outcome_bind].
  rewrite Hmeth. cbn [mbind outcome_bind]. change (negb (0 =? 0)) with false. cbn iota.
  assert (set_conns b2 (<[conn := cl]> (be_conns b2)) = b2) as Hsame.
  { rewrite insert_id by (by rewrite Hconns). by destruct b2. }
  destruct cl as [sock c]. cbn [cl_sock cl_conn] in *.
  destruct (id =? 0); cbn [negb]; [cbn; by rewrite Hsame|].
  rewrite make_result_obj_null. unfold connection_send. cbn [rs_conn]. rewrite Hw. cbn. by rewrite Hsame.
Qed.

Lemma process_listen b conn cl o id j p net1 :
  asks b conn cl o "listen" id (Some j) net1 ->
  jrpc_unmarshall_struct_ptr (Some j) struct_a6o_rpc_listen_param = Ok (inr (Some (listen_param_val p))) ->
  process conn b = Ok (JRPC_OK, set_source (set_net b net1)
    (a6o_event_source_add_cb (be_source b) (listen_mask p) LISTEN_EVENT_CB conn)).
Proof.
  intros Hasks Hp. apply (process_silent b conn cl o "listen" LISTEN_METHOD id (Some j) net1); [done| | |done].
  - by intros mapper (_ & _ & ?).
  - unfold rpcbe_methods, LISTEN_METHOD. cbn [decide decide_rel Nat.eq_dec]. unfold listen_method. rewrite Hp. by destruct p.
Qed.

Lemma process_scan b conn cl o id j p net1 :
  asks b conn cl o "scan" id (Some j) net1 ->
  jrpc_unmarshall_struct_ptr (Some j) struct_a6o_rpc_scan_param = Ok (inr (Some (scan_param_val p))) ->
  process conn b = Ok (JRPC_OK, start_scan realpath conn p (set_net b net1)).
Proof.
  intros Hasks Hp. apply (process_silent b conn cl o "scan" SCAN_METHOD id (Some j) net1); [done| | |].
  - by intros mapper (? & _ & _).
  - unfold rpcbe_methods, scan_method. cbn [decide]. rewrite decide_True by done. rewrite Hp. by destruct p.
  - unfold start_scan. by destruct (a6o_on_demand_new _ _ _ _).
Qed.

(** ** Scans *)

(** Notifications of events, in order. *)
Fixpoint delivered (sock : Z) (evs : list a6o_event) (net net' : N) : Prop :=
  match evs with
  | [] => net' = net
  | ev :: evs => exists net1, delivers sock ev net net1 /\ delivered sock evs net1 net'
  end.

(** The callback of the scan [id] at [p], above the journal. *)
Record scan_running (b : backend N) (cl : client) (q : a6o_rpc_scan_param) (p : Z) (od : a6o_on_demand) : Prop := {
  sr_source : exists data conn,
    be_source b = a6o_event_source_add_cb (journal_init JOURNAL_EVENT_CB a6o_event_source_new) (scan_mask q) SCAN_EVENT_CB data /\
    be_data b !! data = Some (ScanEventData conn (Some p)) /\ be_conns b !! conn = Some cl;
  sr_scan : be_scans b !! p = Some od;
  sr_write : cn_write_cb (cl_conn cl) = true;
}.

(** An event as a client of the scan [id] with parameters [q] gets it. *)
Definition reported (q : a6o_rpc_scan_param) (id : Z) (ev : a6o_event) : bool :=
  scan_wanted q ev && negb (other_scan ev id).

Lemma journal_call b ev :
  run_calls send foo (a6o_event_source_fire_event (journal_init JOURNAL_EVENT_CB a6o_event_source_new) ev) ev b =
    Ok (add_journal b (journal_event_cb ev)).
Proof.
  unfold journal_init. rewrite fire_calls_cons, journal_mask_wanted. unfold journal_event_cb.
  assert (event_cb send foo JOURNAL_EVENT_CB 0 ev b = Ok (add_journal b (journal_event_cb ev))) as Ecb by done.
  assert (add_journal b [] = b) as Enil by (unfold add_journal; rewrite app_nil_r; by destruct b).
  unfold journal_event_cb in Ecb. destruct (ev_u ev); cbn [app run_calls]; rewrite ?Ecb, ?Enil; done.
Qed.

Lemma fire_scan_event b cl q p od ev :
  scan_running b cl q p od -> event_ok ev ->
  exists net', fire_event send foo ev b = Ok (add_journal (set_net b net') (journal_event_cb ev)) /\
    if reported q (od_scan_id od) ev then delivers (cl_sock cl) ev (be_net b) net' else net' = be_net b.
Proof.
  intros [(data & conn & Hsrc & Hdata & Hconn) Hscan Hw] Hev. unfold fire_event, reported. rewrite Hsrc, fire_calls_cons, scan_mask_wanted.
  destruct (scan_wanted q ev); cbn [negb andb app].
  - cbn [run_calls event_cb]. unfold event_cb. cbn [decide]. rewrite decide_True by done. unfold scan_event_cb, scan_data_of, expected_scan_id.
    rewrite Hdata. cbn [mbind outcome_bind sd_on_demand sd_conn]. rewrite Hscan. cbn [mbind outcome_bind].
    unfold a6o_on_demand_get_id. destruct (other_scan ev (od_scan_id od)); cbn [negb].
    + exists (be_net b). cbn [mbind outcome_bind]. by rewrite journal_call, set_net_same.
    + destruct (notify_event_ok b conn cl ev Hconn Hw Hev) as (net' & -> & Hd). exists net'.
      cbn [mbind outcome_bind]. by rewrite journal_call.
  - exists (be_net b). by rewrite journal_call, set_net_same.
Qed.

Lemma scan_running_step b cl q p od net' lines :
  scan_running b cl q p od -> scan_running (add_journal (set_net b net') lines) cl q p od.
Proof. by intros []; split. Qed.

Lemma fire_scan_events evs b cl q p od :
  scan_running b cl q p od -> Forall event_ok evs ->
  exists b', fire_events send foo evs b = Ok b' /\
    b' = add_journal (set_net b (be_net b')) (flat_map journal_event_cb evs) /\
    delivered (cl_sock cl) (filter (reported q (od_scan_id od)) evs) (be_net b) (be_net b').
Proof.
  intros Hrun Hev. revert b Hrun. induction Hev as [|ev evs Hev Hevs IH]; intros b Hrun.
  { exists b. split_and!; [done| |done]. unfold add_journal. cbn. rewrite app_nil_r. by destruct b. }
  cbn [fire_events flat_map]. destruct (fire_scan_event b cl q p od ev Hrun Hev) as (net1 & -> & Hd). cbn [mbind outcome_bind].
  destruct (IH _ (scan_running_step _ _ _ _ _ net1 (journal_event_cb ev) Hrun)) as (b' & -> & Eb & Hds).
  exists b'. split; [done|]. split.
  - rewrite Eb at 1. unfold add_journal, set_net. cbn. by rewrite <- app_assoc.
  - rewrite filter_cons. destruct (reported q _ ev); cbn [Is_true].
    + rewrite decide_True by done. by exists net1.
    + rewrite decide_False by (by intros []). by subst net1.
Qed.

Lemma filter_agree {A} (f g : A -> bool) (l : list A) : (forall x, x ∈ l -> f x = g x) -> filter f l = filter g l.
Proof.
  induction l as [|x l IH]; intros Hl; [done|]. rewrite !filter_cons, (Hl x) by left.
  rewrite IH by (intros y Hy; apply Hl; by right). by destruct (g x).
Qed.

(** The events of a run all carry the identifier of the scan. *)
Lemma reported_run {W} od files (s : od_state W) q :
  run_report od files s ->
  filter (reported q (od_scan_id od)) (s_events s) = filter (scan_wanted q) (s_events s).
Proof.
  intros (t1 & mid & t2 & d & -> & Hmid & _). apply filter_agree. intros ev Hev. unfold reported.
  assert (scan_wanted q ev = true -> other_scan ev (od_scan_id od) = false) as Ho.
  { unfold other_scan, scan_wanted. intros Hw. rewrite elem_of_cons, elem_of_app, list_elem_of_singleton in Hev.
    destruct Hev as [-> |[Hev| ->]]; [done| |simpl; by rewrite Z.eqb_refl].
    eapply (proj1 (list.Forall_forall _ _)) in Hmid; [|exact Hev]. unfold scan_event in Hmid.
    destruct (ev_u ev); try done; destruct Hmid as [-> _]; by rewrite Z.eqb_refl. }
  destruct (scan_wanted q ev); [by rewrite Ho|done].
Qed.

(** No object is beyond the next address. *)
Record heap_ok (b : backend N) : Prop := {
  heap_conns : forall a, be_next b <= a -> be_conns b !! a = None;
  heap_scans : forall a, be_next b <= a -> be_scans b !! a = None;
  heap_data : forall a, be_next b <= a -> be_data b !! a = None;
  heap_threads : forall a, be_next b <= a -> Some a ∉ be_threads b;
}.

Lemma start_scan_running b conn cl q od :
  heap_ok b -> be_conns b !! conn = Some cl -> cn_write_cb (cl_conn cl) = true ->
  be_source b = journal_init JOURNAL_EVENT_CB a6o_event_source_new ->
  a6o_on_demand_new (realpath (sp_root_path q) (be_net b)) (sp_scan_id q) (scan_flags q)
    (negb (sp_send_progress q =? 0)) = Some od ->
  let b1 := start_scan realpath conn q b in
  scan_running b1 cl q (be_next b) od /\ be_threads b1 = be_threads b ++ [Some (be_next b)] /\
  be_net b1 = be_net b /\ be_journal b1 = be_journal b /\
  scan_end (be_next b) (set_scans b1 (be_scans b1) (be_threads b1)) = set_scans b1 (be_scans b) (be_threads b).
Proof.
  intros [Hc Hs Hd Ht] Hconn Hw Hsrc Hnew b1. subst b1. unfold start_scan. rewrite Hnew. split_and!; try done.
  - split; [|cbn; by rewrite lookup_insert_eq|done]. exists (be_next b + 1), conn. cbn. rewrite Hsrc.
    split_and!; [done|by rewrite lookup_insert_eq|done].
  - unfold scan_end, set_scans. cbn. f_equal.
    + rewrite delete_insert_id; [done|]. apply Hs. lia.
    + rewrite list.filter_app. rewrite filter_cons, decide_False by (by intros []). rewrite filter_nil, app_nil_r.
      specialize (Ht (be_next b) ltac:(lia)). induction (be_threads b) as [|t l IH]; [done|].
      apply not_elem_of_cons in Ht as [Hne Ht]. rewrite filter_cons, decide_True by congruence. by rewrite IH.
Qed.

(** ** What never changes

    Callbacks and their data stay for ever, and an object that was freed does not come
    back. *)
Record later (b b' : backend N) : Prop := {
  later_callbacks : forall e, e ∈ callbacks (be_source b) -> e ∈ callbacks (be_source b');
  later_data : forall a d, be_data b !! a = Some d -> be_data b' !! a = Some d;
  later_conns : forall a, a < be_next b -> be_conns b !! a = None -> be_conns b' !! a = None;
  later_scans : forall a, a < be_next b -> be_scans b !! a = None -> be_scans b' !! a = None;
  later_next : be_next b <= be_next b';
}.

#[local] Instance later_preorder : PreOrder later.
Proof.
  split; [intros b; split; try done; lia|].
  intros b1 b2 b3 [] []. split; try (intros; eauto with lia); lia.
Qed.

Lemma later_net b net : later b (set_net b net).
Proof. by split. Qed.

Lemma later_journal b l : later b (add_journal b l).
Proof. by split. Qed.

Lemma later_add b mask cb data : later b (set_source b (a6o_event_source_add_cb (be_source b) mask cb data)).
Proof. split; try done. intros e He. by right. Qed.

Lemma later_fresh b (x : a6o_on_demand) : heap_ok b -> later b (new_scan b x).2.
Proof.
  intros Hok. split; try done; cbn; [|lia].
  intros a Ha Hn. rewrite lookup_insert_ne by lia. done.
Qed.

Lemma later_start conn q b : heap_ok b -> later b (start_scan realpath conn q b).
Proof.
  intros Hok. unfold start_scan. destruct (a6o_on_demand_new _ _ _ _) as [od|]; cbn;
    split; cbn; try done; try lia; try (intros; by right).
  - intros a d Hd. rewrite lookup_insert_ne; [done|]. intros <-.
    by rewrite (heap_data _ Hok) in Hd by lia.
  - intros a Ha Hn. by rewrite lookup_insert_ne by lia.
  - intros a d Hd. rewrite lookup_insert_ne; [done|]. intros <-. by rewrite (heap_data _ Hok) in Hd by lia.
Qed.

Lemma heap_ok_start conn q b : heap_ok b -> heap_ok (start_scan realpath conn q b).
Proof.
  intros [Hc Hs Hd Ht]. unfold start_scan. destruct (a6o_on_demand_new _ _ _ _) as [od|]; cbn; split; cbn; intros a Ha.
  all: try (apply Hc; lia). all: try (rewrite ?lookup_insert_ne by lia; first [apply Hs|apply Hd]; lia).
  all: rewrite elem_of_app, list_elem_of_singleton; intros [Hin|Hin]; [apply (Ht a); [lia|done]|simplify_eq/=; lia].
Qed.

Definition kept (b b' : backend N) : Prop := heap_ok b -> heap_ok b' /\ later b b'.

#[local] Instance kept_preorder : PreOrder kept.
Proof.
  split; [done|]. intros b1 b2 b3 H12 H23 Hok. destruct (H12 Hok) as [Hok2 ?]. destruct (H23 Hok2). split; [done|by etrans].
Qed.

Lemma kept_net b net : kept b (set_net b net).
Proof. intros []. by split. Qed.

Lemma kept_add b mask cb data : kept b (set_source b (a6o_event_source_add_cb (be_source b) mask cb data)).
Proof. intros []. split; [by split|apply later_add]. Qed.

Lemma write_kept sock text b : kept b (unix_fd_write_cb send sock text b).2.
Proof. unfold unix_fd_write_cb. destruct (send _ _ _). apply kept_net. Qed.

Lemma notify_kept b b' conn method p : notify_conn send b conn method p = Ok b' -> kept b b'.
Proof.
  unfold notify_conn. destruct (be_conns b !! conn) as [cl|]; [|done]. intros (r & E & [= <-])%bind_Ok_inv.
  exact (send_keeps _ kept (write_kept (cl_sock cl)) _ _ _ E).
Qed.

Lemma notify_event_kept b b' conn ev : notify_event send foo b conn ev = Ok b' -> kept b b'.
Proof.
  unfold notify_event. intros ([ret|j] & _ & E)%bind_Ok_inv; [by injection E as <-|by eapply notify_kept].
Qed.

Lemma event_cb_kept cb data ev b b' : event_cb send foo cb data ev b = Ok b' -> kept b b'.
Proof.
  unfold event_cb. repeat case_decide.
  - unfold scan_event_cb. intros (d & _ & (id & _ & E)%bind_Ok_inv)%bind_Ok_inv.
    destruct (other_scan ev id); [by injection E as <-|by eapply notify_event_kept].
  - apply notify_event_kept.
  - intros [= <-] []. by split.
  - by intros [= <-].
Qed.

Lemma run_calls_kept calls ev b b' : run_calls send foo calls ev b = Ok b' -> kept b b'.
Proof.
  revert b. induction calls as [|[cb data] calls IH]; intros b; cbn [run_calls]; [by intros [= <-]|].
  intros (b1 & E1 & E2)%bind_Ok_inv. etrans; [by eapply event_cb_kept|by apply IH].
Qed.

Lemma methods_kept conn fn params (s s' : rpc_state (backend N)) ret result :
  rpcbe_methods realpath info_new conn fn params s = Ok (ret, result, s') -> kept (rs_world s) (rs_world s').
Proof.
  unfold rpcbe_methods. repeat case_decide.
  - unfold scan_method. intros ([ret'|[v|]] & _ & E)%bind_Ok_inv; [by injection E as _ _ <-| |done].
    injection E as _ _ <-. intros Hok. split; [by apply heap_ok_start|by apply later_start].
  - unfold status_method. destruct (info_new _) as [info net]. intros ([ret'|j] & _ & E)%bind_Ok_inv;
      injection E as _ _ <-; apply kept_net.
  - unfold listen_method. intros ([ret'|[v|]] & _ & E)%bind_Ok_inv; [by injection E as _ _ <-| |done].
    injection E as _ _ <-. apply kept_add.
Qed.

Lemma process_kept conn b r : process conn b = Ok r -> kept b r.2.
Proof.
  unfold process_conn. destruct (be_conns b !! conn) as [cl|] eqn:Ecl; [|done].
  intros (r1 & E & [= <-])%bind_Ok_inv Hok. cbn [snd].
  assert (kept b (rs_world r1.2)) as Hk.
  { apply (process_keeps _ _ _ _ _ kept) in E; [exact E|..].
    - intros size w. unfold unix_fd_read_cb. destruct (recv _ _ _). apply kept_net.
    - apply write_kept.
    - intros fn params s0 ret result s1. apply methods_kept.
    - done.
    - done. }
  destruct (Hk Hok) as [[Hc Hs Hd Ht] Hl]. pose proof Hl as [Hlcb Hld Hlc Hls Hln].
  assert (conn < be_next b) as Hlt.
  { destruct (decide (be_next b <= conn)) as [Hle|]; [|lia]. by rewrite (heap_conns _ Hok) in Ecl. }
  split; split; cbn; try done.
  - intros a Ha. rewrite lookup_insert_ne by lia. by apply Hc.
  - intros a Ha Hn. rewrite lookup_insert_ne by (intros ->; congruence). by apply Hlc.
Qed.

Lemma step_kept b b' : be_step recv send realpath info_new foo b b' -> kept b b'.
Proof.
  intros [mapper sock b0 p b1 E|conn b0 ret b1 E|conn b0 _|ev b0 b1 E|p b0 _].
  - unfold server_listen_cb in E. destruct (sock <? 0); [done|]. injection E as <- <-.
    intros [Hc Hs Hd Ht]. split; split; cbn; try done; try lia.
    + intros a Ha. rewrite lookup_insert_ne by lia. apply Hc. lia.
    + intros a Ha. apply Hs. lia.
    + intros a Ha. apply Hd. lia.
    + intros a Ha. apply Ht. lia.
    + intros a Ha Hn. by rewrite lookup_insert_ne by lia.
  - exact (process_kept _ _ _ E).
  - intros [Hc Hs Hd Ht]. split; split; cbn; try done; try lia.
    + intros a Ha. rewrite lookup_delete_None. right. by apply Hc.
    + intros a Ha Hn. rewrite lookup_delete_None. by right.
  - exact (run_calls_kept _ _ _ _ E).
  - intros [Hc Hs Hd Ht]. split; split; cbn; try done; try lia.
    + intros a Ha. rewrite lookup_delete_None. right. by apply Hs.
    + intros a Ha. rewrite list_elem_of_filter. intros [_ Hin]. by apply (Ht a).
    + intros a Ha Hn. rewrite lookup_delete_None. by right.
Qed.

Lemma steps_kept b b' : rtc (be_step recv send realpath info_new foo) b b' -> kept b b'.
Proof. induction 1 as [|b1 b2 b3 Hs _ IH]; [done|]. etrans; [by apply step_kept|exact IH]. Qed.

(** ** Callbacks whose objects are gone *)

(** A registered callback that reaches no object: a scan callback whose scan was freed
    or never existed, or a listener whose connection was freed. *)
Definition dangling (b : backend N) (e : callback_entry) : Prop :=
  e ∈ callbacks (be_source b) /\
  ((cb_fun e = SCAN_EVENT_CB /\ exists conn p, be_data b !! cb_data e = Some (ScanEventData conn p) /\
      match p with Some p => p < be_next b /\ be_scans b !! p = None | None => True end) \/
   (cb_fun e = LISTEN_EVENT_CB /\ cb_data e < be_next b /\ be_conns b !! cb_data e = None)).

Lemma later_dangling b b' e : later b b' -> dangling b e -> dangling b' e.
Proof.
  intros [Hcb Hd Hc Hs Hn] [Hin [(Hf & conn & p & Hdata & Hp)|(Hf & Hlt & Hconn)]]; (split; [by apply Hcb|]); [left|right].
  - split; [done|]. exists conn, p. split; [by apply Hd|]. destruct p as [p|]; [|done]. destruct Hp. split; [lia|by apply Hs].
  - split_and!; [done|lia|by apply Hc].
Qed.

Lemma dangling_call b e ev b' : dangling b e -> event_ok ev -> event_cb send foo (cb_fun e) (cb_data e) ev b <> Ok b'.
Proof.
  intros [_ [(-> & conn & p & Hdata & Hp)|(-> & _ & Hconn)]] Hev; unfold event_cb.
  - rewrite decide_True by done. unfold scan_event_cb, scan_data_of, expected_scan_id. rewrite Hdata. cbn.
    destruct p as [p|]; [|done]. destruct Hp as [_ ->]. done.
  - rewrite decide_False, decide_True by done. unfold listen_event_cb, notify_event.
    destruct (struct_roundtrip struct_a6o_event (event_val foo ev)) as (j & Hm & _); [apply all_roundtrip|apply schema_event|done|].
    unfold jrpc_marshall_struct. rewrite Hm. cbn. unfold notify_conn. by rewrite Hconn.
Qed.

Lemma dangling_calls calls b e ev b' :
  heap_ok b -> dangling b e -> event_ok ev -> (cb_fun e, cb_data e) ∈ calls -> run_calls send foo calls ev b <> Ok b'.
Proof.
  intros Hok Hd Hev Hin. revert b Hok Hd. induction calls as [|[cb data] calls IH]; [by apply elem_of_nil in Hin|].
  intros b Hok Hd. cbn [run_calls]. intros (b1 & E & E')%bind_Ok_inv.
  apply elem_of_cons in Hin as [[= <- <-]|Hin]; [by eapply dangling_call|].
  destruct (event_cb_kept _ _ _ _ _ E Hok) as [Hok1 Hl]. by apply (IH Hin b1 Hok1); [by eapply later_dangling|].
Qed.

Lemma fire_dangling b b' e ev :
  heap_ok b -> dangling b e -> rtc (be_step recv send realpath info_new foo) b b' ->
  Z.land (cb_mask e) (ev_type ev) <> 0 -> event_ok ev -> exists f, fire_event send foo ev b' = Fault f.
Proof.
  intros Hok Hd Hsteps Hmask Hev. destruct (steps_kept _ _ Hsteps Hok) as [Hok' Hl].
  pose proof (later_dangling _ _ _ Hl Hd) as Hd'.
  assert ((cb_fun e, cb_data e) ∈ a6o_event_source_fire_event (be_source b') ev) as Hin.
  { apply list_elem_of_In, in_flat_map. exists e. split; [by apply list_elem_of_In, Hd'|].
    rewrite (proj2 (Z.eqb_neq _ _)) by done. by left. }
  destruct (fire_event send foo ev b') as [b''|f] eqn:E; [|by exists f].
  by destruct (dangling_calls _ _ _ _ b'' Hok' Hd' Hev Hin).
Qed.

(** ** What clients can rely on *)


(** A scan, from the client's request to its notifications.  When the path exists
    and no other client listens, the request is accepted and a thread is started with
    the scan it asks for; if the run of that scan reports, the thread ends without a
    fault and frees it, the client has been sent, in order, one notification for each
    detection, for the progress it asked for and for the completion, from which it
    unmarshals that event, and the journal has its line for every event but progress. *)
Theorem scan_reported {W} (os : os_answers) (modules : list (a6o_module W)) (clock : nat -> Z) (env : run_env)
    (sc : scan_state W) (b : backend N) (conn : Z) (cl : client) (o j : json) (id : Z) (q : a6o_rpc_scan_param)
    (net1 : N) (od : a6o_on_demand) (files : Z) (s : od_state W)
    (Hheap : heap_ok b) (Hsource : be_source b = journal_init JOURNAL_EVENT_CB a6o_event_source_new)
    (Hasks : asks b conn cl o "scan" id (Some j) net1)
    (Hparam : jrpc_unmarshall_struct_ptr (Some j) struct_a6o_rpc_scan_param = Ok (inr (Some (scan_param_val q))))
    (Hnew : a6o_on_demand_new (realpath (sp_root_path q) net1) (sp_scan_id q) (scan_flags q)
              (negb (sp_send_progress q =? 0)) = Some od)
    (Hrun : a6o_on_demand_run os modules clock env (od_init od sc) = Ok s)
    (Hreport : run_report od files s) (Hevents : Forall event_ok (s_events s)) :
  exists b1 p b2, process conn b = Ok (JRPC_OK, b1) /\ be_threads b1 = be_threads b ++ [Some p] /\
    scan_thread_fun send foo (fun od => s_events <$> a6o_on_demand_run os modules clock env (od_init od sc)) (Some p) b1 =
      Ok b2 /\
    delivered (cl_sock cl) (filter (scan_wanted q) (s_events s)) net1 (be_net b2) /\
    be_journal b2 = be_journal b ++ flat_map journal_event_cb (s_events s) /\
    be_scans b2 = be_scans b /\ be_threads b2 = be_threads b.
Proof.
  pose proof Hasks as (Hcl & _ & Hw & _).
  destruct (start_scan_running (set_net b net1) conn cl q od) as (Hrunning & Hth & Hnet & Hj & Hend); try done.
  { by destruct Hheap. }
  cbn [be_next set_net] in *. set (b1 := start_scan realpath conn q (set_net b net1)) in *.
  destruct (fire_scan_events (s_events s) b1 cl q (be_next b) od Hrunning Hevents) as (b' & Ef & Eb & Hd).
  rewrite (reported_run od files s q Hreport), Hnet in Hd.
  exists b1, (be_next b), (scan_end (be_next b) b'). split; [by eapply process_scan|]. split; [exact Hth|].
  assert (scan_end (be_next b) b' = set_scans b' (be_scans b) (be_threads b)) as Hend'.
  { rewrite Eb. unfold scan_end, set_scans in *. cbn in *. injection Hend as Hs Ht. by rewrite Hs, Ht. }
  split; [|rewrite Hend'; split_and!; try done].
  - unfold scan_thread_fun. rewrite (sr_scan _ _ _ _ _ Hrunning), Hrun. cbn [fmap outcome_fmap mbind outcome_bind].
    by rewrite Ef.
  - cbn. rewrite Eb. cbn. by rewrite Hj.
Qed.

(** The callback of a scan is never removed.  Once a scan is over, or as soon as it
    is requested for a path that does not exist, whatever happens next in the daemon,
    the first detection, completion or requested progress event fired by any scan or by
    the on-access protection makes it read the freed (or NULL) scan. *)
Theorem scan_callback_outlives_scan (b b2 b' : backend N) (conn : Z) (cl : client) (o j : json) (id : Z)
    (q : a6o_rpc_scan_param) (net1 : N) (ev : a6o_event)
    (Hheap : heap_ok b) (Hasks : asks b conn cl o "scan" id (Some j) net1)
    (Hparam : jrpc_unmarshall_struct_ptr (Some j) struct_a6o_rpc_scan_param = Ok (inr (Some (scan_param_val q))))
    (Hscan : rtc (be_step recv send realpath info_new foo) (start_scan realpath conn q (set_net b net1)) b2)
    (Hover : realpath (sp_root_path q) net1 <> None -> be_scans b2 !! be_next b = None)
    (Hlater : rtc (be_step recv send realpath info_new foo) b2 b')
    (Hev : event_ok ev) (Hwanted : scan_wanted q ev = true) :
  process conn b = Ok (JRPC_OK, start_scan realpath conn q (set_net b net1)) /\
  exists f, fire_event send foo ev b' = Fault f.
Proof.
  split; [by eapply process_scan|].
  assert (heap_ok (set_net b net1)) as Hheap1 by (by destruct Hheap).
  pose proof (heap_ok_start conn q _ Hheap1) as Hheap2. destruct (steps_kept _ _ Hscan Hheap2) as [Hheap3 Hl].
  assert (exists e, dangling b2 e /\ cb_mask e = scan_mask q) as (e & Hd & Hm).
  { revert Hl Hover. unfold start_scan, a6o_on_demand_new. cbn [be_net set_net].
    destruct (realpath (sp_root_path q) net1) as [root|]; cbn [new_scan new_data]; intros [Hcb Hdata _ _ Hnext] Hover; cbn in Hcb, Hdata, Hnext.
    - exists (Event.CallbackEntry (scan_mask q) SCAN_EVENT_CB (be_next b + 1)). split; [|done].
      split; [apply Hcb; left|]. left. split; [done|]. exists conn, (Some (be_next b)).
      split; [apply Hdata; by rewrite lookup_insert_eq|]. split; [lia|by apply Hover].
    - exists (Event.CallbackEntry (scan_mask q) SCAN_EVENT_CB (be_next b)). split; [|done].
      split; [apply Hcb; left|]. left. split; [done|]. exists conn, None.
      split; [apply Hdata; by rewrite lookup_insert_eq|done]. }
  apply (fire_dangling b2 b' e); try done. rewrite Hm. apply Z.eqb_neq. by rewrite scan_mask_wanted, Hwanted.
Qed.

(** A listener is never removed either: once its connection is closed, the first
    event of a type it asked for makes the daemon write to the freed connection. *)
Theorem listener_outlives_connection (b b1 b' : backend N) (conn : Z) (cl : client) (o j : json) (id : Z)
    (p : a6o_rpc_listen_param) (net1 : N) (ev : a6o_event)
    (Hheap : heap_ok b) (Hasks : asks b conn cl o "listen" id (Some j) net1)
    (Hparam : jrpc_unmarshall_struct_ptr (Some j) struct_a6o_rpc_listen_param = Ok (inr (Some (listen_param_val p))))
    (Hb1 : process conn b = Ok (JRPC_OK, b1))
    (Hlater : rtc (be_step recv send realpath info_new foo) (client_end conn b1) b')
    (Hev : event_ok ev) (Hwanted : wanted p ev = true) :
  exists f, fire_event send foo ev b' = Fault f.
Proof.
  rewrite (process_listen b conn cl o id j p net1 Hasks Hparam) in Hb1. injection Hb1 as <-.
  destruct Hasks as (Hcl & _).
  assert (conn < be_next b) as Hlt.
  { destruct (decide (be_next b <= conn)) as [Hle|]; [|lia]. by rewrite (heap_conns _ Hheap) in Hcl. }
  eapply (fire_dangling _ b' (Event.CallbackEntry (listen_mask p) LISTEN_EVENT_CB conn) ev); [| |exact Hlater| |exact Hev].
  - destruct Hheap as [Hc Hs Hd Ht]. split; cbn; try done. intros a Ha. rewrite lookup_delete_None. right. by apply Hc.
  - split; [by left|]. right. cbn. split_and!; [done..|]. apply lookup_delete_eq.
  - cbn [cb_mask]. apply Z.eqb_neq. by rewrite listen_mask_wanted, Hwanted.
Qed.

(** A request of a scan or of a listener whose parameters are the JSON null crashes
    the daemon: null unmarshals to no structure, which the methods dereference. *)
Theorem null_parameters_crash (b : backend N) (conn : Z) (cl : client) (o : json) (method : string) (id : Z) (net1 : N)
    (Hasks : asks b conn cl o method id (Some json_null) net1)
    (Hmethod : method = "scan"%string \/ method = "listen"%string) :
  process conn b = Fault NullDeref.
Proof.
  destruct Hasks as (Hcl & Hr & Hw & (mapper & Hmap & Hserves) & Hfits & Hun & Hrecv).
  assert (exists fn, jrpc_mapper_find mapper method = Ok (Some fn) /\ (fn = SCAN_METHOD \/ fn = LISTEN_METHOD)) as (fn & Hfind & Hfn).
  { destruct Hserves as (? & _ & ?), Hmethod as [-> | ->]; eauto. }
  rewrite (process_conn_request b conn cl mapper o method fn id (Some json_null) net1) by done.
  unfold connection_process_request. cbn [rs_conn]. rewrite Hmap, Hfind. cbn [mbind outcome_bind].
  assert (forall sd, jrpc_unmarshall_struct_ptr (Some json_null) sd = Ok (inr None)) as Hnull.
  { intros sd. unfold jrpc_unmarshall_struct_ptr, json_is_null. by rewrite bool_decide_eq_true_2 by apply typeof_null. }
  unfold rpcbe_methods. destruct Hfn as [-> | ->].
  - rewrite decide_True by done. unfold scan_method. by rewrite Hnull.
  - rewrite decide_False, decide_False by done. unfold listen_method. by rewrite Hnull.
Qed.

(** A "status" request is answered with the information of the modules: the answer
    has the identifier of the request and unmarshals to exactly that information, or is
    refused by the client when a string of it is NULL; nothing else changes. *)
Theorem status_answered (b : backend N) (conn : Z) (cl : client) (o : json) (id : Z) (params : option json)
    (net1 net2 : N) (info : a6o_info)
    (Hasks : asks b conn cl o "status" id params net1) (Hid : 1 <= id < 2 ^ 63)
    (Hinfo : info_new net1 = (info, net2)) (Hgood : good_struct (json := json) struct_a6o_info (info_val info)) :
  exists (j r : json), process conn b = Ok (JRPC_OK, set_net b (sent (cl_sock cl) r net2)) /\
    json_rpc_unpack r = inr (RESULT_RESPONSE id j) /\
    jrpc_unmarshall_struct_ptr (Some j) struct_a6o_info =
      Ok (received (complete struct_a6o_info (info_val info)) (Some (info_val info))).
Proof.
  destruct Hasks as (Hcl & Hr & Hw & (mapper & Hmap & (_ & Hfind & _)) & Hfits & Hun & Hrecv).
  destruct (struct_roundtrip struct_a6o_info (info_val info)) as (j & Hm & Ht & Hu); [apply all_roundtrip|apply schema_info|done|].
  destruct (make_result_obj_fields j id) as (r & Er & Hf). exists j, r. split_and!.
  - rewrite (process_conn_request b conn cl mapper o "status" STATUS_METHOD id params net1) by done.
    unfold connection_process_request. cbn [rs_conn]. rewrite Hmap, Hfind. cbn [mbind outcome_bind].
    unfold rpcbe_methods. rewrite decide_False, decide_True by done. unfold status_method. cbn [be_net rs_world set_net].
    rewrite Hinfo. unfold jrpc_marshall_struct. rewrite Hm. cbn [mbind outcome_bind].
    change (negb (JRPC_OK =? 0)) with false. cbn iota. replace (id =? 0) with false by lia. cbn [negb]. rewrite Er.
    assert (forall net, set_conns (set_net b net) (<[conn := Client (cl_sock cl) (cl_conn cl)]> (be_conns b)) = set_net b net) as Hsame.
    { intros net. rewrite insert_id by (by destruct cl). done. }
    unfold connection_send. cbn [with_world rs_conn rs_world]. rewrite Hw. cbn [c_assert mbind outcome_bind option_bind].
    unfold sent, text_of. destruct (json_dump_callback r) as [chunks|] eqn:E.
    + rewrite message_bytes_ok by exact (dump_bound r chunks E). cbn [mbind outcome_bind].
      unfold unix_fd_write_cb. cbn [be_net set_net]. destruct (send _ _ _) as [n net3].
      cbn [mbind outcome_bind fst snd rs_world rs_conn with_world]. do 2 f_equal. apply Hsame.
    + cbn [mbind outcome_bind fst snd rs_world rs_conn with_world]. do 2 f_equal. apply Hsame.
  - apply result_understood; [lia|done].
  - unfold jrpc_unmarshall_struct_ptr, json_is_null. rewrite bool_decide_eq_false_2, Hu by (by rewrite Ht).
    by destruct (complete _ _).
Qed.

(** The thread of a client ends, and frees the connection, when the client closes its
    side; but while reading fails it never ends: it reads again for ever, since it only
    stops on the end of file. *)
Theorem client_thread_end (b : backend N) (conn : Z) (cl : client)
    (Hcl : be_conns b !! conn = Some cl) (Hr : cn_read_cb (cl_conn cl) = true) :
  (forall fuel text net1, recv (cl_sock cl) DEFAULT_INPUT_BUFFER_SIZE (be_net b) = ((0, text), net1) ->
     client_thread recv send realpath info_new (S fuel) conn b = Ok (client_end conn (set_net b net1))) /\
  ((forall net, (recv (cl_sock cl) DEFAULT_INPUT_BUFFER_SIZE net).1.1 < 0) ->
     forall fuel, client_thread recv send realpath info_new fuel conn b = Fault Diverges).
Proof.
  assert (forall net, set_conns (set_net b net) (<[conn := Client (cl_sock cl) (cl_conn cl)]> (be_conns b)) = set_net b net) as Hsame.
  { intros net. rewrite insert_id by (by destruct cl). done. }
  split.
  - intros fuel text net1 Hrecv. cbn [client_thread]. unfold process_conn at 1. rewrite Hcl.
    unfold jrpc_process, connection_receive. cbn [rs_conn rs_world]. rewrite Hr. cbn [c_assert mbind outcome_bind].
    unfold unix_fd_read_cb at 1. rewrite Hrecv. change (0 <? 0) with false. change (0 =? 0) with true.
    cbn [mbind outcome_bind fst snd rs_world rs_conn with_world]. change (JRPC_EOF =? JRPC_EOF) with true. cbn iota. do 2 f_equal. apply Hsame.
  - intros Hfail fuel. clear Hsame. revert b Hcl. induction fuel as [|fuel IH]; intros b Hcl; [done|]. cbn [client_thread].
    unfold process_conn at 1. rewrite Hcl. unfold jrpc_process, connection_receive. cbn [rs_conn rs_world]. rewrite Hr.
    cbn [c_assert mbind outcome_bind]. unfold unix_fd_read_cb at 1. specialize (Hfail (be_net b)) as Hneg.
    destruct (recv (cl_sock cl) DEFAULT_INPUT_BUFFER_SIZE (be_net b)) as [[n text] net1]. cbn [fst] in Hneg.
    replace (n <? 0) with true by lia.
    cbn [mbind outcome_bind fst snd rs_world rs_conn with_world].
    change (JRPC_ERR_INTERNAL_ERROR =? JRPC_EOF) with false. cbn iota. apply IH.
    cbn [be_conns set_conns]. rewrite lookup_insert_eq. by destruct cl.
Qed.

End backend.

(** ** A daemon with one client *)

Definition sample_conn : jrpc_connection :=
  jrpc_connection_set_write_cb (jrpc_connection_set_read_cb (jrpc_connection_new (Some rpcbe_mapper))).

Definition sample_daemon (request : list ascii) : backend pipe :=
  Backend (journal_init JOURNAL_EVENT_CB a6o_event_source_new) {[1 := Client 5 sample_conn]} ∅ ∅ [] [] 2 (Pipe request []).

Definition pipe_recv (sock size : Z) (p : pipe) : (Z * list ascii) * pipe := pipe_read size p.
Definition pipe_send (sock : Z) (text : list ascii) (p : pipe) : Z * pipe := pipe_write text p.
(** Every path is real but [/nowhere]. *)
Definition sample_realpath (path : option string) (p : pipe) : option string :=
  if decide (path = Some "/nowhere"%string) then None else path.

Definition sample_info : a6o_info :=
  Info "0.12" A6O_UPDATE_LATE 1480000000
    [ModuleInfo (Some "clamav"%string) A6O_UPDATE_LATE 1480000000
       (Some [BaseInfo (Some "daily"%string) 1480000000 (Some "57"%string) 4566249 (Some "/var/lib/daily.cld"%string)])].

Definition sample_info_new (p : pipe) : a6o_info * pipe := (sample_info, p).

Definition json_of {s} (v : sval s) : Tree.jtree :=
  match jrpc_marshall_struct s (Some v) with Ok (inr j) => j | _ => Tree.JNull end.

Definition sample_request (method : string) (params : Tree.jtree) (id : Z) : Tree.jtree :=
  default Tree.JNull (make_call_obj method (Some params) id).

Definition sample_scan_param (path : string) : a6o_rpc_scan_param := ScanParam (Some path) 1 1 1 42.
Definition sample_listen_param : a6o_rpc_listen_param := ListenParam 1 0 0 0 1 0.

Definition scan_request (path : string) : Tree.jtree :=
  sample_request "scan" (json_of (s := struct_a6o_rpc_scan_param) (scan_param_val (sample_scan_param path))) 0.
Definition listen_request : Tree.jtree :=
  sample_request "listen" (json_of (s := struct_a6o_rpc_listen_param) (listen_param_val sample_listen_param)) 0.

(** The events of the sample scan. *)
Definition sample_run : od_state unit :=
  match a6o_on_demand_run sample_os sample_scan_modules Z.of_nat sample_env (od_init sample_od sample_scan) with
  | Ok s => s
  | Fault _ => od_init sample_od sample_scan
  end.

Definition sample_detection : a6o_event :=
  Event 1480000000 (ev_detection (DetectionEvent CONTEXT_REAL_TIME 0 (Some "/tmp/x"%string) A6O_FILE_MALWARE
    A6O_ACTION_NONE (Some "clamav"%string) (Some "Eicar"%string))).

Lemma sample_asks o method id params :
  bool_decide (json_typeof o = JSON_OBJECT) && bool_decide (is_Some (json_dump_callback o)) &&
    (Z.of_nat (length (text_of o)) <=? DEFAULT_INPUT_BUFFER_SIZE) = true ->
  json_rpc_unpack o = inr (REQUEST method id params) ->
  asks pipe_recv (sample_daemon (text_of o)) 1 (Client 5 sample_conn) o method id params (Pipe [] []).
Proof.
  intros [[Ht%bool_decide_eq_true Hd%bool_decide_eq_true]%andb_prop Hl%Z.leb_le]%andb_prop Hun.
  split_and!; try done.
  - exists rpcbe_mapper. split; [done|]. exact rpcbe_mapper_serves.
  - cbn [cl_sock sample_daemon be_net]. unfold pipe_recv, pipe_read. cbn [inbox outbox].
    by rewrite take_ge, drop_ge by lia.
Qed.

Lemma sample_heap request : heap_ok (sample_daemon request).
Proof.
  split; intros a Ha; cbn in *; try done.
  - rewrite lookup_singleton_ne by lia. done.
  - by intros ?%elem_of_nil.
Qed.

(** Goodness of a concrete event. *)
Ltac event_good :=
  vm_compute; split_and!; first [done | by (repeat first [left | right])].

Lemma sample_detection_ok : event_ok (json := Tree.jtree) 0 sample_detection.
Proof. event_good. Qed.


(** The client scans [/home] and gets the events of the run but the start. *)
Lemma scan_reported_witness :
  exists b1 p b2, process_conn pipe_recv pipe_send sample_realpath sample_info_new 1 (sample_daemon (text_of (scan_request "/home"))) =
      Ok (JRPC_OK, b1) /\ be_threads b1 = [] ++ [Some p] /\
    scan_thread_fun pipe_send 0 (fun od => s_events <$>
        a6o_on_demand_run sample_os sample_scan_modules Z.of_nat sample_env (od_init od sample_scan)) (Some p) b1 = Ok b2 /\
    delivered (json := Tree.jtree) pipe_send 0 5 (filter (scan_wanted (sample_scan_param "/home")) (s_events sample_run)) (Pipe [] []) (be_net b2) /\
    be_journal b2 = [] ++ flat_map journal_event_cb (s_events sample_run) /\
    be_scans b2 = ∅ /\ be_threads b2 = [].
Proof.
  apply (scan_reported pipe_recv pipe_send sample_realpath sample_info_new 0 sample_os sample_scan_modules Z.of_nat
    sample_env sample_scan (sample_daemon (text_of (scan_request "/home"))) 1 (Client 5 sample_conn) (scan_request "/home")
    (json_of (s := struct_a6o_rpc_scan_param) (scan_param_val (sample_scan_param "/home"))) 0 (sample_scan_param "/home") (Pipe [] [])
    sample_od 3 sample_run).
  - apply sample_heap.
  - done.
  - apply sample_asks; vm_compute; reflexivity.
  - vm_compute. reflexivity.
  - reflexivity.
  - vm_compute. reflexivity.
  - eexists _, (removelast (tail (s_events sample_run))), _, _. split; [vm_compute; reflexivity|]. split.
    + vm_compute. repeat constructor; done.
    + exists [3]. vm_compute. reflexivity.
  - assert (s_events sample_run = ltac:(let l := eval vm_compute in (s_events sample_run) in exact l)) as -> by (vm_compute; reflexivity).
    repeat (apply List.Forall_cons; [event_good|]). apply List.Forall_nil.
Defined.

(** The scan of [/home] ends; then the on-access protection detects a file. *)
Lemma scan_callback_outlives_scan_witness :
  let b1 := start_scan sample_realpath 1 (sample_scan_param "/home") (set_net (sample_daemon (text_of (scan_request "/home"))) (Pipe [] [])) in
  process_conn pipe_recv pipe_send sample_realpath sample_info_new 1 (sample_daemon (text_of (scan_request "/home"))) = Ok (JRPC_OK, b1) /\
  exists f, fire_event (json := Tree.jtree) pipe_send 0 sample_detection (scan_end 2 b1) = Fault f.
Proof.
  intros b1.
  apply (scan_callback_outlives_scan pipe_recv pipe_send sample_realpath sample_info_new 0
    (sample_daemon (text_of (scan_request "/home"))) (scan_end 2 b1) (scan_end 2 b1) 1 (Client 5 sample_conn) (scan_request "/home")
    (json_of (s := struct_a6o_rpc_scan_param) (scan_param_val (sample_scan_param "/home"))) 0 (sample_scan_param "/home") (Pipe [] [])
    sample_detection).
  - apply sample_heap.
  - apply sample_asks; vm_compute; reflexivity.
  - vm_compute. reflexivity.
  - apply rtc_once, step_scan_end. by left.
  - intros _. vm_compute. reflexivity.
  - apply rtc_refl.
  - exact sample_detection_ok.
  - reflexivity.
Defined.

Lemma listener_outlives_connection_witness :
  let b1 := set_source (set_net (sample_daemon (text_of listen_request)) (Pipe [] []))
    (a6o_event_source_add_cb (journal_init JOURNAL_EVENT_CB a6o_event_source_new) (listen_mask sample_listen_param) LISTEN_EVENT_CB 1) in
  exists f, fire_event (json := Tree.jtree) pipe_send 0 sample_detection (client_end 1 b1) = Fault f.
Proof.
  intros b1. apply (listener_outlives_connection pipe_recv pipe_send sample_realpath sample_info_new 0
    (sample_daemon (text_of listen_request)) b1 (client_end 1 b1) 1 (Client 5 sample_conn) listen_request
    (json_of (s := struct_a6o_rpc_listen_param) (listen_param_val sample_listen_param)) 0 sample_listen_param (Pipe [] []) sample_detection).
  - apply sample_heap.
  - apply sample_asks; vm_compute; reflexivity.
  - vm_compute. reflexivity.
  - vm_compute. reflexivity.
  - apply rtc_refl.
  - exact sample_detection_ok.
  - reflexivity.
Defined.

Lemma null_parameters_crash_witness :
  process_conn pipe_recv pipe_send sample_realpath sample_info_new 1
    (sample_daemon (text_of (sample_request "scan" Tree.JNull 0))) = Fault NullDeref.
Proof.
  apply (null_parameters_crash pipe_recv pipe_send sample_realpath sample_info_new
    (sample_daemon (text_of (sample_request "scan" Tree.JNull 0))) 1 (Client 5 sample_conn) (sample_request "scan" Tree.JNull 0)
    "scan" 0 (Pipe [] [])).
  - apply sample_asks; vm_compute; reflexivity.
  - by left.
Defined.

Lemma status_answered_witness :
  exists (j r : Tree.jtree), process_conn pipe_recv pipe_send sample_realpath sample_info_new 1
      (sample_daemon (text_of (sample_request "status" Tree.JEmptyObj 7))) =
      Ok (JRPC_OK, set_net (sample_daemon (text_of (sample_request "status" Tree.JEmptyObj 7))) (sent pipe_send 5 r (Pipe [] []))) /\
    json_rpc_unpack r = inr (RESULT_RESPONSE 7 j) /\
    jrpc_unmarshall_struct_ptr (Some j) struct_a6o_info =
      Ok (received (complete struct_a6o_info (info_val sample_info)) (Some (info_val sample_info))).
Proof.
  apply (status_answered pipe_recv pipe_send sample_realpath sample_info_new
    (sample_daemon (text_of (sample_request "status" Tree.JEmptyObj 7))) 1 (Client 5 sample_conn)
    (sample_request "status" Tree.JEmptyObj 7) 7 (Some Tree.JEmptyObj) (Pipe [] []) (Pipe [] []) sample_info).
  - apply sample_asks; vm_compute; reflexivity.
  - lia.
  - reflexivity.
  - cbn. split_and!; [done|by right; left|by vm_compute| |done].
    apply List.Forall_cons; [|apply List.Forall_nil]. cbn. split_and!; [done|by right; left|by vm_compute| |done].
    apply List.Forall_cons; [|apply List.Forall_nil]. event_good.
Defined.

(** The socket is closed by the client, or fails on every read. *)
Lemma client_thread_end_witness :
  client_thread pipe_recv pipe_send sample_realpath sample_info_new 1 1 (sample_daemon []) =
    Ok (client_end 1 (set_net (sample_daemon []) (Pipe [] []))) /\
  client_thread (fun _ _ p => ((-1, []), p)) pipe_send sample_realpath sample_info_new 1000 1 (sample_daemon []) = Fault Diverges.
Proof.
  split.
  - by apply (proj1 (client_thread_end pipe_recv pipe_send sample_realpath sample_info_new (sample_daemon []) 1
      (Client 5 sample_conn) eq_refl eq_refl) 0%nat [] (Pipe [] [])).
  - by apply (proj2 (client_thread_end (fun _ _ p => ((-1, []), p)) pipe_send sample_realpath sample_info_new (sample_daemon []) 1
      (Client 5 sample_conn) eq_refl eq_refl)).
Defined.
