(* ===== verification/Socket.v ===== *)
(** * The Unix socket of the daemon
    ([src/arch/linux/daemon/unixsockserver.c], [src/arch/linux/net/unixsockclient.c])

    How the server and its clients turn a path into a socket address, what each asks of
    the system, in order, and when they give up.  What the system answers is a
    parameter; a negative answer is a failure. *)
From S2P Require Import Prelude.

#[local] Open Scope Z_scope.

Definition UNIX_PATH_MAX : Z := 108.

(** [offsetof(struct sockaddr_un, sun_path)] *)
Definition SUN_PATH_OFFSET : Z := 2.

(** [struct sockaddr_un]; the family is always AF_UNIX. *)
Record sockaddr_un := Sockaddr { sun_path : list ascii; addrlen : Z }.

Inductive sock_call :=
  | SysSocket
  | SysUnlink (path : string)
  | SysBind (addr : sockaddr_un)
  | SysListen (backlog : Z)
  | SysChmod (path : string) (mode : Z)
  | SysConnect (addr : sockaddr_un)
  | SysClose.

(** [strncpy] into the zeroed [sun_path]. *)
Definition copy_path (socket_path : string) : list ascii :=
  let l := bytes socket_path in l ++ replicate (Z.to_nat UNIX_PATH_MAX - length l) "000"%char.

(** [socket_path[0] == '@'] *)
Definition is_abstract (socket_path : string) : bool :=
  match bytes socket_path with c :: _ => bool_decide (c = "@"%char) | [] => false end.

(** [sun_path[0] = '\0'] *)
Definition clear_first (l : list ascii) : list ascii :=
  match l with [] => [] | _ :: l => "000"%char :: l end.

(** The answers of the calls of a server. *)
Record server_env := ServerEnv { sv_socket : Z; sv_bind : Z; sv_listen : Z; sv_chmod : Z }.

(** The descriptor, or -1, and the calls made. *)
Definition unix_server_listen (env : server_env) (socket_path : string) : outcome (Z * list sock_call) :=
  let path_len := Z.of_nat (String.length socket_path) in
  _ ← c_assert (path_len <? UNIX_PATH_MAX);
  let fd := sv_socket env in
  let calls := [SysSocket] in
  if fd <? 0 then Ok (-1, calls)
  else
    let path := copy_path socket_path in
    let path := if is_abstract socket_path then clear_first path else path in
    let calls := if is_abstract socket_path then calls else calls ++ [SysUnlink socket_path] in
    let addr := {| sun_path := path; addrlen := SUN_PATH_OFFSET + path_len |} in
    let calls := calls ++ [SysBind addr] in
    if sv_bind env <? 0 then Ok (-1, calls ++ [SysClose])
    else
      let calls := calls ++ [SysListen 5] in
      if sv_listen env <? 0 then Ok (-1, calls ++ [SysClose])
      else
        let calls := if is_abstract socket_path then calls else calls ++ [SysChmod socket_path 0x1ff] in
        Ok (fd, calls).

Lemma server_listens env socket_path :
  0 <= sv_socket env -> 0 <= sv_bind env -> 0 <= sv_listen env -> Z.of_nat (String.length socket_path) < UNIX_PATH_MAX ->
  exists calls, unix_server_listen env socket_path = Ok (sv_socket env, calls).
Proof.
  intros Hs Hb Hl Hp. unfold unix_server_listen.
  rewrite (proj2 (Z.ltb_lt (Z.of_nat (String.length socket_path)) UNIX_PATH_MAX)) by done. cbn [c_assert mbind outcome_bind].
  rewrite (proj2 (Z.ltb_ge (sv_socket env) 0)), (proj2 (Z.ltb_ge (sv_bind env) 0)), (proj2 (Z.ltb_ge (sv_listen env) 0)) by done.
  by eexists.
Qed.

(** [connect n] is the answer of the [n]-th call. *)
Section client.
Variables (socket : Z) (connect : nat -> Z).

(** The [do] loop: [retry_count] calls were made. *)
Fixpoint connect_loop (fuel : nat) (addr : sockaddr_un) (max_retry : Z) (retry_count : nat) (calls : list sock_call)
    : outcome (Z * list sock_call) :=
  match fuel with
  | O => Fault Diverges
  | S fuel =>
      let r := connect retry_count in
      let retry_count := S retry_count in
      let calls := calls ++ [SysConnect addr] in
      if (r <? 0) && (Z.of_nat retry_count <=? max_retry) then connect_loop fuel addr max_retry retry_count calls
      else Ok (r, calls)
  end.

Definition unix_client_connect (socket_path : string) (max_retry : Z) : outcome (Z * list sock_call) :=
  let path_len := Z.of_nat (String.length socket_path) in
  _ ← c_assert (path_len <? UNIX_PATH_MAX);
  let fd := socket in
  if fd <? 0 then Ok (-1, [SysSocket])
  else
    let max_retry := if max_retry <=? 0 then 1 else max_retry in
    let path := copy_path socket_path in
    let path := if is_abstract socket_path then clear_first path else path in
    let addr := {| sun_path := path; addrlen := SUN_PATH_OFFSET + path_len |} in
    r ← connect_loop (Z.to_nat (max_retry + 1)) addr max_retry 0 [SysSocket];
    if r.1 <? 0 then Ok (r.1, r.2 ++ [SysClose]) else Ok (fd, r.2).

(** ** The address and the attempts *)

Definition address (socket_path : string) : sockaddr_un :=
  {| sun_path := if is_abstract socket_path then clear_first (copy_path socket_path) else copy_path socket_path;
     addrlen := SUN_PATH_OFFSET + Z.of_nat (String.length socket_path) |}.

(** The name the system sees: the bytes of [sun_path] within the length. *)
Definition name_of (addr : sockaddr_un) : list ascii := take (Z.to_nat (addrlen addr - SUN_PATH_OFFSET)) (sun_path addr).

Lemma length_copy_path p : Z.of_nat (String.length p) < UNIX_PATH_MAX -> length (copy_path p) = Z.to_nat UNIX_PATH_MAX.
Proof. intros Hp. unfold copy_path, UNIX_PATH_MAX in *. rewrite length_app, length_replicate, length_bytes. lia. Qed.

Lemma name_of_address p :
  Z.of_nat (String.length p) < UNIX_PATH_MAX ->
  name_of (address p) = if is_abstract p then clear_first (bytes p) else bytes p.
Proof.
  intros Hp. unfold name_of, address. cbn [addrlen sun_path].
  replace (Z.to_nat (SUN_PATH_OFFSET + Z.of_nat (String.length p) - SUN_PATH_OFFSET)) with (length (bytes p))
    by (rewrite length_bytes; lia).
  unfold copy_path. destruct (is_abstract p); [|apply take_app_length].
  destruct (bytes p) as [|c l]; [by rewrite take_0|]. cbn. f_equal. apply take_app_length.
Qed.

(** Two paths name the same socket only when they are the same path. *)
Lemma address_inj p q :
  ("000"%char ∉ bytes p) -> ("000"%char ∉ bytes q) ->
  Z.of_nat (String.length p) < UNIX_PATH_MAX -> Z.of_nat (String.length q) < UNIX_PATH_MAX ->
  name_of (address p) = name_of (address q) -> p = q.
Proof.
  intros Hp Hq Lp Lq. rewrite !name_of_address by done. intros E.
  assert (bytes p = bytes q) as Eb; [|by rewrite <- (of_bytes_bytes p), Eb, of_bytes_bytes].
  unfold is_abstract in E. destruct (bytes p) as [|c l], (bytes q) as [|c' l']; cbn in E; try done;
    [by case_bool_decide|by case_bool_decide|].
  apply not_elem_of_cons in Hp as [Hc _]. apply not_elem_of_cons in Hq as [Hc' _].
  do 2 case_bool_decide; cbn in E; injection E; intros; congruence.
Qed.

(** The first attempt that succeeds. *)
Lemma connect_loop_spec fuel addr max n calls :
  (Z.of_nat n <= max) -> (Z.to_nat (max + 1) - n <= fuel)%nat ->
  exists k, (n < k <= Z.to_nat (max + 1))%nat /\
    (forall i, (n <= i < k - 1)%nat -> connect i < 0) /\
    (connect (k - 1)%nat < 0 -> k = Z.to_nat (max + 1)) /\
    connect_loop fuel addr max n calls = Ok (connect (k - 1)%nat, calls ++ replicate (k - n) (SysConnect addr)).
Proof.
  revert n calls. induction fuel as [|fuel IH]; intros n calls Hn Hf; [lia|]. cbn [connect_loop].
  destruct (Z.ltb_spec (connect n) 0) as [Hneg|Hpos]; cbn [andb].
  - destruct (Z.leb_spec (Z.of_nat (S n)) max) as [Hle|Hgt].
    + destruct (IH (S n) (calls ++ [SysConnect addr]) Hle ltac:(lia)) as (k & Hk & Hbefore & Hlast & ->).
      exists k. split_and!; [lia|lia| |done|].
      * intros i Hi. destruct (decide (i = n)) as [->|]; [done|]. apply Hbefore. lia.
      * rewrite <- app_assoc. replace (k - n)%nat with (S (k - S n)) by lia. done.
    + exists (S n). replace (S n - 1)%nat with n by lia. replace (S n - n)%nat with 1%nat by lia.
      split_and!; [lia|lia| |lia|done]. intros i Hi. lia.
  - exists (S n). replace (S n - 1)%nat with n by lia. replace (S n - n)%nat with 1%nat by lia.
    split_and!; [lia|lia| |lia|done]. intros i Hi. lia.
Qed.

(** Clients reach the server.  For every path shorter than 108 bytes, server and
    client use the same address, within its 108 bytes, from which the path can be
    recovered, so that different paths never meet; a path of 108 bytes or more stops
    both.  The client tries until it succeeds, at most [max_retry] + 1 times (twice
    when [max_retry] is not positive), then closes its socket and reports the failure. *)
Theorem client_reaches_server (env : server_env) (socket_path : string) (max_retry : Z)
    (Hsocket : 0 <= socket) (Hserver : 0 <= sv_socket env) :
  let addr := address socket_path in
  let attempts := Z.to_nat (Z.max 1 max_retry + 1) in
  if Z.of_nat (String.length socket_path) <? UNIX_PATH_MAX then
    (exists r calls, unix_server_listen env socket_path = Ok (r, calls) /\ SysBind addr ∈ calls /\
       (0 <= r <-> 0 <= sv_bind env /\ 0 <= sv_listen env)) /\
    length (sun_path addr) = Z.to_nat UNIX_PATH_MAX /\ addrlen addr < SUN_PATH_OFFSET + UNIX_PATH_MAX /\
    (forall other, ("000"%char ∉ bytes socket_path) -> ("000"%char ∉ bytes other) ->
       Z.of_nat (String.length other) < UNIX_PATH_MAX -> name_of addr = name_of (address other) -> socket_path = other) /\
    exists k, (0 < k <= attempts)%nat /\ (forall i, (i < k - 1)%nat -> connect i < 0) /\
      (connect (k - 1)%nat < 0 -> k = attempts) /\
      unix_client_connect socket_path max_retry =
        (if connect (k - 1)%nat <? 0
         then Ok (connect (k - 1)%nat, SysSocket :: replicate k (SysConnect addr) ++ [SysClose])
         else Ok (socket, SysSocket :: replicate k (SysConnect addr)))
  else unix_server_listen env socket_path = Fault AssertFail /\ unix_client_connect socket_path max_retry = Fault AssertFail.
Proof.
  intros addr attempts. destruct (Z.ltb_spec (Z.of_nat (String.length socket_path)) UNIX_PATH_MAX) as [Hlt|Hge].
  2: { unfold unix_server_listen, unix_client_connect. by rewrite (proj2 (Z.ltb_ge (Z.of_nat (String.length socket_path)) UNIX_PATH_MAX)). }
  split_and!.
  - unfold unix_server_listen. rewrite (proj2 (Z.ltb_lt (Z.of_nat (String.length socket_path)) UNIX_PATH_MAX)) by done.
    cbn [c_assert mbind outcome_bind].
    rewrite (proj2 (Z.ltb_ge (sv_socket env) 0)) by done. fold addr.
    destruct (Z.ltb_spec (sv_bind env) 0); [|destruct (Z.ltb_spec (sv_listen env) 0)]; eexists _, _;
      (split; [reflexivity|]); (split; [|lia]); unfold addr, address; destruct (is_abstract socket_path);
      rewrite ?elem_of_app, ?list_elem_of_singleton; auto 10.
  - unfold addr, address. cbn [sun_path]. pose proof (length_copy_path _ Hlt) as Hlen.
    destruct (is_abstract socket_path); [|done]. rewrite <- Hlen. by destruct (copy_path socket_path).
  - unfold addr, address. cbn [addrlen]. lia.
  - intros other Hp Hq Hl E. by apply address_inj.
  - unfold unix_client_connect. rewrite (proj2 (Z.ltb_lt (Z.of_nat (String.length socket_path)) UNIX_PATH_MAX)) by done.
    cbn [c_assert mbind outcome_bind].
    rewrite (proj2 (Z.ltb_ge socket 0)) by done.
    assert ((if max_retry <=? 0 then 1 else max_retry) = Z.max 1 max_retry) as -> by (destruct (Z.leb_spec max_retry 0); lia).
    destruct (connect_loop_spec (Z.to_nat (Z.max 1 max_retry + 1)) addr (Z.max 1 max_retry) 0 [SysSocket] ltac:(lia) ltac:(lia))
      as (k & Hk & Hbefore & Hlast & E).
    exists k. split_and!; [lia|lia| |done|].
    + intros i Hi. apply Hbefore. lia.
    + change (if is_abstract socket_path then _ else _) with (sun_path addr). unfold addr, address in E |- *. cbn [sun_path] in *.
      rewrite E. cbn [mbind outcome_bind fst snd]. rewrite Nat.sub_0_r.
      by destruct (connect (k - 1)%nat <? 0).
Qed.

End client.

(** The second attempt succeeds. *)
Lemma client_reaches_server_witness :
  unix_client_connect 3 (fun n => if decide (n = 1%nat) then 0 else -1) "@/armadito-daemon" 10 =
    Ok (3, [SysSocket; SysConnect (address "@/armadito-daemon"); SysConnect (address "@/armadito-daemon")]) /\
  SysBind (address "@/armadito-daemon") ∈ default [] (match unix_server_listen (ServerEnv 4 0 0 0) "@/armadito-daemon" with
    | Ok r => Some r.2 | Fault _ => None end).
Proof.
  destruct (client_reaches_server 3 (fun n => if decide (n = 1%nat) then 0 else -1) (ServerEnv 4 0 0 0) "@/armadito-daemon" 10
    ltac:(done) ltac:(done)) as ((r & calls & -> & Hin & _) & _ & _ & _ & k & Hk & Hbefore & Hlast & E). split; [|exact Hin].
  rewrite E. destruct k as [|[|[|k]]]; [lia|exfalso|done|exfalso].
  - specialize (Hlast ltac:(done)). vm_compute in Hlast. discriminate Hlast.
  - specialize (Hbefore 1%nat ltac:(lia)). rewrite decide_True in Hbefore by done. lia.
Defined.
