(* ===== verification/Options.v ===== *)
(** * The options of the three programs
    ([src/tools/armadito-scan.c], [armadito-info.c], [src/arch/linux/daemon/main.c])

    What [getopt_long] returned, option by option, is a list of letters with their
    arguments, and what it left the list of the other arguments. *)
From S2P Require Import Prelude Status Conf Log.

#[local] Open Scope string_scope.
#[local] Open Scope Z_scope.

Record scan_options := ScanOptions {
  unix_socket_path : string;
  format_json : bool;
  recursive : Z;
  threaded : Z;
  no_summary : bool;
  print_clean : Z;
  path_to_scan : option string;
}.

Record info_options := InfoOptions { io_unix_socket_path : string; io_format_json : bool }.

(** The options read so far, or the status [usage] or [version] exits with. *)
Definition parsed (A : Type) : Type := A + Z.

(** The options of [optstring], one by one, with their arguments; [-v] is accepted by
    [getopt_long] but has no case. *)
Section options.
Context {A : Type} (option_step : ascii -> string -> A -> outcome (parsed A)).

Fixpoint parse_loop (l : list (ascii * string)) (opts : A) : outcome (parsed A) :=
  match l with
  | [] => Ok (inl opts)
  | (c, optarg) :: l =>
      r ← option_step c optarg opts;
      match r with inl opts => parse_loop l opts | inr status => Ok (inr status) end
  end.

End options.

Definition DEFAULT_SOCKET_PATH : string := "@/tmp/.armadito-daemon".

Definition scan_option_step (c : ascii) (optarg : string) (o : scan_options) : outcome (parsed scan_options) :=
  match c with
  | "?"%char => Ok (inl o)
  | "h"%char => Ok (inr 255)
  | "V"%char => Ok (inr 0)
  | "a"%char => Ok (inl (ScanOptions optarg (format_json o) (recursive o) (threaded o) (no_summary o) (print_clean o) (path_to_scan o)))
  | "j"%char => Ok (inl (ScanOptions (unix_socket_path o) true (recursive o) (threaded o) (no_summary o) (print_clean o) (path_to_scan o)))
  | "r"%char => Ok (inl (ScanOptions (unix_socket_path o) (format_json o) 1 (threaded o) (no_summary o) (print_clean o) (path_to_scan o)))
  | "t"%char => Ok (inl (ScanOptions (unix_socket_path o) (format_json o) (recursive o) 1 (no_summary o) (print_clean o) (path_to_scan o)))
  | "n"%char => Ok (inl (ScanOptions (unix_socket_path o) (format_json o) (recursive o) (threaded o) true (print_clean o) (path_to_scan o)))
  | _ => Fault Aborted
  end.

(** [args]: what is left from [optind] on. *)
Definition scan_parse_options (l : list (ascii * string)) (args : list string) : outcome (parsed scan_options) :=
  r ← parse_loop scan_option_step l (ScanOptions DEFAULT_SOCKET_PATH false 0 0 false 0 None);
  match r, args with
  | inr status, _ => Ok (inr status)
  | inl o, [path] =>
      Ok (inl (ScanOptions (unix_socket_path o) (format_json o) (recursive o) (threaded o) (no_summary o) (print_clean o) (Some path)))
  | inl _, _ => Ok (inr 255)
  end.

Definition info_option_step (c : ascii) (optarg : string) (o : info_options) : outcome (parsed info_options) :=
  match c with
  | "?"%char => Ok (inl o)
  | "h"%char => Ok (inr 1)
  | "V"%char => Ok (inr 0)
  | "a"%char => Ok (inl (InfoOptions optarg (io_format_json o)))
  | "j"%char => Ok (inl (InfoOptions (io_unix_socket_path o) true))
  | _ => Fault Aborted
  end.

Definition info_parse_options (l : list (ascii * string)) (args : list string) : outcome (parsed info_options) :=
  r ← parse_loop info_option_step l (InfoOptions DEFAULT_SOCKET_PATH false);
  match r, args with
  | inr status, _ => Ok (inr status)
  | inl o, [] => Ok (inl o)
  | inl _, _ => Ok (inr 1)
  end.

(** [localstatedir] is the directory given when the program is configured. *)
Section daemon_options.
Variable localstatedir : string.

Record a6o_daemon_options := DaemonOptions {
  no_daemon : bool;
  unix_path : string;
  s_log_level : string;
  pid_file : option string;
}.

Definition daemon_option_step (c : ascii) (optarg : string) (o : a6o_daemon_options) : outcome (parsed a6o_daemon_options) :=
  match c with
  | "h"%char => Ok (inr 1)
  | "V"%char => Ok (inr 0)
  | "n"%char => Ok (inl (DaemonOptions true (unix_path o) (s_log_level o) (pid_file o)))
  | "l"%char =>
      if check_log_level optarg then Ok (inr 1) else Ok (inl (DaemonOptions (no_daemon o) (unix_path o) optarg (pid_file o)))
  | "a"%char => Ok (inl (DaemonOptions (no_daemon o) optarg (s_log_level o) (pid_file o)))
  | "i"%char => Ok (inl (DaemonOptions (no_daemon o) (unix_path o) (s_log_level o) (Some optarg)))
  | "?"%char => Ok (inl o)
  | _ => Fault Aborted
  end.

Definition DEFAULT_LOG_LEVEL : string := "error".
Definition DEFAULT_PID_FILE : string := localstatedir +:+ "/run/armadito-scand.pid".

Definition daemon_parse_options (l : list (ascii * string)) (args : list string) : outcome (parsed a6o_daemon_options) :=
  r ← parse_loop daemon_option_step l (DaemonOptions false DEFAULT_SOCKET_PATH DEFAULT_LOG_LEVEL (Some DEFAULT_PID_FILE));
  match r, args with
  | inr status, _ => Ok (inr status)
  | inl o, [] => Ok (inl o)
  | inl _, _ => Ok (inr 1)
  end.

(** The options that are read have a level that [log_init] knows. *)
Lemma daemon_options_level l args o :
  daemon_parse_options l args = Ok (inl o) -> check_log_level (s_log_level o) = false.
Proof.
  unfold daemon_parse_options. intros (r & E & Er)%bind_Ok_inv. destruct r as [o'|]; [|done].
  destruct args; [|done]. injection Er as <-. revert E.
  assert (check_log_level (s_log_level (DaemonOptions false DEFAULT_SOCKET_PATH DEFAULT_LOG_LEVEL (Some DEFAULT_PID_FILE))) = false)
    as Ho by done.
  revert Ho. generalize (DaemonOptions false DEFAULT_SOCKET_PATH DEFAULT_LOG_LEVEL (Some DEFAULT_PID_FILE)) as o.
  induction l as [|[c optarg] l IH]; intros o Ho; cbn [parse_loop]; [by intros [= <-]|].
  intros ([o2|] & E2 & E)%bind_Ok_inv; [|done]. apply (IH o2); [|done]. clear IH E. revert E2.
  unfold daemon_option_step. repeat case_match; intros E2; simplify_eq/=; done.
Qed.

End daemon_options.
