(* ===== verification/Tools.v ===== *)
(** * The command-line tools ([src/tools/armadito-scan.c], [armadito-info.c])

    The clients of the daemon: what they ask, the loop that processes messages until
    the work is done, and what they print.  A structure received from the daemon is a
    value of its description (RpcDefs.v).  [N] is the world of the socket.  What
    [getopt_long] returns, option by option, is given. *)
From S2P Require Import Prelude Status Module Info Event Json Jrpc Marshall RpcDefs Log Socket Options.

#[local] Open Scope string_scope.
#[local] Open Scope Z_scope.

(** What is written on the standard output: a line, or a JSON value and a newline. *)
Inductive printed (json : Type) := Line (s : string) | Dump (j : json).
Arguments Line {json} s.
Arguments Dump {json} j.

Record scan_data := ScanData { sd_done : bool; sd_format_json : bool; sd_no_summary : bool }.

(** The process of a tool: the socket, the data of its connection, its output. *)
Record tool (json N : Type) := Tool { tl_net : N; tl_data : scan_data; tl_out : list (printed json) }.
Arguments Tool {json N}.
Arguments tl_net {json N} t.
Arguments tl_data {json N} t.
Arguments tl_out {json N} t.

(** How the work of a tool ends: by [exit], or by returning to [main]. *)
Inductive tool_exit := EXIT_FAILURE | RETURN (ret : Z).

(** [a6o_file_status_pretty_str] of a value of the enum. *)
Definition status_pretty (z : Z) : string :=
  match list_find (fun s => a6o_file_status_val s = z)
    [A6O_FILE_UNDECIDED; A6O_FILE_CLEAN; A6O_FILE_UNKNOWN_TYPE; A6O_FILE_EINVAL; A6O_FILE_IERROR;
     A6O_FILE_SUSPICIOUS; A6O_FILE_WHITE_LISTED; A6O_FILE_MALWARE] with
  | Some (_, s) => a6o_file_status_pretty_str s
  | None => "unknown status"
  end.

(** [a6o_update_status_str] of a value of the enum. *)
Definition update_status_name (z : Z) : string :=
  match list_find (fun s => a6o_update_status_val s = z)
    [A6O_UPDATE_OK; A6O_UPDATE_LATE; A6O_UPDATE_CRITICAL; A6O_UPDATE_NON_AVAILABLE] with
  | Some (_, s) => a6o_update_status_str s
  | None => "A6O_UPDATE_UNKNOWN"
  end.

Section tools.
Context {json : Type} `{Jansson json} {N : Type}.
Variable recv : Z -> Z -> N -> (Z * list ascii) * N.
Variable send : Z -> list ascii -> N -> Z * N.
(** ["%.5f"] of a number of milliseconds divided by 1000.0, and a date in UTC. *)
Variable seconds : Z -> string.
Variable time_2_date : Z -> string.
#[local] Abbreviation state := (rpc_state (tool json N)).

Definition print (lines : list (printed json)) (t : tool json N) : tool json N :=
  Tool (tl_net t) (tl_data t) (tl_out t ++ lines).

Definition set_done (t : tool json N) : tool json N :=
  Tool (tl_net t) (ScanData true (sd_format_json (tl_data t)) (sd_no_summary (tl_data t))) (tl_out t).

Definition tool_write_cb (fd : Z) (buffer : list ascii) (t : tool json N) : Z * tool json N :=
  let (n, net) := send fd buffer (tl_net t) in (n, Tool net (tl_data t) (tl_out t)).

Definition tool_read_cb (fd : Z) (size : Z) (t : tool json N) : (Z * list ascii) * tool json N :=
  let (r, net) := recv fd size (tl_net t) in (r, Tool net (tl_data t) (tl_out t)).

(** ** armadito-scan *)

Definition detection_event_print (ev : sval struct_a6o_detection_event) : list (printed json) :=
  let '(context, (scan_id, (path, (scan_status, (scan_action, (module_name, (module_report, _))))))) := ev in
  [Line (print_str path +:+ ": " +:+ status_pretty scan_status +:+ " [" +:+ print_str module_name +:+ " - " +:+
         print_str module_report +:+ "] (action " +:+ a6o_action_pretty_str scan_action +:+ ")")].

Definition on_demand_completed_event_print (ev : sval struct_a6o_on_demand_completed_event) : list (printed json) :=
  let '(scan_id, (cancelled, (total_malware_count, (total_suspicious_count, (total_scanned_count, (duration, _)))))) := ev in
  [Line ""; Line "SCAN SUMMARY:";
   Line ("scanned files     : " +:+ print_long (i64 total_scanned_count));
   Line ("malware files     : " +:+ print_long (i64 total_malware_count));
   Line ("suspicious files  : " +:+ print_long (i64 total_suspicious_count));
   Line ("duration          : " +:+ seconds duration +:+ "s"); Line ""].

(** The members of the union, read through the pointer. *)
Definition ev_detection_of (u : uval union_a6o_event_union) : outcome (sval struct_a6o_detection_event) :=
  match u with inl e => Ok e | _ => Fault UninitRead end.

Definition ev_completed_of (u : uval union_a6o_event_union) : outcome (sval struct_a6o_on_demand_completed_event) :=
  match u with inr (inr (inl e)) => Ok e | _ => Fault UninitRead end.

Definition notify_event_method (params : option json) (s : state) : outcome (Z * option json * state) :=
  r ← jrpc_unmarshall_struct_ptr params struct_a6o_event;
  match r with
  | inl ret => Ok (ret, None, s)
  | inr None => Fault NullDeref
  | inr (Some (timestamp, (type, (u, _)))) =>
      let t := rs_world s in
      if type =? EVENT_ON_DEMAND_PROGRESS then Ok (JRPC_OK, None, s)
      else if type =? EVENT_DETECTION then
        lines ← (if sd_format_json (tl_data t) then match params with Some p => Ok [Dump p; Line ""] | None => Fault NullDeref end
                 else e ← ev_detection_of u; Ok (detection_event_print e));
        Ok (JRPC_OK, None, with_world s (print lines t))
      else if type =? EVENT_ON_DEMAND_COMPLETED then
        lines ← (if sd_no_summary (tl_data t) then Ok []
                 else if sd_format_json (tl_data t) then match params with Some p => Ok [Dump p; Line ""] | None => Fault NullDeref end
                 else e ← ev_completed_of u; Ok (on_demand_completed_event_print e));
        Ok (JRPC_OK, None, with_world s (print lines (set_done t)))
      else Ok (JRPC_OK, None, s)
  end.

Definition NOTIFY_EVENT_METHOD : nat := 0.

Definition create_rpcfe_mapper (p : string -> Z) : outcome jrpc_mapper :=
  r ← jrpc_mapper_add jrpc_mapper_new (p "notify_event") "notify_event" NOTIFY_EVENT_METHOD; Ok r.2.

Definition rpcfe_methods (fn : nat) (params : option json) (s : state) : outcome (Z * option json * state) :=
  notify_event_method params s.

(** armadito-scan makes a call without a callback, and neither tool sets a handler. *)
Definition no_tool_callback (cb : nat) (result : json) (user_data : Z) (s : state) : outcome state := Fault UninitRead.
Definition no_tool_handler (h : nat) (id code : Z) (message : string) (data : option json) (s : state) : outcome state :=
  Fault UninitRead.

Definition tool_process (fd : Z) (callbacks : nat -> json -> Z -> state -> outcome state) (s : state) : outcome (Z * state) :=
  jrpc_process (tool_read_cb fd) (tool_write_cb fd) rpcfe_methods callbacks no_tool_handler s.

(** [while ((ret = jrpc_process(conn)) != JRPC_EOF && !done)], for at most [fuel]
    messages. *)
Fixpoint tool_loop (fuel : nat) (fd : Z) (callbacks : nat -> json -> Z -> state -> outcome state) (s : state) : outcome state :=
  match fuel with
  | O => Fault Diverges
  | S fuel =>
      r ← tool_process fd callbacks s;
      if negb (r.1 =? JRPC_EOF) && negb (sd_done (tl_data (rs_world r.2))) then tool_loop fuel fd callbacks r.2
      else Ok r.2
  end.

Definition scan_param (opts : scan_options) (scan_id : Z) : a6o_rpc_scan_param :=
  {| sp_root_path := path_to_scan opts; sp_send_progress := 1; sp_recursive := recursive opts;
     sp_threaded := threaded opts; sp_scan_id := scan_id |}.

(** A connection with the two I/O callbacks. *)
Definition tool_conn (mapper : option jrpc_mapper) : jrpc_connection :=
  jrpc_connection_set_write_cb (jrpc_connection_set_read_cb (jrpc_connection_new mapper)).

(** [fd] is what [unix_client_connect] returned, [scan_id] what [create_scan_id] drew. *)
Definition do_scan (fuel : nat) (p : string -> Z) (fd scan_id : Z) (opts : scan_options) (net : N)
    : outcome (tool_exit * tool json N) :=
  let t := Tool net (ScanData false (format_json opts) (no_summary opts)) [] in
  if fd <? 0 then Ok (EXIT_FAILURE, t)
  else
    mapper ← create_rpcfe_mapper p;
    let s := RpcState (tool_conn (Some mapper)) t in
    r ← jrpc_marshall_struct struct_a6o_rpc_scan_param (Some (scan_param_val (scan_param opts (u32 scan_id))));
    match r with
    | inl ret => Ok (RETURN ret, t)
    | inr j_param =>
        r ← jrpc_call (tool_write_cb fd) s "scan" (Some j_param) None;
        if negb (r.1 =? 0) then Ok (RETURN r.1, rs_world r.2)
        else s ← tool_loop fuel fd no_tool_callback r.2; Ok (RETURN 0, rs_world s)
    end.

(** ** armadito-info *)

Definition base_info_print (b : sval struct_a6o_base_info) : list (printed json) :=
  let '(name, (base_update_ts, (version, (signature_count, (full_path, _))))) := b in
  [Line ("-- Base " +:+ print_str name +:+ " "); Line ("--- Update date : " +:+ time_2_date base_update_ts)] ++
  match version with Some v => [Line ("--- Version : " +:+ v)] | None => [] end ++
  [Line ("--- Signature count : " +:+ print_long (i64 signature_count)); Line ("--- Full path : " +:+ print_str full_path)].

Definition module_info_print (m : sval struct_a6o_module_info) : list (printed json) :=
  let '(name, (mod_status, (mod_update_ts, (base_infos, _)))) := m in
  [Line ("Module " +:+ print_str name +:+ " "); Line ("- Update status : " +:+ update_status_name mod_status);
   Line ("- Update date : " +:+ time_2_date mod_update_ts)] ++
  match base_infos with None => [] | Some l => flat_map base_info_print l end.

(** The array of modules is dereferenced. *)
Definition info_print (i : sval struct_a6o_info) : outcome (list (printed json)) :=
  let '(antivirus_version, (global_status, (global_update_ts, (module_infos, _)))) := i in
  match module_infos with
  | None => Fault NullDeref
  | Some l =>
      Ok ([Line "--- Armadito info --- "; Line ("antivirus version: " +:+ print_str antivirus_version);
           Line ("global status : " +:+ update_status_name global_status);
           Line ("global update date : " +:+ time_2_date global_update_ts)] ++ flat_map module_info_print l)%list
  end.

(** An answer that cannot be unmarshalled leaves the loop waiting. *)
Definition info_cb (result : json) (user_data : Z) (s : state) : outcome state :=
  let t := rs_world s in
  if sd_format_json (tl_data t) then Ok (with_world s (set_done (print [Dump result] t)))
  else
    r ← jrpc_unmarshall_struct_ptr (Some result) struct_a6o_info;
    match r with
    | inl ret => Ok s
    | inr None => Fault NullDeref
    | inr (Some info) => lines ← info_print info; Ok (with_world s (set_done (print lines t)))
    end.

Definition INFO_CB : nat := 0.

Definition info_callbacks (cb : nat) (result : json) (user_data : Z) (s : state) : outcome state :=
  info_cb result user_data s.

Definition do_info (fuel : nat) (fd : Z) (json_format : bool) (net : N) : outcome (tool_exit * tool json N) :=
  let t := Tool net (ScanData false json_format false) [] in
  if fd <? 0 then Ok (EXIT_FAILURE, t)
  else
    let s := RpcState (tool_conn None) t in
    r ← jrpc_call (tool_write_cb fd) s "status" None (Some (INFO_CB, 0));
    if negb (r.1 =? 0) then Ok (RETURN r.1, rs_world r.2)
    else s ← tool_loop fuel fd info_callbacks r.2; Ok (RETURN 0, rs_world s).

(** ** The programs *)

(** The exit status; [client_sock] is what [unix_client_connect] gives for the path of
    the socket. *)
Definition scan_main (fuel : nat) (p : string -> Z) (client_sock : string -> Z) (scan_id : Z) (l : list (ascii * string))
    (args : list string) (net : N) : outcome (Z * list (printed json)) :=
  r ← scan_parse_options l args;
  match r with
  | inr status => Ok (status, [])
  | inl opts =>
      r ← do_scan fuel p (client_sock (unix_socket_path opts)) scan_id opts net;
      Ok (match r.1 with EXIT_FAILURE => 1 | RETURN _ => 0 end, tl_out r.2)
  end.

Definition info_main (fuel : nat) (client_sock : string -> Z) (l : list (ascii * string)) (args : list string) (net : N)
    : outcome (Z * list (printed json)) :=
  r ← info_parse_options l args;
  match r with
  | inr status => Ok (status, [])
  | inl opts =>
      r ← do_info fuel (client_sock (io_unix_socket_path opts)) (io_format_json opts) net;
      Ok (match r.1 with EXIT_FAILURE => 1 | RETURN _ => 0 end, tl_out r.2)
  end.

End tools.
