(* ===== verification/ToolsSpec.v ===== *)
(** * What a user of the command-line tools sees

    The two ends together: the daemon of RpcBe.v and the tools of Tools.v, joined by
    streams.  A text written by one side is what one read of the other side takes in. *)
From S2P Require Import Prelude Status Dir Module ScanConf ScanCtx ScanSpec Info Hash HashTheory Event OnDemand OnDemandTheory OnDemandSpec.
From S2P Require Import Json Jrpc JrpcTheory JrpcSpec Marshall MarshallSpec RpcDefs Log RpcBe RpcBeSpec Socket Options Tools.

#[local] Open Scope Z_scope.

(** ** The socket of a tool *)

(** The texts that will arrive, one per read, and those written. *)
Record wire := Wire { w_in : list (list ascii); w_out : list (list ascii) }.

Definition wire_recv (fd size : Z) (w : wire) : (Z * list ascii) * wire :=
  match w_in w with
  | [] => ((0, []), w)
  | text :: l =>
      let chunk := take (Z.to_nat size) text in
      let rest := drop (Z.to_nat size) text in
      ((Z.of_nat (length chunk), chunk), Wire (match rest with [] => l | _ => rest :: l end) (w_out w))
  end.

Definition wire_send (fd : Z) (text : list ascii) (w : wire) : Z * wire :=
  (Z.of_nat (length text), Wire (w_in w) (w_out w ++ [text])).

(** ** Messages *)

Section messages.
Context {json : Type} `{JanssonLaws json}.

Lemma any_response_not_request o method id params : unpack_any_response o <> inr (REQUEST method id params).
Proof.
  unfold unpack_any_response, unpack_response, unpack_error. repeat case_match; intros [=].
Qed.

(** What is understood is an object. *)
Lemma understood_object o msg : json_rpc_unpack o = inr msg -> json_typeof o = JSON_OBJECT.
Proof.
  unfold json_rpc_unpack. destruct (json_object_get o "method") as [m|] eqn:E; [intros _; by eapply get_object|].
  unfold unpack_any_response. destruct (json_object_get o "id") as [i|] eqn:Ei; [intros _; by eapply get_object|done].
Qed.

(** A message whose text is not empty was dumped. *)
Lemma text_fits o msg :
  json_rpc_unpack o = inr msg -> text_of o <> [] -> Z.of_nat (length (text_of o)) <= DEFAULT_INPUT_BUFFER_SIZE -> fits o.
Proof.
  intros Hu Ht Hlen. split; [by eapply understood_object|]. split; [|done].
  unfold text_of in Ht. by destruct (json_dump_callback o).
Qed.

Variable foo : Z.

(** The notification of an event its client can read. *)
Definition notifies (o : json) (ev : a6o_event) : Prop :=
  exists j, json_rpc_unpack o = inr (REQUEST "notify_event" 0 (Some j)) /\
    jrpc_unmarshall_struct_ptr (Some j) struct_a6o_event = Ok (inr (Some (event_val foo ev))).

(** The texts the daemon wrote for notifications. *)
Lemma delivered_texts sock evs (p p' : pipe) :
  delivered pipe_send foo sock evs p p' -> Forall (fun ev => complete struct_a6o_event (event_val foo ev) = true) evs ->
  exists os, Forall2 notifies os evs /\ inbox p' = inbox p /\
    outbox p' = outbox p ++ flat_map (fun o => match text_of o with [] => [] | t => [t] end) os.
Proof.
  intros Hd Hc. revert p Hd. induction Hc as [|ev evs Hc _ IH]; intros p; cbn [delivered].
  { intros ->. exists []. split_and!; [constructor|done|]. by rewrite app_nil_r. }
  intros (p1 & (j & o & Hun & Hm & ->) & Hd). rewrite Hc in Hm.
  destruct (IH _ Hd) as (os & Hos & Hin & Hout). exists (o :: os). split; [constructor; [by exists j|done]|].
  rewrite Hin, Hout. unfold sent, text_of. cbn [flat_map]. destruct (json_dump_callback o) as [chunks|]; [|done].
  cbn [pipe_send pipe_write snd inbox outbox]. split; [done|]. rewrite <- app_assoc. do 2 f_equal.
  by destruct (concat chunks).
Qed.

(** When there are as many texts as events, each is the text of its notification. *)
Lemma texts_all os :
  (length os <= length (flat_map (fun o => match text_of o with [] => [] | t => [t] end) os))%nat ->
  flat_map (fun o => match text_of o with [] => [] | t => [t] end) os = map text_of os /\
  Forall (fun o => text_of o <> []) os.
Proof.
  assert (forall l, (length (flat_map (fun o => match text_of o with [] => [] | t => [t] end) l) <= length l)%nat) as Hle.
  { induction l as [|o l IHl]; cbn [flat_map length]; [done|]. rewrite length_app. case_match; simpl; lia. }
  induction os as [|o os IH]; [by split|]. cbn [flat_map length map]. rewrite length_app. intros Hl. specialize (Hle os).
  destruct (text_of o) as [|c t] eqn:E; [simpl in Hl; lia|]. destruct IH as [-> Hos]; [simpl in Hl; lia|].
  split; [done|]. constructor; [by rewrite E|done].
Qed.

End messages.

(** ** What is shown *)

(** The line of a detection and the summary of a scan, from the event as it was fired. *)
Definition detection_line (e : a6o_detection_event) : string :=
  print_str (de_path e) +:+ ": " +:+ a6o_file_status_pretty_str (de_scan_status e) +:+ " [" +:+
  print_str (de_module_name e) +:+ " - " +:+ print_str (de_module_report e) +:+ "] (action " +:+
  a6o_action_pretty_str (de_scan_action e) +:+ ")".

Definition summary_lines (seconds : Z -> string) (e : a6o_on_demand_completed_event) : list string :=
  [""%string; "SCAN SUMMARY:"%string;
   "scanned files     : " +:+ print_long (i64 (ce_total_scanned_count e));
   "malware files     : " +:+ print_long (i64 (ce_total_malware_count e));
   "suspicious files  : " +:+ print_long (i64 (ce_total_suspicious_count e));
   "duration          : " +:+ seconds (ce_duration e) +:+ "s"; ""%string].

Lemma status_pretty_val s : status_pretty (a6o_file_status_val s) = a6o_file_status_pretty_str s.
Proof. by destruct s. Qed.

Lemma detection_print_ok {json} e : detection_event_print (json := json) (detection_val e) = [Line (detection_line e)].
Proof. unfold detection_event_print, detection_val, detection_line. by rewrite status_pretty_val. Qed.

Lemma completed_print_ok {json} seconds e :
  on_demand_completed_event_print (json := json) seconds (on_demand_completed_val e) = Line <$> summary_lines seconds e.
Proof. done. Qed.

Section client.
Context {json : Type} `{JanssonLaws json}.
Variable foo : Z.
Variable seconds : Z -> string.
#[local] Abbreviation state := (rpc_state (tool json wire)).
#[local] Abbreviation process fd callbacks := (tool_process wire_recv wire_send seconds fd callbacks).
Implicit Types (s : state) (t : tool json wire).

(** What is printed for an event whose notification has the parameters [j]. *)
Definition event_output (format_json no_summary : bool) (j : json) (ev : a6o_event) : list (printed json) :=
  match ev_u ev with
  | ev_detection e => if format_json then [Dump j; Line ""] else [Line (detection_line e)]
  | ev_on_demand_completed e =>
      if no_summary then [] else if format_json then [Dump j; Line ""] else Line <$> summary_lines seconds e
  | _ => []
  end.

Definition is_completed (ev : a6o_event) : bool := match ev_u ev with ev_on_demand_completed _ => true | _ => false end.

(** The texts that will arrive are replaced. *)
Definition with_in (t : tool json wire) (l : list (list ascii)) : tool json wire :=
  Tool (Wire l (w_out (tl_net t))) (tl_data t) (tl_out t).

Lemma process_received s fd callbacks o rest :
  cn_read_cb (rs_conn s) = true -> fits o -> w_in (tl_net (rs_world s)) = text_of o :: rest ->
  process fd callbacks s =
    (let s := with_world s (with_in (rs_world s) rest) in
     match json_rpc_unpack o with
     | inl ret =>
         if ret =? JRPC_ERR_INVALID_REQUEST then
           r ← connection_send (tool_write_cb wire_send fd) s (make_error_obj ret "invalid request" None 0); Ok (ret, r.2)
         else Ok (ret, s)
     | inr (REQUEST method id params) =>
         connection_process_request (tool_write_cb wire_send fd) (rpcfe_methods seconds) s method id params
     | inr (RESULT_RESPONSE id result) => connection_process_result callbacks s id result
     | inr (ERROR_RESPONSE id code message data) => connection_process_error no_tool_handler s id code message data
     end).
Proof.
  intros Hr Hfits Hin. unfold tool_process, jrpc_process, connection_receive. rewrite Hr. cbn [c_assert mbind outcome_bind].
  unfold tool_read_cb, wire_recv. rewrite Hin. pose proof Hfits as (_ & [chunks E] & Hlen).
  rewrite take_ge, drop_ge by lia.
  assert (0 < Z.of_nat (length (text_of o))) as Hpos by (unfold text_of; rewrite E, length_app; simpl; lia).
  replace (Z.of_nat (length (text_of o)) <? 0) with false by lia.
  replace (Z.of_nat (length (text_of o)) =? 0) with false by lia. cbn [mbind outcome_bind].
  rewrite Nat2Z.id, take_app_length. rewrite <- (app_nil_r (text_of o)), load_text by done. reflexivity.
Qed.

Lemma tool_send s fd o :
  cn_write_cb (rs_conn s) = true -> fits o ->
  connection_send (tool_write_cb wire_send fd) s (Some o) =
    Ok (JRPC_OK, let t := rs_world s in
      with_world s (Tool (Wire (w_in (tl_net t)) (w_out (tl_net t) ++ [text_of o])) (tl_data t) (tl_out t))).
Proof.
  intros Hw (_ & [chunks E] & _). unfold connection_send. rewrite Hw. cbn [c_assert mbind outcome_bind option_bind].
  rewrite E, message_bytes_ok by exact (dump_bound o chunks E). cbn [mbind outcome_bind].
  unfold tool_write_cb, wire_send, text_of. rewrite E. cbn [mbind outcome_bind fst snd].
  by rewrite (proj2 (Z.ltb_ge (Z.of_nat (length (concat chunks ++ end_of_message))) 0)) by apply Nat2Z.is_nonneg.
Qed.

(** The mapper of armadito-scan. *)
Definition serves_events (s : state) : Prop :=
  exists mapper, cn_mapper (rs_conn s) = Some mapper /\ jrpc_mapper_find mapper "notify_event" = Ok (Some NOTIFY_EVENT_METHOD).

Definition shown_world (t : tool json wire) (lines : list (printed json)) (ev : a6o_event) : tool json wire :=
  print lines (if is_completed ev then set_done t else t).

Lemma notify_method_ok s j ev :
  jrpc_unmarshall_struct_ptr (Some j) struct_a6o_event = Ok (inr (Some (event_val foo ev))) ->
  (match ev_u ev with ev_detection _ | ev_on_demand_completed _ | ev_on_demand_progress _ => True | _ => False end) ->
  notify_event_method seconds (Some j) s =
    Ok (JRPC_OK, None, with_world s (shown_world (rs_world s)
      (event_output (sd_format_json (tl_data (rs_world s))) (sd_no_summary (tl_data (rs_world s))) j ev) ev)).
Proof.
  intros Hj Hev. unfold notify_event_method. rewrite Hj. cbn [mbind outcome_bind event_val].
  assert (forall t : tool json wire, print [] t = t) as Hnil by (intros []; unfold print; simpl; by rewrite app_nil_r).
  unfold event_output, shown_world, is_completed, ev_type. destruct (ev_u ev) as [e| |e|e| | |]; try done; cbn [event_union_val].
  - cbn -[detection_event_print detection_line]. destruct (sd_format_json _); [done|]. cbn [ev_detection_of mbind outcome_bind].
    by rewrite detection_print_ok.
  - cbn -[on_demand_completed_event_print summary_lines]. destruct (sd_no_summary _), (sd_format_json _); cbn [mbind outcome_bind];
      rewrite ?completed_print_ok; done.
  - cbn. destruct s as [c t]. unfold with_world. cbn. by rewrite Hnil.
Qed.

Lemma notify_process s fd callbacks o ev rest :
  cn_read_cb (rs_conn s) = true -> serves_events s -> fits o -> w_in (tl_net (rs_world s)) = text_of o :: rest ->
  notifies foo o ev ->
  (match ev_u ev with ev_detection _ | ev_on_demand_completed _ | ev_on_demand_progress _ => True | _ => False end) ->
  exists j, jrpc_unmarshall_struct_ptr (Some j) struct_a6o_event = Ok (inr (Some (event_val foo ev))) /\
    process fd callbacks s = Ok (JRPC_OK, with_world s (shown_world (with_in (rs_world s) rest)
      (event_output (sd_format_json (tl_data (rs_world s))) (sd_no_summary (tl_data (rs_world s))) j ev) ev)).
Proof.
  intros Hr (mapper & Hmap & Hfind) Hfits Hin (j & Hun & Hj) Hev. exists j. split; [done|].
  rewrite (process_received s fd callbacks o rest) by done. rewrite Hun. unfold connection_process_request.
  cbn [rs_conn with_world]. rewrite Hmap, Hfind. cbn [mbind outcome_bind]. unfold rpcfe_methods.
  rewrite (notify_method_ok _ j ev) by done. done.
Qed.

(** ** The loop of armadito-scan *)

(** The lines shown for an event: those of [event_output] for some notification of it. *)
Definition shows (format_json no_summary : bool) (ev : a6o_event) (lines : list (printed json)) : Prop :=
  exists j, jrpc_unmarshall_struct_ptr (Some j) struct_a6o_event = Ok (inr (Some (event_val foo ev))) /\
    lines = event_output format_json no_summary j ev.

(** Events of a scan: the last one, and only it, is the completion. *)
Inductive until_completed : list a6o_event -> Prop :=
  | until_last ev : is_completed ev = true -> until_completed [ev]
  | until_next ev evs : is_completed ev = false ->
      (match ev_u ev with ev_detection _ | ev_on_demand_progress _ => True | _ => False end) ->
      until_completed evs -> until_completed (ev :: evs).

Lemma shown_last (t : tool json wire) lines ev :
  tl_data (shown_world t lines ev) =
    ScanData (is_completed ev || sd_done (tl_data t)) (sd_format_json (tl_data t)) (sd_no_summary (tl_data t)) /\
  tl_net (shown_world t lines ev) = tl_net t /\ tl_out (shown_world t lines ev) = tl_out t ++ lines.
Proof. unfold shown_world. destruct t as [net [] out], (is_completed ev); done. Qed.

(** Every turn of the loop handles one notification; the loop ends with the completion. *)
Lemma scan_loop s fd callbacks os evs rest :
  cn_read_cb (rs_conn s) = true -> serves_events s -> sd_done (tl_data (rs_world s)) = false ->
  Forall2 (notifies foo) os evs -> Forall fits os -> until_completed evs ->
  w_in (tl_net (rs_world s)) = map text_of os ++ rest ->
  exists groups,
    Forall2 (shows (sd_format_json (tl_data (rs_world s))) (sd_no_summary (tl_data (rs_world s)))) evs groups /\
    tool_loop wire_recv wire_send seconds (length os) fd callbacks s =
      Ok (with_world s (print (concat groups) (set_done (with_in (rs_world s) rest)))).
Proof.
  intros Hr Hs Hdone Hos Hfits Hevs. revert s os Hr Hs Hdone Hos Hfits.
  induction Hevs as [ev Hc|ev evs Hc Hev Hevs IH]; intros s os Hr Hs Hdone Hos Hfits Hin;
    apply Forall2_cons_inv_r in Hos as (o & os' & Ho & Hos & ->); apply list.Forall_cons in Hfits as [Hfo Hfits];
    cbn [map app] in Hin.
  - apply Forall2_nil_inv_r in Hos as ->. cbn [map app length] in *.
    destruct (notify_process s fd callbacks o ev rest Hr Hs Hfo Hin Ho) as (j & Hj & E).
    { unfold is_completed in Hc. by destruct (ev_u ev). }
    exists [event_output (sd_format_json (tl_data (rs_world s))) (sd_no_summary (tl_data (rs_world s))) j ev].
    split; [constructor; [by exists j|constructor]|]. cbn [tool_loop]. rewrite E. cbn [mbind outcome_bind fst snd].
    cbn [rs_world with_world]. rewrite (proj1 (shown_last _ _ _)), Hc. cbn [orb sd_done negb andb]. rewrite andb_false_r.
    cbn [concat]. rewrite app_nil_r. unfold shown_world. by rewrite Hc.
  - destruct (notify_process s fd callbacks o ev (map text_of os' ++ rest) Hr Hs Hfo Hin Ho) as (j & Hj & E).
    { by destruct (ev_u ev). }
    cbn [length tool_loop]. rewrite E. cbn [mbind outcome_bind fst snd]. change (JRPC_OK =? JRPC_EOF) with false.
    cbn [rs_world with_world]. set (t1 := shown_world _ _ _).
    assert (tl_data t1 = tl_data (rs_world s)) as Hdata.
    { unfold t1. rewrite (proj1 (shown_last _ _ _)), Hc. cbn [orb]. cbn. destruct (rs_world s) as [? [] ?]; done. }
    rewrite Hdata, Hdone. cbn [negb andb].
    destruct (IH (with_world s t1) os') as (groups & Hg & El); try done.
    { cbn [rs_world with_world]. by rewrite Hdata. }
    { cbn [rs_world with_world]. unfold t1. by rewrite (proj1 (proj2 (shown_last _ _ _))). }
    cbn [rs_world with_world] in Hg. rewrite Hdata in Hg.
    eexists (_ :: groups). split; [constructor; [by exists j|exact Hg]|].
    rewrite El. cbn [with_world rs_conn rs_world concat]. do 2 f_equal. unfold t1, shown_world. rewrite Hc.
    unfold print, set_done, with_in. cbn. by rewrite app_assoc.
Qed.

End client.

(** ** The request of armadito-scan *)

Section request.
Context {json : Type} `{JanssonLaws json}.
Variable seconds : Z -> string.
Variable p : string -> Z.

Lemma rpcfe_mapper_serves :
  exists mapper, create_rpcfe_mapper p = Ok mapper /\
    jrpc_mapper_find mapper "notify_event" = Ok (Some NOTIFY_EVENT_METHOD).
Proof.
  destruct (mapper_registers [(p "notify_event", "notify_event"%string, NOTIFY_EVENT_METHOD)]) as (mapper & E & Hfind).
  - apply NoDup_singleton.
  - cbn. lia.
  - exists mapper. cbn [register_all] in E. split; [|by rewrite Hfind].
    unfold create_rpcfe_mapper. destruct (jrpc_mapper_add _ _ _ _) as [r|]; [|done]. cbn [mbind outcome_bind] in *.
    by injection E as <-.
Qed.

(** The parameters of the request. *)
Context (opts : scan_options) (scan_id : Z).
#[local] Abbreviation q := (scan_param opts (u32 scan_id)).

(** Its text; empty when it cannot be written. *)
Definition scan_request_text : list ascii :=
  match jrpc_marshall_struct struct_a6o_rpc_scan_param (Some (scan_param_val q)) with
  | Ok (inr j) => match make_call_obj (json := json) "scan" (Some j) 0 with Some o => text_of o | None => [] end
  | _ => []
  end.

Hypothesis good_param : good_struct (json := json) struct_a6o_rpc_scan_param (scan_param_val q).
Hypothesis some_path : path_to_scan opts <> None.
Hypothesis small : 0 < Z.of_nat (length scan_request_text) <= DEFAULT_INPUT_BUFFER_SIZE.

Lemma scan_param_complete : complete struct_a6o_rpc_scan_param (scan_param_val q) = true.
Proof. revert some_path. cbn. by destruct (path_to_scan opts). Qed.

Lemma scan_requested fd :
  0 <= fd ->
  exists o j : json, text_of o = scan_request_text /\ fits o /\ json_rpc_unpack o = inr (REQUEST "scan" 0 (Some j)) /\
    jrpc_unmarshall_struct_ptr (Some j) struct_a6o_rpc_scan_param = Ok (inr (Some (scan_param_val q))) /\
    forall fuel w, exists s : rpc_state (tool json wire),
      cn_read_cb (rs_conn s) = true /\ serves_events s /\
      rs_world s = Tool (Wire (w_in w) (w_out w ++ [text_of o])) (ScanData false (format_json opts) (no_summary opts)) [] /\
      do_scan wire_recv wire_send seconds fuel p fd scan_id opts w =
        (s ← tool_loop wire_recv wire_send seconds fuel fd no_tool_callback s; Ok (RETURN 0, rs_world s)).
Proof.
  intros Hfd. destruct rpcfe_mapper_serves as (mapper & Emap & Hfind).
  destruct (struct_roundtrip struct_a6o_rpc_scan_param (scan_param_val q)) as (j & Hm & Ht & Hu);
    [apply all_roundtrip|apply schema_scan_param|exact good_param|].
  destruct (make_call_obj_fields "scan" (Some j) 0) as (o & Eo & Hf); [by apply utf8_ascii|].
  assert (jrpc_marshall_struct struct_a6o_rpc_scan_param (Some (scan_param_val q)) = Ok (inr j)) as Hm'
    by (unfold jrpc_marshall_struct; by rewrite Hm).
  assert (scan_request_text = text_of o) as Htext by (unfold scan_request_text; by rewrite Hm', Eo).
  pose proof small as Hsmall. rewrite Htext in Hsmall.
  assert (json_rpc_unpack o = inr (REQUEST "scan" 0 (Some j))) as Hun.
  { rewrite (request_understood "scan" (Some j) 0 o); [done|by apply utf8_ascii|lia|exact Hf]. }
  assert (fits o) as Hfits by (apply (text_fits o _ Hun); [intros Hnil; rewrite Hnil in Hsmall; cbn in Hsmall|]; lia).
  exists o, j. split; [done|]. split; [done|]. split; [done|]. split.
  - unfold jrpc_unmarshall_struct_ptr, json_is_null. rewrite bool_decide_eq_false_2, Hu by (by rewrite Ht).
    rewrite scan_param_complete. reflexivity.
  - intros fuel w.
    exists (RpcState (tool_conn (Some mapper))
      (Tool (Wire (w_in w) (w_out w ++ [text_of o])) (ScanData false (format_json opts) (no_summary opts)) [])).
    split; [reflexivity|]. split; [exists mapper; split; [reflexivity|exact Hfind]|]. split; [reflexivity|].
    unfold do_scan. replace (fd <? 0) with false by lia. rewrite Emap. cbn [mbind outcome_bind]. rewrite Hm'.
    cbn [mbind outcome_bind]. unfold jrpc_call. cbn [mbind outcome_bind fst snd with_conn rs_conn rs_world]. rewrite Eo.
    rewrite tool_send by done. reflexivity.
Qed.

End request.

(** The events of a run that a client gets end with the completion. *)
Lemma run_until_completed {W} od files (s : od_state W) q :
  run_report od files s -> sp_send_progress q <> 0 -> until_completed (filter (scan_wanted q) (s_events s)).
Proof.
  intros (t1 & mid & t2 & d & -> & Hmid & _) Hp. rewrite filter_cons, decide_False by (by intros []).
  match goal with |- context [ev_on_demand_completed ?e] => generalize e end. intros c.
  induction Hmid as [|ev mid Hev _ IH]; cbn [app].
  - rewrite filter_cons, decide_True by done. rewrite filter_nil. by constructor.
  - unfold scan_event in Hev. rewrite filter_cons, decide_True.
    + constructor; [unfold is_completed|..|exact IH]; by destruct (ev_u ev).
    + unfold scan_wanted. destruct (ev_u ev); try done. by rewrite (proj2 (Z.eqb_neq _ _)).
Qed.

(** ** A scan, from the command line to the screen *)

Section scan.
Context {json : Type} `{JanssonLaws json} {W : Type}.
Variables (foo : Z) (seconds : Z -> string) (p : string -> Z).
Variable realpath : option string -> pipe -> option string.
Variable info_new : pipe -> a6o_info * pipe.
(** The modules of the daemon, the file system, the scheduling of the scan. *)
Context (os : os_answers) (modules : list (a6o_module W)) (clock : nat -> Z) (env : run_env) (sc : scan_state W).
#[local] Abbreviation run od := (a6o_on_demand_run os modules clock env (od_init od sc)).

(** A daemon that waits for requests on the connection of a client. *)
Definition accepted (b : backend pipe) (conn : Z) (cl : client) : Prop :=
  be_conns b !! conn = Some cl /\ cn_read_cb (cl_conn cl) = true /\ cn_write_cb (cl_conn cl) = true /\
  exists mapper, cn_mapper (cl_conn cl) = Some mapper /\ serves mapper.

Lemma accepted_asks b conn cl o method id params out :
  accepted b conn cl -> fits o -> json_rpc_unpack o = inr (REQUEST method id params) ->
  asks pipe_recv (set_net b (Pipe (text_of o) out)) conn cl o method id params (Pipe [] out).
Proof.
  intros (Hcl & Hr & Hw & Hm) Hfits Hun. split_and!; try done.
  pose proof Hfits as (_ & _ & Hlen). cbn [be_net set_net]. unfold pipe_recv, pipe_read. cbn [inbox outbox].
  by rewrite take_ge, drop_ge by lia.
Qed.


End scan.

(** ** The state of the antivirus, from the daemon to the screen *)

(** What armadito-info shows, from the information as the daemon has it. *)
Section lines.
Variable time_2_date : Z -> string.

Definition base_info_lines (b : a6o_base_info) : list string :=
  ["-- Base " +:+ print_str (base_name b) +:+ " "; "--- Update date : " +:+ time_2_date (base_update_ts b)] ++
  match base_version b with Some v => ["--- Version : " +:+ v] | None => [] end ++
  ["--- Signature count : " +:+ print_long (i64 (base_signature_count b));
   "--- Full path : " +:+ print_str (base_full_path b)].

Definition module_info_lines (m : a6o_module_info) : list string :=
  ["Module " +:+ print_str (mi_name m) +:+ " "; "- Update status : " +:+ a6o_update_status_str (mi_mod_status m);
   "- Update date : " +:+ time_2_date (mi_mod_update_ts m)] ++ flat_map base_info_lines (default [] (mi_base_infos m)).

Definition info_lines (i : a6o_info) : list string :=
  ["--- Armadito info --- "; "antivirus version: " +:+ print_str (Some (in_antivirus_version i));
   "global status : " +:+ a6o_update_status_str (in_global_status i);
   "global update date : " +:+ time_2_date (in_global_update_ts i)] ++ flat_map module_info_lines (in_module_infos i).

Lemma update_status_val s : update_status_name (a6o_update_status_val s) = a6o_update_status_str s.
Proof. by destruct s. Qed.

Lemma flat_map_lines {A B json} (f : A -> list string) (g : B -> list (printed json)) (v : A -> B) l :
  (forall x, g (v x) = Line <$> f x) -> flat_map g (map v l) = Line <$> flat_map f l.
Proof. intros Hg. induction l as [|x l IH]; [done|]. cbn [flat_map map]. by rewrite fmap_app, Hg, IH. Qed.

Lemma base_print_ok {json} b : base_info_print (json := json) time_2_date (base_info_val b) = Line <$> base_info_lines b.
Proof. destruct b as [? ? [] ? ?]; done. Qed.

Lemma module_print_ok {json} m :
  module_info_print (json := json) time_2_date (module_info_val m) = Line <$> module_info_lines m.
Proof.
  unfold module_info_print, module_info_lines, module_info_val. rewrite fmap_app, update_status_val. f_equal.
  destruct (mi_base_infos m) as [l|]; [|done]. apply flat_map_lines, base_print_ok.
Qed.

Lemma info_print_ok {json} i : info_print (json := json) time_2_date (info_val i) = Ok (Line <$> info_lines i).
Proof.
  unfold info_print, info_lines, info_val. rewrite fmap_app, update_status_val.
  rewrite (flat_map_lines module_info_lines _ module_info_val) by apply module_print_ok. reflexivity.
Qed.

End lines.

Section info.
Context {json : Type} `{JanssonLaws json}.
Variables (seconds time_2_date : Z -> string).
Variable realpath : option string -> pipe -> option string.
Variable info_new : pipe -> a6o_info * pipe.

(** The text of the request of armadito-info. *)
Definition status_request_text : list ascii :=
  match make_call_obj (json := json) "status" None 1 with Some o => text_of o | None => [] end.

Lemma status_requested fd json_format :
  0 <= fd -> 0 < Z.of_nat (length status_request_text) <= DEFAULT_INPUT_BUFFER_SIZE ->
  exists o : json, text_of o = status_request_text /\ fits o /\ json_rpc_unpack o = inr (REQUEST "status" 1 None) /\
    forall fuel w, exists s : rpc_state (tool json wire),
      cn_read_cb (rs_conn s) = true /\ conn_ok (rs_conn s) {[rpc_key 1 := Some (CallbackEntry INFO_CB 0)]} /\
      rs_world s = Tool (Wire (w_in w) (w_out w ++ [text_of o])) (ScanData false json_format false) [] /\
      do_info wire_recv wire_send seconds time_2_date fuel fd json_format w =
        (s ← tool_loop wire_recv wire_send seconds fuel fd (info_callbacks time_2_date) s; Ok (RETURN 0, rs_world s)).
Proof.
  intros Hfd Hsmall. destruct (make_call_obj_fields (json := json) "status" None 1) as (o & Eo & Hf); [by apply utf8_ascii|].
  assert (status_request_text = text_of o) as Htext by (unfold status_request_text; by rewrite Eo).
  rewrite Htext in Hsmall.
  assert (json_rpc_unpack o = inr (REQUEST "status" 1 None)) as Hun.
  { rewrite (request_understood "status" None 1 o); [done|by apply utf8_ascii|lia|exact Hf]. }
  assert (fits o) as Hfits by (apply (text_fits o _ Hun); [intros Hnil; rewrite Hnil in Hsmall; cbn in Hsmall|]; lia).
  exists o. split; [done|]. split; [done|]. split; [done|]. intros fuel w.
  assert (conn_ok (tool_conn None) ∅) as Hok by (destruct (conn_ok_new None); by split).
  destruct (register_ok (tool_conn None) ∅ INFO_CB 0 Hok ltac:(cbn; lia)) as (c & Ereg & Hok' & _ & (_ & Hr & Hw & _)).
  exists (RpcState c (Tool (Wire (w_in w) (w_out w ++ [text_of o])) (ScanData false json_format false) [])).
  split; [exact Hr|]. split; [exact Hok'|]. split; [reflexivity|].
  unfold do_info. replace (fd <? 0) with false by lia. unfold jrpc_call. cbn [rs_conn].
  rewrite Ereg. cbn [mbind outcome_bind fst snd with_conn rs_world]. change (cn_current_id (tool_conn None)) with 1. rewrite Eo.
  rewrite tool_send by done. reflexivity.
Qed.

(** The answer reaches the callback. *)
Lemma status_received (s : rpc_state (tool json wire)) fd r j rest :
  cn_read_cb (rs_conn s) = true -> conn_ok (rs_conn s) {[rpc_key 1 := Some (CallbackEntry INFO_CB 0)]} ->
  fits r -> json_rpc_unpack r = inr (RESULT_RESPONSE 1 j) -> w_in (tl_net (rs_world s)) = text_of r :: rest ->
  exists c, tool_process wire_recv wire_send seconds fd (info_callbacks time_2_date) s =
    (s ← info_cb time_2_date j 0 (RpcState c (with_in (rs_world s) rest)); Ok (JRPC_OK, s)).
Proof.
  intros Hr Hok Hfits Hun Hin. rewrite (process_received seconds s fd _ r rest) by done. rewrite Hun.
  unfold connection_process_result.
  destruct (find_callback_ok (rs_conn s) _ 1 Hok) as (c & E & _). exists c.
  rewrite u64_small, lookup_singleton_eq in E by lia. cbn [with_world rs_conn]. rewrite E. reflexivity.
Qed.

(** One turn of the loop of armadito-info on the answer: it ends with the information
    shown, or goes on waiting when the answer was refused. *)
Lemma info_answer_loop (s : rpc_state (tool json wire)) fd r (j : json) rest info :
  cn_read_cb (rs_conn s) = true -> conn_ok (rs_conn s) {[rpc_key 1 := Some (CallbackEntry INFO_CB 0)]} ->
  fits r -> json_rpc_unpack r = inr (RESULT_RESPONSE 1 j) -> w_in (tl_net (rs_world s)) = text_of r :: rest ->
  sd_done (tl_data (rs_world s)) = false -> tl_out (rs_world s) = [] ->
  jrpc_unmarshall_struct_ptr (Some j) struct_a6o_info =
    Ok (received (complete struct_a6o_info (info_val info)) (Some (info_val info))) ->
  let loop fuel := tool_loop wire_recv wire_send seconds fuel fd (info_callbacks time_2_date) s in
  if sd_format_json (tl_data (rs_world s)) || complete struct_a6o_info (info_val info) then
    exists s', loop 1%nat = Ok s' /\ tl_net (rs_world s') = Wire rest (w_out (tl_net (rs_world s))) /\
      tl_out (rs_world s') =
        if sd_format_json (tl_data (rs_world s)) then [Dump j] else Line <$> info_lines time_2_date info
  else loop 1%nat = Fault Diverges.
Proof.
  intros Hr Hok Hfits Hun Hin Hdone Hout Hj loop. subst loop. cbn beta.
  destruct (status_received s fd r j rest Hr Hok Hfits Hun Hin) as (c & E). cbn [tool_loop]. rewrite E. unfold info_cb.
  cbn [rs_world with_in tl_data tl_out]. destruct (sd_format_json (tl_data (rs_world s))) eqn:Ef; cbn [orb].
  - cbn [mbind outcome_bind fst snd]. cbn. eexists. split; [reflexivity|]. cbn. by rewrite Hout.
  - rewrite Hj. destruct (complete struct_a6o_info (info_val info)); cbn [received mbind outcome_bind].
    + rewrite info_print_ok. cbn [mbind outcome_bind fst snd]. cbn -[info_lines]. eexists. split; [reflexivity|].
      cbn -[info_lines]. by rewrite Hout.
    + cbn. by rewrite Hdone.
Qed.


End info.

(** ** A scan of [/home] *)

Definition sample_options : scan_options :=
  {| unix_socket_path := "@/armadito-daemon"; format_json := false; recursive := 1; threaded := 1;
     no_summary := false; print_clean := 0; path_to_scan := Some "/home"%string |}.


(** ** The state of the sample daemon *)

