(* ===== verification/Daemon.v ===== *)
(** * The Linux daemon ([src/arch/linux/daemon/main.c], [daemonize.c],
    [src/libmodule/stdpaths.c])

    How the daemon starts, up to its main loop, from where every step is one of the
    backend (RpcBe.v) or of the access monitor (Monitor.v).  The answers of the system
    and the contents of the files are parameters. *)
From S2P Require Import Prelude Status Conf Dir Module Event Log RpcBe Socket Options.

#[local] Open Scope string_scope.
#[local] Open Scope Z_scope.

(** ** Standard locations *)

Inductive a6o_std_location :=
  | A6O_LOCATION_MODULES | A6O_LOCATION_CONFIG_FILE | A6O_LOCATION_CONFIG_DIR
  | A6O_LOCATION_BASES | A6O_LOCATION_BINARY | A6O_LOCATION_TMP.

(** The directories given when the program is configured. *)
Record build_paths := BuildPaths {
  LIBARMADITO_MODULES_PATH : string;
  LIBARMADITO_CONF_DIR : string;
  LIBARMADITO_BASES_DIR : string;
}.

(** The answers of the system: [fork], [setsid], [chdir]; whether the PID file can be
    created, written and closed; [opendir] and [readdir]; the text of a file that
    [fopen] can open; the calls of the server socket. *)
Record daemon_env := DaemonEnv {
  env_fork : Z;
  env_setsid : Z;
  env_chdir : Z;
  env_pid_fopen : bool;
  env_pid_fprintf : bool;
  env_pid_fclose : bool;
  env_readdir : string -> option (list string);
  env_file : string -> option (list ascii);
  env_server : server_env;
}.

Definition EXIT_SUCCESS : Z := 0.
Definition EXIT_FAILURE : Z := 1.

(** [!strcmp(file_name + len - 5, ".conf")] for a name longer than that. *)
Definition is_conf_name (file_name : string) : bool :=
  let len := String.length file_name in
  (5 <? Z.of_nat len) && bool_decide (String.substring (len - 5) 5 file_name = ".conf").

Section daemon.
Context {W : Type}.
Variable paths : build_paths.
Variable env : daemon_env.
(** What messages print: the uptime, the number of the process, [errno]. *)
Variables (uptime pid errno : string).
Variable st : log_state.
Variable dlopen : option string -> dl_result W.
Variable builtin_modules : list (a6o_module W).
Variable module_tree : string -> dir_tree.

Definition a6o_std_path (location : a6o_std_location) : option string :=
  match location with
  | A6O_LOCATION_MODULES => Some (LIBARMADITO_MODULES_PATH paths)
  | A6O_LOCATION_CONFIG_FILE => Some (LIBARMADITO_CONF_DIR paths +:+ "/armadito.conf")
  | A6O_LOCATION_CONFIG_DIR => Some (LIBARMADITO_CONF_DIR paths +:+ "/conf.d")
  | A6O_LOCATION_BASES => Some (LIBARMADITO_BASES_DIR paths)
  | A6O_LOCATION_BINARY | A6O_LOCATION_TMP => None
  end.

(** ** A program that logs and may exit *)

(** What was logged; then a value, or the status the process exited with. *)
Definition prog (A : Type) : Type := list log_output -> outcome ((Z + A) * list log_output).

Definition pret {A} (x : A) : prog A := fun out => Ok (inr x, out).

Definition pbind {A B} (m : prog A) (k : A -> prog B) : prog B := fun out =>
  r ← m out;
  match r.1 with inl status => Ok (inl status, r.2) | inr x => k x r.2 end.

Definition exit {A} (status : Z) : prog A := fun out => Ok (inl status, out).

Definition lift {A} (m : outcome A) : prog A := fun out => x ← m; Ok (inr x, out).

#[local] Notation "'do' x <- m ; k" := (pbind m (fun x => k)) (at level 10, x name, m at level 100, k at level 200).

Definition log (level : a6o_log_level) (message : string) : prog unit := fun out =>
  let (lines, r) := a6o_log st A6O_LOG_SERVICE level message in
  _ ← r; Ok (inr tt, (out ++ lines)%list).

(** ** Starting *)

Definition daemonize : prog unit :=
  if env_fork env <? 0 then exit EXIT_FAILURE
  else if 0 <? env_fork env then exit EXIT_SUCCESS
  else if env_setsid env <? 0 then exit EXIT_FAILURE
  else if env_chdir env <? 0 then exit EXIT_FAILURE
  else pret tt.

Definition create_pid_file (pidfile : string) : prog unit :=
  if env_pid_fopen env && env_pid_fprintf env && env_pid_fclose env then pret tt
  else
    do _ <- log A6O_LOG_LEVEL_ERROR ("cannot create PID file " +:+ pidfile +:+ " (errno " +:+ errno +:+ ")");
    exit EXIT_FAILURE.

Definition create_server_socket (unix_path : string) : prog Z :=
  do r <- lift (unix_server_listen (env_server env) unix_path);
  if r.1 <? 0 then
    do _ <- log A6O_LOG_LEVEL_ERROR ("cannot open server socket (errno " +:+ errno +:+ ")"); exit EXIT_FAILURE
  else pret r.1.

(** The file at [path] is read into the configuration. *)
Definition load_file (conf : a6o_conf) (path : option string) : prog a6o_conf :=
  do _ <- log A6O_LOG_LEVEL_INFO ("loading configuration file " +:+ print_str path);
  do r <- lift (match path with Some p => a6o_conf_load_file conf (env_file env p) | None => Fault NullDeref end);
  if negb (r.1 =? 0) then
    do _ <- log A6O_LOG_LEVEL_WARNING "loading configuration failed"; exit EXIT_FAILURE
  else pret r.2.

Definition load_conf (conf : a6o_conf) : prog a6o_conf := load_file conf (a6o_std_path A6O_LOCATION_CONFIG_FILE).

(** The [readdir] loop. *)
Fixpoint load_entries (conf_dir : string) (entries : list string) (conf : a6o_conf) : prog a6o_conf :=
  match entries with
  | [] => pret conf
  | file_name :: entries =>
      if bool_decide (file_name = ".") || bool_decide (file_name = "..") then load_entries conf_dir entries conf
      else if is_conf_name file_name then
        do conf <- load_file conf (Some (conf_dir +:+ "/" +:+ file_name));
        load_entries conf_dir entries conf
      else load_entries conf_dir entries conf
  end.

Definition load_conf_dir (conf : a6o_conf) : prog a6o_conf :=
  let conf_dir := a6o_std_path A6O_LOCATION_CONFIG_DIR in
  do _ <- log A6O_LOG_LEVEL_INFO ("loading configuration directory " +:+ print_str conf_dir);
  match conf_dir with
  | None => lift (Fault NullDeref)
  | Some dir =>
      match env_readdir env dir with
      | None =>
          do _ <- log A6O_LOG_LEVEL_WARNING ("error opening configuration directory " +:+ dir +:+ " (" +:+ errno +:+ ")");
          pret conf
      | Some entries => load_entries dir entries conf
      end
  end.

(** The daemon in its main loop. *)
Record running := Running {
  rn_conf : a6o_conf;
  rn_manager : module_manager W;
  rn_world : W;
  rn_source : a6o_event_source;
  rn_server_sock : Z;
}.

(** [w] is the state of the modules. *)
Definition start_daemon (progname : string) (opts : a6o_daemon_options) (w : W) : prog running :=
  do _ <- (if no_daemon opts then pret tt else daemonize);
  do _ <- match pid_file opts with Some f => create_pid_file f | None => pret tt end;
  do _ <- log A6O_LOG_LEVEL_NONE ("starting " +:+ progname +:+ (if no_daemon opts then "" else " in daemon mode"));
  do conf <- load_conf a6o_conf_new;
  do conf <- load_conf_dir conf;
  do r <- lift (a6o_open dlopen builtin_modules conf
                  ((fun p => (p, module_tree p)) <$> a6o_std_path A6O_LOCATION_MODULES) w);
  let source := journal_init JOURNAL_EVENT_CB a6o_event_source_new in
  do server_sock <- create_server_socket (unix_path opts);
  do _ <- log A6O_LOG_LEVEL_INFO ("listening on " +:+ unix_path opts);
  pret {| rn_conf := conf; rn_manager := r.1; rn_world := r.2; rn_source := source; rn_server_sock := server_sock |}.

End daemon.

(** [main]: the exit status, or the running daemon.  The log is the one [log_init]
    sets. *)
Definition daemon_main {W} (localstatedir : string) (paths : build_paths) (env : daemon_env) (uptime pid errno : string)
    (dlopen : option string -> dl_result W) (builtin_modules : list (a6o_module W)) (module_tree : string -> dir_tree)
    (progname : string) (l : list (ascii * string)) (args : list string) (w : W)
    : outcome ((Z + running) * list log_output) :=
  r ← daemon_parse_options localstatedir l args;
  match r with
  | inr status => Ok (inl status, [])
  | inl opts =>
      start_daemon paths env errno (log_init uptime pid (s_log_level opts) (negb (no_daemon opts)))
        dlopen builtin_modules module_tree progname opts w []
  end.
