(* ===== verification/DaemonSpec.v ===== *)
(** * How the daemon starts, and on what configuration *)
From S2P Require Import Prelude Status ConfVal ConfParser ConfParserTheory Conf ConfTheory ConfSave ConfSpec Dir Module ModuleSpec.
From S2P Require Import Event Log RpcBe Settings Socket Options Daemon.

#[local] Open Scope string_scope.
#[local] Open Scope Z_scope.

(** ** The configuration of the daemon *)

(** The settings of a file, in order, are added until one that is already there. *)
Fixpoint add_until (l : list setting) (m : cmap) : cmap * bool :=
  match l with
  | [] => (m, true)
  | (s, k, v) :: l => match m !! (s, k) with Some _ => (m, false) | None => add_until l (<[(s, k) := v]> m) end
  end.

Definition doc_settings (d : doc) : list setting :=
  flat_map (fun s => map (fun kv => (s.1, kv.1, denote kv.2)) s.2) d.

(** The settings of a file that cannot be opened, or that follows the grammar. *)
Definition file_settings (file : option (list ascii)) (l : list setting) : Prop :=
  match file with
  | None => l = []
  | Some input => exists d, yields TOKEN_NONE (scanner_new input) (doc_tokens d) /\ l = doc_settings d
  end.

Lemma add_until_app l1 l2 m :
  add_until (l1 ++ l2) m = (let r := add_until l1 m in if r.2 then add_until l2 r.1 else r).
Proof.
  revert m. induction l1 as [|[[s k] v] l1 IH]; intros m; cbn [add_until app]; [done|]. by destruct (m !! (s, k)).
Qed.

Lemma value_set_same v : a6o_conf_value_set (denote v) = Ok (denote v).
Proof.
  apply conf_value_set_copy. destruct v as [n|? []]; cbn [denote]; [|done|done].
  apply (set_int_ok (Z.min (digits_val (bytes n) 0) LONG_MAX)).
Qed.

Lemma run_defs_adds sec defs conf m :
  conf_rep conf m ->
  exists conf', run_defs conf_load_parser_cb sec defs conf =
      Ok (conf', (add_until (map (fun kv => (sec, kv.1, denote kv.2)) defs) m).2) /\
    conf_rep conf' (add_until (map (fun kv => (sec, kv.1, denote kv.2)) defs) m).1.
Proof.
  revert conf m. induction defs as [|[k v] defs IH]; intros conf m Hrep; cbn [run_defs map add_until fst snd]; [by exists conf|].
  change (conf_load_parser_cb sec k (denote v) conf) with (conf_add conf sec k (a6o_conf_value_set (denote v))).
  rewrite conf_add_eq, (Hrep sec k), value_set_same.
  destruct (m !! (sec, k)) as [w|] eqn:E; cbn [mbind outcome_bind fst snd].
  - change (1 =? 0) with false. by exists conf.
  - change (0 =? 0) with true. apply IH. by apply add_entry_rep.
Qed.

Lemma run_doc_adds d conf m :
  conf_rep conf m ->
  exists conf', run_doc conf_load_parser_cb d conf = Ok (conf', (add_until (doc_settings d) m).2) /\
    conf_rep conf' (add_until (doc_settings d) m).1.
Proof.
  revert conf m. induction d as [|[sec defs] d IH]; intros conf m Hrep; [by exists conf|].
  unfold doc_settings. cbn [run_doc flat_map fst snd]. rewrite add_until_app. fold (doc_settings d).
  destruct (run_defs_adds sec defs conf m Hrep) as (conf' & -> & Hrep'). cbn [mbind outcome_bind fst snd].
  destruct (add_until (map _ defs) m) as [m' []]; cbn [fst snd] in *; [by apply IH|by exists conf'].
Qed.

Lemma load_adds file l conf m :
  file_settings file l -> conf_rep conf m ->
  exists conf', a6o_conf_load_file conf file = Ok (0, conf') /\ conf_rep conf' (add_until l m).1.
Proof.
  intros Hl Hrep. unfold a6o_conf_load_file. destruct file as [input|]; cbn [file_settings] in Hl.
  - destruct Hl as (d & Hy & ->). destruct (run_doc_adds d conf m Hrep) as (conf' & E & Hrep').
    rewrite (parse_complete conf_load_parser_cb input d conf Hy), E. by exists conf'.
  - subst l. by exists conf.
Qed.

(** ** Starting *)

Section starts.
Context {W : Type} (paths : build_paths) (env : daemon_env) (errno : string) (st : log_state).
Context (dlopen : option string -> dl_result W) (builtin_modules : list (a6o_module W)) (module_tree : string -> dir_tree).
#[local] Abbreviation conf_dir := (LIBARMADITO_CONF_DIR paths +:+ "/conf.d").
#[local] Abbreviation start := (start_daemon paths env errno st dlopen builtin_modules module_tree).

(** A program that returns [x], whatever was logged before. *)
Definition returns {A} (m : prog A) (x : A) : Prop := forall out, exists lines, m out = Ok (inr x, (out ++ lines)%list).

Lemma pret_returns {A} (x : A) : returns (pret x) x.
Proof. intros out. exists []. by rewrite app_nil_r. Qed.

Lemma lift_returns {A} (m : outcome A) x : m = Ok x -> returns (lift m) x.
Proof. intros -> out. exists []. by rewrite app_nil_r. Qed.

Lemma log_returns level message : level <> A6O_LOG_LEVEL_ERROR -> returns (log st level message) tt.
Proof.
  intros Hl out. unfold log, a6o_log.
  destruct (bool_decide (level <> A6O_LOG_LEVEL_NONE) && _); [exists []; by rewrite app_nil_r|].
  eexists. by destruct level.
Qed.

Lemma bind_returns {A B} (m : prog A) (k : A -> prog B) x y : returns m x -> returns (k x) y -> returns (pbind m k) y.
Proof.
  intros Hm Hk out. destruct (Hm out) as (l1 & E1). destruct (Hk (out ++ l1)%list) as (l2 & E2).
  exists (l1 ++ l2)%list. unfold pbind. rewrite E1. cbn [mbind outcome_bind fst snd]. by rewrite E2, app_assoc.
Qed.

(** What a program comes to: a value, or a fault. *)
Definition ends {A} (r : outcome A) (m : prog A) : Prop :=
  match r with Ok x => returns m x | Fault f => forall out, m out = Fault f end.

Lemma bind_ends {A B} (m : prog A) (k : A -> prog B) x r : returns m x -> ends r (k x) -> ends r (pbind m k).
Proof.
  intros Hm. destruct r as [y|f]; cbn [ends]; [by apply bind_returns|]. intros Hk out.
  destruct (Hm out) as (l & E). unfold pbind. rewrite E. apply Hk.
Qed.

Lemma lift_ends {A B} (o : outcome A) (k : A -> prog B) (r : A -> outcome B) :
  (forall x, ends (r x) (k x)) -> ends (x ← o; r x) (pbind (lift o) k).
Proof.
  intros Hk. destruct o as [x|f]; cbn [mbind outcome_bind]; [|done].
  eapply bind_ends; [by apply lift_returns|apply Hk].
Qed.

(** A message of level ERROR is never filtered once the log is initialised, and aborts:
    the exit status that follows it is never given. *)
Lemma error_aborts {A} message (k : unit -> prog A) out :
  a6o_log_level_val A6O_LOG_LEVEL_ERROR <= current_max_level st -> pbind (log st A6O_LOG_LEVEL_ERROR message) k out = Fault Aborted.
Proof.
  intros Hmax. unfold pbind, log, a6o_log.
  by rewrite (proj2 (Z.ltb_ge (current_max_level st) (a6o_log_level_val A6O_LOG_LEVEL_ERROR))), andb_false_r by done.
Qed.

(** No PID file, no daemon: it aborts. *)
Lemma pid_file_failure pidfile out :
  a6o_log_level_val A6O_LOG_LEVEL_ERROR <= current_max_level st ->
  env_pid_fopen env && env_pid_fprintf env && env_pid_fclose env = false ->
  create_pid_file env errno st pidfile out = Fault Aborted.
Proof. intros Hmax Hp. unfold create_pid_file. rewrite Hp. by apply error_aborts. Qed.

(** No socket either. *)
Lemma socket_failure path calls out r :
  a6o_log_level_val A6O_LOG_LEVEL_ERROR <= current_max_level st ->
  unix_server_listen (env_server env) path = Ok (r, calls) -> r < 0 ->
  create_server_socket env errno st path out = Fault Aborted.
Proof.
  intros Hmax E Hr. unfold create_server_socket, lift. unfold pbind at 1. rewrite E. cbn [mbind outcome_bind fst snd].
  rewrite (proj2 (Z.ltb_lt r 0)) by done. by apply error_aborts.
Qed.

(** The log of every command line that is accepted lets errors through. *)
Lemma accepted_level localstatedir l args opts uptime pid use_syslog :
  daemon_parse_options localstatedir l args = Ok (inl opts) ->
  a6o_log_level_val A6O_LOG_LEVEL_ERROR <= current_max_level (log_init uptime pid (s_log_level opts) use_syslog).
Proof.
  intros (lv & Hl & ->)%daemon_options_level%checked_level. by destruct lv, use_syslog.
Qed.

Lemma load_file_returns conf m p l :
  file_settings (env_file env p) l -> conf_rep conf m ->
  exists conf', returns (load_file env st conf (Some p)) conf' /\ conf_rep conf' (add_until l m).1.
Proof.
  intros Hl Hrep. destruct (load_adds _ _ _ _ Hl Hrep) as (conf' & E & Hrep'). exists conf'. split; [|done].
  eapply bind_returns; [by apply log_returns|]. cbn beta.
  eapply bind_returns; [apply lift_returns; exact E|]. apply pret_returns.
Qed.

Definition load_all (ls : list (list setting)) (m : cmap) : cmap := fold_left (fun m l => (add_until l m).1) ls m.

(** The two entries every directory has are no configuration files. *)
Lemma dots_not_conf name : is_conf_name name = true -> bool_decide (name = ".") || bool_decide (name = "..") = false.
Proof. intros Hn. destruct (bool_decide_reflect (name = ".")) as [->|]; [done|]. by destruct (bool_decide_reflect (name = "..")) as [->|]. Qed.

Lemma load_entries_returns names ls conf m :
  Forall2 (fun name => file_settings (env_file env (conf_dir +:+ "/" +:+ name))) (filter is_conf_name names) ls ->
  conf_rep conf m ->
  exists conf', returns (load_entries env st conf_dir names conf) conf' /\ conf_rep conf' (load_all ls m).
Proof.
  revert ls conf m. induction names as [|name names IH]; intros ls conf m Hls Hrep.
  - apply Forall2_nil_inv_l in Hls as ->. exists conf. split; [apply pret_returns|done].
  - cbn [load_entries]. rewrite filter_cons in Hls. destruct (is_conf_name name) eqn:En.
    + rewrite decide_True in Hls by done. apply Forall2_cons_inv_l in Hls as (l & ls' & Hl & Hls & ->).
      rewrite (dots_not_conf name En). cbn [fold_left load_all].
      destruct (load_file_returns conf m _ l Hl Hrep) as (conf1 & H1 & Hrep1).
      destruct (IH ls' conf1 _ Hls Hrep1) as (conf2 & H2 & Hrep2). exists conf2. split; [by eapply bind_returns|done].
    + rewrite decide_False in Hls by (by intros []). destruct (IH ls conf m Hls Hrep) as (conf' & H' & Hrep').
      exists conf'. split; [|done]. by case_match.
Qed.

Lemma load_conf_dir_returns conf m names ls :
  default [] (env_readdir env conf_dir) = names ->
  Forall2 (fun name => file_settings (env_file env (conf_dir +:+ "/" +:+ name))) (filter is_conf_name names) ls ->
  conf_rep conf m ->
  exists conf', returns (load_conf_dir paths env errno st conf) conf' /\ conf_rep conf' (load_all ls m).
Proof.
  intros Hnames Hls Hrep. unfold load_conf_dir. cbn [a6o_std_path].
  destruct (env_readdir env conf_dir) as [entries|]; cbn [default] in Hnames; subst names.
  - destruct (load_entries_returns entries ls conf m Hls Hrep) as (conf' & H' & Hrep'). exists conf'. split; [|done].
    eapply bind_returns; [by apply log_returns|done].
  - apply Forall2_nil_inv_l in Hls as ->. exists conf. split; [|done].
    eapply bind_returns; [by apply log_returns|]. eapply bind_returns; [by apply log_returns|apply pret_returns].
Qed.

Lemma server_socket_returns path :
  0 <= sv_socket (env_server env) /\ 0 <= sv_bind (env_server env) /\ 0 <= sv_listen (env_server env) ->
  Z.of_nat (String.length path) < UNIX_PATH_MAX ->
  returns (create_server_socket env errno st path) (sv_socket (env_server env)).
Proof.
  intros (Hs & Hb & Hl) Hpath. unfold create_server_socket.
  destruct (server_listens (env_server env) path Hs Hb Hl Hpath) as (calls & E).
  eapply bind_returns; [apply lift_returns; exact E|]. cbn [fst snd].
  rewrite (proj2 (Z.ltb_ge (sv_socket (env_server env)) 0)) by done. apply pret_returns.
Qed.

(** C16: Starting.  Unless forking, the session or the working directory fail, the PID
    file cannot be written or the socket cannot be opened, and whatever the level of the
    log, the daemon gets to its main loop with the modules opened on the following
    configuration: the settings of [armadito.conf], then of the files of [conf.d] whose
    name is longer than [".conf"] and ends with it, in the order of the directory, each
    file being read only up to its first setting that is already there; a file that
    cannot be opened has none.  The journal listens, and the socket is the one that was
    bound. *)
Theorem daemon_starts (progname : string) (opts : a6o_daemon_options) (w : W) (main : list setting)
    (names : list string) (extra : list (list setting))
    (Hfork : no_daemon opts = true \/ env_fork env = 0 /\ 0 <= env_setsid env /\ 0 <= env_chdir env)
    (Hpid : pid_file opts = None \/ env_pid_fopen env && env_pid_fprintf env && env_pid_fclose env = true)
    (Hmain : file_settings (env_file env (LIBARMADITO_CONF_DIR paths +:+ "/armadito.conf")) main)
    (Hnames : default [] (env_readdir env conf_dir) = names)
    (Hextra : Forall2 (fun name => file_settings (env_file env (conf_dir +:+ "/" +:+ name))) (filter is_conf_name names) extra)
    (Hsock : 0 <= sv_socket (env_server env) /\ 0 <= sv_bind (env_server env) /\ 0 <= sv_listen (env_server env))
    (Hpath : Z.of_nat (String.length (unix_path opts)) < UNIX_PATH_MAX) :
  exists conf, conf_rep conf (load_all (main :: extra) ∅) /\
    ends
      (r ← a6o_open dlopen builtin_modules conf
             (Some (LIBARMADITO_MODULES_PATH paths, module_tree (LIBARMADITO_MODULES_PATH paths))) w;
       Ok {| rn_conf := conf; rn_manager := r.1; rn_world := r.2;
             rn_source := journal_init JOURNAL_EVENT_CB a6o_event_source_new; rn_server_sock := sv_socket (env_server env) |})
      (start progname opts w).
Proof.
  destruct (load_file_returns a6o_conf_new ∅ _ main Hmain) as (conf1 & H1 & Hrep1); [by intros s k; rewrite lookup_empty|].
  destruct (load_conf_dir_returns conf1 _ names extra Hnames Hextra Hrep1) as (conf & H2 & Hrep).
  exists conf. split; [done|]. unfold start_daemon.
  eapply bind_ends.
  { destruct Hfork as [->|(Hf & Hs & Hc)]; [apply pret_returns|]. destruct (no_daemon opts); [apply pret_returns|].
    unfold daemonize. rewrite Hf, (proj2 (Z.ltb_ge (env_setsid env) 0)), (proj2 (Z.ltb_ge (env_chdir env) 0)) by done.
    apply pret_returns. }
  eapply bind_ends.
  { destruct Hpid as [->|Hp]; [apply pret_returns|]. destruct (pid_file opts); [|apply pret_returns].
    unfold create_pid_file. rewrite Hp. apply pret_returns. }
  eapply bind_ends; [by apply log_returns|]. eapply bind_ends; [exact H1|]. eapply bind_ends; [exact H2|].
  apply lift_ends. intros r. eapply bind_ends; [by apply server_socket_returns|].
  eapply bind_ends; [by apply log_returns|]. apply pret_returns.
Qed.

End starts.

(** ** A daemon with two configuration files *)

Definition sample_main : list section_entry :=
  [SectionEntry "on-demand" [KeyEntry "dir" (CvString (Some "/tmp")); KeyEntry "n" (CvInt 1)]].

(** Its third setting is already there: the fourth is never read. *)
Definition sample_extra : list section_entry :=
  [SectionEntry "clamav" [KeyEntry "n" (CvInt 3)];
   SectionEntry "on-demand" [KeyEntry "m" (CvInt 4); KeyEntry "n" (CvInt 5); KeyEntry "p" (CvInt 6)]].

Definition sample_files (path : string) : option (list ascii) :=
  if bool_decide (path = "/etc/armadito/armadito.conf") then Some (flat_map section_text sample_main)
  else if bool_decide (path = "/etc/armadito/conf.d/clamav.conf") then Some (flat_map section_text sample_extra)
  else None.

Definition sample_daemon_env : daemon_env :=
  {| env_fork := 0; env_setsid := 7; env_chdir := 0; env_pid_fopen := true; env_pid_fprintf := true; env_pid_fclose := true;
     env_readdir := fun _ => Some ["."; ".conf"; "clamav.conf"; "clamav.conf.bak"; ".."]; env_file := sample_files;
     env_server := ServerEnv 4 0 0 0 |}.

Definition sample_paths : build_paths := BuildPaths "/lib" "/etc/armadito" "/var/lib/armadito".

Lemma section_file secs :
  forallb saveable_section secs = true -> file_settings (Some (flat_map section_text secs)) (doc_settings (doc_of secs)).
Proof. intros Hs. exists (doc_of secs). split; [|done]. by apply lexes_sections. Qed.

Lemma daemon_starts_witness :
  exists conf, ends (r ← a6o_open log_dlopen log_builtin conf (Some ("/lib", log_dir)) [];
      Ok {| rn_conf := conf; rn_manager := r.1; rn_world := r.2;
            rn_source := journal_init JOURNAL_EVENT_CB a6o_event_source_new; rn_server_sock := 4 |})
    (start_daemon sample_paths sample_daemon_env "2" (log_init "" "7" "info" true) log_dlopen log_builtin (fun _ => log_dir)
       "armadito-scand" (DaemonOptions false DEFAULT_SOCKET_PATH "info" (Some "/run/x.pid")) []) /\
    (fun key => key_value conf key.1 key.2) <$> [("on-demand", "dir"); ("on-demand", "n"); ("on-demand", "m"); ("on-demand", "p"); ("clamav", "n")] =
    [Some (CvString (Some "/tmp")); Some (CvInt 1); Some (CvInt 4); None; Some (CvInt 3)].
Proof.
  destruct (daemon_starts sample_paths sample_daemon_env "2" (log_init "" "7" "info" true) log_dlopen log_builtin (fun _ => log_dir)
    "armadito-scand" (DaemonOptions false DEFAULT_SOCKET_PATH "info" (Some "/run/x.pid")) []
    (doc_settings (doc_of sample_main)) ["."; ".conf"; "clamav.conf"; "clamav.conf.bak"; ".."] [doc_settings (doc_of sample_extra)])
    as (conf & Hrep & Hends).
  - by right.
  - by right.
  - by apply section_file.
  - done.
  - apply list.Forall2_cons; split; [by apply section_file|constructor].
  - done.
  - done.
  - exists conf. split; [exact Hends|]. cbn [fmap list_fmap fst snd]. rewrite !(Hrep _ _). vm_compute. reflexivity.
Defined.
