(* ===== verification/Queue.v ===== *)
(** * The queue of file descriptors ([on-access/queue.c], [stamp.h]) and its watchdog ([watchdog.c])

    A doubly linked list of heap nodes.  The model keeps the memory of the nodes as
    a finite map from addresses: following a NULL pointer, or one to a node that was
    freed, is a fault.  The mutex of the queue makes each operation atomic; only the
    [free] of popped nodes, which no other thread can reach, happens outside it. *)
From S2P Require Import Prelude.

#[local] Open Scope Z_scope.

(** ** Time stamps *)

Definition ONE_SECOND : Z := 1000000000.

Record timespec := Timespec { tv_sec : Z; tv_nsec : Z }.

#[export] Instance timespec_eq_dec : EqDecision timespec.
Proof. solve_decision. Defined.

Definition stamp_cmp (s1 s2 : timespec) : Z :=
  if tv_sec s1 <? tv_sec s2 then -1
  else if tv_sec s1 >? tv_sec s2 then 1
  else if tv_nsec s1 <? tv_nsec s2 then -1
  else if tv_nsec s1 >? tv_nsec s2 then 1
  else 0.

Definition stamp_cpy (src : timespec) : timespec := {| tv_sec := tv_sec src; tv_nsec := tv_nsec src |}.

Definition stamp_add (dst src : timespec) : timespec :=
  let nsec := tv_nsec dst + tv_nsec src in
  let '(nsec, sec) := if nsec >=? ONE_SECOND then (nsec - ONE_SECOND, tv_sec dst + 1) else (nsec, tv_sec dst) in
  {| tv_sec := sec + tv_sec src; tv_nsec := nsec |}.

Definition stamp_sub (dst src : timespec) : timespec :=
  let nsec := tv_nsec dst - tv_nsec src in
  let '(nsec, sec) := if nsec <? 0 then (nsec + ONE_SECOND, tv_sec dst - 1) else (nsec, tv_sec dst) in
  {| tv_sec := sec - tv_sec src; tv_nsec := nsec |}.

(** ** Nodes and queues *)

Record queue_entry := QueueEntry { qe_fd : Z; qe_timestamp : timespec }.

#[export] Instance queue_entry_eq_dec : EqDecision queue_entry.
Proof. solve_decision. Defined.

Record queue_node := QueueNode {
  qn_entry : queue_entry;
  qn_prev : option positive;
  qn_next : option positive;
}.

Record queue := Queue {
  q_head : option positive;
  q_tail : option positive;
  q_nodes : gmap positive queue_node;      (** the nodes allocated and not freed *)
}.

Definition with_head (q : queue) (h : option positive) : queue :=
  {| q_head := h; q_tail := q_tail q; q_nodes := q_nodes q |}.
Definition with_tail (q : queue) (t : option positive) : queue :=
  {| q_head := q_head q; q_tail := t; q_nodes := q_nodes q |}.
Definition with_nodes (q : queue) (m : gmap positive queue_node) : queue :=
  {| q_head := q_head q; q_tail := q_tail q; q_nodes := m |}.

Definition deref (q : queue) (p : option positive) : outcome queue_node :=
  match p with
  | None => Fault NullDeref
  | Some a => match q_nodes q !! a with None => Fault UseAfterFree | Some n => Ok n end
  end.

(** [p->next = n] and [p->prev = n]. *)
Definition set_next (n : option positive) (x : queue_node) : queue_node :=
  {| qn_entry := qn_entry x; qn_prev := qn_prev x; qn_next := n |}.
Definition set_prev (n : option positive) (x : queue_node) : queue_node :=
  {| qn_entry := qn_entry x; qn_prev := n; qn_next := qn_next x |}.

Definition store_next (q : queue) (p n : option positive) : outcome queue :=
  _ ← deref q p; Ok (with_nodes q (match p with Some a => alter (set_next n) a (q_nodes q) | None => q_nodes q end)).
Definition store_prev (q : queue) (p n : option positive) : outcome queue :=
  _ ← deref q p; Ok (with_nodes q (match p with Some a => alter (set_prev n) a (q_nodes q) | None => q_nodes q end)).

(** [free(p)]; freeing twice is a fault. *)
Definition free_node (q : queue) (a : positive) : outcome queue :=
  _ ← deref q (Some a); Ok (with_nodes q (delete a (q_nodes q))).

Definition queue_new : queue := {| q_head := None; q_tail := None; q_nodes := ∅ |}.

(** [malloc] gives an address where no node lives. *)
Definition queue_node_new (q : queue) (fd : Z) (timestamp : timespec) : positive * queue :=
  let a := fresh (dom (q_nodes q)) in
  (a, with_nodes q (<[a := {| qn_entry := {| qe_fd := fd; qe_timestamp := stamp_cpy timestamp |};
                              qn_prev := None; qn_next := None |}]> (q_nodes q))).

Definition queue_push (q : queue) (fd : Z) (timestamp : timespec) : outcome queue :=
  let '(new_entry, q) := queue_node_new q fd timestamp in
  match q_head q with
  | None => Ok (with_tail (with_head q (Some new_entry)) (Some new_entry))
  | Some h =>
      q ← store_prev q (Some h) (Some new_entry);
      q ← store_next q (Some new_entry) (Some h);
      Ok (with_head q (Some new_entry))
  end.

Definition queue_remove (q : queue) (n : positive) : outcome queue :=
  x ← deref q (Some n);
  q ← match qn_prev x with
      | Some p => store_next q (Some p) (qn_next x)
      | None => Ok (with_head q (qn_next x))
      end;
  x ← deref q (Some n);
  match qn_next x with
  | Some p => store_prev q (Some p) (qn_prev x)
  | None => Ok (with_tail q (qn_prev x))
  end.

(** [while (n != NULL && n->entry.fd != fd) n = n->next;] *)
Fixpoint find_fd (fuel : nat) (q : queue) (n : option positive) (fd : Z) : outcome (option positive) :=
  match fuel with
  | O => Fault Diverges
  | S fuel =>
      match n with
      | None => Ok None
      | Some a =>
          x ← deref q (Some a);
          if negb (qe_fd (qn_entry x) =? fd) then find_fd fuel q (qn_next x) fd else Ok (Some a)
      end
  end.

(** The loops meet each node at most once: the number of nodes bounds them. *)
Definition loop_fuel (q : queue) : nat := S (size (q_nodes q)).

(** [None] is the return value 0. *)
Definition queue_pop_fd (q : queue) (fd : Z) : outcome (option queue_entry * queue) :=
  n ← find_fd (loop_fuel q) q (q_head q) fd;
  match n with
  | None => Ok (None, q)
  | Some a =>
      q ← queue_remove q a;
      x ← deref q (Some a);
      q ← free_node q a;
      Ok (Some (qn_entry x), q)
  end.

(** The loop of [queue_pop_timeout]: entries popped, nodes to free. *)
Fixpoint pop_loop (fuel : nat) (q : queue) (n : option positive) (before : timespec) (n_entries count : Z)
    : outcome (list queue_entry * list positive * queue) :=
  match fuel with
  | O => Fault Diverges
  | S fuel =>
      match n with
      | None => Ok ([], [], q)
      | Some a =>
          if negb (count <? n_entries) then Ok ([], [], q)
          else
          x ← deref q (Some a);
          if stamp_cmp (qe_timestamp (qn_entry x)) before <=? 0 then
            q ← queue_remove q a;
            x ← deref q (Some a);
            r ← pop_loop fuel q (qn_prev x) before n_entries (count + 1);
            Ok (qn_entry x :: r.1.1, a :: r.1.2, r.2)
          else pop_loop fuel q (qn_prev x) before n_entries count
      end
  end.

Fixpoint free_nodes (q : queue) (l : list positive) : outcome queue :=
  match l with
  | [] => Ok q
  | a :: l => q ← free_node q a; free_nodes q l
  end.

(** The value returned is the number of entries. *)
Definition queue_pop_timeout (q : queue) (before : timespec) (n_entries : Z) : outcome (list queue_entry * queue) :=
  r ← pop_loop (loop_fuel q) q (q_tail q) before n_entries 0;
  q ← free_nodes r.2 r.1.2;
  Ok (r.1.1, q).

(** ** The watchdog of permission events ([on-access/watchdog.c])

    A thread that answers permission events that stay unanswered too long.  The file
    undefines [ENABLE_WATCHDOG] before anything else, so the program runs the
    branches below with [ENABLE_WATCHDOG = false]: nothing is queued and no thread is
    started. *)

Definition ENABLE_WATCHDOG : bool := false.

Definition ONE_NANOSECOND : Z := 1.
Definition ONE_MICROSECOND : Z := 1000 * ONE_NANOSECOND.
Definition N_FD : Z := 100.
Definition TIMEOUT : Z := 100000.

Record watchdog := Watchdog {
  wd_started : bool;               (** the timeout thread runs *)
  wd_queue : option queue;         (** not initialised when the thread is not started *)
}.

Definition watchdog_new : watchdog :=
  if ENABLE_WATCHDOG then {| wd_started := true; wd_queue := Some queue_new |}
  else {| wd_started := false; wd_queue := None |}.

Definition with_queue {A} (w : watchdog) (f : queue -> outcome (A * queue)) : outcome (A * watchdog) :=
  match wd_queue w with
  | None => Fault UninitRead
  | Some q => r ← f q; Ok (r.1, {| wd_started := wd_started w; wd_queue := Some r.2 |})
  end.

Definition watchdog_add (w : watchdog) (fd : Z) (now : timespec) : outcome watchdog :=
  if negb ENABLE_WATCHDOG then Ok w
  else r ← with_queue w (fun q => q ← queue_push q fd now; Ok (tt, q)); Ok r.2.

(** The callers pass no [after]. *)
Definition watchdog_remove (w : watchdog) (fd : Z) : outcome (bool * watchdog) :=
  if negb ENABLE_WATCHDOG then Ok (true, w)
  else with_queue w (fun q => r ← queue_pop_fd q fd;
                              Ok (match r.1 with Some _ => true | None => false end, r.2)).

(** One turn of [watchdog_thread_fun]: the descriptors it answers with [FAN_ALLOW]. *)
Definition watchdog_thread_turn (w : watchdog) (now : timespec) : outcome (list Z * watchdog) :=
  let before := stamp_sub now {| tv_sec := 0; tv_nsec := TIMEOUT * ONE_MICROSECOND |} in
  with_queue w (fun q => r ← queue_pop_timeout q before N_FD; Ok (map qe_fd r.1, r.2)).
