(* ===== verification/QueueSpec.v ===== *)
(** * The queue of file descriptors refines a list of entries

    The abstract queue is the list of its entries, newest first.  The doubly linked
    list represents it: the segment predicate [dseg] follows the [next] pointers,
    checks the [prev] ones, and splits and joins like lists do. *)
From S2P Require Import Prelude Queue.

#[local] Open Scope Z_scope.
#[local] Set Warnings "-clear-no-such-hyp".

(** ** Doubly linked segments *)

#[local] Abbreviation cells := (list (positive * queue_entry)).

Definition first_or (al : cells) (nx : option positive) : option positive :=
  match al with [] => nx | (a, _) :: _ => Some a end.

Fixpoint last_or (p : option positive) (al : cells) : option positive :=
  match al with [] => p | (a, _) :: al => last_or (Some a) al end.

(** [dseg m p al nx]: the cells [al] are linked in the memory [m], between the
    node [p] and the node [nx]. *)
Fixpoint dseg (m : gmap positive queue_node) (p : option positive) (al : cells) (nx : option positive) : Prop :=
  match al with
  | [] => True
  | (a, e) :: al =>
      m !! a = Some {| qn_entry := e; qn_prev := p; qn_next := first_or al nx |} /\ dseg m (Some a) al nx
  end.

(** The cells linked from the head to the tail. *)
Record linked (q : queue) (al : cells) : Prop := Linked {
  linked_nodup : NoDup al.*1;
  linked_head : q_head q = first_or al None;
  linked_tail : q_tail q = last_or None al;
  linked_seg : dseg (q_nodes q) None al None;
}.

(** A queue between two operations: the allocated nodes are the linked ones. *)
Definition represents (q : queue) (al : cells) : Prop :=
  linked q al /\ dom (q_nodes q) = list_to_set al.*1.

Lemma first_or_app l1 l2 nx : first_or (l1 ++ l2) nx = first_or l1 (first_or l2 nx).
Proof. by destruct l1 as [|[]]. Qed.

Lemma last_or_app p l1 l2 : last_or p (l1 ++ l2) = last_or (last_or p l1) l2.
Proof. revert p. induction l1 as [|[a e] l1 IH]; intros p; simpl; [done|apply IH]. Qed.

Lemma dseg_app m p l1 l2 nx :
  dseg m p (l1 ++ l2) nx <-> dseg m p l1 (first_or l2 nx) /\ dseg m (last_or p l1) l2 nx.
Proof.
  revert p. induction l1 as [|[a e] l1 IH]; intros p; simpl; [tauto|].
  rewrite first_or_app, IH. tauto.
Qed.

Lemma dseg_frame m m' p al nx :
  (forall a, a ∈ al.*1 -> m' !! a = m !! a) -> dseg m p al nx -> dseg m' p al nx.
Proof.
  revert p. induction al as [|[a e] al IH]; intros p Hm; simpl; [done|]. intros [H1 H2].
  split; [rewrite Hm; [done|by left]|]. apply IH; [|done]. intros b Hb. apply Hm. by right.
Qed.

(** What a write to a node outside of the segment leaves. *)
Lemma dseg_alter_ne f b m p al nx : b ∉ al.*1 -> dseg m p al nx -> dseg (alter f b m) p al nx.
Proof. intros Hb. apply dseg_frame. intros a Ha. apply lookup_alter_ne. by intros ->. Qed.

Lemma dseg_insert_ne x b m p al nx : b ∉ al.*1 -> dseg m p al nx -> dseg (<[b := x]> m) p al nx.
Proof. intros Hb. apply dseg_frame. intros a Ha. apply lookup_insert_ne. by intros ->. Qed.

Lemma dseg_set_next b e m p l nx nx' :
  b ∉ l.*1 -> dseg m p (l ++ [(b, e)]) nx -> dseg (alter (set_next nx') b m) p (l ++ [(b, e)]) nx'.
Proof.
  intros Hb. rewrite !dseg_app. simpl. intros (H1 & H2 & _).
  split_and!; [by apply dseg_alter_ne| |done]. by rewrite lookup_alter_eq, H2.
Qed.

Lemma dseg_set_prev b e m p p' l nx :
  b ∉ l.*1 -> dseg m p ((b, e) :: l) nx -> dseg (alter (set_prev p') b m) p' ((b, e) :: l) nx.
Proof.
  simpl. intros Hb (H1 & H2). split; [by rewrite lookup_alter_eq, H1|by apply dseg_alter_ne].
Qed.

Lemma last_or_lookup m l a : dseg m None l a -> forall b, last_or None l = Some b -> is_Some (m !! b).
Proof.
  destruct l as [|[c e] l _] using rev_ind; [done|]. rewrite last_or_app, dseg_app. simpl.
  intros (_ & H & _) b [= <-]. eauto.
Qed.

Lemma dseg_length m p al nx : NoDup al.*1 -> dseg m p al nx -> (length al <= size m)%nat.
Proof.
  intros Hnd Hs. rewrite <- size_dom.
  transitivity (size (list_to_set al.*1 : gset positive)).
  { by rewrite size_list_to_set, length_fmap. }
  apply subseteq_size. clear Hnd. revert p Hs. induction al as [|[a e] al IH]; intros p; simpl; [set_solver|].
  intros [H1 H2]. pose proof (IH _ H2). assert (a ∈ dom m) by (apply elem_of_dom; eauto).
  apply union_subseteq. split; [by apply singleton_subseteq_l|done].
Qed.

(** ** Removing a node *)

Lemma deref_Ok q a x : q_nodes q !! a = Some x -> deref q (Some a) = Ok x.
Proof. simpl. by intros ->. Qed.

Lemma NoDup_mid (l1 l2 : cells) a e :
  NoDup (l1 ++ (a, e) :: l2).*1 -> NoDup (l1 ++ l2).*1 /\ (a ∉ l1.*1) /\ (a ∉ l2.*1).
Proof.
  rewrite fmap_app, fmap_cons, (Permutation_app_comm _ (_ :: _)). cbn [app fst].
  rewrite list.NoDup_cons, elem_of_app. rewrite fmap_app, (Permutation_app_comm _ (fst <$> l2)). tauto.
Qed.

Lemma store_next_Ok q a n x :
  q_nodes q !! a = Some x -> store_next q (Some a) n = Ok (with_nodes q (alter (set_next n) a (q_nodes q))).
Proof. intros H. unfold store_next. by rewrite (deref_Ok q a x H). Qed.

Lemma store_prev_Ok q a n x :
  q_nodes q !! a = Some x -> store_prev q (Some a) n = Ok (with_nodes q (alter (set_prev n) a (q_nodes q))).
Proof. intros H. unfold store_prev. by rewrite (deref_Ok q a x H). Qed.

(** The first half of [queue_remove] relinks the predecessor or the head, the
    second half the successor or the tail. *)
Lemma relink_next q l1 a e l2 :
  linked q (l1 ++ (a, e) :: l2) ->
  exists q', (match last_or None l1 with
         | Some p => store_next q (Some p) (first_or l2 None)
         | None => Ok (with_head q (first_or l2 None))
         end = Ok q') /\
    q_head q' = first_or (l1 ++ l2) None /\ q_tail q' = q_tail q /\
    dseg (q_nodes q') None l1 (first_or l2 None) /\
    (forall b, b ∉ l1.*1 -> q_nodes q' !! b = q_nodes q !! b) /\ dom (q_nodes q') = dom (q_nodes q).
Proof.
  intros [Hnd Hh _ Hs]. apply dseg_app in Hs as [Hs1 _]. rewrite !first_or_app in *.
  destruct l1 as [|[b eb] l1 _] using rev_ind; [by eexists|].
  rewrite last_or_app in *. simpl.
  assert (q_nodes q !! b <> None) as Hb.
  { apply dseg_app in Hs1 as [_ [Hb _]]. by rewrite Hb. }
  destruct (q_nodes q !! b) as [x|] eqn:Eb; [|done]. rewrite (store_next_Ok q b _ x Eb).
  eexists. split; [done|]. simpl. split_and!.
  - rewrite Hh. by destruct l1 as [|[]].
  - done.
  - eapply dseg_set_next; [|done]. apply NoDup_mid in Hnd as [Hnd _].
    rewrite !fmap_app in Hnd. cbn in Hnd. rewrite <- app_assoc in Hnd.
    apply list.NoDup_app in Hnd as (_ & Hd & _). intros Hin. apply (Hd _ Hin). by left.
  - intros c Hc. apply lookup_alter_ne. intros ->. apply Hc. rewrite fmap_app. set_solver.
  - apply dom_alter_L.
Qed.

Lemma relink_prev q l1 a e l2 :
  NoDup (l1 ++ (a, e) :: l2).*1 -> q_tail q = last_or None (l1 ++ (a, e) :: l2) ->
  dseg (q_nodes q) None l1 (first_or l2 None) -> dseg (q_nodes q) (Some a) l2 None ->
  exists q', match first_or l2 None with
         | Some p => store_prev q (Some p) (last_or None l1)
         | None => Ok (with_tail q (last_or None l1))
         end = Ok q' /\
    q_head q' = q_head q /\ q_tail q' = last_or None (l1 ++ l2) /\
    dseg (q_nodes q') None (l1 ++ l2) None /\
    (forall b, b ∉ l2.*1 -> q_nodes q' !! b = q_nodes q !! b) /\ dom (q_nodes q') = dom (q_nodes q).
Proof.
  intros Hnd Ht H1 H2. rewrite !last_or_app in *. simpl in Ht.
  destruct l2 as [|[b eb] l2]; simpl.
  { eexists. split; [done|]. rewrite app_nil_r. by split_and!. }
  destruct H2 as [Hb H2]. rewrite (store_prev_Ok q b _ _ Hb).
  eexists. split; [done|]. simpl. apply NoDup_mid in Hnd as (Hnd & _ & _).
  apply NoDup_mid in Hnd as (_ & Hb1 & Hb2). split_and!; [done|done| | |].
  - apply dseg_app. split; [by apply dseg_alter_ne|].
    apply (dseg_set_prev _ _ _ (Some a)); [done|]. by split.
  - intros c Hc. apply lookup_alter_ne. intros ->. apply Hc. by left.
  - apply dom_alter_L.
Qed.

Lemma queue_remove_spec q l1 a e l2 :
  linked q (l1 ++ (a, e) :: l2) ->
  exists q', queue_remove q a = Ok q' /\ linked q' (l1 ++ l2) /\
    q_nodes q' !! a = Some {| qn_entry := e; qn_prev := last_or None l1; qn_next := first_or l2 None |} /\
    (forall b, b ∉ (l1 ++ (a, e) :: l2).*1 -> q_nodes q' !! b = q_nodes q !! b) /\
    dom (q_nodes q') = dom (q_nodes q).
Proof.
  intros Hl. pose proof Hl as [Hnd Hh Ht Hs]. apply dseg_app in Hs as [_ [Ha Hs2]].
  pose proof (NoDup_mid _ _ _ _ Hnd) as (Hnd' & Ha1 & Ha2).
  destruct (relink_next q l1 a e l2 Hl) as (q1 & E1 & Hh1 & Ht1 & Hs1 & Hf1 & Hd1).
  destruct (relink_prev q1 l1 a e l2) as (q2 & E2 & Hh2 & Ht2 & Hs' & Hf2 & Hd2);
    [done|congruence|done| |].
  { eapply dseg_frame; [|done]. intros b Hb. apply Hf1. intros Hb1.
    rewrite fmap_app in Hnd'. apply list.NoDup_app in Hnd' as (_ & Hd & _). by apply (Hd b). }
  unfold queue_remove. rewrite (deref_Ok q a _ Ha), bind_Ok. cbn [qn_prev qn_next].
  rewrite E1, bind_Ok.
  rewrite (deref_Ok q1 a {| qn_entry := e; qn_prev := last_or None l1; qn_next := first_or l2 None |})
    by (by rewrite Hf1).
  rewrite bind_Ok. cbn [qn_prev qn_next]. rewrite E2. exists q2. split; [done|]. split_and!.
  - split; [done|congruence|done|done].
  - by rewrite Hf2, Hf1.
  - intros b Hb. rewrite fmap_app, fmap_cons, elem_of_app, elem_of_cons in Hb.
    rewrite Hf2, Hf1 by tauto. done.
  - congruence.
Qed.

(** ** Freeing nodes that are no longer linked *)

Lemma linked_frame q q' al :
  q_head q' = q_head q -> q_tail q' = q_tail q ->
  (forall a, a ∈ al.*1 -> q_nodes q' !! a = q_nodes q !! a) -> linked q al -> linked q' al.
Proof. intros Eh Et Em [Hnd Hh Ht Hs]. split; [done|congruence|congruence|by eapply dseg_frame]. Qed.

Lemma free_nodes_spec q al l :
  linked q al -> NoDup l -> (forall a, a ∈ l -> a ∈ dom (q_nodes q) /\ a ∉ al.*1) ->
  exists q', free_nodes q l = Ok q' /\ linked q' al /\ dom (q_nodes q') = dom (q_nodes q) ∖ list_to_set l.
Proof.
  intros Hl Hnd. revert q Hl. induction Hnd as [|a l Ha Hnd IH]; intros q Hl Hin.
  { exists q. split_and!; [done|done|]. symmetry. apply difference_empty_L. }
  destruct (Hin a) as [[x Hx]%elem_of_dom Hal]; [by left|]. cbn [free_nodes].
  unfold free_node. rewrite (deref_Ok q a x Hx). cbn.
  destruct (IH (with_nodes q (delete a (q_nodes q)))) as (q' & E & Hl' & Hd).
  - apply (linked_frame q); [done|done| |done]. intros b Hb. apply lookup_delete_ne. by intros ->.
  - intros b Hb. simpl. rewrite dom_delete_L. destruct (Hin b) as [Hdom Hb']; [by right|]. split; [|done].
    apply elem_of_difference. split; [done|]. intros ->%elem_of_singleton. done.
  - exists q'. rewrite E, Hd. split_and!; [done|done|]. simpl. rewrite dom_delete_L. apply difference_difference_l_L.
Qed.

(** Freeing the popped nodes gives back a represented queue. *)
Lemma represents_freed q al l :
  linked q al -> NoDup (l ++ al.*1) -> dom (q_nodes q) = list_to_set (l ++ al.*1) ->
  exists q', free_nodes q l = Ok q' /\ represents q' al.
Proof.
  intros Hl (Hnd & Hdis & _)%list.NoDup_app Hd. destruct (free_nodes_spec q al l) as (q' & E & Hl' & Hd'); [done..| |].
  { intros a Ha. rewrite Hd, elem_of_list_to_set, elem_of_app. split; [by left|by apply Hdis]. }
  exists q'. split; [done|]. split; [done|]. rewrite Hd', Hd, list_to_set_app_L.
  apply set_eq. intros a. specialize (Hdis a). rewrite elem_of_difference, elem_of_union, !elem_of_list_to_set. tauto.
Qed.

(** ** The abstract queue *)

Fixpoint remove_fd (fd : Z) (l : list queue_entry) : option queue_entry * list queue_entry :=
  match l with
  | [] => (None, [])
  | e :: l =>
      if qe_fd e =? fd then (Some e, l)
      else let r := remove_fd fd l in (r.1, e :: r.2)
  end.

Definition expired (before : timespec) (e : queue_entry) : Prop :=
  stamp_cmp (qe_timestamp e) before <= 0.

#[export] Instance expired_dec before e : Decision (expired before e).
Proof. unfold expired. apply _. Defined.

(** The list without its first [n] expired entries. *)
Fixpoint drop_expired (before : timespec) (n : nat) (l : list queue_entry) : list queue_entry :=
  match n, l with
  | O, _ => l
  | _, [] => []
  | S n', e :: l => if decide (expired before e) then drop_expired before n' l else e :: drop_expired before n l
  end.

Lemma remove_fd_split fd l1 e l2 :
  Forall (fun e => qe_fd e <> fd) l1 -> qe_fd e = fd -> remove_fd fd (l1 ++ e :: l2) = (Some e, l1 ++ l2).
Proof.
  intros H1 He. induction H1 as [|e1 l1 Hne H1 IH]; cbn.
  - by rewrite He, Z.eqb_refl.
  - destruct (Z.eqb_spec (qe_fd e1) fd); [done|]. by rewrite IH.
Qed.

Lemma remove_fd_none fd l : Forall (fun e => qe_fd e <> fd) l -> remove_fd fd l = (None, l).
Proof.
  induction 1 as [|e l Hne Hl IH]; cbn; [done|].
  destruct (Z.eqb_spec (qe_fd e) fd); [done|]. by rewrite IH.
Qed.

(** ** The operations *)

Lemma push_spec q al fd ts :
  represents q al ->
  exists q' a, queue_push q fd ts = Ok q' /\ represents q' ((a, {| qe_fd := fd; qe_timestamp := ts |}) :: al).
Proof.
  intros [[Hnd Hh Ht Hs] Hd]. unfold queue_push, queue_node_new.
  pose proof (is_fresh (dom (q_nodes q))) as Hf. set (a := fresh (dom (q_nodes q))) in *.
  assert (a ∉ al.*1) as Ha by (by rewrite <- (elem_of_list_to_set (C:=gset positive)), <- Hd).
  assert (forall x, dseg (<[a := x]> (q_nodes q)) None al None) as Hins by (intros; by apply dseg_insert_ne).
  replace (stamp_cpy ts) with ts by (by destruct ts).
  cbn [q_head with_nodes]. rewrite Hh. destruct al as [|[h eh] al]; cbn [first_or].
  { eexists _, a. split; [done|]. split; [split|]; simpl.
    - apply list.NoDup_singleton.
    - done.
    - done.
    - by rewrite lookup_insert_eq.
    - rewrite dom_insert_L, Hd. simpl. set_solver. }
  assert (a <> h) as Hah by (intros ->; apply Ha; by left).
  specialize (Hins (QueueNode (QueueEntry fd ts) None None)). pose proof Hins as [Hh' _].
  erewrite store_prev_Ok; [|exact Hh']. rewrite bind_Ok.
  assert (forall f m y, m !! a = Some y -> (alter f h m : gmap positive queue_node) !! a = Some y) as Hal
    by (intros f m y Hy; by rewrite lookup_alter_ne).
  rewrite (store_next_Ok _ a _ (QueueNode (QueueEntry fd ts) None None)) by (apply Hal, lookup_insert_eq).
  rewrite bind_Ok. eexists _, a. split; [done|]. split; [split|]; simpl.
  - apply list.NoDup_cons. by split.
  - done.
  - done.
  - rewrite lookup_alter_eq, (Hal _ _ (QueueNode (QueueEntry fd ts) None None)) by apply lookup_insert_eq.
    split; [done|]. apply (dseg_alter_ne _ a _ _ ((h, eh) :: al)); [done|].
    apply (dseg_set_prev _ _ _ None); [|done]. by apply list.NoDup_cons in Hnd as [].
  - rewrite !dom_alter_L, dom_insert_L, Hd. done.
Qed.

Lemma find_fd_spec q fd p l2 fuel :
  dseg (q_nodes q) p l2 None -> (length l2 < fuel)%nat ->
  (find_fd fuel q (first_or l2 None) fd = Ok None /\ Forall (fun e => qe_fd e <> fd) l2.*2) \/
  exists k1 a e k2, l2 = k1 ++ (a, e) :: k2 /\ Forall (fun e => qe_fd e <> fd) k1.*2 /\ qe_fd e = fd /\
    find_fd fuel q (first_or l2 None) fd = Ok (Some a).
Proof.
  revert p l2. induction fuel as [|fuel IH]; intros p l2 Hs Hlen; [lia|].
  destruct l2 as [|[a e] l2]; [left; by split|]. destruct Hs as [Ha Hs].
  cbn [first_or find_fd]. rewrite (deref_Ok q a _ Ha), bind_Ok. cbn [qn_entry qn_next].
  destruct (Z.eqb_spec (qe_fd e) fd) as [E|E]; simpl.
  { right. exists [], a, e, l2. split_and!; [done|constructor|done|done]. }
  destruct (IH (Some a) l2 Hs) as [[-> Hl]|(k1 & b & eb & k2 & -> & Hk & Eb & ->)]; [simpl in Hlen; lia| |].
  - left. split; [done|by constructor].
  - right. exists ((a, e) :: k1), b, eb, k2. split_and!; [done|by constructor|done|done].
Qed.

Lemma represents_fuel q al : represents q al -> (length al < loop_fuel q)%nat.
Proof. intros [[Hnd _ _ Hs] _]. unfold loop_fuel. pose proof (dseg_length _ _ _ _ Hnd Hs). lia. Qed.

Lemma pop_fd_spec q al fd :
  represents q al ->
  exists q' al', queue_pop_fd q fd = Ok ((remove_fd fd al.*2).1, q') /\
    represents q' al' /\ al'.*2 = (remove_fd fd al.*2).2.
Proof.
  intros Hr. pose proof Hr as [Hl Hd]. unfold queue_pop_fd. rewrite (linked_head _ _ Hl).
  destruct (find_fd_spec q fd None al (loop_fuel q)) as [[-> H]|(l1 & a & e & l2 & -> & H1 & He & ->)];
    [apply Hl|by apply represents_fuel| |]; rewrite bind_Ok.
  { rewrite remove_fd_none by done. by exists q, al. }
  destruct (queue_remove_spec q l1 a e l2 Hl) as (q1 & -> & Hl1 & Ha & _ & Hd1). rewrite bind_Ok.
  rewrite (deref_Ok q1 a _ Ha), bind_Ok. pose proof (NoDup_mid _ _ _ _ (linked_nodup _ _ Hl)) as (_ & Hn1 & Hn2).
  destruct (represents_freed q1 (l1 ++ l2) [a]) as (q2 & E2 & Hr2); [done| | |].
  - rewrite fmap_app. pose proof (linked_nodup _ _ Hl) as Hnd. rewrite fmap_app, fmap_cons in Hnd.
    cbn [app]. by rewrite (Permutation_middle l1.*1 l2.*1 a).
  - rewrite Hd1, Hd. apply list_to_set_perm_L. rewrite !fmap_app, fmap_cons.
    cbn [app]. symmetry. apply Permutation_middle.
  - cbn [free_nodes] in E2. destruct (free_node q1 a) as [q2'|]; [|done]. injection E2 as ->.
    rewrite bind_Ok. exists q2, (l1 ++ l2). cbn [qn_entry]. rewrite !fmap_app, fmap_cons.
    by rewrite (remove_fd_split fd l1.*2 e l2.*2).
Qed.

Lemma pop_loop_spec before n fuel : forall q l1 l2 count,
  linked q (l1 ++ l2) -> (length l1 < fuel)%nat ->
  let k := Z.to_nat (n - count) in
  exists popped kept q',
    pop_loop fuel q (last_or None l1) before n count = Ok (popped.*2, popped.*1, q') /\
    linked q' (kept ++ l2) /\ dom (q_nodes q') = dom (q_nodes q) /\ l1 ≡ₚ popped ++ kept /\
    popped.*2 = take k (filter (expired before) (reverse l1.*2)) /\
    kept.*2 = reverse (drop_expired before k (reverse l1.*2)).
Proof.
  induction fuel as [|fuel IH]; intros q l1 l2 count Hl Hlen k; [lia|].
  destruct l1 as [|[a e] l1 _] using rev_ind.
  { exists [], [], q. split_and!; try done; simpl; [by destruct k|by destruct k]. }
  rewrite fmap_app, reverse_app, last_or_app. cbn [last_or pop_loop].
  change (reverse [(a, e)].*2 ++ reverse l1.*2) with (e :: reverse l1.*2).
  destruct (Z.ltb_spec count n) as [Hc|Hc]; cbn [negb]; cycle 1.
  { exists [], (l1 ++ [(a, e)]), q. unfold k. rewrite Z2Nat.nonpos by lia. split_and!; try done.
    rewrite fmap_app. cbn [drop_expired]. by rewrite reverse_cons, reverse_involutive. }
  assert (k = S (Z.to_nat (n - (count + 1)))) as Ek by lia.
  rewrite length_app in Hlen. simpl in Hlen. rewrite <- app_assoc in Hl. cbn [app] in Hl.
  pose proof (linked_seg _ _ Hl) as [_ [Ha _]]%dseg_app.
  rewrite (deref_Ok q a _ Ha), bind_Ok. cbn [qn_entry qn_prev]. rewrite Ek, filter_cons. cbn [drop_expired].
  destruct (decide (expired before e)) as [He|He]; unfold expired in He.
  - rewrite (proj2 (Z.leb_le _ _) He).
    destruct (queue_remove_spec q l1 a e l2 Hl) as (q1 & -> & Hl1 & Ha1 & _ & Hd1).
    rewrite bind_Ok, (deref_Ok q1 a _ Ha1), bind_Ok. cbn [qn_entry qn_prev].
    destruct (IH q1 l1 l2 (count + 1) Hl1) as (pp & kept & q' & -> & Hl' & Hd' & Hp & E1 & E2); [lia|].
    rewrite bind_Ok. exists ((a, e) :: pp), kept, q'. split_and!; try done; [congruence| |].
    + rewrite Hp. cbn. rewrite <- Permutation_cons_append. done.
    + cbn. by rewrite E1.
  - rewrite (proj2 (Z.leb_gt _ _)) by lia.
    destruct (IH q l1 ((a, e) :: l2) count Hl) as (pp & kept & q' & -> & Hl' & Hd' & Hp & E1 & E2); [lia|].
    exists pp, (kept ++ [(a, e)]), q'. fold k in E1, E2. rewrite Ek in E1, E2. split_and!; try done.
    + by rewrite <- app_assoc.
    + rewrite Hp. by rewrite app_assoc.
    + rewrite fmap_app, E2. by rewrite reverse_cons.
Qed.

Lemma pop_timeout_spec q al before n :
  represents q al ->
  let old := reverse al.*2 in
  exists q' al', queue_pop_timeout q before n = Ok (take (Z.to_nat n) (filter (expired before) old), q') /\
    represents q' al' /\ al'.*2 = reverse (drop_expired before (Z.to_nat n) old).
Proof.
  intros Hr old. pose proof Hr as [Hl Hd]. unfold queue_pop_timeout. rewrite (linked_tail _ _ Hl).
  destruct (pop_loop_spec before n (loop_fuel q) q al [] 0) as (pp & kept & q1 & -> & Hl1 & Hd1 & Hp & E1 & E2).
  { by rewrite app_nil_r. }
  { by apply represents_fuel. }
  rewrite app_nil_r in Hl1. rewrite Z.sub_0_r in E1, E2. rewrite bind_Ok. cbn [fst snd].
  destruct (represents_freed q1 kept pp.*1) as (q2 & -> & Hr2); [done| | |].
  - rewrite <- fmap_app, <- Hp. apply Hl.
  - rewrite Hd1, Hd. apply list_to_set_perm_L. by rewrite <- fmap_app, <- Hp.
  - rewrite bind_Ok. exists q2, kept. by rewrite E1.
Qed.

(** ** Sequences of operations *)

Inductive queue_op :=
  | Push (fd : Z) (timestamp : timespec)
  | PopFd (fd : Z)
  | PopTimeout (before : timespec) (n_entries : Z).

(** Each operation yields the entries popped. *)
Definition queue_step (q : queue) (o : queue_op) : outcome (list queue_entry * queue) :=
  match o with
  | Push fd ts => q ← queue_push q fd ts; Ok ([], q)
  | PopFd fd => r ← queue_pop_fd q fd; Ok (option_list r.1, r.2)
  | PopTimeout before n => queue_pop_timeout q before n
  end.

Fixpoint queue_run (q : queue) (ops : list queue_op) : outcome (list (list queue_entry) * queue) :=
  match ops with
  | [] => Ok ([], q)
  | o :: ops => r ← queue_step q o; rs ← queue_run r.2 ops; Ok (r.1 :: rs.1, rs.2)
  end.

Definition spec_step (l : list queue_entry) (o : queue_op) : list queue_entry * list queue_entry :=
  match o with
  | Push fd ts => ([], {| qe_fd := fd; qe_timestamp := ts |} :: l)
  | PopFd fd => (option_list (remove_fd fd l).1, (remove_fd fd l).2)
  | PopTimeout before n =>
      (take (Z.to_nat n) (filter (expired before) (reverse l)),
       reverse (drop_expired before (Z.to_nat n) (reverse l)))
  end.

Fixpoint spec_run (l : list queue_entry) (ops : list queue_op) : list (list queue_entry) * list queue_entry :=
  match ops with
  | [] => ([], l)
  | o :: ops => let r := spec_step l o in let rs := spec_run r.2 ops in (r.1 :: rs.1, rs.2)
  end.

Lemma queue_step_refines q al o :
  represents q al ->
  exists q' al', queue_step q o = Ok ((spec_step al.*2 o).1, q') /\
    represents q' al' /\ al'.*2 = (spec_step al.*2 o).2.
Proof.
  intros Hr. destruct o as [fd ts|fd|before n]; cbn [queue_step spec_step fst snd].
  - destruct (push_spec q al fd ts Hr) as (q' & a & -> & Hr'). by eexists _, _.
  - destruct (pop_fd_spec q al fd Hr) as (q' & al' & -> & Hr' & E). by eexists _, _.
  - apply (pop_timeout_spec q al before n Hr).
Qed.

Lemma queue_run_refines ops : forall q al,
  represents q al ->
  exists q' al', queue_run q ops = Ok ((spec_run al.*2 ops).1, q') /\
    represents q' al' /\ al'.*2 = (spec_run al.*2 ops).2.
Proof.
  induction ops as [|o ops IH]; intros q al Hr; [by exists q, al|].
  destruct (queue_step_refines q al o Hr) as (q1 & al1 & E1 & Hr1 & El1).
  destruct (IH q1 al1 Hr1) as (q2 & al2 & E2 & Hr2 & El2).
  exists q2, al2. cbn [queue_run spec_run fst snd]. rewrite E1, bind_Ok. cbn [fst snd].
  rewrite E2, bind_Ok, <- El1. by split_and!.
Qed.

Lemma represents_new : represents queue_new [].
Proof. split; [split|]; try done. simpl. apply NoDup_nil_2. Qed.

(** C23: The queue of file descriptors is a list: from a new queue, any sequence of
    pushes, pops by descriptor and pops by age runs without ever following a NULL or
    dangling pointer or freeing a node twice, pops exactly what the list of entries
    says (a pop by descriptor the newest entry of that descriptor, a pop by age the
    oldest expired entries up to the size of the array), and leaves a well-linked
    list of the remaining entries, with no other node still allocated. *)
Theorem queue_refines_list (ops : list queue_op) :
  exists q al, queue_run queue_new ops = Ok ((spec_run [] ops).1, q) /\
    represents q al /\ al.*2 = (spec_run [] ops).2 /\
    size (q_nodes q) = length (spec_run [] ops).2.
Proof.
  destruct (queue_run_refines ops queue_new [] represents_new) as (q & al & E & Hr & El).
  exists q, al. split_and!; [done|done|done|]. destruct Hr as [Hl Hd].
  cbn in El. rewrite <- El, <- size_dom, Hd, size_list_to_set by apply Hl. by rewrite !length_fmap.
Qed.

(** ** Time stamps *)

Definition stamp_ns (s : timespec) : Z := tv_sec s * ONE_SECOND + tv_nsec s.
Definition normalised (s : timespec) : Prop := 0 <= tv_nsec s < ONE_SECOND.

(** Time stamps are numbers of nanoseconds: on normalised stamps the comparison
    is the order of those numbers, and addition and subtraction add and subtract
    them and give a normalised stamp. *)
Theorem stamp_arithmetic (a b : timespec) (Ha : normalised a) (Hb : normalised b) :
  stamp_cmp a b = Z.sgn (stamp_ns a - stamp_ns b) /\
  normalised (stamp_add a b) /\ stamp_ns (stamp_add a b) = stamp_ns a + stamp_ns b /\
  normalised (stamp_sub a b) /\ stamp_ns (stamp_sub a b) = stamp_ns a - stamp_ns b.
Proof.
  destruct a as [s1 n1], b as [s2 n2].
  unfold normalised, stamp_ns, stamp_cmp, stamp_add, stamp_sub, ONE_SECOND in *; simpl in *.
  split; [|repeat case_match; simplify_eq; simpl; lia].
  rewrite !Z.gtb_ltb. repeat (case_match; try lia).
Qed.

Lemma stamp_arithmetic_witness :
  stamp_cmp (Timespec 5 0) (Timespec 4 999999999) = Z.sgn (stamp_ns (Timespec 5 0) - stamp_ns (Timespec 4 999999999)) /\
  normalised (stamp_sub (Timespec 5 0) (Timespec 0 100000000)).
Proof.
  split; [apply (stamp_arithmetic (Timespec 5 0) (Timespec 4 999999999))
         |apply (stamp_arithmetic (Timespec 5 0) (Timespec 0 100000000))];
    unfold normalised, ONE_SECOND; simpl; lia.
Defined.

(** Three descriptors queued, one answered, the others popped by age. *)
Example queue_session :
  fst <$> queue_run queue_new
    [Push 7 (Timespec 1 0); Push 8 (Timespec 1 5); Push 9 (Timespec 3 0); PopFd 8; PopFd 8;
     PopTimeout (Timespec 2 0) 100; PopTimeout (Timespec 4 0) 0; PopTimeout (Timespec 4 0) 1]
  = Ok [[]; []; []; [QueueEntry 8 (Timespec 1 5)]; []; [QueueEntry 7 (Timespec 1 0)]; [];
        [QueueEntry 9 (Timespec 3 0)]].
Proof. reflexivity. Qed.
