(* ===== verification/FaMonitor.v ===== *)
(** * On-access scanning with fanotify ([on-access/famonitor.c], [response.c])

    The kernel reports file openings as events that carry an open descriptor; a
    permission event blocks the opening until a response is written for its
    descriptor.  The monitor thread reads the events in batches and makes two passes
    over each batch; files to scan go to a thread pool.  [fa_step] interleaves the
    monitor's work on single events with the scans of the pool in every order. *)
From S2P Require Import Prelude Status Dir Module ScanConf ScanCtx Event OnDemand Queue.
From stdpp Require Import relations.

#[local] Open Scope Z_scope.

(** <linux/fanotify.h> *)
Definition FAN_OPEN : Z := 0x20.
Definition FAN_OPEN_PERM : Z := 0x10000.
Definition FAN_EVENT_ON_CHILD : Z := 0x08000000.
Definition FAN_MARK_ADD : Z := 0x1.
Definition FAN_MARK_REMOVE : Z := 0x2.
Definition FAN_MARK_MOUNT : Z := 0x10.
Definition FAN_ALLOW : Z := 1.
Definition FAN_DENY : Z := 2.

(** The settings of [struct fanotify_monitor] that its operations read. *)
Record fanotify_monitor := FanotifyMonitor {
  fa_enable_permission : bool;
  fa_my_pid : Z;
}.

Definition fanotify_monitor_new (my_pid : Z) : fanotify_monitor :=
  {| fa_enable_permission := false; fa_my_pid := my_pid |}.

Definition fanotify_monitor_enable_permission (f : fanotify_monitor) (enable_permission : bool) : fanotify_monitor :=
  {| fa_enable_permission := enable_permission; fa_my_pid := fa_my_pid f |}.

Definition fanotify_monitor_is_enable_permission (f : fanotify_monitor) : bool := fa_enable_permission f.

(** ** Marks: the flags, mask and path given to [fanotify_mark] *)

Record fan_mark := FanMark { fm_flags : Z; fm_mask : Z; fm_path : string }.

Definition open_mask (f : fanotify_monitor) : Z := if fa_enable_permission f then FAN_OPEN_PERM else FAN_OPEN.

Definition fanotify_monitor_mark_directory (f : fanotify_monitor) (path : string) : fan_mark :=
  {| fm_flags := FAN_MARK_ADD; fm_mask := Z.lor (open_mask f) FAN_EVENT_ON_CHILD; fm_path := path |}.
Definition fanotify_monitor_unmark_directory (f : fanotify_monitor) (path : string) : fan_mark :=
  {| fm_flags := FAN_MARK_REMOVE; fm_mask := Z.lor (open_mask f) FAN_EVENT_ON_CHILD; fm_path := path |}.
Definition fanotify_monitor_mark_mount (f : fanotify_monitor) (path : string) : fan_mark :=
  {| fm_flags := Z.lor FAN_MARK_ADD FAN_MARK_MOUNT; fm_mask := open_mask f; fm_path := path |}.
Definition fanotify_monitor_unmark_mount (f : fanotify_monitor) (path : string) : fan_mark :=
  {| fm_flags := Z.lor FAN_MARK_REMOVE FAN_MARK_MOUNT; fm_mask := open_mask f; fm_path := path |}.

(** ** Events *)

Record fanotify_event_metadata := FanEvent { fe_mask : Z; fe_fd : Z; fe_pid : Z }.

(** What the system answers about the descriptor of an event, for as long as it is
    open; the kernel gives the number to another file once it is closed. *)
Record event_env := EventEnv {
  env_path : option string;        (** readlink of /proc/self/fd/N *)
  env_regular : option bool;       (** fstat: failed, or whether the file is regular *)
  env_now : timespec;              (** the clock when the event is enqueued *)
  env_os : os_answers;
}.

Definition is_perm (e : fanotify_event_metadata) : bool := negb (Z.land (fe_mask e) FAN_OPEN_PERM =? 0).
Definition is_open (e : fanotify_event_metadata) : bool := negb (Z.land (fe_mask e) FAN_OPEN =? 0).

Definition get_file_path_from_fd (fd : Z) (link : option string) : option string :=
  if fd <=? 0 then None else link.

(** 1 is [true]: not a file to scan. *)
Definition stat_check (regular : option bool) : bool :=
  match regular with None => true | Some r => negb r end.

Section monitor.
Context {W : Type}.
Variable modules : list (a6o_module W).
Variable f : fanotify_monitor.
(** The clock read for each event fired, and the [scan_id] that
    [fire_detection_event] leaves uninitialised. *)
Variable clock : nat -> Z.
Variable stack_scan_id : Z.

Record fa_state := FaState {
  fa_scan : scan_state W;
  fa_watchdog : watchdog;
  fa_responses : list (Z * Z);                          (** written, oldest first *)
  fa_pool : list (os_answers * a6o_scan_context);       (** pushed, oldest first *)
  fa_events : list a6o_event;                           (** fired, oldest first *)
}.

Definition with_fa_scan (s : fa_state) (sc : scan_state W) : fa_state :=
  {| fa_scan := sc; fa_watchdog := fa_watchdog s; fa_responses := fa_responses s;
     fa_pool := fa_pool s; fa_events := fa_events s |}.
Definition with_watchdog (s : fa_state) (w : watchdog) : fa_state :=
  {| fa_scan := fa_scan s; fa_watchdog := w; fa_responses := fa_responses s;
     fa_pool := fa_pool s; fa_events := fa_events s |}.
Definition with_pool (s : fa_state) (p : list (os_answers * a6o_scan_context)) : fa_state :=
  {| fa_scan := fa_scan s; fa_watchdog := fa_watchdog s; fa_responses := fa_responses s;
     fa_pool := p; fa_events := fa_events s |}.

(** Writes the response, then closes the descriptor; failures are only logged. *)
Definition response_write (s : fa_state) (fd r : Z) : fa_state :=
  {| fa_scan := {| st_conf := st_conf (fa_scan s); st_world := st_world (fa_scan s);
                   st_fds := st_fds (fa_scan s) ++ [FdClosed fd] |};
     fa_watchdog := fa_watchdog s; fa_responses := fa_responses s ++ [(fd, r)];
     fa_pool := fa_pool s; fa_events := fa_events s |}.

(** [if (watchdog_remove(f->watchdog, fd, NULL)) response_write(...)] *)
Definition answer (s : fa_state) (fd r : Z) : outcome fa_state :=
  w ← watchdog_remove (fa_watchdog s) fd;
  let s := with_watchdog s w.2 in
  Ok (if (w.1 : bool) then response_write s fd r else s).

Definition fire_detection_event (s : fa_state) (report : a6o_report) : outcome fa_state :=
  ev ← a6o_event_new (ev_detection
    {| de_context := CONTEXT_REAL_TIME; de_scan_id := stack_scan_id; de_path := r_path report;
       de_scan_status := r_status report; de_scan_action := r_action report;
       de_module_name := r_module_name report; de_module_report := r_module_report report |})
    (clock (length (fa_events s)));
  Ok {| fa_scan := fa_scan s; fa_watchdog := fa_watchdog s; fa_responses := fa_responses s;
        fa_pool := fa_pool s; fa_events := fa_events s ++ [ev] |}.

(** [file_context->fd = -1] *)
Definition forget_fd (ctx : a6o_scan_context) : a6o_scan_context :=
  {| ctx_status := ctx_status ctx;
     ctx_rest := (fun c => {| ctx_fd := -1; ctx_path := ctx_path c; ctx_mime_type := ctx_mime_type c;
                              ctx_applicable_modules := ctx_applicable_modules c |}) <$> ctx_rest ctx |}.

(** The end of a scan: the answer, when openings wait for one, and
    [a6o_scan_context_destroy]. *)
Definition release_scanned (status : a6o_file_status) (file_context : a6o_scan_context) (fd : Z)
    (s : fa_state) : outcome fa_state :=
  r ← (if fanotify_monitor_is_enable_permission f then
         let fan_response := if bool_decide (status = A6O_FILE_MALWARE) then FAN_DENY else FAN_ALLOW in
         s ← answer s fd fan_response;
         Ok (forget_fd file_context, s)
       else Ok (file_context, s));
  sc ← a6o_scan_context_destroy r.1 (fa_scan r.2);
  Ok (with_fa_scan r.2 sc).

Definition scan_file_thread_fun (os : os_answers) (file_context : a6o_scan_context) (s : fa_state)
    : outcome fa_state :=
  match ctx_rest file_context with
  | None => Fault UninitRead
  | Some c =>
      r ← a6o_scan_context_scan os modules file_context (Some (a6o_report_init (ctx_path c))) (fa_scan s);
      let '(status, report, sc) := r in
      s ← release_scanned status file_context (ctx_fd c) (with_fa_scan s sc);
      match report with
      | None => Fault NullDeref
      | Some report =>
          if is_detection status && bool_decide (r_path report <> None)
          then fire_detection_event s report else Ok s
      end
  end.

Definition must_scan (ctx : a6o_scan_context) : bool := bool_decide (ctx_status ctx = A6O_SC_MUST_SCAN).

Definition fanotify_perm_event_process (event : fanotify_event_metadata) (env : event_env)
    (path : option string) (s : fa_state) : outcome fa_state :=
  if stat_check (env_regular env) then answer s (fe_fd event) FAN_ALLOW
  else
  r ← a6o_scan_context_get (env_os env) modules (fe_fd event) path None (fa_scan s);
  let '(file_context, _, sc) := r in
  let s := with_fa_scan s sc in
  if negb (must_scan file_context) then
    s ← answer s (fe_fd event) FAN_ALLOW;
    sc ← a6o_scan_context_destroy (forget_fd file_context) (fa_scan s);
    Ok (with_fa_scan s sc)
  else Ok (with_pool s (fa_pool s ++ [(env_os env, file_context)])).

Definition fanotify_notify_event_process (event : fanotify_event_metadata) (env : event_env)
    (path : option string) (s : fa_state) : outcome fa_state :=
  if stat_check (env_regular env) then Ok s
  else
  r ← a6o_scan_context_get (env_os env) modules (fe_fd event) path None (fa_scan s);
  let '(file_context, _, sc) := r in
  let s := with_fa_scan s sc in
  if negb (must_scan file_context) then
    sc ← a6o_scan_context_destroy file_context (fa_scan s);
    Ok (with_fa_scan s sc)
  else Ok (with_pool s (fa_pool s ++ [(env_os env, file_context)])).

(** The bodies of the loops of the two passes. *)
Definition pass_1_event (e : fanotify_event_metadata * event_env) (s : fa_state) : outcome fa_state :=
  let event := e.1 in
  if is_perm event then
    if fe_pid event =? fa_my_pid f then Ok (response_write s (fe_fd event) FAN_ALLOW)
    else w ← watchdog_add (fa_watchdog s) (fe_fd event) (env_now e.2); Ok (with_watchdog s w)
  else Ok s.

Definition pass_2_event (e : fanotify_event_metadata * event_env) (s : fa_state) : outcome fa_state :=
  let event := e.1 in
  if fe_pid event =? fa_my_pid f then Ok s
  else
    let p := get_file_path_from_fd (fe_fd event) (env_path e.2) in
    if is_perm event then fanotify_perm_event_process event e.2 p s
    else if is_open event then fanotify_notify_event_process event e.2 p s
    else Ok s.

(** A batch is the list of the events that [FAN_EVENT_NEXT] goes through. *)
Fixpoint fanotify_pass_1 (buf : list (fanotify_event_metadata * event_env)) (s : fa_state) : outcome fa_state :=
  match buf with
  | [] => Ok s
  | e :: buf => s ← pass_1_event e s; fanotify_pass_1 buf s
  end.

Fixpoint fanotify_pass_2 (buf : list (fanotify_event_metadata * event_env)) (s : fa_state) : outcome fa_state :=
  match buf with
  | [] => Ok s
  | e :: buf => s ← pass_2_event e s; fanotify_pass_2 buf s
  end.

(** [None]: reading the events failed; the message, of level ERROR, aborts. *)
Definition fanotify_cb (buf : option (list (fanotify_event_metadata * event_env))) (s : fa_state)
    : outcome fa_state :=
  match buf with
  | None => Fault Aborted
  | Some buf => s ← fanotify_pass_1 buf s; fanotify_pass_2 buf s
  end.

(** ** The monitor thread and the thread pool *)

(** The events of the current batch that each pass has not processed yet; [r_read]
    are all the events ever read. *)
Record fa_run := FaRun {
  r_fa : fa_state;
  r_todo_1 : list (fanotify_event_metadata * event_env);
  r_todo_2 : list (fanotify_event_metadata * event_env);
  r_read : list (fanotify_event_metadata * event_env);
}.

(** One piece of work on events already read. *)
Inductive fa_work : fa_run -> fa_run -> Prop :=
  | work_pass_1 s s' e todo_1 todo_2 evs :
      pass_1_event e s = Ok s' ->
      fa_work (FaRun s (e :: todo_1) todo_2 evs) (FaRun s' todo_1 todo_2 evs)
  | work_pass_2 s s' e todo_2 evs :
      pass_2_event e s = Ok s' ->
      fa_work (FaRun s [] (e :: todo_2) evs) (FaRun s' [] todo_2 evs)
  | work_scan s s' i os ctx todo_1 todo_2 evs :
      fa_pool s !! i = Some (os, ctx) ->
      scan_file_thread_fun os ctx (with_pool s (delete i (fa_pool s))) = Ok s' ->
      fa_work (FaRun s todo_1 todo_2 evs) (FaRun s' todo_1 todo_2 evs).

(** The events the kernel may deliver. *)
Variable deliverable : fanotify_event_metadata * event_env -> Prop.

Inductive fa_step : fa_run -> fa_run -> Prop :=
  | step_read s buf evs :
      Forall deliverable buf ->
      fa_step (FaRun s [] [] evs) (FaRun s buf buf (evs ++ buf))
  | step_work r r' : fa_work r r' -> fa_step r r'.

Definition fa_start (sc : scan_state W) : fa_run :=
  {| r_fa := {| fa_scan := sc; fa_watchdog := watchdog_new; fa_responses := []; fa_pool := []; fa_events := [] |};
     r_todo_1 := []; r_todo_2 := []; r_read := [] |}.

Definition fa_reachable (sc : scan_state W) (r : fa_run) : Prop := rtc fa_step (fa_start sc) r.

Definition fa_idle (r : fa_run) : Prop := r_todo_1 r = [] /\ r_todo_2 r = [] /\ fa_pool (r_fa r) = [].

End monitor.
Arguments fa_state : clear implicits.
Arguments fa_run : clear implicits.
