(* ===== verification/FaMonitorSpec.v ===== *)
(** * What on-access scanning guarantees

    The invariant [fa_inv] accounts for every descriptor the kernel handed over; it
    holds in every interleaving of the monitor thread with the scans of the pool. *)
From S2P Require Import Prelude Status Dir Module ScanConf ScanCtx Event ScanSpec OnDemand OnDemandTheory.
From S2P Require Import Queue FaMonitor.
From stdpp Require Import relations.

#[local] Open Scope Z_scope.

#[local] Abbreviation fan_event := (fanotify_event_metadata * event_env)%type.

Section monitor.
Context {W : Type} (modules : list (a6o_module W)) (f : fanotify_monitor).
Context (clock : nat -> Z) (stack_scan_id : Z).

(** The events the kernel delivers: of the kind the marks ask for, with an open
    descriptor. *)
Definition kernel_event (e : fan_event) : Prop :=
  (is_perm e.1 = true -> fa_enable_permission f = true) /\
  (is_open e.1 = true -> fa_enable_permission f = false) /\
  (is_perm e.1 || is_open e.1 = true -> 0 <= fe_fd e.1).

Definition mine (e : fan_event) : bool := fe_pid e.1 =? fa_my_pid f.

(** The events whose descriptor the program closes: every permission event, and of
    the others those of another process on a regular file. *)
Definition taken (e : fan_event) : bool :=
  is_perm e.1 || (is_open e.1 && negb (mine e) && negb (stat_check (env_regular e.2))).

Definition fds_of (P : fan_event -> bool) (l : list fan_event) : list Z :=
  (fun e => fe_fd e.1) <$> List.filter P l.

Definition ctx_fd_of (it : os_answers * a6o_scan_context) : Z :=
  match ctx_rest it.2 with Some c => ctx_fd c | None => -1 end.

(** The descriptors handed over and not closed yet: those of the events that the
    pass responsible for them has not reached, and those in the pool. *)
Definition waiting (r : fa_run W) : list Z :=
  fds_of (fun e => taken e && mine e) (r_todo_1 r) ++
  fds_of (fun e => taken e && negb (mine e)) (r_todo_2 r) ++
  (ctx_fd_of <$> fa_pool (r_fa r)).

Definition closed (l : list fd_event) : list Z :=
  omap (fun ev => match ev with FdClosed d => Some d | FdOpened _ => None end) l.

(** The descriptor [fd] was closed, after an answer when there are permissions. *)
Definition finished (s s' : fa_state W) (fd : Z) : Prop :=
  st_fds (fa_scan s') = st_fds (fa_scan s) ++ [FdClosed fd] /\
  (fa_responses s').*1 = (fa_responses s).*1 ++ (if fa_enable_permission f then [fd] else []) /\
  fa_pool s' = fa_pool s.

(** A context in the pool. *)
Definition pooled (it : os_answers * a6o_scan_context) : Prop :=
  exists c mods mime, ctx_rest it.2 = Some c /\ 0 <= ctx_fd c /\
    ctx_applicable_modules c = Some mods /\ ctx_mime_type c = Some mime.

(** The descriptor went to the pool. *)
Definition queued (s s' : fa_state W) (fd : Z) : Prop :=
  st_fds (fa_scan s') = st_fds (fa_scan s) /\ fa_responses s' = fa_responses s /\
  exists it, fa_pool s' = fa_pool s ++ [it] /\ pooled it /\ ctx_fd_of it = fd.

(** Nothing happened to descriptors. *)
Definition untouched (s s' : fa_state W) : Prop :=
  st_fds (fa_scan s') = st_fds (fa_scan s) /\ fa_responses s' = fa_responses s /\ fa_pool s' = fa_pool s.

(** ** Single operations *)

(** The watchdog is compiled out. *)
Lemma answer_Ok (s : fa_state W) fd r : answer s fd r = Ok (response_write s fd r).
Proof. unfold answer, watchdog_remove. simpl. by destruct s. Qed.

Lemma context_get_fd os fd path sc ctx rep sc' :
  0 <= fd -> a6o_scan_context_get os modules fd path None sc = Ok (ctx, rep, sc') ->
  st_fds sc' = st_fds sc /\
  exists c, ctx_rest ctx = Some c /\ ctx_fd c = fd /\ (must_scan ctx = true -> pooled (os, ctx)).
Proof.
  intros Hfd. unfold a6o_scan_context_get.
  assert ((fd <? 0) = false) as Elt by lia. rewrite Elt. cbn [andb].
  destruct (match path with Some p => _ | None => false end).
  { intros [= <- _ <-]. split; [done|]. eexists. split; [done|]. by split. }
  rewrite Elt. destruct (os_mime_type_guess_fd os fd) as [[mime|]|]; cbn -[must_scan pooled]; [| |by intros ?].
  - destruct (a6o_scan_conf_get_applicable_modules _ _ _) as [[mods c']|]; cbn -[must_scan pooled]; [|by intros ?].
    destruct mods as [mods|]; intros [= <- _ <-]; (split; [done|]); eexists; (split; [done|]); (split; [done|]).
    + intros _. eexists _, mods, mime. split; [done|]. by split_and!.
    + done.
  - intros [= <- _ <-]. split; [done|]. eexists. split; [done|]. by split.
Qed.

Lemma pass_1_event_spec e s s' :
  kernel_event e -> pass_1_event f e s = Ok s' ->
  if taken e && mine e then finished s s' (fe_fd e.1) else untouched s s'.
Proof.
  intros (Hp & Ho & _). unfold pass_1_event, taken, mine. destruct (is_perm e.1).
  - destruct (fe_pid e.1 =? fa_my_pid f); cbn.
    + intros [= <-]. unfold finished. simpl. rewrite fmap_app, Hp by done. done.
    + unfold watchdog_add. cbn. by intros [= <-].
  - intros [= <-]. destruct (is_open e.1), (fe_pid e.1 =? fa_my_pid f); cbn; rewrite ?andb_false_r; by split_and!.
Qed.

Lemma destroy_forgotten ctx c (sc : scan_state W) :
  ctx_rest ctx = Some c -> a6o_scan_context_destroy (forget_fd ctx) sc = Ok sc.
Proof. intros H. unfold a6o_scan_context_destroy, a6o_scan_context_close. simpl. by rewrite H. Qed.

Lemma destroy_open ctx c (sc : scan_state W) :
  ctx_rest ctx = Some c -> 0 <= ctx_fd c ->
  a6o_scan_context_destroy ctx sc =
    Ok {| st_conf := st_conf sc; st_world := st_world sc; st_fds := st_fds sc ++ [FdClosed (ctx_fd c)] |}.
Proof.
  intros H Hfd. unfold a6o_scan_context_destroy, a6o_scan_context_close. rewrite H.
  by rewrite (proj2 (Z.ltb_ge _ 0)) by lia.
Qed.

Lemma pass_2_event_spec e s s' :
  kernel_event e -> pass_2_event modules f e s = Ok s' ->
  if taken e && negb (mine e) then finished s s' (fe_fd e.1) \/ queued s s' (fe_fd e.1) else untouched s s'.
Proof.
  intros (Hp & Ho & Hfd). unfold pass_2_event, taken. fold (mine e).
  destruct (mine e) eqn:Hm; [rewrite andb_false_r; by intros [= <-]|].
  destruct (is_perm e.1) eqn:Eperm; cbn in Hfd |- *; [specialize (Hfd eq_refl)|].
  - unfold fanotify_perm_event_process, finished. rewrite Hp by done.
    destruct (stat_check _).
    { rewrite answer_Ok. intros [= <-]. left. simpl. by rewrite fmap_app. }
    destruct (a6o_scan_context_get _ _ _ _ _ _) as [[[ctx rep] sc]|] eqn:Eg; [|done]. cbn [mbind outcome_bind].
    apply context_get_fd in Eg as (Efds & c & Ec & Ecfd & Hscan); [|done].
    destruct (must_scan ctx); cbn [negb].
    + intros [= <-]. right. split_and!; try done. eexists. split; [done|]. split; [by apply Hscan|].
      unfold ctx_fd_of. simpl. by rewrite Ec.
    + rewrite answer_Ok. cbn [mbind outcome_bind]. rewrite (destroy_forgotten ctx c) by done.
      intros [= <-]. left. simpl. by rewrite fmap_app, Efds.
  - destruct (is_open e.1) eqn:Eopen; cbn; [|by intros [= <-]]. specialize (Hfd eq_refl).
    unfold fanotify_notify_event_process, finished. rewrite Ho by done.
    destruct (stat_check _); cbn; [by intros [= <-]|].
    destruct (a6o_scan_context_get _ _ _ _ _ _) as [[[ctx rep] sc]|] eqn:Eg; [|done]. cbn [mbind outcome_bind].
    apply context_get_fd in Eg as (Efds & c & Ec & Ecfd & Hscan); [|done].
    destruct (must_scan ctx); cbn [negb].
    + intros [= <-]. right. split_and!; try done. eexists. split; [done|]. split; [by apply Hscan|].
      unfold ctx_fd_of. simpl. by rewrite Ec.
    + rewrite (destroy_open ctx c) by (done || lia).
      intros [= <-]. left. simpl. by rewrite app_nil_r, Efds, Ecfd.
Qed.

Lemma fire_untouched s rep s' : fire_detection_event clock stack_scan_id s rep = Ok s' -> untouched s s'.
Proof. unfold fire_detection_event. destruct (a6o_event_new _ _); cbn; [|done]. by intros [= <-]. Qed.

(** What [release_scanned] answers and closes. *)
Lemma release_scanned_Ok status ctx c (s : fa_state W) :
  ctx_rest ctx = Some c -> 0 <= ctx_fd c ->
  exists s', release_scanned f status ctx (ctx_fd c) s = Ok s' /\ finished s s' (ctx_fd c) /\
    fa_events s' = fa_events s /\ st_conf (fa_scan s') = st_conf (fa_scan s) /\
    fa_responses s' = fa_responses s ++
      (if fa_enable_permission f
       then [(ctx_fd c, if bool_decide (status = A6O_FILE_MALWARE) then FAN_DENY else FAN_ALLOW)] else []).
Proof.
  intros Ec Hfd. unfold release_scanned, fanotify_monitor_is_enable_permission, finished.
  destruct (fa_enable_permission f).
  - rewrite answer_Ok. cbn [mbind outcome_bind fst snd]. rewrite (destroy_forgotten ctx c) by done.
    eexists. split; [reflexivity|]. simpl. by rewrite fmap_app.
  - cbn [mbind outcome_bind fst snd]. rewrite (destroy_open ctx c) by done.
    eexists. split; [reflexivity|]. simpl. by rewrite !app_nil_r.
Qed.

Lemma scan_thread_spec os ctx s s' :
  pooled (os, ctx) -> scan_file_thread_fun modules f clock stack_scan_id os ctx s = Ok s' ->
  finished s s' (ctx_fd_of (os, ctx)).
Proof.
  intros (c & mods & mime & Ec & Hfd & Hmods & Hmime). unfold scan_file_thread_fun, ctx_fd_of. simpl in *.
  rewrite Ec. unfold a6o_scan_context_scan. rewrite Ec, Hmods, Hmime.
  destruct (scan_apply_modules _ _ _ _ _ _ _) as [[[status report] w]|]; [|done]. cbn [mbind outcome_bind].
  destruct (release_scanned_Ok status ctx c
    (with_fa_scan s {| st_conf := st_conf (fa_scan s); st_world := w; st_fds := st_fds (fa_scan s) |}))
    as (s1 & -> & Hfin & _); [done..|]. cbn [mbind outcome_bind].
  destruct report as [rep|]; [|done]. destruct (_ && _); [|by intros [= <-]].
  intros (E1 & E2 & E3)%fire_untouched. destruct Hfin as (F1 & F2 & F3). unfold finished.
  by rewrite E1, E2, E3.
Qed.

(** ** The invariant *)

Lemma fds_of_cons P e l : fds_of P (e :: l) = (if P e then [fe_fd e.1] else []) ++ fds_of P l.
Proof. unfold fds_of. simpl. by destruct (P e). Qed.

Lemma fds_of_app P l1 l2 : fds_of P (l1 ++ l2) = fds_of P l1 ++ fds_of P l2.
Proof. unfold fds_of. by rewrite List.filter_app, fmap_app. Qed.

Lemma fds_of_split P Q l :
  fds_of (fun e => P e && Q e) l ++ fds_of (fun e => P e && negb (Q e)) l ≡ₚ fds_of P l.
Proof.
  induction l as [|e l IH]; [done|]. rewrite !fds_of_cons, <- IH.
  destruct (P e), (Q e); cbn; [done| |done|done].
  by rewrite <- Permutation_middle.
Qed.

Lemma closed_snoc l d : closed (l ++ [FdClosed d]) = closed l ++ [d].
Proof. unfold closed. by rewrite omap_app. Qed.

Record fa_inv (r : fa_run W) : Prop := FaInv {
  inv_fds : closed (st_fds (fa_scan (r_fa r))) ++ waiting r ≡ₚ fds_of taken (r_read r);
  inv_only_closed : st_fds (fa_scan (r_fa r)) = FdClosed <$> closed (st_fds (fa_scan (r_fa r)));
  inv_responses : (fa_responses (r_fa r)).*1 =
    if fa_enable_permission f then closed (st_fds (fa_scan (r_fa r))) else [];
  inv_pool : Forall pooled (fa_pool (r_fa r));
  inv_todo_1 : Forall kernel_event (r_todo_1 r);
  inv_todo_2 : Forall kernel_event (r_todo_2 r);
  inv_read : Forall kernel_event (r_read r);
}.

(** What one step does to the descriptors: it closes one that waited, or none. *)
Lemma fa_inv_finished r r' d :
  fa_inv r -> finished (r_fa r) (with_pool (r_fa r') (fa_pool (r_fa r))) d ->
  waiting r ≡ₚ d :: waiting r' -> r_read r' = r_read r -> Forall pooled (fa_pool (r_fa r')) ->
  Forall kernel_event (r_todo_1 r') -> Forall kernel_event (r_todo_2 r') -> fa_inv r'.
Proof.
  intros [Hf Ho Hr _ _ _ Hrd] (E1 & E2 & _) Hw Ee ???. simpl in *. split; try done.
  - rewrite Ee, <- Hf, Hw, E1, closed_snoc, <- app_assoc. done.
  - by rewrite E1, closed_snoc, fmap_app, <- Ho.
  - rewrite E2, E1, closed_snoc, Hr. by destruct (fa_enable_permission f).
  - by rewrite Ee.
Qed.

Lemma fa_inv_unfinished r r' :
  fa_inv r -> st_fds (fa_scan (r_fa r')) = st_fds (fa_scan (r_fa r)) ->
  fa_responses (r_fa r') = fa_responses (r_fa r) ->
  waiting r ≡ₚ waiting r' -> r_read r' = r_read r -> Forall pooled (fa_pool (r_fa r')) ->
  Forall kernel_event (r_todo_1 r') -> Forall kernel_event (r_todo_2 r') -> fa_inv r'.
Proof.
  intros [Hf Ho Hr _ _ _ Hrd] E1 E2 Hw Ee ???. split; try done.
  - by rewrite Ee, <- Hf, Hw, E1.
  - by rewrite E1.
  - by rewrite E2, E1.
  - by rewrite Ee.
Qed.

Lemma fa_work_inv r r' : fa_inv r -> fa_work modules f clock stack_scan_id r r' -> fa_inv r'.
Proof.
  intros Hinv Hw. pose proof Hinv as [_ _ _ Hp H1 H2 _].
  destruct Hw as [s s' e l1 l2 evs E|s s' e l2 evs E|s s' i os ctx l1 l2 evs Hi E]; simpl in *.
  - apply list.Forall_cons in H1 as [He H1]. apply pass_1_event_spec in E; [|done].
    destruct (taken e && mine e) eqn:Et.
    + destruct E as (E1 & E2 & E3). eapply (fa_inv_finished _ _ (fe_fd e.1) Hinv); simpl; try done.
      * unfold waiting. simpl. rewrite fds_of_cons, Et, E3. done.
      * by rewrite E3.
    + destruct E as (E1 & E2 & E3). eapply (fa_inv_unfinished _ _ Hinv); simpl; try done.
      * unfold waiting. simpl. rewrite fds_of_cons, Et, E3. done.
      * by rewrite E3.
  - apply list.Forall_cons in H2 as [He H2]. apply pass_2_event_spec in E; [|done].
    destruct (taken e && negb (mine e)) eqn:Et; [destruct E as [E|E]|].
    + destruct E as (E1 & E2 & E3). eapply (fa_inv_finished _ _ (fe_fd e.1) Hinv); simpl; try done.
      * unfold waiting. simpl. rewrite fds_of_cons, Et, E3. done.
      * by rewrite E3.
    + destruct E as (E1 & E2 & it & E3 & Hit & Efd). eapply (fa_inv_unfinished _ _ Hinv); simpl; try done.
      * unfold waiting. simpl. rewrite fds_of_cons, Et, E3, fmap_app. cbn. rewrite Efd, Permutation_cons_append.
        by rewrite app_assoc.
      * rewrite E3. apply Forall_app_2; [done|by apply Forall_singleton].
    + destruct E as (E1 & E2 & E3). eapply (fa_inv_unfinished _ _ Hinv); simpl; try done.
      * unfold waiting. simpl. rewrite fds_of_cons, Et, E3. done.
      * by rewrite E3.
  - pose proof (Forall_lookup_1 _ _ _ _ Hp Hi) as Hit. apply scan_thread_spec in E; [|done].
    destruct E as (E1 & E2 & E3). simpl in *.
    eapply (fa_inv_finished _ _ (ctx_fd_of (os, ctx)) Hinv); simpl; try done.
    * unfold waiting. simpl. rewrite E3. simpl. rewrite (delete_Permutation _ _ _ Hi) at 1. simpl.
      rewrite !app_assoc. symmetry. apply Permutation_middle.
    * rewrite E3. simpl. rewrite (delete_Permutation _ _ _ Hi) in Hp. by apply list.Forall_cons in Hp as [].
Qed.

Lemma fa_step_inv (deliverable : fan_event -> Prop) r r' :
  (forall e, deliverable e -> kernel_event e) ->
  fa_inv r -> fa_step modules f clock stack_scan_id deliverable r r' -> fa_inv r'.
Proof.
  intros Hd Hinv Hstep. destruct Hstep as [s buf evs Hbuf|r r' Hw]; [|by eapply fa_work_inv].
  destruct Hinv as [Hf Ho Hr Hp _ _ Hrd]. assert (Forall kernel_event buf) by (by eapply Forall_impl).
  split; try done; [|by apply Forall_app_2]. simpl in *. rewrite fds_of_app, <- Hf, <- app_assoc. f_equiv.
  unfold waiting. simpl. rewrite app_assoc, (fds_of_split taken mine). apply Permutation_app_comm.
Qed.

Lemma fa_start_inv sc : st_fds sc = [] -> fa_inv (fa_start sc).
Proof. intros E. split; simpl; rewrite ?E; try done. by destruct (fa_enable_permission f). Qed.

Lemma fa_reachable_inv (deliverable : fan_event -> Prop) sc r :
  (forall e, deliverable e -> kernel_event e) -> st_fds sc = [] ->
  fa_reachable modules f clock stack_scan_id deliverable sc r -> fa_inv r.
Proof.
  intros Hd Hsc Hr. apply fa_start_inv in Hsc. revert Hsc. unfold fa_reachable in Hr.
  induction Hr as [|r1 r2 r3 H12 _ IH]; [done|]. intros Hinv. by apply IH, (fa_step_inv deliverable r1).
Qed.

(** ** Progress, when libmagic and the modules answer *)

Definition magic_answers (e : fan_event) : Prop := forall fd, magic_buffer (env_os e.2) fd <> None.

(** A context in the pool whose scan runs to its end. *)
Definition runnable (it : os_answers * a6o_scan_context) : Prop :=
  exists c mods mime, ctx_rest it.2 = Some c /\ 0 <= ctx_fd c /\
    ctx_applicable_modules c = Some mods /\ ctx_mime_type c = Some mime /\
    Forall (fun i => exists m, modules !! i = Some m /\ answers_well m) mods.

Definition state_sound (s : fa_state W) : Prop :=
  conf_sound modules (st_conf (fa_scan s)) /\ Forall runnable (fa_pool s).

Lemma context_get_fd_total os fd path sc :
  0 <= fd -> (forall fd, magic_buffer os fd <> None) -> conf_sound modules (st_conf sc) ->
  exists ctx rep sc' c, a6o_scan_context_get os modules fd path None sc = Ok (ctx, rep, sc') /\
    conf_sound modules (st_conf sc') /\ ctx_rest ctx = Some c /\ 0 <= ctx_fd c /\
    (must_scan ctx = true -> runnable (os, ctx)).
Proof.
  intros Hfd Hmagic Hconf. unfold a6o_scan_context_get.
  assert ((fd <? 0) = false) as Elt by lia. rewrite Elt. cbn [andb].
  destruct (match path with Some p => _ | None => false end).
  { do 4 eexists. split; [done|]. split; [done|]. split; [done|]. by split. }
  rewrite Elt. unfold os_mime_type_guess_fd.
  destruct (os_read os fd <? 0).
  { do 4 eexists. split; [done|]. split; [done|]. split; [done|]. by split. }
  destruct (magic_buffer os fd) as [mime|] eqn:Em; [|by destruct (Hmagic fd)]. cbn [mbind outcome_bind].
  destruct (get_applicable_sound modules (st_conf sc) mime Hconf) as (c' & -> & Hc' & Hmods).
  cbn [mbind outcome_bind fst snd]. destruct (modules_for modules (st_conf sc) mime) as [mods|].
  - do 4 eexists. split; [done|]. split; [done|]. split; [done|]. split; [done|]. intros _.
    eexists _, mods, mime. split; [done|]. split_and!; try done. by apply Hmods.
  - do 4 eexists. split; [done|]. split; [done|]. split; [done|]. by split.
Qed.

Lemma pass_1_total e s :
  state_sound s -> exists s', pass_1_event f e s = Ok s' /\ state_sound s'.
Proof.
  intros Hs. unfold pass_1_event. destruct (is_perm e.1); [|by exists s].
  destruct (fe_pid e.1 =? fa_my_pid f); [by eexists|].
  unfold watchdog_add. cbn. by eexists.
Qed.

Lemma event_process_total e path (s : fa_state W) :
  0 <= fe_fd e.1 -> magic_answers e -> state_sound s ->
  (exists s', fanotify_perm_event_process modules e.1 e.2 path s = Ok s' /\ state_sound s') /\
  (exists s', fanotify_notify_event_process modules e.1 e.2 path s = Ok s' /\ state_sound s').
Proof.
  intros Hfd Hm [Hc Hp]. unfold fanotify_perm_event_process, fanotify_notify_event_process.
  destruct (stat_check _).
  { rewrite answer_Ok. split; by eexists. }
  destruct (context_get_fd_total (env_os e.2) (fe_fd e.1) path (fa_scan s) Hfd Hm Hc)
    as (ctx & rep & sc & c & -> & Hc' & Ec & Hcfd & Hrun). cbn [mbind outcome_bind].
  destruct (must_scan ctx); cbn [negb].
  - assert (state_sound (with_pool (with_fa_scan s sc) (fa_pool s ++ [(env_os e.2, ctx)]))) as Hs.
    { split; [done|]. apply Forall_app_2; [done|]. by apply Forall_singleton, Hrun. }
    split; by eexists.
  - rewrite answer_Ok. cbn [mbind outcome_bind]. rewrite (destroy_forgotten ctx c), (destroy_open ctx c) by done.
    split; by eexists.
Qed.

Lemma pass_2_total e s :
  kernel_event e -> magic_answers e -> state_sound s ->
  exists s', pass_2_event modules f e s = Ok s' /\ state_sound s'.
Proof.
  intros (_ & _ & Hfd) Hm Hs. unfold pass_2_event. destruct (fe_pid e.1 =? fa_my_pid f); [by exists s|].
  destruct (is_perm e.1); [by apply event_process_total; [apply Hfd|..]|].
  destruct (is_open e.1); [by apply event_process_total; [apply Hfd|..]|by exists s].
Qed.

Lemma scan_thread_total os ctx s :
  runnable (os, ctx) -> state_sound s ->
  exists s', scan_file_thread_fun modules f clock stack_scan_id os ctx s = Ok s' /\ state_sound s'.
Proof.
  intros (c & mods & mime & Ec & Hfd & Hmods & Hmime & Hall) [Hc Hp]. simpl in Ec.
  unfold scan_file_thread_fun, a6o_scan_context_scan, scan_apply_modules. rewrite Ec, Hmods, Hmime.
  destruct (apply_loop_total os modules (ctx_fd c) (ctx_path c) mime mods A6O_FILE_UNDECIDED
    (a6o_report_init (ctx_path c)) (st_world (fa_scan s))) as (st & rep & w & -> & Hann & Hpath & Hst);
    [done|by eexists|by left|done|]. cbn [mbind outcome_bind].
  destruct (release_scanned_Ok st ctx c
    (with_fa_scan s {| st_conf := st_conf (fa_scan s); st_world := w; st_fds := st_fds (fa_scan s) |}))
    as (s1 & -> & (_ & _ & Hp1) & _ & Hc1 & _); [done..|]. cbn [mbind outcome_bind].
  assert (state_sound s1) as Hs1 by (unfold state_sound; by rewrite Hp1, Hc1).
  destruct (is_detection st) eqn:Ed; cbn [andb]; [|by exists s1].
  case_bool_decide as Hne; [|by exists s1].
  destruct Hann as (name & text & Hname & Htext); [by rewrite Hst|].
  unfold fire_detection_event. cbn. destruct (r_path rep); [|done]. rewrite Hname, Htext. cbn. by eexists.
Qed.

Record fa_sound (r : fa_run W) : Prop := FaSound {
  snd_state : state_sound (r_fa r);
  snd_todo_2 : Forall magic_answers (r_todo_2 r);
}.

(** The work left on the events already read. *)
Definition fa_measure (r : fa_run W) : nat :=
  length (r_todo_1 r) + 2 * length (r_todo_2 r) + length (fa_pool (r_fa r)).

Lemma fa_work_sound r r' :
  fa_inv r -> fa_sound r -> fa_work modules f clock stack_scan_id r r' ->
  fa_sound r' /\ r_read r' = r_read r /\ (fa_measure r' < fa_measure r)%nat.
Proof.
  intros [_ _ _ Hp H1 H2 _] [Hs Hm] Hw.
  destruct Hw as [s s' e l1 l2 evs E|s s' e l2 evs E|s s' i os ctx l1 l2 evs Hi E]; simpl in *.
  - destruct (pass_1_total e s Hs) as (s1 & E1 & Hs1). rewrite E1 in E. injection E as ->.
    split; [done|]. split; [done|]. apply list.Forall_cons in H1 as [He _].
    apply pass_1_event_spec in E1; [|done]. unfold fa_measure. simpl.
    destruct (_ && _); destruct E1 as (_ & _ & ->); lia.
  - apply list.Forall_cons in H2 as [He _]. apply list.Forall_cons in Hm as [Hme Hm].
    destruct (pass_2_total e s He Hme Hs) as (s1 & E1 & Hs1). rewrite E1 in E. injection E as ->.
    split; [done|]. split; [done|]. apply pass_2_event_spec in E1; [|done]. unfold fa_measure. simpl.
    destruct (_ && _); [destruct E1 as [(_ & _ & ->)|(_ & _ & it & -> & _)]|destruct E1 as (_ & _ & ->)];
      rewrite ?length_app; simpl; lia.
  - pose proof (delete_Permutation _ _ _ Hi) as Hdel. destruct Hs as [Hc Hrun].
    rewrite Hdel in Hrun. apply list.Forall_cons in Hrun as [Hit Hrun].
    destruct (scan_thread_total os ctx (with_pool s (delete i (fa_pool s))) Hit) as (s1 & E1 & Hs1); [done|].
    rewrite E1 in E. injection E as ->. split; [done|]. split; [done|].
    apply scan_thread_spec in E1; [|by apply (Forall_lookup_1 _ _ _ _ Hp Hi)].
    destruct E1 as (_ & _ & E1). unfold fa_measure. simpl. rewrite E1. simpl.
    rewrite (Permutation_length Hdel). simpl. lia.
Qed.

Lemma fa_progress r :
  fa_inv r -> fa_sound r -> fa_idle r \/ exists r', fa_work modules f clock stack_scan_id r r'.
Proof.
  intros [_ _ _ Hp H1 H2 _] [Hs Hm]. destruct r as [s [|e l1] l2 evs]; simpl in *.
  2: { right. destruct (pass_1_total e s Hs) as (s' & E & _). eexists. by apply work_pass_1. }
  destruct l2 as [|e l2].
  2: { right. apply list.Forall_cons in H2 as [He _]. apply list.Forall_cons in Hm as [Hme _].
       destruct (pass_2_total e s He Hme Hs) as (s' & E & _). eexists. by apply work_pass_2. }
  destruct (fa_pool s) as [|[os ctx] pool] eqn:Ep; [by left|]. right.
  destruct Hs as [Hc Hrun]. rewrite Ep in Hrun. apply list.Forall_cons in Hrun as [Hit Hrun].
  destruct (scan_thread_total os ctx (with_pool s (delete 0%nat (fa_pool s))) Hit) as (s' & E & _).
  { split; [done|]. by rewrite Ep. }
  eexists. eapply (work_scan _ _ _ _ s s' 0 os ctx); [by rewrite Ep|done].
Qed.

Lemma fa_drains r :
  fa_inv r -> fa_sound r ->
  exists r', rtc (fa_work modules f clock stack_scan_id) r r' /\ fa_idle r' /\ fa_inv r' /\ r_read r' = r_read r.
Proof.
  induction r as [r IH] using (well_founded_induction (Wf_nat.well_founded_ltof _ fa_measure)).
  intros Hinv Hs. destruct (fa_progress r Hinv Hs) as [Hidle|[r1 Hw]].
  - exists r. split_and!; [apply rtc_refl|apply Hidle..|done|done].
  - destruct (fa_work_sound r r1 Hinv Hs Hw) as (Hs1 & E1 & Hlt).
    destruct (IH r1 Hlt) as (r' & Hr & Hi & Hinv' & E); [by eapply fa_work_inv|done|].
    exists r'. split; [by eapply rtc_l|]. rewrite E, E1. by split_and!.
Qed.

Lemma fa_work_bound n r r' :
  fa_inv r -> fa_sound r -> nsteps (fa_work modules f clock stack_scan_id) n r r' -> (n <= fa_measure r)%nat.
Proof.
  intros Hinv Hs Hn. revert Hinv Hs. induction Hn as [|n r1 r2 r3 Hw _ IH]; intros Hinv Hs; [lia|].
  destruct (fa_work_sound r1 r2 Hinv Hs Hw) as (Hs2 & _ & Hlt).
  specialize (IH ltac:(by eapply fa_work_inv) Hs2). lia.
Qed.

Lemma fa_reachable_sound sc r :
  st_fds sc = [] -> conf_sound modules (st_conf sc) ->
  fa_reachable modules f clock stack_scan_id (fun e => kernel_event e /\ magic_answers e) sc r ->
  fa_inv r /\ fa_sound r.
Proof.
  intros Hsc Hconf Hr. assert (fa_inv (fa_start sc) /\ fa_sound (fa_start sc)) as Hstart.
  { split; [by apply fa_start_inv|]. split; [split; [done|constructor]|constructor]. }
  revert Hstart. unfold fa_reachable in Hr.
  induction Hr as [|r1 r2 r3 H12 _ IH]; [done|]. intros [Hinv Hs]. apply IH. split.
  - eapply fa_step_inv; [|done|done]. by intros e [He _].
  - destruct H12 as [s buf evs Hbuf|r r' Hw]; [|by apply (fa_work_sound r)].
    destruct Hs as [Hs _]. split; [done|]. simpl. eapply Forall_impl; [done|]. by intros e [_ He].
Qed.

End monitor.

(** ** Theorems *)

Definition permission_fds (evs : list fan_event) : list Z := fds_of (fun e => is_perm e.1) evs.

(** In permission mode the events taken are the permission events. *)
Lemma taken_permission f evs :
  fa_enable_permission f = true -> Forall (kernel_event f) evs ->
  fds_of (taken f) evs = permission_fds evs.
Proof.
  intros Hf. unfold permission_fds. induction 1 as [|e evs (_ & Ho & _) _ IH]; [done|].
  rewrite !fds_of_cons, IH. unfold taken. destruct (is_perm e.1); [done|].
  destruct (is_open e.1); [by rewrite Ho in Hf|done].
Qed.

(** C2: No opening is left without an answer, and none is answered twice: whatever
    the kernel delivers and however the monitor thread and the scans of the pool
    interleave, the descriptors answered so far together with those still waiting (in
    a pass or in the pool) are the descriptors of the permission events read, each as
    many times as it was delivered; the only effect on descriptors is that each is
    closed right after its answer.  When no work is left every event has its
    answer. *)
Theorem fanotify_answers_once {W} (modules : list (a6o_module W)) (f : fanotify_monitor) (clock : nat -> Z)
    (stack_scan_id : Z) (sc : scan_state W) (r : fa_run W)
    (Hperm : fa_enable_permission f = true) (Hfresh : st_fds sc = [])
    (Hr : fa_reachable modules f clock stack_scan_id (kernel_event f) sc r) :
  let answered := (fa_responses (r_fa r)).*1 in
  answered ++ waiting f r ≡ₚ permission_fds (r_read r) /\
  st_fds (fa_scan (r_fa r)) = FdClosed <$> answered /\
  (fa_idle r -> answered ≡ₚ permission_fds (r_read r)).
Proof.
  apply fa_reachable_inv in Hr as [Hf Ho Ha _ _ _ Hread]; [|done|done].
  rewrite Hperm in Ha. rewrite <- Ha, taken_permission in Hf by done. rewrite <- Ha in Ho.
  split; [exact Hf|]. split; [exact Ho|]. intros (E1 & E2 & E3). rewrite <- Hf.
  unfold waiting. by rewrite E1, E2, E3, app_nil_r.
Qed.

(** C19: The monitor keeps up: when libmagic recognises what it is given and the
    modules answer ranked statuses (with a text for detections), then from every
    state the monitor and its pool can reach no work fails, the number of pieces of
    work before the next read is bounded, and working through them in any order that
    reaches the end leaves nothing waiting, with the descriptor of every permission
    event (or, without permissions, of every event sent to a scan) closed. *)
Theorem fanotify_drains {W} (modules : list (a6o_module W)) (f : fanotify_monitor) (clock : nat -> Z)
    (stack_scan_id : Z) (sc : scan_state W) (r : fa_run W)
    (Hfresh : st_fds sc = []) (Hconf : conf_sound modules (st_conf sc))
    (Hr : fa_reachable modules f clock stack_scan_id (fun e => kernel_event f e /\ magic_answers e) sc r) :
  (forall n r', nsteps (fa_work modules f clock stack_scan_id) n r r' ->
     (n <= fa_measure r)%nat /\ (fa_idle r' \/ exists r'', fa_work modules f clock stack_scan_id r' r'')) /\
  exists r', rtc (fa_work modules f clock stack_scan_id) r r' /\ fa_idle r' /\ r_read r' = r_read r /\
    closed (st_fds (fa_scan (r_fa r'))) ≡ₚ fds_of (taken f) (r_read r).
Proof.
  destruct (fa_reachable_sound modules f clock stack_scan_id sc r Hfresh Hconf Hr) as [Hinv Hs]. split.
  - intros n r' Hn. split; [by eapply fa_work_bound|]. clear Hr.
    assert (fa_inv f r' /\ fa_sound modules r') as [Hinv' Hs']; [|by apply fa_progress].
    revert Hinv Hs. induction Hn as [|n r1 r2 r3 Hw _ IH]; intros Hinv Hs; [done|].
    apply IH; [by eapply fa_work_inv|by eapply fa_work_sound].
  - destruct (fa_drains modules f clock stack_scan_id r Hinv Hs) as (r' & Hrtc & Hidle & [Hf _ _ _ _ _ _] & E).
    exists r'. split_and!; [done|apply Hidle..|done|]. rewrite <- E, <- Hf.
    destruct Hidle as (E1 & E2 & E3). unfold waiting. by rewrite E1, E2, E3, app_nil_r.
Qed.

(** A batch: an opening by this process, one of an executable and one of a device. *)
Definition sample_monitor : fanotify_monitor :=
  fanotify_monitor_enable_permission (fanotify_monitor_new 100) true.

Definition sample_event (mask fd pid : Z) (path : string) (regular : bool) : fan_event :=
  ({| fe_mask := mask; fe_fd := fd; fe_pid := pid |},
   {| env_path := Some path; env_regular := Some regular; env_now := Timespec 0 0; env_os := sample_os |}).

Definition sample_batch (mask : Z) : list fan_event :=
  [sample_event mask 5 100 "/etc/hosts" true; sample_event mask 6 7 "/bin/ls" true;
   sample_event mask 7 7 "/dev/null" false].

Definition sample_fa_state : scan_state unit :=
  {| st_conf := sample_scan_conf; st_world := tt; st_fds := [] |}.

(** The batch is read, both passes run, then the pool. *)
Lemma sample_run f (P : fan_event -> Prop) mask :
  fa_my_pid f = 100 -> Forall P (sample_batch mask) -> mask = open_mask f ->
  exists r, fa_reachable sample_modules f (fun _ => 0) 0 P sample_fa_state r /\
    fa_idle r /\ r_read r = sample_batch mask /\
    fa_responses (r_fa r) =
      (if fa_enable_permission f then [(5, FAN_ALLOW); (7, FAN_ALLOW); (6, FAN_DENY)] else []).
Proof.
  destruct f as [[] pid]; simpl; intros -> HP ->; eexists.
  all: split; [eapply rtc_l; [exact (step_read _ _ _ _ P _ _ [] HP)|];
    do 3 (eapply rtc_l; [apply step_work, work_pass_1; vm_compute; reflexivity|]);
    do 3 (eapply rtc_l; [apply step_work, work_pass_2; vm_compute; reflexivity|]);
    eapply rtc_l; [eapply step_work, (work_scan _ _ _ _ _ _ 0); [reflexivity|vm_compute; reflexivity]|];
    apply rtc_refl|].
  all: by repeat split.
Qed.

Lemma sample_kernel f mask : mask = open_mask f -> Forall (kernel_event f) (sample_batch mask).
Proof. destruct f as [[] pid]; intros ->; repeat constructor; try done; simpl; lia. Qed.

Lemma fanotify_answers_once_witness :
  exists r, fa_reachable sample_modules sample_monitor (fun _ => 0) 0 (kernel_event sample_monitor) sample_fa_state r /\
    fa_responses (r_fa r) = [(5, FAN_ALLOW); (7, FAN_ALLOW); (6, FAN_DENY)] /\
    (fa_responses (r_fa r)).*1 ≡ₚ permission_fds (r_read r).
Proof.
  destruct (sample_run sample_monitor (kernel_event sample_monitor) FAN_OPEN_PERM) as (r & Hr & Hi & _ & E);
    [reflexivity|apply sample_kernel; reflexivity|reflexivity|].
  exists r. split; [exact Hr|]. split; [exact E|].
  apply (fanotify_answers_once sample_modules sample_monitor (fun _ => 0) 0 sample_fa_state r); done.
Defined.

(** The sample modules answer ranked statuses, with texts for detections. *)
Lemma sample_conf_sound : conf_sound sample_modules sample_scan_conf.
Proof.
  split; [intros mime mods; cbn; by rewrite lookup_empty|]. split.
  - repeat constructor; eexists _, _; split; reflexivity.
  - repeat constructor; eexists; (split; [reflexivity|]); eexists; (split; [reflexivity|]);
      intros; (split; [by eexists|done]).
Qed.

Lemma fanotify_drains_witness :
  exists r, fa_reachable sample_modules sample_monitor (fun _ => 0) 0
      (fun e => kernel_event sample_monitor e /\ magic_answers e) sample_fa_state r /\
    r_read r = sample_batch FAN_OPEN_PERM /\
    exists r', rtc (fa_work sample_modules sample_monitor (fun _ => 0) 0) r r' /\ fa_idle r' /\ r_read r' = r_read r /\
      closed (st_fds (fa_scan (r_fa r'))) ≡ₚ fds_of (taken sample_monitor) (r_read r).
Proof.
  destruct (sample_run sample_monitor (fun e => kernel_event sample_monitor e /\ magic_answers e) FAN_OPEN_PERM)
    as (r & Hr & Hi & Eread & _); [reflexivity| |reflexivity|].
  { apply Forall_and. split; [apply sample_kernel; reflexivity|]. repeat constructor; intros fd; done. }
  exists r. split; [exact Hr|]. split; [exact Eread|].
  apply (fanotify_drains sample_modules sample_monitor (fun _ => 0) 0 sample_fa_state r);
    [reflexivity|exact sample_conf_sound|exact Hr].
Defined.

(** A module said malware. *)
Definition malware_found (rs : list module_result) : bool :=
  existsb (fun r => bool_decide (res_status r = A6O_FILE_MALWARE)) rs.

Lemma verdict_malware rs st first :
  Forall (fun r => comparable (res_status r)) rs -> is_verdict A6O_FILE_UNDECIDED rs st first ->
  bool_decide (st = A6O_FILE_MALWARE) = malware_found rs.
Proof.
  intros Hcmp (Hall & _ & Hf). apply eq_true_iff_eq. unfold malware_found.
  rewrite bool_decide_eq_true, existsb_exists. split.
  - intros ->. destruct first as [r|]; [|done]. destruct Hf as (E & before & after & -> & _).
    exists r. split; [apply in_or_app; right; by left|]. by rewrite bool_decide_eq_true.
  - intros (r & Hr & E%bool_decide_eq_true). rewrite Forall_forall in Hall.
    destruct (Hall r) as (r1 & r2 & E1 & E2 & Hle); [by apply list_elem_of_In|].
    rewrite E in E1. simpl in E1. injection E1 as <-. destruct st; simpl in E2; simplify_eq; (done || lia).
Qed.

(** C18: An opening is denied exactly when a module says malware: the scan of a queued
    file whose modules answer ranked statuses (with a text for detections) ends by
    writing one response, for the descriptor of that file, DENY when one of the
    modules called answered malware and ALLOW otherwise (none without permissions),
    closes that descriptor once, and announces a malware whose path is known by one
    detection event with that path. *)
Theorem malware_denied {W} (modules : list (a6o_module W)) (f : fanotify_monitor) (clock : nat -> Z)
    (stack_scan_id : Z) (os : os_answers) (fd : Z) (path : option string) (mime : string) (mods : list nat)
    (status : a6o_scan_context_status) (s : fa_state W) (rs : list module_result) (w' : W)
    (Hfd : 0 <= fd) (Hseek : os_lseek_ok os fd = true)
    (Hcalls : module_calls modules fd path mime mods (st_world (fa_scan s)) = Ok (rs, w'))
    (Hranked : Forall (fun r => comparable (res_status r)) rs)
    (Htexts : Forall (fun r => is_detection (res_status r) = true -> res_report r <> None) rs) :
  let ctx := {| ctx_status := status; ctx_rest := Some (CtxFields fd path (Some mime) (Some mods)) |} in
  exists s' evs, scan_file_thread_fun modules f clock stack_scan_id os ctx s = Ok s' /\
    fa_responses s' = fa_responses s ++
      (if fa_enable_permission f then [(fd, if malware_found rs then FAN_DENY else FAN_ALLOW)] else []) /\
    st_fds (fa_scan s') = st_fds (fa_scan s) ++ [FdClosed fd] /\
    fa_events s' = fa_events s ++ evs /\
    (malware_found rs = true -> path <> None ->
       exists e d, evs = [e] /\ ev_u e = ev_detection d /\ de_path d = path /\
         de_scan_status d = A6O_FILE_MALWARE /\ de_context d = CONTEXT_REAL_TIME).
Proof.
  intros ctx. unfold scan_file_thread_fun, a6o_scan_context_scan. cbn [ctx ctx_rest].
  destruct (apply_loop_spec os modules fd path mime mods A6O_FILE_UNDECIDED (Some (a6o_report_init path))
    (st_world (fa_scan s)) rs w') as (st & first & report & E & Hverdict & Hrep); [done|by eexists|done..|].
  cbn [ctx_applicable_modules ctx_mime_type ctx_fd ctx_path]. unfold scan_apply_modules. rewrite E.
  cbn [mbind outcome_bind].
  destruct (release_scanned_Ok f st ctx (CtxFields fd path (Some mime) (Some mods))
    (with_fa_scan s {| st_conf := st_conf (fa_scan s); st_world := w'; st_fds := st_fds (fa_scan s) |}))
    as (s1 & Erel & (Efds & _ & _) & Eev & _ & Eresp); [done..|].
  unfold ctx in *. cbn [ctx_fd] in Erel. rewrite Erel. cbn [mbind outcome_bind].
  pose proof (verdict_malware rs st first Hranked Hverdict) as Emal.
  destruct report as [rep|]; [|done]. destruct Hrep as (Epath & _ & Hrep). cbn in Epath, Efds, Eev, Eresp.
  rewrite Emal in Eresp.
  destruct (is_detection st && bool_decide (r_path rep <> None)) eqn:Ed; cycle 1.
  - exists s1, []. rewrite app_nil_r. split_and!; try done. intros Hm Hp. exfalso.
    rewrite Hm in Emal. apply bool_decide_eq_true in Emal as ->. cbn in Ed.
    rewrite Epath in Ed. by apply bool_decide_eq_false in Ed.
  - apply andb_true_iff in Ed as [Ed Hne%bool_decide_eq_true]. rewrite Epath in Hne.
    destruct first as [res|]; [|destruct Hverdict as (_ & _ & ->); done].
    destruct Hrep as (Est & Ename & Etext), Hverdict as (_ & _ & Eres & before & after & -> & _).
    assert (res_report res <> None) as Hres.
    { rewrite list.Forall_app, list.Forall_cons in Htexts. destruct Htexts as (_ & Htext & _).
      apply Htext. by rewrite <- Eres. }
    destruct (res_report res) as [text|] eqn:Er; [|done]. unfold fire_detection_event. cbn.
    destruct path as [p|]; [|done]. rewrite Epath, Ename, (Etext text) by done. cbn.
    eexists _, [_]. split; [reflexivity|]. cbn. split; [done|]. split; [done|]. split; [by rewrite Eev|].
    intros Hm _. rewrite Hm in Emal. apply bool_decide_eq_true in Emal. eexists _, _.
    split; [reflexivity|]. cbn. by rewrite Est.
Qed.

Lemma malware_denied_witness :
  let ctx := {| ctx_status := A6O_SC_MUST_SCAN;
                ctx_rest := Some (CtxFields 6 (Some "/bin/ls") (Some "application/x-executable") (Some [0; 1; 2]%nat)) |} in
  exists s' evs,
    scan_file_thread_fun sample_modules sample_monitor (fun _ => 0) 0 sample_os ctx
      (r_fa (fa_start sample_fa_state)) = Ok s' /\
    fa_responses s' = [] ++ [(6, FAN_DENY)] /\ fa_events s' = [] ++ evs /\ length evs = 1%nat.
Proof.
  destruct (malware_denied sample_modules sample_monitor (fun _ => 0) 0 sample_os 6 (Some "/bin/ls")
    "application/x-executable" [0; 1; 2]%nat A6O_SC_MUST_SCAN (r_fa (fa_start sample_fa_state))
    [Result "moduleH1" A6O_FILE_SUSPICIOUS (Some "packed"); Result "clamav" A6O_FILE_CLEAN None;
     Result "yara" A6O_FILE_MALWARE (Some "EICAR")] tt) as (s' & evs & E & Er & _ & Ee & Hd).
  - lia.
  - reflexivity.
  - reflexivity.
  - repeat constructor; eexists; reflexivity.
  - repeat constructor; done.
  - exists s', evs. split; [exact E|]. split; [exact Er|]. split; [exact Ee|].
    destruct Hd as (e & d & -> & _); [reflexivity|done|reflexivity].
Defined.

(** Without permissions the descriptors of some openings are never closed: once
    all the work on the events read is done, the descriptors closed are exactly those
    of the openings by other processes of files that fstat says are regular; the
    descriptor the kernel opened for an opening by this process, or of anything else
    than a regular file, is not among them, so the process leaks it. *)
Theorem notify_leaks {W} (modules : list (a6o_module W)) (f : fanotify_monitor) (clock : nat -> Z)
    (stack_scan_id : Z) (sc : scan_state W) (r : fa_run W)
    (Hnotify : fa_enable_permission f = false) (Hfresh : st_fds sc = [])
    (Hr : fa_reachable modules f clock stack_scan_id (kernel_event f) sc r) (Hidle : fa_idle r) :
  fa_responses (r_fa r) = [] /\
  closed (st_fds (fa_scan (r_fa r))) ≡ₚ
    fds_of (fun e => is_open e.1 && negb (mine f e) && negb (stat_check (env_regular e.2))) (r_read r) /\
  forall e, e ∈ r_read r -> mine f e = true \/ stat_check (env_regular e.2) = true ->
    (forall e', e' ∈ r_read r -> fe_fd e'.1 = fe_fd e.1 -> e' = e) ->
    FdClosed (fe_fd e.1) ∉ st_fds (fa_scan (r_fa r)).
Proof.
  apply fa_reachable_inv in Hr as [Hf Ho Ha _ _ _ Hread]; [|done|done]. rewrite Hnotify in Ha.
  split; [by destruct (fa_responses (r_fa r))|].
  assert (forall e, e ∈ r_read r -> is_perm e.1 = false) as Hperm.
  { intros e He. rewrite Forall_forall in Hread. destruct (Hread e) as (Hp & _).
    { done. }
    destruct (is_perm e.1); [by rewrite Hp in Hnotify|done]. }
  assert (closed (st_fds (fa_scan (r_fa r))) ≡ₚ fds_of (taken f) (r_read r)) as Hc.
  { destruct Hidle as (E1 & E2 & E3). rewrite <- Hf. unfold waiting. by rewrite E1, E2, E3, app_nil_r. }
  split.
  - rewrite Hc. unfold fds_of. f_equiv. apply reflexive_eq, filter_ext_in.
    intros e He%list_elem_of_In. unfold taken. by rewrite Hperm.
  - intros e He Hskip Huniq Hin. rewrite Ho, list_elem_of_fmap in Hin.
    destruct Hin as (d & [= <-] & Hin). rewrite Hc in Hin. unfold fds_of in Hin.
    apply list_elem_of_fmap in Hin as (e' & E & [He' Ht]%list_elem_of_In%filter_In).
    rewrite <- list_elem_of_In in He'. rewrite (Huniq e') in Ht by done.
    unfold taken in Ht. rewrite Hperm in Ht by done. destruct Hskip as [H|H]; by rewrite H, ?andb_false_r in Ht.
Qed.

Definition sample_notify : fanotify_monitor := fanotify_monitor_new 100.

Lemma notify_leaks_witness :
  exists r, fa_reachable sample_modules sample_notify (fun _ => 0) 0 (kernel_event sample_notify) sample_fa_state r /\
    r_read r = sample_batch FAN_OPEN /\
    closed (st_fds (fa_scan (r_fa r))) ≡ₚ
      fds_of (fun e => is_open e.1 && negb (mine sample_notify e) && negb (stat_check (env_regular e.2))) (r_read r).
Proof.
  destruct (sample_run sample_notify (kernel_event sample_notify) FAN_OPEN) as (r & Hr & Hi & E & _);
    [reflexivity|apply sample_kernel; reflexivity|reflexivity|].
  exists r. split; [exact Hr|]. split; [exact E|].
  apply (notify_leaks sample_modules sample_notify (fun _ => 0) 0 sample_fa_state r); done.
Defined.
