(* ===== verification/Monitor.v ===== *)
(** * Which files are protected on access
    ([on-access/monitor.c], [imonitor.c], [mount.c])

    The access monitor decides what fanotify reports: it marks the configured mount
    points, and every directory below the configured directories, which it also watches
    with inotify to mark the directories that appear later.  The system is a world [K]
    with the system calls of the class [Kernel]; what [opendir] and [readdir] answer
    during a walk is a tree, as in Dir.v.  A thread of the monitor runs its callbacks
    one after the other; the two pipes hold the bytes written and not yet read.  A
    message of level ERROR aborts the process (Log.v): the returns that follow one are
    never reached. *)
From S2P Require Import Prelude Dir FaMonitor.

#[local] Open Scope Z_scope.

(** The system calls; a negative answer is a failure. *)
Class Kernel (K : Type) := {
  sys_fanotify_init : Z -> K -> Z * K;
  sys_fanotify_mark : fan_mark -> K -> Z * K;
  sys_inotify_init : K -> Z * K;
  sys_inotify_add_watch : string -> K -> Z * K;
  sys_inotify_rm_watch : Z -> K -> Z * K;
  (** the connection to D-Bus *)
  sys_bus_get : K -> bool * K;
  (** what a walk from a path finds *)
  sys_tree : string -> K -> dir_tree;
  (** [st_dev] of a path *)
  sys_stat_dev : string -> K -> option Z;
}.

Inductive entry_flag := ENTRY_MOUNT | ENTRY_DIR.

#[export] Instance entry_flag_eq_dec : EqDecision entry_flag.
Proof. solve_decision. Defined.

Record monitor_entry := MonitorEntry { en_path : string; en_flag : entry_flag }.

Record inotify_monitor := InotifyMonitor {
  wd2path_table : gmap Z string;
  path2wd_table : gmap string Z;
}.

Definition inotify_monitor_new : inotify_monitor := {| wd2path_table := ∅; path2wd_table := ∅ |}.

Record access_monitor (K : Type) := AccessMonitor {
  am_enable : Z;
  am_enable_removable_media : Z;
  am_autoscan_removable_media : Z;
  am_entries : list monitor_entry;
  am_start_pipe : list Z;
  am_command_pipe : list Z;
  am_fanotify : fanotify_monitor;
  am_inotify : inotify_monitor;
  am_media_scans : list (option string);       (** scan threads started, oldest first *)
  am_kernel : K;
}.
Arguments AccessMonitor {K}.
Arguments am_enable {K} a.
Arguments am_enable_removable_media {K} a.
Arguments am_autoscan_removable_media {K} a.
Arguments am_entries {K} a.
Arguments am_start_pipe {K} a.
Arguments am_command_pipe {K} a.
Arguments am_fanotify {K} a.
Arguments am_inotify {K} a.
Arguments am_media_scans {K} a.
Arguments am_kernel {K} a.

Section setters.
Context {K : Type}.
Implicit Types (m : access_monitor K).

Definition set_kernel m (k : K) : access_monitor K :=
  AccessMonitor (am_enable m) (am_enable_removable_media m) (am_autoscan_removable_media m) (am_entries m)
    (am_start_pipe m) (am_command_pipe m) (am_fanotify m) (am_inotify m) (am_media_scans m) k.

Definition set_inotify m (im : inotify_monitor) : access_monitor K :=
  AccessMonitor (am_enable m) (am_enable_removable_media m) (am_autoscan_removable_media m) (am_entries m)
    (am_start_pipe m) (am_command_pipe m) (am_fanotify m) im (am_media_scans m) (am_kernel m).

Definition set_flags m (enable removable autoscan : Z) (f : fanotify_monitor) : access_monitor K :=
  AccessMonitor enable removable autoscan (am_entries m) (am_start_pipe m) (am_command_pipe m) f (am_inotify m)
    (am_media_scans m) (am_kernel m).

Definition set_pipes m (start command : list Z) : access_monitor K :=
  AccessMonitor (am_enable m) (am_enable_removable_media m) (am_autoscan_removable_media m) (am_entries m)
    start command (am_fanotify m) (am_inotify m) (am_media_scans m) (am_kernel m).

Definition add_media_scan m (path : option string) : access_monitor K :=
  AccessMonitor (am_enable m) (am_enable_removable_media m) (am_autoscan_removable_media m) (am_entries m)
    (am_start_pipe m) (am_command_pipe m) (am_fanotify m) (am_inotify m) (am_media_scans m ++ [path]) (am_kernel m).

(** ** Creation and settings *)

(** When one of the two pipes cannot be made, the message aborts, so that NULL is never
    returned. *)
Definition access_monitor_new (pipes : bool) (my_pid : Z) (k : K) : outcome (access_monitor K) :=
  if pipes then Ok (AccessMonitor 0 0 0 [] [] [] (fanotify_monitor_new my_pid) inotify_monitor_new [] k)
  else Fault Aborted.

Definition access_monitor_enable m (enable : Z) : Z * access_monitor K :=
  (enable, set_flags m enable (am_enable_removable_media m) (am_autoscan_removable_media m) (am_fanotify m)).
Definition access_monitor_is_enable m : Z := am_enable m.

Definition access_monitor_enable_permission m (enable_permission : Z) : access_monitor K :=
  set_flags m (am_enable m) (am_enable_removable_media m) (am_autoscan_removable_media m)
    (fanotify_monitor_enable_permission (am_fanotify m) (negb (enable_permission =? 0))).
Definition access_monitor_is_enable_permission m : bool := fanotify_monitor_is_enable_permission (am_fanotify m).

Definition access_monitor_enable_removable_media m (enable_removable_media : Z) : Z * access_monitor K :=
  (enable_removable_media,
   set_flags m (am_enable m) enable_removable_media (am_autoscan_removable_media m) (am_fanotify m)).
Definition access_monitor_is_enable_removable_media m : Z := am_enable_removable_media m.

Definition access_monitor_autoscan_removable_media m (autoscan_removable_media : Z) : Z * access_monitor K :=
  (autoscan_removable_media,
   set_flags m (am_enable m) (am_enable_removable_media m) autoscan_removable_media (am_fanotify m)).
Definition access_monitor_is_autoscan_removable_media m : Z := am_autoscan_removable_media m.

Definition add_entry m (path : string) (flag : entry_flag) : access_monitor K :=
  AccessMonitor (am_enable m) (am_enable_removable_media m) (am_autoscan_removable_media m)
    (am_entries m ++ [{| en_path := path; en_flag := flag |}])
    (am_start_pipe m) (am_command_pipe m) (am_fanotify m) (am_inotify m) (am_media_scans m) (am_kernel m).

Definition access_monitor_add_directory m (path : string) : access_monitor K := add_entry m path ENTRY_DIR.

End setters.

Section monitor.
Context {K : Type} `{Kernel K}.
Implicit Types (m : access_monitor K).

(** [dev_t] is unsigned: the -1 of a failure is its greatest value. *)
Definition get_dev_id (path : string) (k : K) : Z :=
  match sys_stat_dev path k with None => u64 (-1) | Some d => u64 d end.

Definition access_monitor_add_mount m (mount_point : string) : outcome (access_monitor K) :=
  let slash_dev_id := get_dev_id "/" (am_kernel m) in
  if slash_dev_id <? 0 then Fault Aborted
  else
    let mount_dev_id := get_dev_id mount_point (am_kernel m) in
    if mount_dev_id <? 0 then Fault Aborted
    else if mount_dev_id =? slash_dev_id then Ok m
    else Ok (add_entry m mount_point ENTRY_MOUNT).

(** ** Marks *)

Definition fanotify_mark_call m (mark : fan_mark) : Z * access_monitor K :=
  let (r, k) := sys_fanotify_mark mark (am_kernel m) in (r, set_kernel m k).

Definition inotify_monitor_mark_directory m (path : string) : Z * access_monitor K :=
  let (wd, k) := sys_inotify_add_watch path (am_kernel m) in
  let m := set_kernel m k in
  if wd =? -1 then (-1, m)
  else
    let im := am_inotify m in
    (0, set_inotify m {| wd2path_table := <[wd := path]> (wd2path_table im);
                         path2wd_table := <[path := wd]> (path2wd_table im) |}).

(** The lookup gives NULL for a path that is not in the table (or has descriptor 0). *)
Definition inotify_monitor_unmark_directory m (path : string) : Z * access_monitor K :=
  let im := am_inotify m in
  match path2wd_table im !! path with
  | None | Some 0 =>
      (0, set_inotify m {| wd2path_table := wd2path_table im; path2wd_table := delete path (path2wd_table im) |})
  | Some wd =>
      let (_, k) := sys_inotify_rm_watch wd (am_kernel m) in
      (0, set_inotify (set_kernel m k)
            {| wd2path_table := delete wd (wd2path_table im); path2wd_table := delete path (path2wd_table im) |})
  end.

Definition mark_directory m (path : string) : access_monitor K :=
  let (r, m) := fanotify_mark_call m (fanotify_monitor_mark_directory (am_fanotify m) path) in
  if r <? 0 then m else (inotify_monitor_mark_directory m path).2.

Definition access_monitor_unmark_directory m (path : string) : Z * access_monitor K :=
  let (r, m) := fanotify_mark_call m (fanotify_monitor_unmark_directory (am_fanotify m) path) in
  if r <? 0 then (-1, m)
  else
    let (r, m) := inotify_monitor_unmark_directory m path in
    if r <? 0 then (-1, m) else (0, m).

(** [entry->d_type != DT_DIR || !strcmp(entry->d_name, ".") || ...] *)
Definition skipped (type : d_type) (name : string) : bool :=
  negb (bool_decide (type = DT_DIR)) || bool_decide (name = ".") || bool_decide (name = "..").

(** [t] is what the walk finds below [path]. *)
Fixpoint recursive_mark (path : string) (t : dir_tree) m : Z * access_monitor K :=
  let m := mark_directory m path in
  match t with
  | Unreadable _ => (-1, m)
  | Readable entries => (0, mark_subdirectories path entries m)
  end
with mark_subdirectories (path : string) (entries : dir_entries) m : access_monitor K :=
  match entries with
  | EndOfDir _ => m
  | Entry name type _ below next =>
      if skipped type name then mark_subdirectories path next m
      else mark_subdirectories path next (recursive_mark (path +:+ "/" +:+ name) below m).2
  end.

Definition access_monitor_recursive_mark_directory m (path : string) : Z * access_monitor K :=
  recursive_mark path (sys_tree path (am_kernel m)) m.

Definition mark_mount_point m (path : string) : access_monitor K :=
  (fanotify_mark_call m (fanotify_monitor_mark_mount (am_fanotify m) path)).2.

Definition mark_entry m (e : monitor_entry) : access_monitor K :=
  match en_flag e with
  | ENTRY_DIR => (access_monitor_recursive_mark_directory m (en_path e)).2
  | ENTRY_MOUNT => mark_mount_point m (en_path e)
  end.

Definition mark_entries m : access_monitor K := fold_left mark_entry (am_entries m) m.

End monitor.

(** ** inotify events *)

(** <linux/inotify.h> *)
Definition IN_MOVED_FROM : Z := 0x40.
Definition IN_MOVED_TO : Z := 0x80.
Definition IN_CREATE : Z := 0x100.
Definition IN_DELETE : Z := 0x200.
Definition IN_ISDIR : Z := 0x40000000.

Definition has_bit (mask bit : Z) : bool := negb (Z.land mask bit =? 0).

(** [struct inotify_event]; [ie_len] is the size of the name field. *)
Record inotify_event := InotifyEvent {
  ie_wd : Z;
  ie_mask : Z;
  ie_cookie : Z;
  ie_len : Z;
  ie_name : string;
}.

Definition inotify_event_full_path (im : inotify_monitor) (event : inotify_event) : option string :=
  dir ← wd2path_table im !! ie_wd event;
  Some (if ie_len event =? 0 then dir else dir +:+ "/" +:+ ie_name event).

Section callbacks.
Context {K : Type} `{Kernel K}.
Implicit Types (m : access_monitor K).

Definition inotify_event_process m (event : inotify_event) : access_monitor K :=
  if negb (has_bit (ie_mask event) IN_ISDIR) then m
  else match inotify_event_full_path (am_inotify m) event with
  | None => m
  | Some full_path =>
      if has_bit (ie_mask event) IN_CREATE || has_bit (ie_mask event) IN_MOVED_TO
      then (access_monitor_recursive_mark_directory m full_path).2
      else if has_bit (ie_mask event) IN_DELETE || has_bit (ie_mask event) IN_MOVED_FROM
      then (access_monitor_unmark_directory m full_path).2
      else m
  end.

(** ** The buffer of events

    Integers are little endian.  [sizeof(struct inotify_event)] is 16. *)
Definition INOTIFY_BUFFER_SIZE : Z := 8192.

(** The event at the beginning of [l], the bytes read and not yet processed: reading
    past them reads what the stack held. *)
Definition event_at (l : list ascii) : outcome inotify_event :=
  if Z.of_nat (length l) <? 16 then Fault UninitRead
  else
    let word i := take 4 (drop i l) in
    Ok {| ie_wd := i32 (le_value (word 0%nat)); ie_mask := le_value (word 4%nat); ie_cookie := le_value (word 8%nat);
          ie_len := le_value (word 12%nat);
          ie_name := c_string (take (Z.to_nat (le_value (word 12%nat))) (drop 16 l)) |}.

(** The loop over the buffer: each turn advances by 16 bytes at least, so the number of
    bytes is enough fuel. *)
Fixpoint inotify_loop (fuel : nat) (l : list ascii) m : outcome (access_monitor K) :=
  match l with
  | [] => Ok m
  | _ =>
      match fuel with
      | O => Fault Diverges
      | S fuel =>
          event ← event_at l;
          inotify_loop fuel (drop (Z.to_nat (16 + ie_len event)) l) (inotify_event_process m event)
      end
  end.

(** [read] gave [len] and the bytes [l]. *)
Definition inotify_cb (len : Z) (l : list ascii) m : outcome (access_monitor K) :=
  if 0 <? len then inotify_loop (length l) l m else Ok m.

(** ** Mounts *)

Inductive mount_event_type := EVENT_MOUNT | EVENT_UMOUNT | EVENT_UNKNOWN.

(** The values of D-Bus messages that the code tells apart, as parameters of the signal
    and as values of the dictionary of properties. *)
Inductive property := VBytestringArray (l : list string) | VOtherProperty.

Inductive gvariant :=
  | VString (s : string)
  | VVarDict (l : list (string * property))
  | VStringArray (l : list string)
  | VOther.

Definition dict_lookup (l : list (string * property)) (key : string) : option property :=
  match list_find (fun f => f.1 = key) l with Some (_, f) => Some f.2 | None => None end.

(** [parameters] are the children of the tuple.  A [MountPoints] of another type than
    an array of byte strings leaves the number of mount points uninitialised. *)
Definition get_mount_event (parameters : list gvariant) : outcome (option (mount_event_type * option string)) :=
  match parameters with
  | VString prop_name :: VVarDict arg1 :: VStringArray _ :: _ =>
      if negb (bool_decide (prop_name = "org.freedesktop.UDisks2.Filesystem")) then Ok None
      else match dict_lookup arg1 "MountPoints" with
      | None => Ok None
      | Some (VBytestringArray (mount_point :: _)) => Ok (Some (EVENT_MOUNT, Some mount_point))
      | Some (VBytestringArray []) => Ok (Some (EVENT_UMOUNT, None))
      | Some VOtherProperty => Fault UninitRead
      end
  | _ => Ok None
  end.

(** Run by the monitor's thread. *)
Definition mount_idle_cb (ev_type : mount_event_type) (path : option string) m : outcome (access_monitor K) :=
  match ev_type with
  | EVENT_UMOUNT | EVENT_UNKNOWN => Ok m
  | EVENT_MOUNT =>
      let m := if access_monitor_is_autoscan_removable_media m =? 0 then m else add_media_scan m path in
      if access_monitor_is_enable_removable_media m =? 0 then Ok m
      else match path with Some path => Ok (mark_mount_point m path) | None => Fault NullDeref end
  end.

(** The signal of D-Bus; [parameters] may be NULL. *)
Definition mount_cb (parameters : option (list gvariant)) m : outcome (access_monitor K) :=
  match parameters with
  | None => Ok m
  | Some parameters =>
      r ← get_mount_event parameters;
      match r with Some (ev_type, path) => mount_idle_cb ev_type path m | None => Ok m end
  end.

(** ** Start and commands *)

Definition ACCESS_MONITOR_START : Z := 1.
Definition ACCESS_MONITOR_STOP : Z := 2.
Definition ACCESS_MONITOR_STATUS : Z := 3.

(** <linux/fanotify.h> *)
Definition FAN_CLASS_NOTIF : Z := 0.
Definition FAN_CLASS_CONTENT : Z := 4.
Definition FAN_UNLIMITED_QUEUE : Z := 0x10.
Definition FAN_UNLIMITED_MARKS : Z := 0x20.

Definition fanotify_init_flags (f : fanotify_monitor) : Z :=
  Z.lor (Z.lor (if fa_enable_permission f then FAN_CLASS_CONTENT else FAN_CLASS_NOTIF) FAN_UNLIMITED_QUEUE)
    FAN_UNLIMITED_MARKS.

Definition fanotify_monitor_start m : outcome (Z * access_monitor K) :=
  let (fd, k) := sys_fanotify_init (fanotify_init_flags (am_fanotify m)) (am_kernel m) in
  if fd <? 0 then Fault Aborted else Ok (0, set_kernel m k).

Definition inotify_monitor_start m : outcome (Z * access_monitor K) :=
  let (fd, k) := sys_inotify_init (am_kernel m) in
  if fd =? -1 then Fault Aborted else Ok (0, set_kernel m k).

Definition mount_monitor_start m : Z * access_monitor K :=
  let (conn, k) := sys_bus_get (am_kernel m) in ((if conn then 0 else -1), set_kernel m k).

Definition access_monitor_start_command m : outcome (access_monitor K) :=
  r ← fanotify_monitor_start m;
  if negb (r.1 =? 0) then Ok r.2
  else
    r ← inotify_monitor_start r.2;
    if negb (r.1 =? 0) then Ok r.2
    else
      let (r, m) := mount_monitor_start r.2 in
      if r <? 0 then Ok m else Ok (mark_entries m).

(** [written]: [write] on the pipe succeeds. *)
Definition access_monitor_send_command (written : bool) m (command : Z) : Z * access_monitor K :=
  if written then (0, set_pipes m (am_start_pipe m) (am_command_pipe m ++ [command])) else (-1, m).

(** NULL is ignored. *)
Definition access_monitor_delayed_start (written : bool) (m : option (access_monitor K)) : Z * option (access_monitor K) :=
  match m with
  | None => (0, None)
  | Some m => if written then (0, Some (set_pipes m (am_start_pipe m ++ [65]) (am_command_pipe m))) else (-1, Some m)
  end.

(** The callback of the main loop on the start pipe, called when it can be read; [ok]
    tells whether [read] succeeds. *)
Definition delayed_start_cb (ok written : bool) m : outcome (bool * access_monitor K) :=
  match am_start_pipe m with
  | [] => Ok (true, m)
  | c :: rest =>
      if negb ok then Fault Aborted
      else
        let m := set_pipes m rest (am_command_pipe m) in
        if negb (c =? 65) then Fault Aborted
        else Ok (true, if access_monitor_is_enable m =? 0 then m
                       else (access_monitor_send_command written m ACCESS_MONITOR_START).2)
  end.

(** The callback of the monitor's loop on the command pipe. *)
Definition command_cb (ok : bool) m : outcome (bool * access_monitor K) :=
  match am_command_pipe m with
  | [] => Ok (true, m)
  | cmd :: rest =>
      if negb ok then Fault Aborted
      else
        let m := set_pipes m (am_start_pipe m) rest in
        m ← (if cmd =? ACCESS_MONITOR_START then access_monitor_start_command m else Ok m);
        Ok (true, m)
  end.

End callbacks.
