(* ===== verification/MountHeap.v ===== *)
(** * Notifications of mounts between three threads
    ([src/libcore/arch/linux/builtin-modules/on-access/monitor.c])

    A signal of the bus is copied to a [struct mount_data] for the monitor's thread, which
    copies it again for a thread that scans the medium.  Each copy is freed by the thread
    that got it.  The threads are tasks that run in any order; what they do to the marks is
    in Monitor.v, and the scan in MediaScan.v. *)
From S2P Require Import Prelude Monitor Heap.
From iris.proofmode Require Import proofmode.

#[local] Open Scope Z_scope.

Inductive mount_block : Set :=
  | BPath (s : string)
  | BMountData (ev_type : mount_event_type) (path : ptr).   (** without the monitor *)

(** What is pending: a call of [mount_idle_cb] by the loop of the monitor, or a thread of
    [scan_media_thread_fun]. *)
Inductive mount_task {D : Type} := IdleTask (data : D) | ScanTask (data : D).
Arguments mount_task D : clear implicits.

(** The file system that is marked, the medium that is scanned. *)
Inductive mount_effect := MarkMount (path : string) | ScanMedia (path : string).

(** ** Operations *)

Section operations.
Context `{Allocator}.

Definition get_data (d : addr) : cmd mount_block (mount_event_type * ptr) :=
  b ← load d; match b with BMountData ev path => mret (ev, path) | BPath _ => fault_cmd UninitRead end.

Definition get_path (p : ptr) : cmd mount_block string :=
  a ← deref_ptr p; b ← load a; match b with BPath s => mret s | BMountData _ _ => fault_cmd UninitRead end.

Definition mount_data_new (ev_type : mount_event_type) (path : ptr) : cmd mount_block addr :=
  data ← malloc (BMountData ev_type None);
  match path with
  | None => mret data
  | Some _ => s ← get_path path; copy ← malloc (BPath s); store data (BMountData ev_type (Some copy));; mret data
  end.

Definition mount_data_free (d : addr) : cmd mount_block unit :=
  data ← get_data d; free data.2;; free (Some d).

(** Called by the thread of the bus, whose [path] it is. *)
Definition mount_notify (ev_type : mount_event_type) (path : ptr) : cmd mount_block (mount_task addr) :=
  data ← mount_data_new ev_type path; mret (IdleTask data).

Definition scan_media (d : addr) : cmd mount_block (mount_task addr) :=
  data ← get_data d; clone ← mount_data_new data.1 data.2; mret (ScanTask clone).

(** [autoscan], [removable]: the settings when the call is made. *)
Definition mount_idle (autoscan removable : bool) (d : addr)
    : cmd mount_block (list (mount_task addr) * list mount_effect) :=
  data ← get_data d;
  match data.1 with
  | EVENT_MOUNT =>
      tasks ← (if autoscan then t ← scan_media d; mret [t] else mret []);
      marks ← (if removable then s ← get_path data.2; mret [MarkMount s] else mret []);
      mret (tasks, marks)
  | _ => mret ([], [])
  end.

Definition scan_media_thread (d : addr) : cmd mount_block (list mount_effect) :=
  data ← get_data d; s ← get_path data.2; mount_data_free d;; mret [ScanMedia s].

(** A task from its beginning to its end; [mount_data_free] is what the loop calls after
    [mount_idle_cb]. *)
Definition run_task (autoscan removable : bool) (t : mount_task addr)
    : cmd mount_block (list (mount_task addr) * list mount_effect) :=
  match t with
  | IdleTask d => r ← mount_idle autoscan removable d; mount_data_free d;; mret r
  | ScanTask d => effects ← scan_media_thread d; mret ([], effects)
  end.

(** A signal with the mount point it names, none for an unmount; or the task at [i] runs,
    with the settings of that time. *)
Inductive mount_action :=
  | Signal (mount_point : option string)
  | RunTask (i : nat) (autoscan removable : bool).

(** [get_mount_event], as far as [mount_cb] of mount.c passes it on. *)
Definition signal_type (mount_point : option string) : mount_event_type :=
  match mount_point with Some _ => EVENT_MOUNT | None => EVENT_UMOUNT end.

Definition bus_string (s : option string) : cmd mount_block ptr :=
  match s with None => mret None | Some s => a ← malloc (BPath s); mret (Some a) end.

Definition mount_act (a : mount_action) (tasks : list (mount_task addr))
    : cmd mount_block (list (mount_task addr) * list mount_effect) :=
  match a with
  | Signal mount_point =>
      p ← bus_string mount_point;
      t ← mount_notify (signal_type mount_point) p;
      free p;; mret (tasks ++ [t], [])
  | RunTask i autoscan removable =>
      match tasks !! i with
      | None => mret (tasks, [])
      | Some t => r ← run_task autoscan removable t; mret (delete i tasks ++ r.1, r.2)
      end
  end.

Fixpoint mount_acts (l : list mount_action) (tasks : list (mount_task addr))
    : cmd mount_block (list (mount_task addr) * list mount_effect) :=
  match l with
  | [] => mret (tasks, [])
  | a :: l => r ← mount_act a tasks; r' ← mount_acts l r.1; mret (r'.1, r.2 ++ r'.2)
  end.

End operations.

(** ** The same without memory: a pending task carries its mount point *)

Definition run_value (autoscan removable : bool) (t : mount_task (option string))
    : list (mount_task (option string)) * list mount_effect :=
  match t with
  | IdleTask None => ([], [])
  | IdleTask (Some s) =>
      (if autoscan then [ScanTask (Some s)] else [], if removable then [MarkMount s] else [])
  | ScanTask None => ([], [])
  | ScanTask (Some s) => ([], [ScanMedia s])
  end.

Definition act_value (a : mount_action) (tasks : list (mount_task (option string))) :=
  match a with
  | Signal mount_point => (tasks ++ [IdleTask mount_point], [])
  | RunTask i autoscan removable =>
      match tasks !! i with
      | None => (tasks, [])
      | Some t => let r := run_value autoscan removable t in (delete i tasks ++ r.1, r.2)
      end
  end.

Fixpoint acts_value (l : list mount_action) (tasks : list (mount_task (option string))) :=
  match l with
  | [] => (tasks, [])
  | a :: l => let r := act_value a tasks in let r' := acts_value l r.1 in (r'.1, r.2 ++ r'.2)
  end.

(** ** Ownership *)

Definition path_at (p : ptr) (s : option string) : hprop mount_block :=
  match p, s with None, None => emp | Some a, Some s => a ↦ BPath s | _, _ => False end.

Definition data_with (d : addr) (p : ptr) (s : option string) : hprop mount_block :=
  d ↦ BMountData (signal_type s) p ∗ path_at p s.

Definition data_at (d : addr) (s : option string) : hprop mount_block := ∃ p, data_with d p s.

(** A pending task owns its data; only media are scanned. *)
Definition task_at (t : mount_task addr) (v : mount_task (option string)) : hprop mount_block :=
  match t, v with
  | IdleTask d, IdleTask s => data_at d s
  | ScanTask d, ScanTask (Some s) => data_at d (Some s)
  | _, _ => False
  end.

Section ownership.
Context `{Allocator}.

Lemma get_path_spec p s :
  path_at p (Some s) ⊢ wp (get_path p) (fun r => ⟨r = s⟩ ∗ path_at p (Some s)).
Proof. destruct p as [a|]; [|by iIntros "[]"]. iIntros "H". wp_pure. wp_read "H". wp_pure. by iFrame. Qed.

Lemma mount_data_new_spec p s :
  path_at p s ⊢ wp (mount_data_new (signal_type s) p) (fun d => data_at d s ∗ path_at p s).
Proof.
  iIntros "Hp". wp_let d as "Hd". destruct p as [a|], s as [s|]; try by iDestruct "Hp" as %[].
  - wp_use (get_path_spec (Some a) s) with "Hp" as (r) "[-> Hp]". wp_let c as "Hc". wp_write "Hd". wp_pure.
    iFrame.
  - wp_pure. iFrame.
Qed.

Lemma mount_data_free_spec d s : data_at d s ⊢ wp (mount_data_free d) (fun _ => emp).
Proof.
  iIntros "(%p & Hd & Hp)". wp_front. wp_read "Hd". wp_pure.
  destruct p as [a|], s as [s|]; try by iDestruct "Hp" as %[].
  - wp_del "Hp". by wp_del "Hd".
  - wp_front. iApply wp_free_null. by wp_del "Hd".
Qed.

Lemma get_data_spec d p s :
  data_with d p s ⊢ wp (get_data d) (fun r => ⟨r = (signal_type s, p)⟩ ∗ data_with d p s).
Proof. iIntros "[Hd Hp]". wp_read "Hd". wp_pure. by iFrame. Qed.

Lemma bus_string_spec s : ⊢ wp (bus_string s) (fun p => path_at p s).
Proof. destruct s as [s|]; simpl; [wp_let a as "Ha"|]; by wp_pure. Qed.

Lemma free_path_spec p s : path_at p s ⊢ wp (free p) (fun _ => emp).
Proof.
  destruct p as [a|], s as [s|]; try by iIntros "[]".
  - iIntros "H". by wp_del "H".
  - iIntros "_". by iApply wp_free_null.
Qed.

Definition tasks_at (tasks : list (mount_task addr)) (values : list (mount_task (option string))) : hprop mount_block :=
  [∗ list] t;v ∈ tasks;values, task_at t v.

Lemma scan_media_spec d p s :
  data_with d p (Some s) ⊢ wp (scan_media d) (fun t => data_with d p (Some s) ∗ task_at t (ScanTask (Some s))).
Proof.
  iIntros "H". wp_use get_data_spec with "H" as (r) "(-> & Hd & Hp)".
  wp_use (mount_data_new_spec p (Some s)) with "Hp" as (c) "[Hc Hp]". wp_pure. iFrame.
Qed.

Lemma autoscan_spec (autoscan : bool) d p s :
  data_with d p (Some s) ⊢ wp (if autoscan then t ← scan_media d; mret [t] else mret []) (fun r =>
    data_with d p (Some s) ∗ tasks_at r (if autoscan then [ScanTask (Some s)] else [])).
Proof.
  iIntros "H". unfold tasks_at. destruct autoscan.
  - wp_use scan_media_spec with "H" as (t) "[Hd Ht]". wp_pure. by iFrame.
  - wp_pure. by iFrame.
Qed.

Lemma removable_spec (removable : bool) p s :
  path_at p (Some s) ⊢ wp (if removable then s ← get_path p; mret [MarkMount s] else mret []) (fun r =>
    path_at p (Some s) ∗ ⟨r = if removable then [MarkMount s] else []⟩).
Proof.
  iIntros "H". destruct removable; [|wp_pure; by iFrame].
  wp_use get_path_spec with "H" as (r) "[-> H]". wp_pure. by iFrame.
Qed.

Lemma mount_idle_spec autoscan removable d s :
  data_at d s ⊢ wp (mount_idle autoscan removable d) (fun r =>
    data_at d s ∗ tasks_at r.1 (run_value autoscan removable (IdleTask s)).1 ∗
    ⟨r.2 = (run_value autoscan removable (IdleTask s)).2⟩).
Proof.
  iIntros "(%p & H)". wp_use get_data_spec with "H" as (r) "[-> H]". destruct s as [s|]; simpl.
  - wp_use autoscan_spec with "H" as (ts) "[[Hd Hp] Hts]". wp_use removable_spec with "Hp" as (l) "[Hp ->]".
    wp_pure. by iFrame.
  - wp_pure. iFrame. unfold tasks_at. simpl. by iSplit.
Qed.

Lemma run_task_spec autoscan removable t v :
  task_at t v ⊢ wp (run_task autoscan removable t) (fun r =>
    tasks_at r.1 (run_value autoscan removable v).1 ∗ ⟨r.2 = (run_value autoscan removable v).2⟩).
Proof.
  iIntros "H". destruct t as [d|d], v as [s|[s|]]; try by iDestruct "H" as %[].
  - wp_use mount_idle_spec with "H" as (r) "(Hd & Hts & %E)". wp_use mount_data_free_spec with "Hd" as (u) "_".
    wp_pure. by iFrame.
  - iDestruct "H" as (p) "H". wp_front. wp_use get_data_spec with "H" as (r) "[-> [Hd Hp]]".
    wp_use get_path_spec with "Hp" as (r) "[-> Hp]". iAssert (data_at d (Some s)) with "[Hd Hp]" as "H"; [iExists p; iFrame|].
    wp_use mount_data_free_spec with "H" as (u) "_". wp_pure. wp_pure. unfold tasks_at. simpl. by iSplit.
Qed.

Lemma tasks_at_middle t1 t t2 v1 v v2 : length t1 = length v1 ->
  tasks_at (t1 ++ t :: t2) (v1 ++ v :: v2) ⊣⊢ task_at t v ∗ tasks_at (t1 ++ t2) (v1 ++ v2).
Proof.
  intros Hl. unfold tasks_at. rw !big_sepL2_app_same_length; [|by left..]. simpl.
  rw !(assoc bi_sep) (comm bi_sep (task_at t v)). done.
Qed.

Lemma mount_act_spec a tasks values :
  tasks_at tasks values ⊢ wp (mount_act a tasks) (fun r =>
    tasks_at r.1 (act_value a values).1 ∗ ⟨r.2 = (act_value a values).2⟩).
Proof.
  iIntros "H". destruct a as [s|i autoscan removable].
  - wp_front. iApply wp_wand. iSplitR; [iApply bus_string_spec|]. iIntros (p) "Hp". wp_front.
    wp_use mount_data_new_spec with "Hp" as (d) "[Hd Hp]". wp_pure.
    wp_use free_path_spec with "Hp" as (u) "_". wp_pure. unfold tasks_at. rw big_sepL2_snoc. by iFrame.
  - iDestruct (big_sepL2_length with "H") as %Hl. simpl.
    destruct (tasks !! i) as [t|] eqn:Et, (values !! i) as [v|] eqn:Ev.
    2, 3: apply lookup_lt_Some in Et || apply lookup_lt_Some in Ev; apply lookup_ge_None in Ev || apply lookup_ge_None in Et; lia.
    + apply list_elem_of_split_length in Et as (t1 & t2 & -> & ->).
      apply list_elem_of_split_length in Ev as (v1 & v2 & -> & Hv).
      rw {2}Hv !delete_middle tasks_at_middle; [|done]. iDestruct "H" as "[Ht H]".
      wp_use run_task_spec with "Ht" as (r) "[Hr %E]". wp_pure. iSplitL; [|done].
      iApply (big_sepL2_app with "H Hr").
    + wp_pure. by iFrame.
Qed.

Lemma mount_acts_spec l tasks values :
  tasks_at tasks values ⊢ wp (mount_acts l tasks) (fun r =>
    tasks_at r.1 (acts_value l values).1 ∗ ⟨r.2 = (acts_value l values).2⟩).
Proof.
  revert tasks values. induction l as [|a l IH]; intros tasks values; iIntros "H"; simpl.
  - wp_pure. by iFrame.
  - wp_use mount_act_spec with "H" as (r) "[H %E]". wp_use IH with "H" as (r') "[H %E']". wp_pure. rw E E'. by iFrame.
Qed.

(** How many blocks a pending task owns. *)
Definition task_blocks (v : mount_task (option string)) : nat :=
  match v with IdleTask None => 1 | _ => 2 end.

Definition sized (P : hprop mount_block) (n : nat) : Prop := forall h, holds P h -> size h = n.

Lemma sized_sep P Q n m : sized P n -> sized Q m -> sized (P ∗ Q) (n + m).
Proof.
  intros HP HQ h (h1 & h2 & -> & D & H1 & H2). rw map_size_disj_union; [|done]. by rw (HP h1 H1) (HQ h2 H2).
Qed.

Lemma sized_points_to a b : sized (a ↦ b) 1.
Proof. intros h ->. apply map_size_singleton. Qed.

Lemma sized_data d s : sized (data_at d s) (match s with Some _ => 2 | None => 1 end).
Proof.
  intros h ([a|] & Hp); destruct s as [s|]; try by destruct Hp as (? & ? & _ & _ & _ & []).
  - by apply (sized_sep _ _ 1 1) in Hp; [|apply sized_points_to..].
  - apply (sized_sep _ _ 1 0) in Hp; [done|apply sized_points_to|]. intros h' ->. apply map_size_empty.
Qed.

Lemma sized_tasks tasks values : sized (tasks_at tasks values) (sum_list_with task_blocks values).
Proof.
  revert values. induction tasks as [|t tasks IH]; intros [|v values]; try by intros h [].
  - intros h ->. apply map_size_empty.
  - apply sized_sep; [|apply IH]. destruct t as [d|d], v as [[s|]|[s|]]; try by intros h [].
    + apply (sized_data d (Some s)).
    + apply (sized_data d None).
    + apply (sized_data d (Some s)).
Qed.

(** C24: Signals and threads in any order, with any settings: no thread reads or frees a block
    that another one freed; what is marked and scanned is what the signals named, as when
    nothing is copied; and beside the other blocks the heap has exactly those of the calls
    and threads that are still pending, so that nothing is left once they have run. *)
Theorem mount_threads_own l h :
  let values := acts_value l [] in
  exists tasks h',
    mount_acts l [] h = Ok ((tasks, values.2), h' ∪ h) /\ h' ##ₘ h /\
    length tasks = length values.1 /\ size h' = sum_list_with task_blocks values.1.
Proof.
  destruct (wp_run _ _ _ ∅ h (mount_acts_spec l [] [])) as ([tasks effects] & h' & E & D & HQ);
    [done|apply map_disjoint_empty_l|].
  rw left_id_L in E. destruct HQ as (h1 & h2 & -> & _ & Ht & [He Hf]). hnf in He. subst h2. simpl in Hf, Ht.
  rw (right_id_L ∅ (∪)) in E D. rw Hf in E. exists tasks, h1. pose proof (sized_tasks _ _ h1 Ht) as Hs.
  split_and!; [done|done| |done].
  assert (tasks_at tasks (acts_value l []).1 ⊢ ⌜length tasks = length (acts_value l []).1⌝) as [Hlen]; [|exact (Hlen h1 Ht)].
  apply big_sepL2_length.
Qed.

End ownership.

(** Two media, the second removed while the first is scanned. *)
Example two_media :
  acts_value [Signal (Some "/media/a"); RunTask 0 true true; Signal (Some "/media/b"); Signal None; RunTask 1 true false;
              RunTask 0 true true; RunTask 1 true true; RunTask 0 true true] [] =
    ([], [MarkMount "/media/a"; ScanMedia "/media/a"; ScanMedia "/media/b"])%string.
Proof. vm_compute. reflexivity. Qed.
