(* ===== verification/MonitorSpec.v ===== *)
(** * Every directory that appears is protected *)
From S2P Require Import Prelude Dir FaMonitor Monitor.
From stdpp Require Import relations.

#[local] Open Scope Z_scope.

(** ** Walks as lists of directories *)

Definition child (path name : string) : string := path +:+ "/" +:+ name.

(** The directories of a walk, each before those below it. *)
Fixpoint tree_dirs (path : string) (t : dir_tree) : list string :=
  path :: match t with Unreadable _ => [] | Readable entries => subdirs path entries end
with subdirs (path : string) (entries : dir_entries) : list string :=
  match entries with
  | EndOfDir _ => []
  | Entry name type _ below next =>
      if skipped type name then subdirs path next else tree_dirs (child path name) below ++ subdirs path next
  end.

Lemma recursive_mark_fold {K} `{Kernel K} :
  (forall t path (m : access_monitor K), (recursive_mark path t m).2 = fold_left mark_directory (tree_dirs path t) m) /\
  (forall es path (m : access_monitor K), mark_subdirectories path es m = fold_left mark_directory (subdirs path es) m).
Proof.
  apply dir_mutind.
  - done.
  - intros es IH path m. cbn. apply IH.
  - done.
  - intros name type real below IHb next IHn path m. cbn [mark_subdirectories subdirs]. destruct (skipped type name); [apply IHn|].
    rewrite fold_left_app, IHn. f_equal. apply IHb.
Qed.

(** ** The file system

    What is assumed of the system, for directories that are not renamed: a directory
    has a watch descriptor of its own, marking and watching a directory that exists
    succeed, a walk finds the directories that exist, and the creation of a directory
    in a watched one is reported. *)
Definition valid_name (n : string) : Prop := ("/"%char ∉ bytes n) /\ n <> "." /\ n <> "..".

(** [below D a d]: [d] is [a], or is reached from it through directories of [D]. *)
Inductive below (D : gset string) (a : string) : string -> Prop :=
  | below_refl : below D a a
  | below_child d n : valid_name n -> child d n ∈ D -> below D a d -> below D a (child d n).

Lemma app_sep_inj {A} (x : A) l1 l2 l1' l2' :
  x ∉ l2 -> x ∉ l2' -> l1 ++ x :: l2 = l1' ++ x :: l2' -> l1 = l1' /\ l2 = l2'.
Proof.
  intros Hx Hx'. revert l1'. induction l1 as [|y l1 IH]; intros [|y' l1'] E; cbn in E.
  - by injection E as ->.
  - injection E as Ey E. destruct Hx. rewrite E. apply elem_of_app. right. left.
  - injection E as Ey E. destruct Hx'. rewrite <- E. apply elem_of_app. right. left.
  - injection E as Ey E. destruct (IH l1' E) as [-> ->]. by rewrite Ey.
Qed.

Definition create_event (wd : Z) (name : string) : inotify_event :=
  InotifyEvent wd (Z.lor IN_CREATE IN_ISDIR) 0 (Z.of_nat (String.length name) + 1) name.

Lemma below_in D a d : a ∈ D -> below D a d -> d ∈ D.
Proof. by destruct 2. Qed.

Lemma below_mono D D' a d : D ⊆ D' -> below D a d -> below D' a d.
Proof. intros HD. induction 1; [constructor|constructor; auto]. Qed.

Lemma below_trans D a b c : below D a b -> below D b c -> below D a c.
Proof. intros Hab. induction 1; [done|by constructor]. Qed.

Lemma child_inj p n q n' : valid_name n -> valid_name n' -> child p n = child q n' -> p = q /\ n = n'.
Proof.
  intros Hn Hn' E. assert (bytes (child p n) = bytes (child q n')) as Eb by (by rewrite E).
  unfold child in Eb. rewrite !bytes_app in Eb. cbn [app bytes] in Eb.
  destruct (app_sep_inj _ _ _ _ _ (proj1 Hn) (proj1 Hn') Eb) as [Ep En]. split; by apply bytes_inj.
Qed.

(** What a new directory puts below [root]. *)
Lemma below_new D root p n d :
  valid_name n -> below ({[child p n]} ∪ D) root d ->
  below D root d \/ below D root p /\ below ({[child p n]} ∪ D) (child p n) d.
Proof.
  intros Hn. induction 1 as [|d n' Hn' Hin Hb [IH|[Hp IH]]]; [left; constructor| |right; by split; [|constructor]].
  apply elem_of_union in Hin as [E%elem_of_singleton|Hin]; [|left; by constructor].
  destruct (child_inj _ _ _ _ Hn' Hn E) as [-> ->]. right. split; [done|constructor].
Qed.

Class FileSystem (K : Type) `{Kernel K} := {
  fs_dirs : K -> gset string;
  fs_marked : K -> gset string;          (** directories whose openings fanotify reports *)
  fs_watched : K -> gset string;
  fs_queue : K -> list inotify_event;    (** inotify events not yet read *)
  fs_wd : string -> Z;
  fs_mkdir : string -> string -> K -> K; (** by another process *)
  fs_read : K -> K;                      (** the first event is read *)
}.

Definition same_view {K} `{FileSystem K} (k k' : K) : Prop :=
  fs_dirs k' = fs_dirs k /\ fs_marked k' = fs_marked k /\ fs_watched k' = fs_watched k /\ fs_queue k' = fs_queue k.

Class FileSystemLaws (K : Type) `{FileSystem K} : Prop := {
  wd_inj : Inj (=) (=) fs_wd;
  wd_positive p : 0 < fs_wd p;
  init_fanotify flags k : 0 <= (sys_fanotify_init flags k).1 /\ same_view k (sys_fanotify_init flags k).2;
  init_inotify k : 0 <= (sys_inotify_init k).1 /\ same_view k (sys_inotify_init k).2;
  init_bus k : (sys_bus_get k).1 = true /\ same_view k (sys_bus_get k).2;
  mark_mount f p k : same_view k (sys_fanotify_mark (fanotify_monitor_mark_mount f p) k).2;
  mark_existing f p k : p ∈ fs_dirs k ->
    let r := sys_fanotify_mark (fanotify_monitor_mark_directory f p) k in
    r.1 = 0 /\ fs_dirs r.2 = fs_dirs k /\ fs_marked r.2 = {[p]} ∪ fs_marked k /\ fs_watched r.2 = fs_watched k /\
    fs_queue r.2 = fs_queue k;
  watch_existing p k : p ∈ fs_dirs k ->
    let r := sys_inotify_add_watch p k in
    r.1 = fs_wd p /\ fs_dirs r.2 = fs_dirs k /\ fs_marked r.2 = fs_marked k /\ fs_watched r.2 = {[p]} ∪ fs_watched k /\
    fs_queue r.2 = fs_queue k;
  tree_existing p k d : p ∈ fs_dirs k -> d ∈ tree_dirs p (sys_tree p k) <-> below (fs_dirs k) p d;
  mkdir_new p n k : p ∈ fs_dirs k ->
    fs_dirs (fs_mkdir p n k) = {[child p n]} ∪ fs_dirs k /\ fs_marked (fs_mkdir p n k) = fs_marked k /\
    fs_watched (fs_mkdir p n k) = fs_watched k /\
    fs_queue (fs_mkdir p n k) =
      fs_queue k ++ (if decide (p ∈ fs_watched k) then [create_event (fs_wd p) n] else []);
  read_event k ev rest : fs_queue k = ev :: rest ->
    fs_dirs (fs_read k) = fs_dirs k /\ fs_marked (fs_read k) = fs_marked k /\ fs_watched (fs_read k) = fs_watched k /\
    fs_queue (fs_read k) = rest;
}.

Section coverage.
Context {K : Type} `{FileSystemLaws K}.
Implicit Types (m : access_monitor K).

(** The openings of the files of [d] are reported, and so are the directories created
    in it, under the right path. *)
Definition covered m (d : string) : Prop :=
  d ∈ fs_marked (am_kernel m) /\ d ∈ fs_watched (am_kernel m) /\ wd2path_table (am_inotify m) !! fs_wd d = Some d.

Lemma mark_directory_covers m p :
  p ∈ fs_dirs (am_kernel m) ->
  let m' := mark_directory m p in
  covered m' p /\ (forall d, covered m d -> covered m' d) /\
  fs_dirs (am_kernel m') = fs_dirs (am_kernel m) /\ fs_queue (am_kernel m') = fs_queue (am_kernel m) /\
  fs_watched (am_kernel m') = {[p]} ∪ fs_watched (am_kernel m) /\ am_entries m' = am_entries m.
Proof.
  intros Hp m'. subst m'. unfold mark_directory, fanotify_mark_call.
  pose proof (mark_existing (am_fanotify m) p (am_kernel m) Hp) as Hm. cbn in Hm.
  destruct (sys_fanotify_mark _ _) as [r k1]. cbn [fst snd] in Hm. destruct Hm as (-> & Hd1 & Hm1 & Hw1 & Hq1).
  cbn [Z.ltb Z.compare]. change (0 <? 0) with false. cbn iota. unfold inotify_monitor_mark_directory. cbn [am_kernel set_kernel].
  pose proof (watch_existing p k1 ltac:(by rewrite Hd1)) as Hw. cbn in Hw.
  destruct (sys_inotify_add_watch p k1) as [wd k2]. cbn [fst snd] in Hw. destruct Hw as (-> & Hd2 & Hm2 & Hw2 & Hq2).
  pose proof (wd_positive p). replace (fs_wd p =? -1) with false by lia. unfold covered. cbn.
  rewrite Hd2, Hd1, Hm2, Hm1, Hw2, Hw1, Hq2, Hq1. split_and!; try done.
  - by apply elem_of_union_l, elem_of_singleton.
  - by apply elem_of_union_l, elem_of_singleton.
  - by rewrite lookup_insert_eq.
  - intros d (Hdm & Hdw & Hdt). split_and!; [by apply elem_of_union_r..|]. destruct (decide (p = d)) as [->|Hne].
    + by rewrite lookup_insert_eq.
    + rewrite lookup_insert_ne; [done|]. intros E. exact (Hne (wd_inj (K := K) _ _ E)).
Qed.

Lemma mark_all_covers l m :
  Forall (fun d => d ∈ fs_dirs (am_kernel m)) l ->
  let m' := fold_left mark_directory l m in
  Forall (covered m') l /\ (forall d, covered m d -> covered m' d) /\
  fs_dirs (am_kernel m') = fs_dirs (am_kernel m) /\ fs_queue (am_kernel m') = fs_queue (am_kernel m) /\
  (forall d, d ∈ fs_watched (am_kernel m') <-> d ∈ l \/ d ∈ fs_watched (am_kernel m)) /\ am_entries m' = am_entries m.
Proof.
  revert m. induction l as [|p l IH]; intros m Hl.
  { split_and!; try done. intros d. split; [by right|]. intros [?%elem_of_nil|?]; done. }
  apply list.Forall_cons in Hl as [Hp Hl]. cbn [fold_left].
  destruct (mark_directory_covers m p Hp) as (Hc & Hk & Hd & Hq & Hw & He).
  destruct (IH (mark_directory m p)) as (Hcs & Hks & Hds & Hqs & Hws & Hes).
  { eapply Forall_impl; [exact Hl|]. intros d. by rewrite Hd. }
  cbn in *. rewrite Hds, Hqs, Hd, Hq, Hes, He. split_and!; try done.
  - constructor; [by apply Hks|done].
  - intros d Hcd. by apply Hks, Hk.
  - intros d. rewrite Hws, Hw, elem_of_cons, elem_of_union, elem_of_singleton. tauto.
Qed.

Lemma walk_covers m p :
  p ∈ fs_dirs (am_kernel m) ->
  let m' := (access_monitor_recursive_mark_directory m p).2 in
  (forall d, below (fs_dirs (am_kernel m)) p d -> covered m' d) /\ (forall d, covered m d -> covered m' d) /\
  fs_dirs (am_kernel m') = fs_dirs (am_kernel m) /\ fs_queue (am_kernel m') = fs_queue (am_kernel m) /\
  (forall d, d ∈ fs_watched (am_kernel m') -> d ∈ fs_watched (am_kernel m) \/ covered m' d) /\ am_entries m' = am_entries m.
Proof.
  intros Hp m'. subst m'. unfold access_monitor_recursive_mark_directory. rewrite (proj1 recursive_mark_fold).
  destruct (mark_all_covers (tree_dirs p (sys_tree p (am_kernel m))) m) as (Hcs & Hk & Hd & Hq & Hw & He).
  { apply Forall_forall. intros d Hd%tree_existing; [|done]. by eapply below_in. }
  split_and!; try done.
  - intros d Hb. eapply Forall_forall; [exact Hcs|]. by apply tree_existing.
  - intros d Hd'. apply Hw in Hd' as [Hl|Hd']; [right|by left]. by eapply Forall_forall.
Qed.

(** ** Directories appear while the monitor works *)

Inductive world_step : access_monitor K -> access_monitor K -> Prop :=
  | step_mkdir m p n :
      p ∈ fs_dirs (am_kernel m) -> valid_name n -> world_step m (set_kernel m (fs_mkdir p n (am_kernel m)))
  | step_event m ev rest :
      fs_queue (am_kernel m) = ev :: rest ->
      world_step m (inotify_event_process (set_kernel m (fs_read (am_kernel m))) ev).

(** The event that announces the directory [d], or one above it. *)
Definition announces m (d : string) (ev : inotify_event) : Prop :=
  exists p n, ev = create_event (fs_wd p) n /\ below (fs_dirs (am_kernel m)) (child p n) d.

(** Every event announces a directory that exists, in a covered one; every watched
    directory is covered; every directory below [root] is covered or announced. *)
Record tracked (root : string) m : Prop := {
  tracked_events : Forall (fun ev => exists p n, ev = create_event (fs_wd p) n /\ covered m p /\
    child p n ∈ fs_dirs (am_kernel m)) (fs_queue (am_kernel m));
  tracked_watched : forall d, d ∈ fs_watched (am_kernel m) -> covered m d;
  tracked_dirs : forall d, below (fs_dirs (am_kernel m)) root d ->
    covered m d \/ exists ev, ev ∈ fs_queue (am_kernel m) /\ announces m d ev;
}.

Lemma create_event_is_dir wd n : has_bit (ie_mask (create_event wd n)) IN_ISDIR = true.
Proof. reflexivity. Qed.

(** Processing the announcement of [p/n] walks from there. *)
Lemma create_event_walks m p n :
  covered m p -> inotify_event_process m (create_event (fs_wd p) n) = (access_monitor_recursive_mark_directory m (child p n)).2.
Proof.
  intros (_ & _ & Hp). unfold inotify_event_process. rewrite create_event_is_dir. cbn [negb].
  unfold inotify_event_full_path. cbn [ie_wd create_event]. rewrite Hp. cbn [mbind option_bind ie_len ie_name].
  change (ie_len (create_event (fs_wd p) n)) with (Z.of_nat (String.length n) + 1).
  rewrite (proj2 (Z.eqb_neq (Z.of_nat (String.length n) + 1) 0)) by lia. done.
Qed.

Lemma tracked_mkdir root m p n :
  p ∈ fs_dirs (am_kernel m) -> valid_name n -> tracked root m ->
  tracked root (set_kernel m (fs_mkdir p n (am_kernel m))).
Proof.
  intros Hp Hn [Hev Hw Hd]. destruct (mkdir_new p n (am_kernel m) Hp) as (Ed & Em & Ew & Eq).
  assert (forall d, covered m d -> covered (set_kernel m (fs_mkdir p n (am_kernel m))) d) as Hkeep.
  { intros d (? & ? & ?). unfold covered. cbn. by rewrite Em, Ew. }
  assert (fs_dirs (am_kernel m) ⊆ {[child p n]} ∪ fs_dirs (am_kernel m)) as Hsub by apply union_subseteq_r.
  split; cbn [am_kernel set_kernel].
  - rewrite Eq, Ed. apply Forall_app_2.
    + eapply Forall_impl; [exact Hev|]. intros ev (q & n' & -> & Hq & Hin). exists q, n'. split_and!; [done|by apply Hkeep|].
      by apply Hsub.
    + case_decide as Hpw; [|done]. apply list.Forall_cons. split; [|done]. exists p, n. split_and!; [done| |].
      * by apply Hkeep, Hw.
      * by apply elem_of_union_l, elem_of_singleton.
  - intros d. rewrite Ew. intros Hdw. by apply Hkeep, Hw.
  - intros d. rewrite Ed, Eq. intros [Hold|[Hbp Hbd]]%below_new; [| |done].
    + destruct (Hd d Hold) as [Hc|(ev & Hin' & (q & n' & -> & Hq))]; [left; by apply Hkeep|right].
      exists (create_event (fs_wd q) n'). split; [by apply elem_of_app; left|]. exists q, n'. split; [done|].
      cbn. rewrite Ed. by eapply below_mono.
    + right. destruct (Hd p Hbp) as [(_ & Hpw & _)|(ev & Hin' & (q & n' & -> & Hq))].
      * exists (create_event (fs_wd p) n). split; [apply elem_of_app; right; rewrite decide_True by done; by left|].
        exists p, n. cbn. by rewrite Ed.
      * exists (create_event (fs_wd q) n'). split; [by apply elem_of_app; left|]. exists q, n'. split; [done|]. cbn. rewrite Ed.
        eapply below_trans; [|exact Hbd]. constructor; [done| |by eapply below_mono].
        by apply elem_of_union_l, elem_of_singleton.
Qed.

Lemma tracked_read root m ev rest :
  fs_queue (am_kernel m) = ev :: rest -> tracked root m ->
  tracked root (inotify_event_process (set_kernel m (fs_read (am_kernel m))) ev).
Proof.
  intros Hq [Hev Hw Hd]. destruct (read_event _ _ _ Hq) as (Ed & Em & Ew & Er).
  rewrite Hq in Hev. apply list.Forall_cons in Hev as [(p & n & -> & Hp & Hin) Hev].
  set (m1 := set_kernel m (fs_read (am_kernel m))).
  assert (forall d, covered m d -> covered m1 d) as Hkeep.
  { intros d (? & ? & ?). unfold covered. cbn. by rewrite Em, Ew. }
  rewrite create_event_walks by (by apply Hkeep).
  destruct (walk_covers m1 (child p n)) as (Hcov & Hk & Hd' & Hq' & Hw' & _); [cbn; by rewrite Ed|].
  cbn zeta in *. set (m' := (access_monitor_recursive_mark_directory m1 (child p n)).2) in *.
  change (am_kernel m1) with (fs_read (am_kernel m)) in *. rewrite Ed in *. rewrite Er in Hq'. split.
  - rewrite Hq', Hd'. eapply Forall_impl; [exact Hev|]. intros ev' (q & n' & -> & Hqc & Hqin). exists q, n'.
    split_and!; [done|by apply Hk, Hkeep|done].
  - intros d Hdw. destruct (Hw' d Hdw) as [Hold|Hc]; [|done]. apply Hk, Hkeep, Hw. by rewrite <- Ew.
  - intros d. rewrite Hd', Hq'. intros Hb. unfold announces. rewrite Hd'.
    destruct (Hd d Hb) as [Hc|(ev' & Hin' & (q & n' & -> & Hqn))]; [left; by apply Hk, Hkeep|].
    rewrite Hq in Hin'. apply elem_of_cons in Hin' as [E|Hin'].
    + left. apply Hcov. injection E as Ewd Elen En. subst n'. apply (wd_inj (K := K)) in Ewd as ->. done.
    + right. exists (create_event (fs_wd q) n'). split; [done|by exists q, n'].
Qed.

Lemma tracked_steps root m m' :
  rtc world_step m m' -> root ∈ fs_dirs (am_kernel m) -> tracked root m ->
  tracked root m' /\ root ∈ fs_dirs (am_kernel m').
Proof.
  induction 1 as [m|m1 m2 m3 Hstep _ IH]; [done|]. intros Hroot Ht. apply IH; destruct Hstep as [m p n Hp Hn|m ev rest Hq].
  - cbn. rewrite (proj1 (mkdir_new p n (am_kernel m) Hp)). by apply elem_of_union_r.
  - destruct Ht as [Hev Hw Hd]. rewrite Hq in Hev. apply list.Forall_cons in Hev as [(p & n & -> & Hp & Hin) _].
    destruct (read_event _ _ _ Hq) as (Ed & Em & Ew & _).
    rewrite create_event_walks by (destruct Hp as (? & ? & ?); unfold covered; cbn; by rewrite Em, Ew).
    destruct (walk_covers (set_kernel m (fs_read (am_kernel m))) (child p n)) as (_ & _ & Hd' & _); [cbn; by rewrite Ed|].
    rewrite Hd'. cbn. by rewrite Ed.
  - by apply tracked_mkdir.
  - by eapply tracked_read.
Qed.

(** Starting walks the configured directories, in order. *)
Lemma mark_entries_covers entries m :
  Forall (fun e => en_flag e = ENTRY_DIR -> en_path e ∈ fs_dirs (am_kernel m)) entries ->
  (forall d, d ∈ fs_watched (am_kernel m) -> covered m d) ->
  let m' := fold_left mark_entry entries m in
  (forall e d, e ∈ entries -> en_flag e = ENTRY_DIR -> below (fs_dirs (am_kernel m)) (en_path e) d -> covered m' d) /\
  (forall d, covered m d -> covered m' d) /\
  (forall d, d ∈ fs_watched (am_kernel m') -> covered m' d) /\
  fs_dirs (am_kernel m') = fs_dirs (am_kernel m) /\ fs_queue (am_kernel m') = fs_queue (am_kernel m).
Proof.
  revert m. induction entries as [|e entries IH]; intros m Hl Hw.
  { split_and!; try done. by intros e d ?%elem_of_nil. }
  apply list.Forall_cons in Hl as [He Hl]. cbn [fold_left].
  assert (let m1 := mark_entry m e in
    (en_flag e = ENTRY_DIR -> forall d, below (fs_dirs (am_kernel m)) (en_path e) d -> covered m1 d) /\
    (forall d, covered m d -> covered m1 d) /\ (forall d, d ∈ fs_watched (am_kernel m1) -> covered m1 d) /\
    fs_dirs (am_kernel m1) = fs_dirs (am_kernel m) /\ fs_queue (am_kernel m1) = fs_queue (am_kernel m)) as (Hc1 & Hk1 & Hw1 & Hd1 & Hq1).
  { unfold mark_entry. destruct (en_flag e).
    - unfold mark_mount_point, fanotify_mark_call.
      pose proof (mark_mount (am_fanotify m) (en_path e) (am_kernel m)) as (Ed & Em & Ew & Eq).
      destruct (sys_fanotify_mark _ _) as [r k]. cbn [snd] in *. cbn [am_kernel set_kernel].
      assert (forall d, covered m d -> covered (set_kernel m k) d) as Hk
        by (intros d (? & ? & ?); unfold covered; cbn; by rewrite Em, Ew).
      split_and!; try done. intros d. rewrite Ew. intros Hd. by apply Hk, Hw.
    - destruct (walk_covers m (en_path e) (He eq_refl)) as (Hcov & Hk & Hd & Hq & Hws & _).
      split_and!; try done. intros d Hdw. destruct (Hws d Hdw) as [Hold|Hc]; [by apply Hk, Hw|done]. }
  cbn zeta in *. destruct (IH (mark_entry m e)) as (Hc2 & Hk2 & Hw2 & Hd2 & Hq2); [by rewrite Hd1|exact Hw1|].
  cbn zeta in *. split_and!; [|by auto|done|congruence|congruence].
  intros e' d [->|Hin]%elem_of_cons Hf Hb; [by apply Hk2, Hc1|]. apply (Hc2 e' d); try done. by rewrite Hd1.
Qed.

Lemma start_command_marks m :
  exists k, same_view (am_kernel m) k /\ access_monitor_start_command m = Ok (mark_entries (set_kernel m k)).
Proof.
  unfold access_monitor_start_command, fanotify_monitor_start.
  destruct (init_fanotify (fanotify_init_flags (am_fanotify m)) (am_kernel m)) as [Hf Hv1].
  destruct (sys_fanotify_init _ _) as [fd k1]. cbn [fst snd] in *. rewrite (proj2 (Z.ltb_ge _ _)) by done.
  cbn [mbind outcome_bind fst snd]. change (negb (0 =? 0)) with false. cbn iota. unfold inotify_monitor_start. cbn [am_kernel set_kernel].
  destruct (init_inotify k1) as [Hi Hv2]. destruct (sys_inotify_init k1) as [fd2 k2]. cbn [fst snd] in *.
  rewrite (proj2 (Z.eqb_neq fd2 (-1))) by lia. cbn [mbind outcome_bind fst snd]. change (negb (0 =? 0)) with false. cbn iota.
  unfold mount_monitor_start. cbn [am_kernel set_kernel].
  destruct (init_bus k2) as [Hb Hv3]. destruct (sys_bus_get k2) as [conn k3]. cbn [fst snd] in *. subst conn.
  change (0 <? 0) with false. cbn iota. exists k3. split; [|done].
  unfold same_view in *. destruct Hv1 as (E1 & E2 & E3 & E4), Hv2 as (F1 & F2 & F3 & F4), Hv3 as (G1 & G2 & G3 & G4).
  split_and!; congruence.
Qed.

(** The events waiting can all be processed. *)
Lemma drain root m :
  root ∈ fs_dirs (am_kernel m) -> tracked root m ->
  exists m', rtc world_step m m' /\ fs_queue (am_kernel m') = [] /\ fs_dirs (am_kernel m') = fs_dirs (am_kernel m) /\
    tracked root m'.
Proof.
  remember (fs_queue (am_kernel m)) as q eqn:Hq. revert m Hq. induction q as [|ev q IH]; intros m Hq Hroot Ht.
  { exists m. by split_and!. }
  pose proof Ht as [Hev _ _]. rewrite <- Hq in Hev. apply list.Forall_cons in Hev as [(p & n & -> & Hp & Hin) _].
  destruct (read_event _ _ _ (eq_sym Hq)) as (Ed & Em & Ew & Er).
  pose proof (tracked_read root m _ q (eq_sym Hq) Ht) as Ht1.
  assert (covered (set_kernel m (fs_read (am_kernel m))) p) as Hp1.
  { destruct Hp as (? & ? & ?). unfold covered. cbn. by rewrite Em, Ew. }
  destruct (walk_covers (set_kernel m (fs_read (am_kernel m))) (child p n)) as (_ & _ & Hd' & Hq' & _); [cbn; by rewrite Ed|].
  rewrite (create_event_walks _ _ _ Hp1) in Ht1. cbn [am_kernel set_kernel] in Hd', Hq'. rewrite Ed in Hd'. rewrite Er in Hq'.
  destruct (IH _ (eq_sym Hq')) as (m' & Hsteps & Hempty & Hd & Ht'); [by rewrite Hd'|done|].
  exists m'. split_and!; [|done|congruence|done]. eapply rtc_l; [|exact Hsteps].
  rewrite <- (create_event_walks _ _ _ Hp1). by eapply step_event.
Qed.


End coverage.

(** ** The buffer of inotify events *)

(** An event as the kernel writes it: the name is padded with NULs to [ie_len]. *)
Definition encode_event (e : inotify_event) : list ascii :=
  le_bytes 4 (u32 (ie_wd e)) ++ le_bytes 4 (ie_mask e) ++ le_bytes 4 (ie_cookie e) ++ le_bytes 4 (ie_len e) ++
  bytes (ie_name e) ++ replicate (Z.to_nat (ie_len e) - String.length (ie_name e)) "000"%char.

Record event_wf (e : inotify_event) : Prop := {
  wf_wd : - 2 ^ 31 <= ie_wd e < 2 ^ 31;
  wf_mask : 0 <= ie_mask e < 2 ^ 32;
  wf_cookie : 0 <= ie_cookie e < 2 ^ 32;
  wf_len : 0 <= ie_len e < 2 ^ 32;
  wf_name : "000"%char ∉ bytes (ie_name e);
  wf_fits : Z.of_nat (String.length (ie_name e)) < ie_len e \/ ie_len e = 0 /\ ie_name e = "";
}.

Lemma c_string_padded s n : "000"%char ∉ bytes s -> c_string (bytes s ++ replicate n "000"%char) = s.
Proof.
  intros Hs. induction s as [|c s IH]; [by destruct n|]. cbn in *. apply not_elem_of_cons in Hs as [Hc Hs].
  rewrite (proj2 (Ascii.eqb_neq _ _)) by done. by rewrite IH.
Qed.

Lemma length_encode e : event_wf e -> Z.of_nat (length (encode_event e)) = 16 + ie_len e.
Proof.
  intros [_ _ _ Hl _ Hf]. unfold encode_event. rewrite !length_app, !length_le_bytes, length_replicate, length_bytes.
  assert (Z.of_nat (String.length (ie_name e)) <= ie_len e) by (destruct Hf as [?|[-> ->]]; cbn; lia). lia.
Qed.

Lemma event_at_encode e rest : event_wf e -> event_at (encode_event e ++ rest) = Ok e.
Proof.
  intros Hwf. pose proof (length_encode e Hwf) as Hlen. pose proof Hwf as [Hwd Hm Hc Hl Hn Hf]. unfold event_at.
  rewrite (proj2 (Z.ltb_ge _ _)) by (rewrite length_app; lia).
  unfold encode_event. rewrite <- !app_assoc.
  set (a := le_bytes 4 (u32 (ie_wd e))). set (b := le_bytes 4 (ie_mask e)). set (c := le_bytes 4 (ie_cookie e)).
  set (d := le_bytes 4 (ie_len e)). set (n := bytes (ie_name e)). set (pad := replicate _ _).
  assert (length a = 4%nat /\ length b = 4%nat /\ length c = 4%nat /\ length d = 4%nat) as (La & Lb & Lc & Ld)
    by (split_and!; apply length_le_bytes).
  assert (forall i (x y : list ascii), length x = i -> drop i (x ++ y) = y) as Hdrop
    by (intros i x y <-; apply drop_app_length).
  assert (forall i (x y : list ascii), length x = i -> take i (x ++ y) = x) as Htake
    by (intros i x y <-; apply take_app_length).
  rewrite drop_0, (Htake 4%nat a) by done.
  rewrite (Hdrop 4%nat a), (Htake 4%nat b) by done.
  rewrite (app_assoc a b), (Hdrop 8%nat (a ++ b)), (Htake 4%nat c) by (rewrite ?length_app; lia).
  rewrite (app_assoc (a ++ b) c), (Hdrop 12%nat ((a ++ b) ++ c)), (Htake 4%nat d) by (rewrite ?length_app; lia).
  rewrite (app_assoc ((a ++ b) ++ c) d), (Hdrop 16%nat (((a ++ b) ++ c) ++ d)) by (rewrite ?length_app; lia).
  assert (le_value d = ie_len e) as -> by (apply le_value_bytes; change (256 ^ Z.of_nat 4) with (2 ^ 32); lia).
  rewrite (app_assoc n pad), Htake.
  2: { unfold n, pad. rewrite length_app, length_replicate, length_bytes.
       assert (Z.of_nat (String.length (ie_name e)) <= ie_len e) by (destruct Hf as [?|[-> ->]]; cbn; lia). lia. }
  unfold n, pad. rewrite c_string_padded by done.
  unfold a, b, c. rewrite !le_value_bytes by (change (256 ^ Z.of_nat 4) with (2 ^ 32); try apply u32_bound; lia).
  rewrite i32_u32 by lia. by destruct e.
Qed.

Section buffer.
Context {K : Type} `{Kernel K}.
Implicit Types (m : access_monitor K).

Lemma event_at_len l e : event_at l = Ok e -> 0 <= ie_len e.
Proof.
  unfold event_at. destruct (_ <? _); [done|]. intros E. injection E as <-. cbn.
  assert (forall l, 0 <= le_value l) as Hv by (clear; induction l as [|c l IH]; cbn; [lia|pose proof (uchar_bound c); lia]).
  apply Hv.
Qed.

Lemma inotify_loop_ends fuel l m : (length l <= fuel)%nat -> inotify_loop fuel l m <> Fault Diverges.
Proof.
  revert l m. induction fuel as [|fuel IH]; intros [|c l] m Hf; try done; [cbn in Hf; lia|].
  cbn [inotify_loop]. destruct (event_at (c :: l)) as [e|f] eqn:E; cbn [mbind outcome_bind].
  - pose proof (event_at_len _ _ E). apply IH. rewrite length_drop. cbn in *. lia.
  - unfold event_at in E. destruct (_ <? _); [by injection E as <-|done].
Qed.

Lemma inotify_loop_encode evs fuel m :
  Forall event_wf evs -> (length (flat_map encode_event evs) <= fuel)%nat ->
  inotify_loop fuel (flat_map encode_event evs) m = Ok (fold_left inotify_event_process evs m).
Proof.
  intros Hwf. revert fuel m. induction Hwf as [|e evs He Hevs IH]; intros fuel m Hf; [by destruct fuel|].
  cbn [flat_map fold_left] in *. pose proof (length_encode e He) as Hlen. pose proof (wf_len e He).
  rewrite length_app in Hf. destruct (encode_event e ++ _) as [|c l] eqn:El.
  { apply (f_equal length) in El. rewrite length_app in El. cbn in El. lia. }
  destruct fuel as [|fuel]; [lia|]. cbn [inotify_loop]. rewrite <- El, event_at_encode by done. cbn [mbind outcome_bind].
  replace (Z.to_nat (16 + ie_len e)) with (length (encode_event e)) by lia. rewrite drop_app_length. apply IH. lia.
Qed.

(** C32: The buffer read from inotify is understood whole: when it holds the encodings of
    events, as the kernel writes them, every event is processed once, in order, with
    its descriptor, mask and name; and whatever bytes it holds, the loop over it
    ends. *)
Theorem inotify_buffer_roundtrip m (evs : list inotify_event) (len : Z) (l : list ascii) (Hwf : Forall event_wf evs) :
  inotify_cb (Z.of_nat (length (flat_map encode_event evs))) (flat_map encode_event evs) m =
    Ok (fold_left inotify_event_process evs m) /\
  inotify_cb len l m <> Fault Diverges.
Proof.
  split.
  - unfold inotify_cb. destruct (Z.ltb_spec 0 (Z.of_nat (length (flat_map encode_event evs)))) as [Hlt|Hge].
    + by apply inotify_loop_encode.
    + destruct evs as [|e evs]; [done|]. apply list.Forall_cons in Hwf as [He _]. cbn [flat_map] in Hge.
      rewrite length_app in Hge. pose proof (length_encode e He). pose proof (wf_len e He). lia.
  - unfold inotify_cb. destruct (0 <? len); [|done]. by apply inotify_loop_ends.
Qed.

(** Starting the protection stops at the first failure.  When fanotify or inotify
    cannot be initialised the whole process aborts; when the bus cannot be reached no
    mark or watch is set, whatever the configuration, and nothing is reported to the
    caller; otherwise every entry is marked, in order. *)
Theorem start_all_or_nothing m :
  let r1 := sys_fanotify_init (fanotify_init_flags (am_fanotify m)) (am_kernel m) in
  let r2 := sys_inotify_init r1.2 in
  let r3 := sys_bus_get r2.2 in
  access_monitor_start_command m =
    (if r1.1 <? 0 then Fault Aborted
     else if r2.1 =? -1 then Fault Aborted
     else if r3.1 then Ok (fold_left mark_entry (am_entries m) (set_kernel m r3.2))
     else Ok (set_kernel m r3.2)).
Proof.
  cbn zeta. unfold access_monitor_start_command, fanotify_monitor_start.
  destruct (sys_fanotify_init _ _) as [fd k1]. cbn [fst snd]. destruct (fd <? 0); [done|].
  cbn [mbind outcome_bind fst snd]. change (negb (0 =? 0)) with false. cbn iota. unfold inotify_monitor_start. cbn [am_kernel set_kernel].
  destruct (sys_inotify_init k1) as [fd2 k2]. cbn [fst snd]. destruct (fd2 =? -1); [done|].
  cbn [mbind outcome_bind fst snd]. change (negb (0 =? 0)) with false. cbn iota. unfold mount_monitor_start. cbn [am_kernel set_kernel].
  destruct (sys_bus_get k2) as [[] k3]; done.
Qed.

(** A directory that is deleted or moved away is never forgotten.  By the time its
    event is processed its path names nothing, so the mark cannot be removed from it;
    the monitor gives up there, and keeps the watch and both entries of its tables. *)
Theorem removed_directory_kept m (event : inotify_event) (dir : string) (r : Z) (k : K)
    (Hwd : wd2path_table (am_inotify m) !! ie_wd event = Some dir)
    (Hdir : has_bit (ie_mask event) IN_ISDIR = true)
    (Hnew : has_bit (ie_mask event) IN_CREATE || has_bit (ie_mask event) IN_MOVED_TO = false)
    (Hgone : has_bit (ie_mask event) IN_DELETE || has_bit (ie_mask event) IN_MOVED_FROM = true)
    (Hlen : ie_len event <> 0)
    (Hfail : sys_fanotify_mark (fanotify_monitor_unmark_directory (am_fanotify m) (child dir (ie_name event))) (am_kernel m) = (r, k))
    (Hr : r < 0) :
  inotify_event_process m event = set_kernel m k.
Proof.
  unfold inotify_event_process. rewrite Hdir, Hnew, Hgone. cbn [negb]. unfold inotify_event_full_path. rewrite Hwd.
  cbn [mbind option_bind]. rewrite (proj2 (Z.eqb_neq _ _)) by done. unfold access_monitor_unmark_directory, fanotify_mark_call.
  unfold child in Hfail. rewrite Hfail. by rewrite (proj2 (Z.ltb_lt _ _)) by done.
Qed.

(** After a write to the start pipe, one turn of the main loop and one turn of the
    monitor's loop run the start command exactly when the protection is enabled. *)
Lemma delayed_start_runs m :
  am_start_pipe m = [] -> am_command_pipe m = [] ->
  exists m1, access_monitor_delayed_start true (Some m) = (0, Some m1) /\
    (r ← delayed_start_cb true true m1; command_cb true r.2) =
      (m2 ← (if access_monitor_is_enable m =? 0 then Ok m else access_monitor_start_command m); Ok (true, m2)).
Proof.
  intros Hstart Hcommand. eexists. split; [done|]. unfold delayed_start_cb. cbn [am_start_pipe set_pipes]. rewrite Hstart. cbn [app negb].
  change (negb (65 =? 65)) with false. cbn iota. cbn [mbind outcome_bind access_monitor_is_enable am_enable set_pipes fst snd].
  unfold access_monitor_is_enable. destruct (am_enable m =? 0).
  - unfold command_cb. cbn [am_command_pipe set_pipes]. rewrite Hcommand. destruct m. cbn in *. by subst.
  - unfold access_monitor_send_command, command_cb. cbn [am_command_pipe set_pipes fst snd]. rewrite Hcommand. cbn [app].
    change (ACCESS_MONITOR_START =? ACCESS_MONITOR_START) with true. cbn [negb]. do 2 f_equal. destruct m. cbn in *. by subst.
Qed.

(** [stat] failing does not prevent a mount point from being added: [dev_t] is unsigned,
    so that neither test of the code can be true. *)
Lemma unknown_mount_added m (mount_point : string) :
  sys_stat_dev mount_point (am_kernel m) = None -> get_dev_id "/" (am_kernel m) <> u64 (-1) ->
  access_monitor_add_mount m mount_point = Ok (add_entry m mount_point ENTRY_MOUNT).
Proof.
  intros Hstat Hslash. unfold access_monitor_add_mount.
  assert (0 <= get_dev_id "/" (am_kernel m)) as Hpos
    by (unfold get_dev_id; case_match; apply u64_bound).
  rewrite (proj2 (Z.ltb_ge _ _)) by done. unfold get_dev_id at 1. rewrite Hstat. change (u64 (-1) <? 0) with false. cbn iota.
  rewrite (proj2 (Z.eqb_neq _ _)); [done|]. unfold get_dev_id at 1. rewrite Hstat. congruence.
Qed.

End buffer.

(** ** A file system *)

Module Sample.

Record sample_fs := SampleFs {
  sf_dirs : gset string;
  sf_marked : gset string;
  sf_watched : gset string;
  sf_queue : list inotify_event;
}.

(** The name of [d] in [p], when it is a directory of [p]. *)
Definition name_in (p d : string) : option string :=
  let prefix := bytes p ++ ["/"%char] in
  let n := of_bytes (drop (length prefix) (bytes d)) in
  if bool_decide (take (length prefix) (bytes d) = prefix) && bool_decide ("/"%char ∉ bytes n) &&
     bool_decide (n <> ".") && bool_decide (n <> "..")
  then Some n else None.

Lemma name_in_spec p d n : name_in p d = Some n <-> valid_name n /\ d = child p n.
Proof.
  unfold name_in, valid_name. set (prefix := bytes p ++ ["/"%char]). split.
  - destruct (_ && _) eqn:E; [|done]. intros [= <-].
    apply andb_prop in E as [[[Ht%bool_decide_eq_true Hn%bool_decide_eq_true]%andb_prop H1%bool_decide_eq_true]%andb_prop H2%bool_decide_eq_true].
    split; [done|]. apply bytes_inj. unfold child. rewrite !bytes_app, bytes_of_bytes.
    rewrite <- (take_drop (length prefix) (bytes d)) at 1. rewrite Ht. unfold prefix. by rewrite <- app_assoc.
  - intros [(Hn & H1 & H2) ->]. assert (bytes (child p n) = prefix ++ bytes n) as E.
    { unfold child, prefix. rewrite !bytes_app. by rewrite <- app_assoc. }
    rewrite E, take_app_length, drop_app_length, of_bytes_bytes.
    by rewrite (bool_decide_eq_true_2 (prefix = prefix)), (bool_decide_eq_true_2 ("/"%char ∉ bytes n)),
      (bool_decide_eq_true_2 (n <> ".")), (bool_decide_eq_true_2 (n <> "..")).
Qed.

(** The tree below [p], no deeper than [fuel]. *)
Fixpoint build (fuel : nat) (D : gset string) (p : string) : dir_tree :=
  match fuel with
  | O => Readable (EndOfDir 0)
  | S fuel =>
      Readable (foldr (fun d next => match name_in p d with
        | Some n => Entry n DT_DIR None (build fuel D d) next
        | None => next
        end) (EndOfDir 0) (elements D))
  end.

Definition depth (D : gset string) : nat := foldr Nat.max 0%nat (String.length <$> elements D).

#[global] Instance sample_kernel : Kernel sample_fs := {|
  sys_fanotify_init := fun _ k => (3, k);
  sys_fanotify_mark := fun mark k =>
    let p := fm_path mark in
    if fm_flags mark =? FAN_MARK_ADD then
      if decide (p ∈ sf_dirs k)
      then (0, SampleFs (sf_dirs k) ({[p]} ∪ sf_marked k) (sf_watched k) (sf_queue k)) else (-1, k)
    else if fm_flags mark =? FAN_MARK_REMOVE then
      if decide (p ∈ sf_dirs k /\ p ∈ sf_marked k)
      then (0, SampleFs (sf_dirs k) (sf_marked k ∖ {[p]}) (sf_watched k) (sf_queue k)) else (-1, k)
    else (0, k);
  sys_inotify_init := fun k => (4, k);
  sys_inotify_add_watch := fun p k =>
    if decide (p ∈ sf_dirs k)
    then (Z.pos (encode p), SampleFs (sf_dirs k) (sf_marked k) ({[p]} ∪ sf_watched k) (sf_queue k)) else (-1, k);
  sys_inotify_rm_watch := fun _ k => (0, k);
  sys_bus_get := fun k => (true, k);
  sys_tree := fun p k => build (depth (sf_dirs k)) (sf_dirs k) p;
  sys_stat_dev := fun p k => if decide (p = "/") then Some 1 else if decide (p ∈ sf_dirs k) then Some 2 else None;
|}.

#[global] Instance sample_file_system : FileSystem sample_fs := {|
  fs_dirs := sf_dirs; fs_marked := sf_marked; fs_watched := sf_watched; fs_queue := sf_queue;
  fs_wd := fun p => Z.pos (encode p);
  fs_mkdir := fun p n k => SampleFs ({[child p n]} ∪ sf_dirs k) (sf_marked k) (sf_watched k)
    (sf_queue k ++ (if decide (p ∈ sf_watched k) then [create_event (Z.pos (encode p)) n] else []));
  fs_read := fun k => SampleFs (sf_dirs k) (sf_marked k) (sf_watched k) (tail (sf_queue k));
|}.

Lemma skipped_valid n : valid_name n -> skipped DT_DIR n = false.
Proof. intros (_ & H1 & H2). unfold skipped.
  by rewrite (bool_decide_eq_false_2 (n = ".")), (bool_decide_eq_false_2 (n = "..")).
Qed.

(** The directories of a level, and those below them. *)
Lemma subdirs_level fuel D p l d :
  d ∈ subdirs p (foldr (fun d next => match name_in p d with
        | Some n => Entry n DT_DIR None (build fuel D d) next | None => next end) (EndOfDir 0) l) <->
  exists e, e ∈ l /\ is_Some (name_in p e) /\ d ∈ tree_dirs e (build fuel D e).
Proof.
  induction l as [|x l IH]; cbn [foldr].
  { split; [by intros ?%elem_of_nil|]. intros (e & He & _). by apply elem_of_nil in He. }
  destruct (name_in p x) as [n|] eqn:En; cbn [subdirs].
  - pose proof En as [Hn ->]%name_in_spec. rewrite skipped_valid, elem_of_app, IH by done. split.
    + intros [Hd|(e & He & He' & Hd)]; [exists (child p n)|exists e]; (split; [by constructor|]); [by rewrite En|done].
    + intros (e & [->|He]%elem_of_cons & He' & Hd); [by left|right; by exists e].
  - rewrite IH. split; intros (e & He & He' & Hd); exists e; (split; [|done]).
    + by right.
    + apply elem_of_cons in He as [->|He]; [|done]. rewrite En in He'. by destruct He'.
Qed.

Lemma below_first D p d :
  below D p d -> d = p \/ exists n, valid_name n /\ child p n ∈ D /\ below D (child p n) d.
Proof.
  induction 1 as [|d n Hn Hin _ [->|(n0 & Hn0 & Hin0 & Hb)]]; [by left|right; exists n|right; exists n0].
  - split_and!; [done|done|constructor].
  - split_and!; [done|done|by constructor].
Qed.

Lemma below_step D p n d : valid_name n -> child p n ∈ D -> below D (child p n) d -> below D p d.
Proof. intros Hn Hin. apply below_trans. constructor; [done|done|constructor]. Qed.

Lemma length_child p n : String.length (child p n) = S (String.length p + String.length n).
Proof. unfold child. rewrite <- !length_bytes, !bytes_app, !length_app. cbn. lia. Qed.

Lemma below_length D p d : below D p d -> (String.length p <= String.length d)%nat.
Proof. induction 1; [done|]. rewrite length_child. lia. Qed.

Lemma build_sound fuel D p d : d ∈ tree_dirs p (build fuel D p) -> below D p d.
Proof.
  revert p. induction fuel as [|fuel IH]; intros p; cbn [build tree_dirs].
  - intros [->|Hd]%elem_of_cons; [constructor|by apply elem_of_nil in Hd].
  - intros [->|Hd]%elem_of_cons; [constructor|]. apply subdirs_level in Hd as (e & He & [n Hn] & Hd).
    apply name_in_spec in Hn as [Hn ->]. apply (below_step D p n); [done|by apply elem_of_elements|by apply IH].
Qed.

Lemma build_complete fuel D p d :
  below D p d -> (String.length d <= String.length p + fuel)%nat -> d ∈ tree_dirs p (build fuel D p).
Proof.
  revert p. induction fuel as [|fuel IH]; intros p Hb Hlen.
  - destruct (below_first _ _ _ Hb) as [->|(n & Hn & _ & Hb')]; [by left|].
    apply below_length in Hb'. rewrite length_child in Hb'. lia.
  - cbn [build tree_dirs]. destruct (below_first _ _ _ Hb) as [->|(n & Hn & Hin & Hb')]; [by left|right].
    apply subdirs_level. exists (child p n). split_and!; [by apply elem_of_elements| |].
    + exists n. by apply name_in_spec.
    + apply IH; [done|]. rewrite length_child. lia.
Qed.

Lemma depth_bound D d : d ∈ D -> (String.length d <= depth D)%nat.
Proof.
  rewrite <- elem_of_elements. unfold depth. induction (elements D) as [|x l IH]; [by intros ?%elem_of_nil|].
  intros [->|Hd]%elem_of_cons; cbn; [lia|]. specialize (IH Hd). cbn in IH. lia.
Qed.

#[global] Instance sample_laws : FileSystemLaws sample_fs.
Proof.
  split; try done.
  - by intros p q [= E%(inj encode)].
  - intros f p k Hp. cbn. by rewrite decide_True.
  - intros p k Hp. cbn in *. by rewrite decide_True.
  - intros p k d Hp. cbn. split; [apply build_sound|]. intros Hb. apply build_complete; [done|].
    pose proof (depth_bound (sf_dirs k) d (below_in _ _ _ Hp Hb)). lia.
  - intros k ev rest Hq. cbn in *. by rewrite Hq.
Qed.

(** A monitor of /home, where /home/a exists. *)
Definition monitor : access_monitor sample_fs :=
  AccessMonitor 1 0 0 [MonitorEntry "/home" ENTRY_DIR] [] [] (fanotify_monitor_new 7) inotify_monitor_new []
    (SampleFs {["/home"; "/home/a"]} ∅ ∅ []).

Definition started : access_monitor sample_fs :=
  match access_monitor_start_command monitor with Ok m => m | Fault _ => monitor end.

(** Two directories are made, the second in the first before its creation is known. *)
Definition after_mkdir : access_monitor sample_fs := set_kernel started (fs_mkdir "/home" "b" (am_kernel started)).
Definition after_mkdirs : access_monitor sample_fs :=
  set_kernel after_mkdir (fs_mkdir "/home/b" "c" (am_kernel after_mkdir)).

(** Membership in a concrete set, by evaluation. *)
Ltac evaluate_set := eapply bool_decide_unpack; vm_compute; exact I.

Lemma valid_sample n : bool_decide ("/"%char ∉ bytes n) && bool_decide (n <> ".") && bool_decide (n <> "..") = true -> valid_name n.
Proof. intros E. apply andb_prop in E as [[H1 H2]%andb_prop H3]. split_and!; by eapply bool_decide_eq_true. Qed.


Lemma inotify_buffer_roundtrip_witness :
  inotify_cb 35 (encode_event (create_event 3 "a") ++ encode_event (create_event 4 "")) started =
    Ok (inotify_event_process (inotify_event_process started (create_event 3 "a")) (create_event 4 "")).
Proof.
  refine (proj1 (inotify_buffer_roundtrip started [create_event 3 "a"; create_event 4 ""] 0 [] _)).
  apply list.Forall_cons. split; [|apply list.Forall_cons; split; [|by apply list.Forall_nil]];
    (split; [..|evaluate_set|left; cbn; lia]; vm_compute; split; congruence).
Defined.

(** /home/a was deleted: its event finds nothing there. *)
Definition gone : access_monitor sample_fs :=
  set_kernel started (SampleFs {["/home"]} (sf_marked (am_kernel started)) (sf_watched (am_kernel started)) []).

Lemma removed_directory_kept_witness :
  inotify_event_process gone (InotifyEvent (fs_wd "/home") (Z.lor IN_DELETE IN_ISDIR) 0 2 "a") = set_kernel gone (am_kernel gone).
Proof. by apply (removed_directory_kept gone _ "/home" (-1) (am_kernel gone)). Defined.

End Sample.
