(* ===== verification/MediaScan.v ===== *)
(** * The scan of a removable medium
    ([src/libcore/arch/linux/builtin-modules/on-access/monitor.c], [scan_media_thread_fun])

    From the signal of the bus that a file system was mounted to the events of its scan: the
    monitor's thread starts one thread for each medium, which makes an on-demand scan of it,
    with the number 0 and no progress. *)
From S2P Require Import Prelude Status Module ScanConf ScanCtx ScanSpec Dir OnDemand OnDemandTheory OnDemandSpec Monitor.

#[local] Open Scope string_scope.
#[local] Open Scope Z_scope.

Section media.
Context {W : Type} (os : os_answers) (modules : list (a6o_module W)) (clock : nat -> Z).

(** [real_path]: the answer of [realpath] when the thread begins. *)
Definition scan_media_thread_fun (real_path : option string) (env : run_env) (sc : scan_state W) : outcome (od_state W) :=
  match a6o_on_demand_new real_path 0 (Z.lor A6O_SCAN_THREADED A6O_SCAN_RECURSE) false with
  | None => Fault NullDeref
  | Some on_demand => a6o_on_demand_run os modules clock env (od_init on_demand sc)
  end.

End media.

(** What the thread asks for. *)
Definition media_on_demand (root : string) : a6o_on_demand :=
  {| od_root_path := root; od_scan_id := 0; od_flags := A6O_SCAN_STANDARD; od_start_time := 0; od_duration := 0;
     od_to_scan_count := 0; od_scanned_count := 0; od_malware_count := 0; od_suspicious_count := 0; od_was_cancelled := 0;
     od_progress_period := 0; od_last_progress_time := 0; od_last_progress_value := A6O_ON_DEMAND_PROGRESS_UNKNOWN |}.

Section mounted.
Context {K W : Type} `{Kernel K} (os : os_answers) (modules : list (a6o_module W)) (clock : nat -> Z).

Lemma mark_mount_point_scans (m : access_monitor K) path : am_media_scans (mark_mount_point m path) = am_media_scans m.
Proof. unfold mark_mount_point, fanotify_mark_call. by repeat case_match. Qed.

(** When a file system is mounted and the scan of media is enabled, one more scan is
    started, of its first mount point; whatever its tree and the order of the threads, that
    scan completes and its events say what it found. *)
Theorem mounted_medium_scanned (m : access_monitor K) (props : list (string * property)) (path : string)
    (rest names : list string) (more : list gvariant) (root : string) (env : run_env) (sc : scan_state W)
    (Hmount : dict_lookup props "MountPoints" = Some (VBytestringArray (path :: rest)))
    (Hauto : access_monitor_is_autoscan_removable_media m <> 0)
    (Hdir : env_root_flags env = FILE_FLAG_IS_DIRECTORY)
    (Hmagic : forall fd, magic_buffer os fd <> None)
    (Hsound : conf_sound modules (st_conf sc)) (Hfds : fds_balanced (st_fds sc))
    (Hpaths : Forall is_Some (scan_list true (env_tree env)).1)
    (Hsched : forall l, env_schedule env l ≡ₚ l)
    (Hsize : Z.of_nat (length (scan_list true (env_tree env)).1) < 2 ^ 31)
    (Hcount : Z.of_nat (length (all_files true (env_count_tree env))) < 2 ^ 31) :
  exists m' s,
    mount_cb (Some (VString "org.freedesktop.UDisks2.Filesystem" :: VVarDict props :: VStringArray names :: more)) m = Ok m' /\
    am_media_scans m' = (am_media_scans m ++ [Some path])%list /\
    scan_media_thread_fun os modules clock (Some root) env sc = Ok s /\
    run_report (media_on_demand root) (Z.of_nat (length (scan_list true (env_tree env)).1)) s.
Proof.
  destruct (run_reported os modules clock root 0 A6O_SCAN_STANDARD false sc env (media_on_demand root)) as (s & E & Hr); try done.
  assert (exists m', mount_idle_cb EVENT_MOUNT (Some path) m = Ok m' /\ am_media_scans m' = (am_media_scans m ++ [Some path])%list) as (m' & Em & Hm).
  { cbn [mount_idle_cb]. rewrite (proj2 (Z.eqb_neq _ _) Hauto). case_match; eexists; (split; [reflexivity|]); [done|apply mark_mount_point_scans]. }
  exists m', s. split_and!; try done. unfold mount_cb, get_mount_event. rewrite bool_decide_eq_true_2 by done. cbn [negb].
  by rewrite Hmount.
Qed.

End mounted.

(** ** A sample *)

(** A kernel that marks everything. *)
#[local] Instance quiet_kernel : Kernel unit := {|
  sys_fanotify_init := fun _ k => (3, k);
  sys_fanotify_mark := fun _ k => (0, k);
  sys_inotify_init := fun k => (4, k);
  sys_inotify_add_watch := fun _ k => (1, k);
  sys_inotify_rm_watch := fun _ k => (0, k);
  sys_bus_get := fun k => (true, k);
  sys_tree := fun _ _ => Readable (EndOfDir 0);
  sys_stat_dev := fun _ _ => Some 1;
|}.

Definition media_monitor : access_monitor unit :=
  AccessMonitor 1 1 1 [] [] [] (FaMonitor.fanotify_monitor_new 0) inotify_monitor_new [] tt.

Lemma mounted_medium_scanned_witness :
  exists m' s,
    mount_cb (Some [VString "org.freedesktop.UDisks2.Filesystem"; VVarDict [("MountPoints", VBytestringArray ["/media/usb"])];
                    VStringArray []]) media_monitor = Ok m' /\
    am_media_scans m' = [Some "/media/usb"] /\
    scan_media_thread_fun sample_os sample_scan_modules Z.of_nat (Some "/media/usb") sample_env sample_scan = Ok s /\
    run_report (media_on_demand "/media/usb") 3 s.
Proof.
  apply (mounted_medium_scanned sample_os sample_scan_modules Z.of_nat media_monitor
    [("MountPoints", VBytestringArray ["/media/usb"])] "/media/usb" [] [] [] "/media/usb" sample_env sample_scan); try reflexivity.
  - done.
  - done.
  - exact sample_scan_sound.
  - by exists [].
  - repeat constructor; by eexists.
  - intros l. symmetry. apply Permutation_rev.
Defined.

(** A medium that is removed before its thread begins has no real path any more: the scan is
    not created, and the daemon crashes running it. *)
Example removed_medium_crashes :
  scan_media_thread_fun sample_os sample_scan_modules Z.of_nat None sample_env sample_scan = Fault NullDeref.
Proof. reflexivity. Qed.
