(* ===== verification/OnAccessMod.v ===== *)
(** * The on-access module
    ([src/libcore/arch/linux/builtin-modules/on-access/onaccessmod.c])

    The builtin module that owns the access monitor: its configuration functions fill the
    on-access scan configuration and the monitor, its post-initialisation asks for the
    delayed start.  The world holds the scan configurations and the module's data, the
    pointer to the monitor, which is not initialised ([None]) before the module is. *)
From S2P Require Import Prelude Status ConfVal Conf Dir Module ScanConf Settings FaMonitor Monitor MonitorSpec.

#[local] Open Scope Z_scope.

Class OnAccessWorld (W K : Type) `{HasScanConfs W} := {
  get_monitor : W -> option (access_monitor K);
  put_monitor : option (access_monitor K) -> W -> W;
  get_put_monitor : forall m w, get_monitor (put_monitor m w) = m;
  get_monitor_put_confs : forall cs w, get_monitor (put_confs cs w) = get_monitor w;
  get_confs_put_monitor : forall m w, get_confs (put_monitor m w) = get_confs w;
}.

Section module.
Context {W K : Type} `{OnAccessWorld W K, Kernel K}.
Implicit Types (w : W) (by_name : string -> option nat) (key : string) (value : a6o_conf_value).

(** What dereferences the monitor. *)
Definition with_monitor (f : access_monitor K -> access_monitor K) w : outcome W :=
  match get_monitor w with None => Fault UninitRead | Some m => Ok (put_monitor (Some (f m)) w) end.

Definition on_access_update (f : a6o_scan_conf -> a6o_scan_conf) w : W :=
  put_confs (a6o_scan_conf_on_access (get_confs w) f) w.

(** The monitor's creation also creates the on-access scan configuration. *)
Definition mod_oal_init (pipes : bool) (my_pid : Z) (k : K) w : outcome (a6o_mod_status * W) :=
  m ← access_monitor_new pipes my_pid k;
  Ok (A6O_MOD_OK, put_monitor (Some m) (on_access_update id w)).

Definition mod_oal_conf_enable by_name key value w : outcome (a6o_mod_status * W) :=
  z ← value_int value;
  w ← with_monitor (fun m => (access_monitor_enable m z).2) w;
  Ok (A6O_MOD_OK, w).

Definition mod_oal_conf_enable_permission by_name key value w : outcome (a6o_mod_status * W) :=
  z ← value_int value;
  w ← with_monitor (fun m => access_monitor_enable_permission m z) w;
  Ok (A6O_MOD_OK, w).

Definition mod_oal_conf_enable_removable_media by_name key value w : outcome (a6o_mod_status * W) :=
  z ← value_int value;
  w ← with_monitor (fun m => (access_monitor_enable_removable_media m z).2) w;
  Ok (A6O_MOD_OK, w).

Definition mod_oal_conf_autoscan_removable_media by_name key value w : outcome (a6o_mod_status * W) :=
  z ← value_int value;
  w ← with_monitor (fun m => (access_monitor_autoscan_removable_media m z).2) w;
  Ok (A6O_MOD_OK, w).

Fixpoint add_mounts (l : list string) (m : access_monitor K) : outcome (access_monitor K) :=
  match l with [] => Ok m | p :: l => m ← access_monitor_add_mount m p; add_mounts l m end.

Definition mod_oal_conf_mount by_name key value w : outcome (a6o_mod_status * W) :=
  l ← value_strings value;
  match get_monitor w with
  | None => match l with [] => Ok (A6O_MOD_OK, w) | _ => Fault UninitRead end
  | Some m => m ← add_mounts l m; Ok (A6O_MOD_OK, put_monitor (Some m) w)
  end.

Definition mod_oal_conf_directory by_name key value w : outcome (a6o_mod_status * W) :=
  l ← value_strings value;
  match get_monitor w with
  | None => match l with [] => Ok (A6O_MOD_OK, w) | _ => Fault UninitRead end
  | Some m => Ok (A6O_MOD_OK, put_monitor (Some (fold_left access_monitor_add_directory l m)) w)
  end.

Definition mod_oal_conf_white_list_dir by_name key value w : outcome (a6o_mod_status * W) :=
  l ← value_strings value;
  Ok (A6O_MOD_OK, on_access_update (fun c => fold_left a6o_scan_conf_white_list_directory l c) w).

Definition mod_oal_conf_modules by_name key value w : outcome (a6o_mod_status * W) :=
  l ← value_strings value;
  Ok (A6O_MOD_OK, on_access_update (fun c => fold_left (fun c m => a6o_scan_conf_add_module c m by_name) l c) w).

Definition mod_oal_conf_mime_types by_name key value w : outcome (a6o_mod_status * W) :=
  l ← value_strings value;
  Ok (A6O_MOD_OK, on_access_update (fun c => fold_left a6o_scan_conf_add_mime_type l c) w).

Definition mod_oal_conf_max_size by_name key value w : outcome (a6o_mod_status * W) :=
  z ← value_int value;
  Ok (A6O_MOD_OK, on_access_update (fun c => a6o_scan_conf_max_file_size c z) w).

(** The settings are logged, through the pointer, before the start is asked for.
    [written] tells whether the write to the start pipe succeeds; nobody looks. *)
Definition mod_oal_post_init (written : bool) w : outcome (a6o_mod_status * W) :=
  match get_monitor w with
  | None => Fault UninitRead
  | Some m => Ok (A6O_MOD_OK, put_monitor (access_monitor_delayed_start written (Some m)).2 w)
  end.

Definition mod_oal_close w : a6o_mod_status * W := (A6O_MOD_OK, w).

Definition mod_oal_conf_table : list (a6o_conf_entry W) :=
  let INT := a6o_conf_value_type_val CONF_TYPE_INT in
  [ConfEntry "enable" INT (Some mod_oal_conf_enable);
   ConfEntry "enable-permission" INT (Some mod_oal_conf_enable_permission);
   ConfEntry "enable-removable-media" INT (Some mod_oal_conf_enable_removable_media);
   ConfEntry "autoscan-removable-media" INT (Some mod_oal_conf_autoscan_removable_media);
   ConfEntry "mount" STRING_OR_LIST (Some mod_oal_conf_mount);
   ConfEntry "directory" STRING_OR_LIST (Some mod_oal_conf_directory);
   ConfEntry "white-list-dir" STRING_OR_LIST (Some mod_oal_conf_white_list_dir);
   ConfEntry "mime-types" STRING_OR_LIST (Some mod_oal_conf_mime_types);
   ConfEntry "modules" STRING_OR_LIST (Some mod_oal_conf_modules);
   ConfEntry "max-size" INT (Some mod_oal_conf_max_size)].

(** ** What the section says of the monitor *)

Abbreviation section_name := "on-access-linux" (only parsing).

(** The entries added by a setting; mount points of the device of / are left out. *)
Definition entries_given (k : K) (st : setting) : list monitor_entry :=
  ((fun p => MonitorEntry p ENTRY_MOUNT) <$>
     filter (fun p => get_dev_id p k <> get_dev_id "/" k) (given section_name "mount" st)) ++
  ((fun p => MonitorEntry p ENTRY_DIR) <$> given section_name "directory" st).

Definition monitor_configured (l : list setting) (m : access_monitor K) : access_monitor K :=
  let last key old := last_int id section_name key old l in
  AccessMonitor (last "enable" (am_enable m)) (last "enable-removable-media" (am_enable_removable_media m))
    (last "autoscan-removable-media" (am_autoscan_removable_media m))
    (am_entries m ++ flat_map (entries_given (am_kernel m)) l)
    (am_start_pipe m) (am_command_pipe m)
    {| fa_enable_permission := last_int (fun z => negb (z =? 0)) section_name "enable-permission"
                                 (fa_enable_permission (am_fanotify m)) l;
       fa_my_pid := fa_my_pid (am_fanotify m) |}
    (am_inotify m) (am_media_scans m) (am_kernel m).

Lemma monitor_configured_fold l m :
  monitor_configured l m = fold_left (fun m st => monitor_configured [st] m) l m.
Proof.
  revert m. induction l as [|st l IH]; intros m.
  - unfold monitor_configured, last_int. simpl. rewrite app_nil_r. by destruct m as [? ? ? ? ? ? [] ? ? ?].
  - simpl. rewrite <- IH. unfold monitor_configured, last_int. simpl. by rewrite <- app_assoc, app_nil_r.
Qed.

(** The monitor with the mount points [l] added. *)
Definition with_mounts (l : list string) (m : access_monitor K) : access_monitor K :=
  AccessMonitor (am_enable m) (am_enable_removable_media m) (am_autoscan_removable_media m)
    (am_entries m ++ ((fun p => MonitorEntry p ENTRY_MOUNT) <$>
       filter (fun p => get_dev_id p (am_kernel m) <> get_dev_id "/" (am_kernel m)) l))
    (am_start_pipe m) (am_command_pipe m) (am_fanotify m) (am_inotify m) (am_media_scans m) (am_kernel m).

Lemma add_mounts_ok l (m : access_monitor K) : add_mounts l m = Ok (with_mounts l m).
Proof.
  revert m. induction l as [|p l IH]; intros m; cbn [add_mounts].
  { unfold with_mounts. cbn. rewrite app_nil_r. by destruct m. }
  assert (forall s, (get_dev_id s (am_kernel m) <? 0) = false) as Hpos.
  { intros s. apply Z.ltb_ge. unfold get_dev_id. case_match; apply u64_bound. }
  unfold access_monitor_add_mount, with_mounts. rewrite !Hpos, filter_cons.
  destruct (Z.eqb_spec (get_dev_id p (am_kernel m)) (get_dev_id "/" (am_kernel m))); cbn [mbind outcome_bind]; rewrite IH.
  - by rewrite decide_False by auto.
  - rewrite decide_True by done. unfold with_mounts. cbn. by rewrite <- app_assoc.
Qed.

Lemma fold_add_directory l (m : access_monitor K) :
  fold_left access_monitor_add_directory l m =
  AccessMonitor (am_enable m) (am_enable_removable_media m) (am_autoscan_removable_media m)
    (am_entries m ++ ((fun p => MonitorEntry p ENTRY_DIR) <$> l))
    (am_start_pipe m) (am_command_pipe m) (am_fanotify m) (am_inotify m) (am_media_scans m) (am_kernel m).
Proof.
  revert m. induction l as [|p l IH]; intros m; simpl; [rewrite app_nil_r; by destruct m|].
  rewrite IH. simpl. by rewrite <- app_assoc.
Qed.

(** The on-access scan configuration, created on first use. *)
Definition oal_conf w : a6o_scan_conf := get_conf (on_access_conf (get_confs w)) "on-access scan configuration".

(** What the module's functions work on. *)
Definition view w (x : a6o_scan_conf * option (access_monitor K)) : Prop := oal_conf w = x.1 /\ get_monitor w = x.2.

Lemma view_update f w c m : view w (c, m) -> view (on_access_update f w) (f c, m).
Proof.
  intros [Hc Hm]. cbn in *. unfold on_access_update. split; cbn; [|by rewrite get_monitor_put_confs].
  unfold oal_conf in *. rewrite get_put_confs. cbn. by rewrite <- Hc.
Qed.

Lemma view_put m' w c m : view w (c, m) -> view (put_monitor m' w) (c, m').
Proof. intros [Hc Hm]. split; cbn; [|by rewrite get_put_monitor]. unfold oal_conf. by rewrite get_confs_put_monitor. Qed.

Section apply.
Variable mm : module_manager W.
#[local] Abbreviation by_name := (module_manager_get_module_by_name mm).

(** The effect of one setting. *)
Definition effect (x : a6o_scan_conf * access_monitor K) (st : setting) : a6o_scan_conf * access_monitor K :=
  (configured by_name section_name [st] x.1, monitor_configured [st] x.2).

Lemma effect_fold l c m :
  fold_left effect l (c, m) = (configured by_name section_name l c, monitor_configured l m).
Proof.
  rewrite configured_fold, monitor_configured_fold. revert c m. induction l as [|st l IH]; intros c m; [done|].
  cbn [fold_left]. apply IH.
Qed.

(** The manager finds the module under its name. *)
Definition on_access_registered : Prop :=
  exists i m, by_name "on-access-linux" = Some i /\ mm_modules mm !! i = Some m /\
    mod_conf_table m = Some mod_oal_conf_table.

(** What another module's functions do leaves the view alone. *)
Definition others_keep_view : Prop :=
  forall s k v w x, s <> "on-access-linux" -> view w x -> exists w', module_conf_fun mm s k v w = Ok w' /\ view w' x.

(** A setting that adds no entry and sets no flag of the monitor. *)
Lemma monitor_configured_other s k v (m : access_monitor K) :
  s <> section_name \/ v = CvVoid \/
  match v with
  | CvInt _ => k <> "enable" /\ k <> "enable-removable-media" /\ k <> "autoscan-removable-media" /\ k <> "enable-permission"
  | _ => k <> "mount" /\ k <> "directory"
  end%string ->
  monitor_configured [(s, k, v)] m = m.
Proof.
  intros Hne. unfold monitor_configured, last_int. cbn [fold_left flat_map]. rewrite app_nil_r.
  assert (forall key, key = "mount"%string \/ key = "directory"%string -> given section_name key (s, k, v) = []) as Hg.
  { intros key Hk. destruct Hne as [?|[->|Hv]]; [by apply given_other; left|unfold given; by case_bool_decide|].
    destruct v as [| |[x|]|l]; try (unfold given; by case_bool_decide); apply given_other; right; destruct Hk as [->| ->]; tauto. }
  unfold entries_given. rewrite !Hg by tauto. cbn. rewrite app_nil_r.
  destruct m as [? ? ? ? ? ? [] ? ? ?]. cbn. destruct v as [|z| |]; try done.
  rewrite !bool_decide_eq_false_2 by (intros [? ?]; destruct Hne as [?|[?|?]]; [done..|tauto]). done.
Qed.

Lemma monitor_configured_mount v l (m : access_monitor K) :
  value_strings v = Ok l -> monitor_configured [(section_name, "mount"%string, v)] m = with_mounts l m.
Proof.
  intros Hv. unfold with_mounts. destruct m as [? ? ? ? ? ? [] ? ? ?], v as [| |[x|]|l']; simplify_eq/=;
    unfold monitor_configured; cbn [flat_map]; unfold entries_given; rewrite !given_here, !given_other by (by right); cbn [fmap list_fmap];
    cbn; rewrite ?app_nil_r; by f_equal.
Qed.

Lemma monitor_configured_directory v l (m : access_monitor K) :
  value_strings v = Ok l ->
  monitor_configured [(section_name, "directory"%string, v)] m = fold_left access_monitor_add_directory l m.
Proof.
  intros Hv. rewrite fold_add_directory. destruct m as [? ? ? ? ? ? [] ? ? ?], v as [| |[x|]|l']; simplify_eq/=;
    unfold monitor_configured; cbn [flat_map]; unfold entries_given; rewrite !given_here, !given_other by (by right); cbn [fmap list_fmap];
    cbn; rewrite ?app_nil_r; by f_equal.
Qed.

Lemma monitor_configured_int k z (m : access_monitor K) f :
  (k, f) ∈ [("enable"%string, fun m : access_monitor K => (access_monitor_enable m z).2);
            ("enable-permission"%string, fun m => access_monitor_enable_permission m z);
            ("enable-removable-media"%string, fun m => (access_monitor_enable_removable_media m z).2);
            ("autoscan-removable-media"%string, fun m => (access_monitor_autoscan_removable_media m z).2)] ->
  monitor_configured [(section_name, k, CvInt z)] m = f m.
Proof.
  intros Hk. destruct m as [? ? ? ? ? ? [] ? ? ?].
  repeat (apply elem_of_cons in Hk as [Hk|Hk]; [injection Hk as -> ->;
    unfold monitor_configured, entries_given; cbn; by rewrite ?app_nil_r|]). by apply elem_of_nil in Hk.
Qed.

(** A setting of the section for the scan configuration, and one for the monitor. *)
Lemma view_for_conf w c m k v f :
  view w (c, Some m) -> monitor_configured [(section_name, k, v)] m = m ->
  configured by_name section_name [(section_name, k, v)] c = f c ->
  let x := effect (c, m) (section_name, k, v) in view (on_access_update f w) (x.1, Some x.2).
Proof. intros Hv Hm Hc. cbn zeta. unfold effect. cbn [fst snd]. rewrite Hm, Hc. by apply view_update. Qed.

Lemma view_for_monitor w c m k v m' :
  view w (c, Some m) -> configured by_name section_name [(section_name, k, v)] c = c ->
  monitor_configured [(section_name, k, v)] m = m' ->
  let x := effect (c, m) (section_name, k, v) in view (put_monitor (Some m') w) (x.1, Some x.2).
Proof. intros Hv Hc Hm. cbn zeta. unfold effect. cbn [fst snd]. rewrite Hm, Hc. by eapply view_put. Qed.

Lemma view_ignored w c m k v :
  view w (c, Some m) -> configured by_name section_name [(section_name, k, v)] c = c ->
  monitor_configured [(section_name, k, v)] m = m ->
  let x := effect (c, m) (section_name, k, v) in view w (x.1, Some x.2).
Proof. intros Hv Hc Hm. cbn zeta. unfold effect. cbn [fst snd]. by rewrite Hm, Hc. Qed.

(** The keys of the table are distinct. *)
Lemma table_lookup i e : mod_oal_conf_table !! i = Some e -> find_conf_entry mod_oal_conf_table (ce_key e) = Some e.
Proof. intros Hi. do 10 (destruct i as [|i]; [injection Hi as <-; reflexivity|]). done. Qed.

Lemma table_entry k :
  find_conf_entry mod_oal_conf_table k = None /\
    (forall c v, configured by_name section_name [(section_name, k, v)] c = c) /\
    (forall m v, monitor_configured [(section_name, k, v)] m = m) \/
  exists i e, mod_oal_conf_table !! i = Some e /\ k = ce_key e.
Proof.
  destruct (decide (k ∈ ce_key <$> mod_oal_conf_table)) as [(e & -> & [i Hi]%list_elem_of_lookup)%list_elem_of_fmap|Hk];
    [right; by exists i, e|left].
  unfold mod_oal_conf_table in Hk. cbn [fmap list_fmap ce_key] in Hk. rewrite !not_elem_of_cons in Hk.
  destruct Hk as (N1 & N2 & N3 & N4 & N5 & N6 & N7 & N8 & N9 & N10 & _). split_and!.
  - unfold find_conf_entry, mod_oal_conf_table. cbn [list_find ce_key]. by rewrite !decide_False by done.
  - intros c v. apply configured_other. by right; right.
  - intros m v. apply monitor_configured_other. right. right. by destruct v.
Qed.

Lemma conf_fun_on_access k v w c m :
  on_access_registered -> v <> CvString None -> view w (c, Some m) ->
  exists w', module_conf_fun mm "on-access-linux" k v w = Ok w' /\
    let x := effect (c, m) (section_name, k, v) in view w' (x.1, Some x.2).
Proof.
  intros (i & md & Hi & Hmd & Ht) Hv Hview. pose proof (proj2 Hview) as Hmon. cbn in Hmon.
  unfold module_conf_fun. rewrite Hi. cbn [mbind option_bind]. rewrite Hmd, Ht.
  destruct (table_entry k) as [(-> & Hc & Hm)|(j & e & Hj & ->)]; [exists w; split; [done|by apply view_ignored]|].
  rewrite (table_lookup j e Hj). clear Hi Hmd Ht.
  do 10 (try (destruct j as [|j]; [injection Hj as <-|])); [..|done].
  all: cbn [ce_key ce_type ce_conf_fun]; destruct v as [|z|[x|]|l]; try done.
  all: cbn -[effect add_mounts]; unfold with_monitor, mod_oal_conf_mount, mod_oal_conf_directory; cbn -[effect add_mounts];
    rewrite ?Hmon; cbn -[effect add_mounts]; rewrite ?add_mounts_ok; cbn -[effect];
    (eexists; split; [reflexivity|]).
  all: first [apply view_for_conf|apply view_for_monitor|apply view_ignored]; try done.
  all: first
    [ by apply configured_ill_typed
    | apply configured_other; right; right; done
    | apply monitor_configured_other; right; first [by left|by right]
    | etrans; [apply monitor_configured_int; repeat constructor|reflexivity]
    | etrans; [by apply monitor_configured_mount|reflexivity]
    | etrans; [by apply monitor_configured_directory|reflexivity]
    | etrans; [by apply configured_white_list|reflexivity]
    | etrans; [by apply configured_mime_types|reflexivity]
    | etrans; [by apply configured_modules|reflexivity]
    | apply configured_max_size ].
Qed.

(** The comment of [mod_oal_init] wants the daemon to go on when the monitor cannot be
    created; the message of level ERROR aborts it before NULL is returned. *)
Lemma failed_monitor_aborts my_pid (k : K) w : mod_oal_init false my_pid k w = Fault Aborted.
Proof. done. Qed.

End apply.

(** C13: What the on-access-linux section of the configuration means, up to the protection.
    When the module is initialised (and the pipes could be made), whatever the
    configuration and the other modules, applying the configuration makes the
    on-access scan configuration the previous one with the settings of the section, in
    order, and the monitor the one with the last flags given, an entry for each
    directory and for each mount point that is not on the device of /.  The module's
    post-initialisation then asks for the start: once the main loop and the monitor's
    loop have turned, the start command has run on that monitor exactly when the last
    enable given is not 0. *)
Theorem on_access_configured (mm : module_manager W) (conf : a6o_conf) my_pid (k : K) w
    (Hreg : on_access_registered mm) (Hothers : others_keep_view mm)
    (Hstrings : Forall (fun '(s, k, v) => v <> CvString None) (settings conf)) :
  let m := monitor_configured (settings conf)
    (AccessMonitor 0 0 0 [] [] [] (fanotify_monitor_new my_pid) inotify_monitor_new [] k) in
  exists w1 w' m', mod_oal_init true my_pid k w = Ok (A6O_MOD_OK, w1) /\
    module_manager_configure_all mm conf w1 = Ok (0, w') /\
    oal_conf w' = configured (module_manager_get_module_by_name mm) section_name (settings conf) (oal_conf w) /\
    get_monitor w' = Some m /\
    mod_oal_post_init true w' = Ok (A6O_MOD_OK, put_monitor (Some m') w') /\
    (r ← delayed_start_cb true true m'; command_cb true r.2) =
      (m2 ← (if last_int id section_name "enable" 0 (settings conf) =? 0 then Ok m else access_monitor_start_command m);
       Ok (true, m2)).
Proof.
  intros m. eexists. unfold module_manager_configure_all. rewrite conf_apply_settings.
  destruct (fold_settings (module_conf_fun mm) (fun w x => view w (x.1, Some x.2)) (effect mm) (settings conf))
    with (put_monitor (Some (AccessMonitor 0 0 0 [] [] [] (fanotify_monitor_new my_pid) inotify_monitor_new [] k)) (on_access_update id w))
    (oal_conf w, AccessMonitor 0 0 0 [] [] [] (fanotify_monitor_new my_pid) inotify_monitor_new [] k)
    as (w' & E & Hc & Hm).
  - eapply list.Forall_impl; [exact Hstrings|]. intros [[s k'] v] Hv w1 [c1 m1] Hv1.
    destruct (decide (s = section_name)) as [->|Hs]; [by apply conf_fun_on_access|].
    destruct (Hothers s k' v w1 _ Hs Hv1) as (w2 & -> & Hv2). exists w2. split; [done|]. unfold effect. cbn [fst snd].
    by rewrite configured_other, monitor_configured_other by (by left).
  - cbn [fst snd]. eapply (view_put _ _ _ (get_monitor w)). apply (view_update id). by split.
  - rewrite effect_fold in Hc, Hm. cbn [fst snd] in Hc, Hm. rewrite E. fold m in Hm.
    destruct (delayed_start_runs m eq_refl eq_refl) as (m' & Em & Hrun). exists w', m'. split_and!; [done..| |done].
    unfold mod_oal_post_init. by rewrite Hm, Em.
Qed.

End module.

(** ** A program with this module and one that has no configuration table *)

Module Sample.
Import MonitorSpec.Sample.

Record world := World { w_confs : scan_confs; w_monitor : option (access_monitor sample_fs) }.

#[global] Instance world_confs : HasScanConfs world :=
  {| get_confs := w_confs; put_confs := fun cs w => World cs (w_monitor w); get_put_confs := fun cs w => eq_refl |}.

Definition no_system : sample_fs := SampleFs ∅ ∅ ∅ [].

#[global] Instance world_on_access : OnAccessWorld world sample_fs :=
  {| get_monitor := w_monitor; put_monitor := fun m w => World (w_confs w) m;
     get_put_monitor := fun m w => eq_refl; get_monitor_put_confs := fun cs w => eq_refl;
     get_confs_put_monitor := fun m w => eq_refl |}.

Definition manager : module_manager world :=
  Manager [{| mod_init_fun := None; mod_conf_table := Some mod_oal_conf_table; mod_post_init_fun := None;
              mod_scan_fun := None; mod_close_fun := None; mod_info_fun := None; mod_supported_mime_types := None;
              mod_name := "on-access-linux"; mod_size := 8; mod_status := A6O_MOD_OK; mod_data_allocated := true |};
           {| mod_init_fun := None; mod_conf_table := None; mod_post_init_fun := None; mod_scan_fun := None;
              mod_close_fun := None; mod_info_fun := None; mod_supported_mime_types := Some ["*"];
              mod_name := "clamav"; mod_size := 0; mod_status := A6O_MOD_OK; mod_data_allocated := false |}].

Definition sample_conf : a6o_conf :=
  {| sections := [{| s_section := "on-access-linux"; s_keys :=
       [{| k_key := "enable"; k_value := CvInt 1 |};
        {| k_key := "directory"; k_value := CvList ["/home"; "/srv"] |};
        {| k_key := "mount"; k_value := CvString (Some "/") |};
        {| k_key := "modules"; k_value := CvString (Some "clamav") |}] |}] |}.

Lemma on_access_configured_witness :
  exists w1 w' m', mod_oal_init true 7 no_system (World no_confs None) = Ok (A6O_MOD_OK, w1) /\
    module_manager_configure_all manager sample_conf w1 = Ok (0, w') /\ sc_modules (oal_conf w') = [1%nat] /\
    mod_oal_post_init true w' = Ok (A6O_MOD_OK, put_monitor (Some m') w') /\
    (r ← delayed_start_cb true true m'; command_cb true r.2) =
      (m ← access_monitor_start_command (AccessMonitor 1 0 0 [MonitorEntry "/home" ENTRY_DIR; MonitorEntry "/srv" ENTRY_DIR] [] []
        (fanotify_monitor_new 7) inotify_monitor_new [] no_system); Ok (true, m)).
Proof.
  destruct (on_access_configured manager sample_conf 7 no_system (World no_confs None)) as (w1 & w' & m' & Ei & E & Hc & _ & Hp & Hs).
  - by exists 0%nat, (Module_ None (Some mod_oal_conf_table) None None None None None "on-access-linux" 8 A6O_MOD_OK true).
  - intros s k v w x Hs Hv. exists w. split; [|done]. unfold module_conf_fun, module_manager_get_module_by_name.
    simpl. rewrite decide_False by done. simpl. by case_decide.
  - by repeat constructor.
  - exists w1, w', m'. split_and!; [exact Ei|exact E| |exact Hp|].
    + rewrite Hc. reflexivity.
    + rewrite Hs. reflexivity.
Defined.

End Sample.
