(* ===== verification/GetOpt.v ===== *)
(** * The option parser of the Windows tools ([src/arch/windows/utils/getopt.c])

    A table of options, terminated in C by an entry without a long form, is a list.
    [argv] is the list of the arguments after the name of the program; the index
    returned counts that name. *)
From S2P Require Import Prelude.

#[local] Open Scope Z_scope.

Record opt := Opt {
  long_form : string;
  short_form : ascii;
  need_arg : bool;
  is_set : bool;
  value : option string;
}.

Definition with_set (b : bool) (o : opt) : opt :=
  {| long_form := long_form o; short_form := short_form o; need_arg := need_arg o; is_set := b; value := value o |}.

Definition with_value (v : option string) (o : opt) : opt :=
  {| long_form := long_form o; short_form := short_form o; need_arg := need_arg o; is_set := is_set o; value := v |}.

Definition clear_opt (t : list opt) : list opt := (fun o => with_value None (with_set false o)) <$> t.

(** [strchr(s, '=')]: what is before the sign and what is after it. *)
Fixpoint split_equal (s : list ascii) : option (list ascii * list ascii) :=
  match s with
  | [] => None
  | c :: s =>
      if bool_decide (c = "="%char) then Some ([], s)
      else r ← split_equal s; Some (c :: r.1, r.2)
  end.

(** [!strncmp(s, t, l)] for the [l] bytes of [s] before the sign. *)
Definition same_prefix (s t : list ascii) : bool := bool_decide (take (length s) t = s).

(** The first entry [found] holds for is marked as set; its index. *)
Fixpoint find_opt (found : opt -> outcome bool) (t : list opt) : outcome (option nat * list opt) :=
  match t with
  | [] => Ok (None, [])
  | o :: t =>
      b ← found o;
      if (b : bool) then Ok (Some 0%nat, with_set true o :: t)
      else r ← find_opt found t; Ok (option_map S r.1, o :: r.2)
  end.

(** [name]: what follows the two dashes. *)
Definition find_long_opt (t : list opt) (name : list ascii) : outcome (option nat * list opt) :=
  find_opt (fun o => Ok (match split_equal name with
                         | None => bool_decide (name = bytes (long_form o))
                         | Some (l, _) => same_prefix l (bytes (long_form o))
                         end)) t.

(** [letters]: what follows the dash.  The second is read, even behind the end, when
    the first is the short form. *)
Definition find_short_opt (t : list opt) (letters : list ascii) : outcome (option nat * list opt) :=
  find_opt (fun o =>
    match letters with
    | [] => if bool_decide (short_form o = "000"%char) then Fault OutOfBounds else Ok false
    | c :: l => Ok (bool_decide (c = short_form o) && bool_decide (l = []))
    end) t.

(** The option at an index gets a value. *)
Definition set_opt_value (k : nat) (v : string) (t : list opt) : list opt := alter (with_value (Some v)) k t.

Definition needs_arg (t : list opt) (k : nat) : bool := default false (need_arg <$> t !! k).

Fixpoint opt_loop (args : list string) (i : Z) (t : list opt) : outcome (Z * list opt) :=
  match args with
  | [] => Ok (i, t)
  | o :: args =>
      match bytes o with
      | "-"%char :: "-"%char :: name =>
          r ← find_long_opt t name;
          match r.1 with
          | None => Ok (-1, r.2)
          | Some k =>
              if needs_arg r.2 k then
                match split_equal name with
                | None => Ok (-1, r.2)
                | Some (_, a) => opt_loop args (i + 1) (set_opt_value k (of_bytes a) r.2)
                end
              else opt_loop args (i + 1) r.2
          end
      | "-"%char :: letters =>
          r ← find_short_opt t letters;
          match r.1 with
          | None => Ok (-1, r.2)
          | Some k =>
              if needs_arg r.2 k then
                match args with
                | [] => Ok (-1, r.2)
                | a :: args => opt_loop args (i + 2) (set_opt_value k a r.2)
                end
              else opt_loop args (i + 1) r.2
          end
      | _ => Ok (i, t)
      end
  end.

Definition opt_parse (t : list opt) (args : list string) : outcome (Z * list opt) := opt_loop args 1 (clear_opt t).

Fixpoint opt_is_set (t : list opt) (opt_name : string) : bool :=
  match t with
  | [] => false
  | o :: t => if bool_decide (opt_name = long_form o) then is_set o else opt_is_set t opt_name
  end.

Fixpoint opt_value (t : list opt) (opt_name : string) (default_value : option string) : option string :=
  match t with
  | [] => default_value
  | o :: t => if bool_decide (opt_name = long_form o) && is_set o then value o else opt_value t opt_name default_value
  end.

(** ** Command lines *)

(** The ways to give an option of the table, by its index. *)
Inductive use :=
  | ULong (k : nat)                   (** [--name] *)
  | ULongArg (k : nat) (v : string)   (** [--name=v] *)
  | UShort (k : nat)                  (** [-c] *)
  | UShortArg (k : nat) (v : string). (** [-c v] *)

Definition use_index (u : use) : nat := match u with ULong k | ULongArg k _ | UShort k | UShortArg k _ => k end.

(** The words of a use, for the option [o]. *)
Definition words (o : opt) (u : use) : list string :=
  match u with
  | ULong _ => ["--" +:+ long_form o]
  | ULongArg _ v => ["--" +:+ long_form o +:+ "=" +:+ v]
  | UShort _ => [of_bytes ["-"%char; short_form o]]
  | UShortArg _ v => [of_bytes ["-"%char; short_form o]; v]
  end.

(** What a use does to its option. *)
Definition apply_use (t : list opt) (u : use) : list opt :=
  match u with
  | ULong k | UShort k => alter (with_set true) k t
  | ULongArg k v | UShortArg k v => alter (fun o => with_value (Some v) (with_set true o)) k t
  end.

(** A use that fits the option. *)
Definition fits_use (o : opt) (u : use) : bool :=
  match u with ULong _ | UShort _ => negb (need_arg o) | ULongArg _ _ | UShortArg _ _ => need_arg o end.

(** Names without an equal sign that no earlier name extends; letters that are all
    different, and neither a dash nor NUL. *)
Record table_ok (t : list opt) : Prop := {
  names_plain : Forall (fun o => "="%char ∉ bytes (long_form o)) t;
  names_prefix : forall i j o o', t !! i = Some o -> t !! j = Some o' -> (i < j)%nat ->
    same_prefix (bytes (long_form o')) (bytes (long_form o)) = false;
  letters_differ : forall i j o o', t !! i = Some o -> t !! j = Some o' -> (i < j)%nat -> short_form o <> short_form o';
  letters_plain : Forall (fun o => short_form o <> "-"%char) t;
}.

Lemma split_equal_none s : "="%char ∉ s -> split_equal s = None.
Proof.
  induction s as [|c s IH]; [done|]. intros [Hc Hs]%not_elem_of_cons. cbn [split_equal].
  rewrite bool_decide_eq_false_2 by done. by rewrite IH.
Qed.

Lemma split_equal_app s v : "="%char ∉ s -> split_equal (s ++ "="%char :: v) = Some (s, v).
Proof.
  induction s as [|c s IH]; [done|]. intros [Hc Hs]%not_elem_of_cons. cbn [split_equal app].
  rewrite bool_decide_eq_false_2 by done. by rewrite IH.
Qed.

Lemma find_opt_at found t k o :
  t !! k = Some o -> found o = Ok true -> (forall i o', (i < k)%nat -> t !! i = Some o' -> found o' = Ok false) ->
  find_opt found t = Ok (Some k, alter (with_set true) k t).
Proof.
  revert k. induction t as [|x t IH]; intros k Hk Hf Hbefore; [done|]. cbn [find_opt]. destruct k as [|k].
  - injection Hk as ->. by rewrite Hf.
  - rewrite (Hbefore 0%nat x) by (done || lia). cbn [mbind outcome_bind].
    rewrite (IH k); [done|done|done|]. intros i o' Hi Ho. apply (Hbefore (S i)); [lia|done].
Qed.

(** ** Changing an option keeps the table in order *)

Definition same_shape (o o' : opt) : Prop :=
  long_form o' = long_form o /\ short_form o' = short_form o /\ need_arg o' = need_arg o.

#[local] Instance same_shape_preorder : PreOrder same_shape.
Proof. split; [done|]. intros o1 o2 o3 (? & ? & ?) (? & ? & ?). unfold same_shape. split_and!; congruence. Qed.

Lemma alter_shape f k t : (forall o, same_shape o (f o)) -> Forall2 same_shape t (alter f k t).
Proof.
  intros Hf. revert k. induction t as [|o t IH]; intros [|k]; [apply Forall2_nil_2..| |]; apply Forall2_cons_2.
  - apply Hf.
  - by apply Forall_Forall2_diag, list.Forall_true.
  - reflexivity.
  - apply IH.
Qed.

Lemma apply_use_shape t u : Forall2 same_shape t (apply_use t u).
Proof. by destruct u; apply alter_shape. Qed.

Lemma table_ok_shape t t' : Forall2 same_shape t t' -> table_ok t -> table_ok t'.
Proof.
  intros Hs [Hn Hp Hl Hd].
  assert (forall i o', t' !! i = Some o' -> exists o, t !! i = Some o /\ same_shape o o') as Hback
    by (intros i o' Hi; by eapply Forall2_lookup_r).
  split.
  - apply list.Forall_lookup. intros i o' Hi. destruct (Hback _ _ Hi) as (o & Ho & -> & _ & _). by apply (Forall_lookup_1 _ _ _ _ Hn Ho).
  - intros i j o1 o2 Hi Hj Hij. destruct (Hback _ _ Hi) as (o1' & Ho1 & -> & _). destruct (Hback _ _ Hj) as (o2' & Ho2 & -> & _).
    by apply (Hp i j).
  - intros i j o1 o2 Hi Hj Hij. destruct (Hback _ _ Hi) as (o1' & Ho1 & _ & -> & _). destruct (Hback _ _ Hj) as (o2' & Ho2 & _ & -> & _).
    by apply (Hl i j).
  - apply list.Forall_lookup. intros i o' Hi. destruct (Hback _ _ Hi) as (o & Ho & _ & -> & _). by apply (Forall_lookup_1 _ _ _ _ Hd Ho).
Qed.

(** ** Parsing one use *)

Lemma same_prefix_self s : same_prefix s s = true.
Proof. unfold same_prefix. apply bool_decide_eq_true_2, firstn_all. Qed.

Lemma find_long_name t k o :
  table_ok t -> t !! k = Some o ->
  find_long_opt t (bytes (long_form o)) = Ok (Some k, alter (with_set true) k t).
Proof.
  intros [Hn Hp _ _] Hk. apply (find_opt_at _ t k o Hk).
  - rewrite split_equal_none by apply (Forall_lookup_1 _ _ _ _ Hn Hk). by rewrite bool_decide_eq_true_2.
  - intros i o' Hi Ho'. rewrite split_equal_none by apply (Forall_lookup_1 _ _ _ _ Hn Hk).
    rewrite bool_decide_eq_false_2; [done|]. intros E. pose proof (Hp i k o' o Ho' Hk Hi) as H. rewrite E in H.
    by rewrite same_prefix_self in H.
Qed.

Lemma find_long_value t k o v :
  table_ok t -> t !! k = Some o ->
  find_long_opt t (bytes (long_form o) ++ "="%char :: v) = Ok (Some k, alter (with_set true) k t).
Proof.
  intros [Hn Hp _ _] Hk. apply (find_opt_at _ t k o Hk).
  - rewrite split_equal_app by apply (Forall_lookup_1 _ _ _ _ Hn Hk). by rewrite same_prefix_self.
  - intros i o' Hi Ho'. rewrite split_equal_app by apply (Forall_lookup_1 _ _ _ _ Hn Hk). by rewrite (Hp i k o' o).
Qed.

Lemma find_short_letter t k o :
  table_ok t -> t !! k = Some o -> find_short_opt t [short_form o] = Ok (Some k, alter (with_set true) k t).
Proof.
  intros [_ _ Hl _] Hk. apply (find_opt_at _ t k o Hk); [by rewrite !bool_decide_eq_true_2|].
  intros i o' Hi Ho'. by rewrite bool_decide_eq_false_2 by (intros E; by apply (Hl i k o' o)).
Qed.

Lemma needs_arg_set t k o b : t !! k = Some o -> needs_arg (alter (with_set b) k t) k = need_arg o.
Proof. intros Hk. unfold needs_arg. by rewrite list_lookup_alter_eq, Hk. Qed.

Lemma set_opt_value_set t k v : set_opt_value k v (alter (with_set true) k t) = alter (fun o => with_value (Some v) (with_set true o)) k t.
Proof. apply (list_alter_alter_eq (with_value (Some v)) (with_set true) t k). Qed.

Lemma loop_short c args i t :
  c <> "-"%char ->
  opt_loop (of_bytes ["-"%char; c] :: args) i t =
  r ← find_short_opt t [c];
  match r.1 with
  | None => Ok (-1, r.2)
  | Some k =>
      if needs_arg r.2 k then
        match args with
        | [] => Ok (-1, r.2)
        | a :: args => opt_loop args (i + 2) (set_opt_value k a r.2)
        end
      else opt_loop args (i + 1) r.2
  end.
Proof. intros Hc. cbn [opt_loop]. rewrite bytes_of_bytes. destruct c as [[] [] [] [] [] [] [] []]; try reflexivity. done. Qed.

Lemma loop_use t u o rest i :
  table_ok t -> t !! use_index u = Some o -> fits_use o u = true ->
  opt_loop (words o u ++ rest) i t = opt_loop rest (i + Z.of_nat (length (words o u))) (apply_use t u).
Proof.
  intros Hok Hk Hfit. pose proof (Forall_lookup_1 _ _ _ _ (letters_plain t Hok) Hk) as Hd. cbn beta in Hd.
  destruct u as [k|k v|k|k v]; cbn [words use_index fits_use app apply_use] in *.
  - cbn [opt_loop]. change (bytes ("--" +:+ long_form o)) with ("-"%char :: "-"%char :: bytes (long_form o)). cbn iota.
    rewrite (find_long_name t k o) by done. cbn [mbind outcome_bind fst snd]. rewrite (needs_arg_set t k o) by done.
    by destruct (need_arg o).
  - cbn [opt_loop].
    change (bytes ("--" +:+ long_form o +:+ "=" +:+ v)) with ("-"%char :: "-"%char :: bytes (long_form o +:+ String "="%char v)).
    cbn iota. rewrite bytes_app. change (bytes (String "="%char v)) with ("="%char :: bytes v).
    rewrite (find_long_value t k o) by done. cbn [mbind outcome_bind fst snd]. rewrite (needs_arg_set t k o), Hfit by done.
    rewrite split_equal_app by apply (Forall_lookup_1 _ _ _ _ (names_plain t Hok) Hk).
    by rewrite of_bytes_bytes, set_opt_value_set.
  - rewrite loop_short by done. rewrite (find_short_letter t k o) by done. cbn [mbind outcome_bind fst snd].
    rewrite (needs_arg_set t k o) by done. by destruct (need_arg o).
  - rewrite loop_short by done. rewrite (find_short_letter t k o) by done. cbn [mbind outcome_bind fst snd].
    rewrite (needs_arg_set t k o), Hfit by done. by rewrite set_opt_value_set.
Qed.

(** ** A whole command line *)

(** The words of a command line, for the table. *)
Definition command_words (t : list opt) (us : list use) : list string :=
  us ≫= fun u => match t !! use_index u with Some o => words o u | None => [] end.

Definition command_fits (t : list opt) (us : list use) : Prop :=
  Forall (fun u => exists o, t !! use_index u = Some o /\ fits_use o u = true) us.

(** Where the options end: at the first argument without a dash. *)
Definition no_option (rest : list string) : Prop := match rest with [] => True | a :: _ => head (bytes a) <> Some "-"%char end.

Lemma loop_end rest i t : no_option rest -> opt_loop rest i t = Ok (i, t).
Proof.
  destruct rest as [|a rest]; [done|]. cbn [no_option opt_loop]. destruct (bytes a) as [|c l]; [done|]. cbn [head].
  intros Hc. destruct c as [[] [] [] [] [] [] [] []]; try reflexivity. done.
Qed.

Lemma words_shape o o' u : same_shape o o' -> words o' u = words o u.
Proof. intros (Hl & Hs & _). destruct u; cbn [words]; by rewrite ?Hl, ?Hs. Qed.

Lemma fits_shape o o' u : same_shape o o' -> fits_use o' u = fits_use o u.
Proof. intros (_ & _ & Hn). destruct u; cbn [fits_use]; by rewrite Hn. Qed.

Lemma command_words_shape t t' us :
  Forall2 same_shape t t' -> command_fits t us -> command_words t' us = command_words t us /\ command_fits t' us.
Proof.
  intros Hs Hf. induction Hf as [|u us (o & Ho & Hfit) _ [IHw IHf]]; [split; [done|constructor]|].
  destruct (Forall2_lookup_l _ _ _ _ _ Hs Ho) as (o' & Ho' & Hoo). split.
  - unfold command_words in *. cbn [mbind list_bind]. by rewrite Ho, Ho', IHw, (words_shape o o').
  - constructor; [|done]. exists o'. by rewrite (fits_shape o o').
Qed.

Lemma loop_command us : forall t rest i,
  table_ok t -> command_fits t us -> no_option rest ->
  opt_loop (command_words t us ++ rest) i t =
  Ok (i + Z.of_nat (length (command_words t us)), fold_left apply_use us t).
Proof.
  induction us as [|u us IH]; intros t rest i Hok Hf Hrest.
  - cbn. by rewrite loop_end, Z.add_0_r.
  - apply list.Forall_cons in Hf as [(o & Ho & Hfit) Hf].
    destruct (command_words_shape _ _ _ (apply_use_shape t u) Hf) as [Hw Hf'].
    change (command_words t (u :: us)) with ((match t !! use_index u with Some o => words o u | None => [] end) ++ command_words t us).
    rewrite Ho, <- app_assoc, (loop_use t u o) by done. rewrite <- Hw.
    rewrite IH; [|by apply (table_ok_shape _ _ (apply_use_shape t u))|done|done].
    cbn [fold_left]. rewrite length_app. do 2 f_equal. lia.
Qed.

(** *** The command line of the Windows tools is understood *)

(** From a table in order, a command line that uses its options the ways they allow,
    followed by arguments that do not begin with a dash, is read to the first of these
    arguments, whose index is returned, and the table says what the options said, the
    last use of each option having the last word. *)
Theorem command_parsed t us rest :
  table_ok t -> command_fits t us -> no_option rest ->
  opt_parse t (command_words t us ++ rest) = Ok (1 + Z.of_nat (length (command_words t us)), fold_left apply_use us (clear_opt t)).
Proof.
  intros Hok Hf Hrest.
  assert (Forall2 same_shape t (clear_opt t)) as Hs
    by (unfold clear_opt; apply list.Forall2_fmap_r, Forall_Forall2_diag, list.Forall_true; done).
  destruct (command_words_shape _ _ _ Hs Hf) as [Hw Hf'].
  unfold opt_parse. rewrite <- Hw. apply loop_command; [by apply (table_ok_shape t)|done|done].
Qed.

(** *** What the table does not guard against *)

(** With a value, any beginning of a name is taken for the name, the empty one
    included: the first option it begins is the one set. *)
Theorem beginning_accepted o t pre v :
  "="%char ∉ pre -> pre `prefix_of` bytes (long_form o) ->
  find_long_opt (o :: t) (pre ++ "="%char :: v) = Ok (Some 0%nat, with_set true o :: t).
Proof.
  intros Hpre [l Hl]. unfold find_long_opt. rewrite split_equal_app by done. cbn [find_opt mbind outcome_bind].
  unfold same_prefix. by rewrite Hl, take_app_length, bool_decide_eq_true_2.
Qed.

(** A dash alone is read past its end when an option has no letter. *)
Theorem dash_alone_overreads o t :
  short_form o = "000"%char -> find_short_opt (o :: t) [] = Fault OutOfBounds.
Proof. intros Ho. unfold find_short_opt. cbn [find_opt]. by rewrite bool_decide_eq_true_2. Qed.

(** ** Example *)

Definition sample_table : list opt :=
  [Opt "recursive" "r" false false None; Opt "log-level" "l" true false None; Opt "quiet" "q" false true None].

Definition sample_uses : list use := [UShort 0; ULongArg 1 "info"; UShortArg 1 "debug"].

Lemma sample_table_ok : table_ok sample_table.
Proof.
  assert (forall i j o o', sample_table !! i = Some o -> sample_table !! j = Some o' -> (i < j)%nat ->
    same_prefix (bytes (long_form o')) (bytes (long_form o)) = false /\ short_form o <> short_form o') as H.
  { intros [|[|[|i]]] [|[|[|j]]] o o' Hi Hj Hij; try lia; try discriminate Hi; try discriminate Hj;
      injection Hi as <-; injection Hj as <-; by split. }
  split; [|intros; by eapply H..|].
  - repeat constructor; by apply (bool_decide_unpack _).
  - by repeat constructor.
Qed.

Lemma command_parsed_witness :
  opt_parse sample_table ["-r"; "--log-level=info"; "-l"; "debug"; "/home"; "-q"] =
  Ok (5, [Opt "recursive" "r" false true None; Opt "log-level" "l" true true (Some "debug"); Opt "quiet" "q" false false None]).
Proof.
  apply (command_parsed sample_table sample_uses ["/home"; "-q"]).
  - apply sample_table_ok.
  - repeat constructor; eexists; by split.
  - discriminate.
Defined.
