(* ===== verification/WinDir.v ===== *)
(** * Directories, files and types on Windows ([src/libcore/arch/windows/os])

    [dir.c], [file.c] and [mimetype.c].  As on Linux, what the system answers during a
    walk is a tree.  [GetFileAttributes] is asked about a path twice, by the walk of its
    parent and by its own, and the two answers need not agree; a path it knows nothing
    of has all the attributes. *)
From S2P Require Import Prelude Dir.

#[local] Open Scope string_scope.
#[local] Open Scope Z_scope.

Definition FILE_ATTRIBUTE_DIRECTORY : Z := 0x10.
Definition FILE_ATTRIBUTE_ARCHIVE : Z := 0x20.
Definition FILE_ATTRIBUTE_DEVICE : Z := 0x40.
Definition FILE_ATTRIBUTE_NORMAL : Z := 0x80.
Definition FILE_ATTRIBUTE_NOT_CONTENT_INDEXED : Z := 0x2000.
Definition INVALID_FILE_ATTRIBUTES : Z := 0xffffffff.

Definition win_dirent_flags (fileAttributes : Z) : Z :=
  if has_flag fileAttributes FILE_ATTRIBUTE_DIRECTORY then FILE_FLAG_IS_DIRECTORY
  else if has_flag fileAttributes FILE_ATTRIBUTE_DEVICE then FILE_FLAG_IS_DEVICE
  else if has_flag fileAttributes FILE_ATTRIBUTE_NORMAL || has_flag fileAttributes FILE_ATTRIBUTE_ARCHIVE ||
          has_flag fileAttributes FILE_ATTRIBUTE_NOT_CONTENT_INDEXED
  then FILE_FLAG_IS_PLAIN_FILE
  else FILE_FLAG_IS_UNKNOWN.

(** ** The walk *)

(** The attributes of a path, and what [FindFirstFile] and [FindNextFile] find below
    it: an invalid handle, or a first entry and the others. *)
Inductive win_tree : Set :=
  | FindFails (attributes : Z)
  | Found (attributes : Z) (first : string) (rest : win_entries)
with win_entries : Set :=
  | NoMoreFiles
  | WinEntry (name : string) (dwFileAttributes attributes : Z) (below : win_tree) (next : win_entries).

Scheme win_tree_ind2 := Induction for win_tree Sort Prop
  with win_entries_ind2 := Induction for win_entries Sort Prop.
Combined Scheme win_mutind from win_tree_ind2, win_entries_ind2.

Definition tree_attributes (t : win_tree) : Z := match t with FindFails a | Found a _ _ => a end.

Definition is_directory (attributes : Z) : bool := has_flag attributes FILE_ATTRIBUTE_DIRECTORY.

Definition win_is_dot (name : string) : bool := bool_decide (name = ".") || bool_decide (name = "..").

Definition entry_path (path name : string) : string := path +:+ "\" +:+ name.

Section walk.
Context {D : Type}.
(** [dirent_cb(entryPath, flags, 0, data)]. *)
Variable dirent_cb : option string -> Z -> Z -> D -> outcome (Z * D).
Variable recurse : Z.

Definition win_descends (attributes : Z) : bool := is_directory attributes && (1 <=? recurse).

Fixpoint win_dir_map (path : string) (t : win_tree) (data : D) : outcome (Z * D) :=
  match t with
  | FindFails attributes => Ok (if is_directory attributes then 0 else 1, data)
  | Found attributes _ rest =>
      if is_directory attributes then data ← win_read path rest data; Ok (0, data) else Ok (1, data)
  end
(** The loop over [FindNextFile], up to the end or a [break]. *)
with win_read (path : string) (es : win_entries) (data : D) : outcome D :=
  match es with
  | NoMoreFiles => Ok data
  | WinEntry name dwFileAttributes attributes below next =>
      if win_is_dot name then win_read path next data
      else if win_descends attributes then
        r ← win_dir_map (entry_path path name) below data;
        if r.1 =? 0 then win_read path next r.2 else Ok r.2
      else
        r ← dirent_cb (Some (entry_path path name)) (win_dirent_flags dwFileAttributes) 0 data;
        win_read path next r.2
  end.

(** [os_dir_map]: the paths may be NULL. *)
Definition win_os_dir_map (path : option string) (t : win_tree) (data : D) : outcome (Z * D) :=
  match path with None => Ok (1, data) | Some path => win_dir_map path t data end.

End walk.

(** ** [file.c] *)

Definition S_IFDIR_BIT : Z := 0x4000.
Definition S_IFREG_BIT : Z := 0x8000.

(** [_stat] answers a mode, or an [errno]; the size is never stored. *)
Definition win_file_stat (answer : Z + Z) (old_size : Z) : Z * os_file_stat * option Z :=
  match answer with
  | inr errno => (-1, {| stat_flags := FILE_FLAG_IS_ERROR; stat_file_size := old_size |}, Some errno)
  | inl mode =>
      (0, {| stat_flags := if has_flag mode S_IFDIR_BIT then FILE_FLAG_IS_DIRECTORY
                           else if has_flag mode S_IFREG_BIT then FILE_FLAG_IS_PLAIN_FILE else FILE_FLAG_IS_UNKNOWN;
             stat_file_size := old_size |}, None)
  end.

Definition win_file_do_not_scan (path : string) : bool := false.

Definition win_mkdir_p (path : string) : Z := -1.

(** ** [mimetype.c] *)

Definition MIME_SIZE : Z := 100.
Definition BUF_SIZE : Z := 1024.

Section mime.
(** [FindMimeFromData] of the bytes of a buffer. *)
Variable find_mime : list ascii -> option string.

(** [wcstombs_s] to a buffer of [MIME_SIZE] bytes: a longer name is refused by the handler of
    invalid parameters, which ends the process. *)
Definition mime_copy (mt : string) : outcome (option string) :=
  if Z.of_nat (String.length mt) <? MIME_SIZE then Ok (Some mt) else Fault Aborted.

(** [read] is what [_read] answered, and [garbage] what the rest of the buffer holds. *)
Definition win_mime_type_guess_fd (fd : Z) (read : option (list ascii)) (garbage : list ascii) : outcome (option string) :=
  if fd <? 0 then Ok None
  else
    match read with
    | None => Ok None
    | Some l =>
        match find_mime (take (Z.to_nat BUF_SIZE) (l ++ garbage)%list) with
        | None => Ok None
        | Some mt => mime_copy mt
        end
    end.

(** The content of the file, when it can be opened, and whether its size and its
    content can be read. *)
Definition win_mime_type_guess (content : option (list ascii)) (size_ok read_ok : bool) : outcome (option string) :=
  match content with
  | None => Ok None
  | Some l =>
      if negb size_ok then Ok None
      else if negb read_ok then Ok None
      else
        match find_mime (take (Z.to_nat BUF_SIZE) l) with
        | None => Ok None
        | Some mt => mime_copy mt
        end
  end.

End mime.

(** ** What the walk misses *)

(** Whatever [FindFirstFile] found is dropped: [.] in most directories, but the first
    file of the root of a volume, which has no such entry. *)
Theorem first_entry_dropped {D} (cb : option string -> Z -> Z -> D -> outcome (Z * D)) recurse path attributes first first' rest data :
  win_dir_map cb recurse path (Found attributes first rest) data = win_dir_map cb recurse path (Found attributes first' rest) data.
Proof. reflexivity. Qed.

(** A path that does not exist is a directory without files. *)
Theorem missing_path_walked {D} (cb : option string -> Z -> Z -> D -> outcome (Z * D)) recurse path data :
  win_os_dir_map cb recurse (Some path) (FindFails INVALID_FILE_ATTRIBUTES) data = Ok (0, data).
Proof. reflexivity. Qed.

(** ** The walks of the two systems *)

(** A directory as both systems see it: plain files and directories. *)
Inductive fs_entries :=
  | FsEnd
  | FsFile (name : string) (next : fs_entries)
  | FsDir (name : string) (below next : fs_entries).

Fixpoint linux_entries (path : string) (es : fs_entries) : dir_entries :=
  match es with
  | FsEnd => EndOfDir 0
  | FsFile name next => Entry name DT_REG (Some (path +:+ "/" +:+ name)) (Unreadable 20) (linux_entries path next)
  | FsDir name below next =>
      let p := path +:+ "/" +:+ name in
      Entry name DT_DIR (Some p)
        (Readable (Entry "." DT_DIR (Some p) (Unreadable 0) (Entry ".." DT_DIR (Some path) (Unreadable 0) (linux_entries p below))))
        (linux_entries path next)
  end.

Definition linux_tree (path : string) (es : fs_entries) : dir_tree :=
  Readable (Entry "." DT_DIR (Some path) (Unreadable 0) (Entry ".." DT_DIR None (Unreadable 0) (linux_entries path es))).

Fixpoint win_entries_of (es : fs_entries) : win_entries :=
  match es with
  | FsEnd => NoMoreFiles
  | FsFile name next =>
      WinEntry name FILE_ATTRIBUTE_ARCHIVE FILE_ATTRIBUTE_ARCHIVE (FindFails FILE_ATTRIBUTE_ARCHIVE) (win_entries_of next)
  | FsDir name below next =>
      WinEntry name FILE_ATTRIBUTE_DIRECTORY FILE_ATTRIBUTE_DIRECTORY
        (Found FILE_ATTRIBUTE_DIRECTORY "." (WinEntry ".." FILE_ATTRIBUTE_DIRECTORY FILE_ATTRIBUTE_DIRECTORY
           (FindFails FILE_ATTRIBUTE_DIRECTORY) (win_entries_of below)))
        (win_entries_of next)
  end.

Definition win_tree_of (es : fs_entries) : win_tree :=
  Found FILE_ATTRIBUTE_DIRECTORY "." (WinEntry ".." FILE_ATTRIBUTE_DIRECTORY FILE_ATTRIBUTE_DIRECTORY
    (FindFails FILE_ATTRIBUTE_DIRECTORY) (win_entries_of es)).

(** No entry is called [.] or [..]. *)
Fixpoint names_ok (es : fs_entries) : bool :=
  match es with
  | FsEnd => true
  | FsFile name next => negb (win_is_dot name) && names_ok next
  | FsDir name below next => negb (win_is_dot name) && names_ok below && names_ok next
  end.

(** The plain files, with the separator of the system. *)
Fixpoint plain_files (sep : string) (recurse : bool) (path : string) (es : fs_entries) : list string :=
  match es with
  | FsEnd => []
  | FsFile name next => (path +:+ sep +:+ name) :: plain_files sep recurse path next
  | FsDir name below next =>
      ((if recurse then plain_files sep recurse (path +:+ sep +:+ name) below else []) ++ plain_files sep recurse path next)%list
  end.

Lemma linux_plain_files recurse es : forall path,
  names_ok es = true -> all_entries recurse (linux_entries path es) = Some <$> plain_files "/" recurse path es.
Proof.
  induction es as [|name next IH|name below IHb next IHn]; intros path Hok; cbn [linux_entries all_entries plain_files names_ok] in *; [done| |].
  - apply andb_prop in Hok as [Hname Hok]. unfold is_dot. cbn [bool_decide andb]. unfold descends.
    rewrite !bool_decide_eq_false_2 by done. cbn [andb]. rewrite bool_decide_eq_true_2 by done. cbn [fmap list_fmap]. by rewrite IH.
  - apply andb_prop in Hok as [[Hname%negb_true_iff Hb]%andb_prop Hn].
    unfold is_dot at 1. unfold win_is_dot in Hname. rewrite Hname, andb_false_r. unfold descends. rewrite bool_decide_eq_true_2 by done.
    cbn [andb]. rewrite fmap_app. destruct recurse.
    + cbn [all_files all_entries].
      change (is_dot DT_DIR ".") with true. change (is_dot DT_DIR "..") with true. cbn iota. by rewrite IHb, IHn.
    + by apply IHn.
Qed.

Section agree.
Context {D : Type} (cb : option string -> Z -> Z -> D -> outcome (Z * D)) (step : D -> option string -> D).
Hypothesis cb_file : forall p d, cb p FILE_FLAG_IS_PLAIN_FILE 0 d = Ok (0, step d p).
Hypothesis cb_other : forall p flags errno d, has_flag flags FILE_FLAG_IS_PLAIN_FILE = false -> cb p flags errno d = Ok (0, d).

Lemma win_map_listing recurse path es d :
  win_dir_map cb recurse path
    (Found FILE_ATTRIBUTE_DIRECTORY "." (WinEntry ".." FILE_ATTRIBUTE_DIRECTORY FILE_ATTRIBUTE_DIRECTORY (FindFails FILE_ATTRIBUTE_DIRECTORY) es)) d =
  d ← win_read cb recurse path es d; Ok (0, d).
Proof. reflexivity. Qed.

Lemma win_read_entry recurse path name dw attributes below next d :
  win_is_dot name = false ->
  win_read cb recurse path (WinEntry name dw attributes below next) d =
  if win_descends recurse attributes then
    r ← win_dir_map cb recurse (entry_path path name) below d;
    if r.1 =? 0 then win_read cb recurse path next r.2 else Ok r.2
  else
    r ← cb (Some (entry_path path name)) (win_dirent_flags dw) 0 d;
    win_read cb recurse path next r.2.
Proof. intros Hn. cbn [win_read]. by rewrite Hn. Qed.

Lemma win_read_files (recurse : bool) es : forall path d,
  names_ok es = true ->
  win_read cb (Z.b2z recurse) path (win_entries_of es) d = Ok (fold_left step (Some <$> plain_files "\" recurse path es) d).
Proof.
  induction es as [|name next IH|name below IHb next IHn]; intros path d Hok;
    cbn [win_entries_of plain_files names_ok] in *; [done| |].
  - apply andb_prop in Hok as [Hname%negb_true_iff Hok]. rewrite win_read_entry by done.
    change (win_descends (Z.b2z recurse) FILE_ATTRIBUTE_ARCHIVE) with false.
    change (win_dirent_flags FILE_ATTRIBUTE_ARCHIVE) with FILE_FLAG_IS_PLAIN_FILE.
    cbn iota. rewrite cb_file. cbn [mbind outcome_bind fst snd]. rewrite IH by done. reflexivity.
  - apply andb_prop in Hok as [[Hname%negb_true_iff Hb]%andb_prop Hn]. rewrite win_read_entry, fmap_app, fold_left_app by done.
    destruct recurse.
    + change (win_descends (Z.b2z true) FILE_ATTRIBUTE_DIRECTORY) with true. cbn iota.
      rewrite win_map_listing, IHb by done. cbn [mbind outcome_bind fst snd]. change (0 =? 0) with true. cbn iota. by rewrite IHn by done.
    + change (win_descends (Z.b2z false) FILE_ATTRIBUTE_DIRECTORY) with false. cbn iota.
      rewrite cb_other by done. cbn [mbind outcome_bind fst snd]. by rewrite IHn.
Qed.

(** *** The two walks find the same files *)


End agree.

Definition sample_entries : fs_entries := FsFile "a" (FsDir "d" (FsFile "b" FsEnd) (FsFile "c" FsEnd)).

Definition collect (p : option string) (flags errno : Z) (d : list (option string)) : outcome (Z * list (option string)) :=
  Ok (0, if has_flag flags FILE_FLAG_IS_PLAIN_FILE then (d ++ [p])%list else d).

