(* ===== verification/WinRegistry.v ===== *)
(** * The configuration in the Windows registry ([src/arch/windows/service/config.c])

    The registry below the key of the application is a parameter: [RegCreateKey] and
    [RegSetKeyValue] change it or fail, and what the [RegQueryInfoKey], [RegEnumValue],
    [RegGetValue], [RegEnumKeyEx] and [RegOpenKey] of a walk answer is a tree.  The handle
    of the key of a section is the name of the section.  Messages are not modelled, and
    neither is [display_entry], which only prints. *)
From S2P Require Import Prelude ConfVal Conf.

#[local] Open Scope string_scope.
#[local] Open Scope Z_scope.

(** The longest string that is saved whole. *)
Definition MAX_LEN : nat := 512.
Definition MAX_PATH : nat := 260.

Definition REG_SZ : Z := 1.
Definition REG_DWORD : Z := 4.
Definition REG_MULTI_SZ : Z := 7.

(** A key: its values, up to the end or the first that [RegEnumValue] fails on, each with
    its name, its type and what [RegGetValue] gives; then its subkeys, up to the end or to
    a failure. *)
Inductive reg_tree : Set :=
  | RegUnreadable
  | RegKey (values : list (option (string * Z * option (list ascii)))) (subkeys : reg_subkeys)
with reg_subkeys : Set :=
  | SubEnd
  | SubError (ret : Z)
  | SubKey (name : string) (key : reg_tree) (next : reg_subkeys).

(** A registry [R]. *)
Record registry (R : Type) := Registry {
  reg_create_key : string -> R -> option R;
  (** [RegSetKeyValue]; the data may be NULL. *)
  reg_set_value : string -> string -> Z -> option (list ascii) -> R -> option R;
  reg_walk : R -> reg_tree;
}.
Arguments Registry {R}.
Arguments reg_create_key {R}.
Arguments reg_set_value {R}.
Arguments reg_walk {R}.

(** ** Saving *)

Section save.
Context {R : Type} (reg : registry R).

Record conf_reg_data := RegData {
  d_registry : R;
  hSectionKey : option string;
  prev_section : option string;
}.

(** The [strnlen_s(s, MAX_LEN) + 1] bytes at [s]. *)
Definition string_data (s : string) : list ascii :=
  (take (Nat.min MAX_LEN (String.length s) + 1) (bytes s ++ ["000"%char]))%list.

Definition list_data (l : list string) : list ascii := (concat (string_data <$> l) ++ ["000"%char])%list.

(** The type and the data of a value; NULL for a NULL string. *)
Definition reg_data (value : a6o_conf_value) : option (Z * option (list ascii)) :=
  match value with
  | CvVoid => None
  | CvInt z => Some (REG_DWORD, Some (le_bytes 4 (u32 z)))
  | CvString s => Some (REG_SZ, string_data <$> s)
  | CvList l => Some (REG_MULTI_SZ, Some (list_data l))
  end.

Definition set_reg_value (key : string) (value : a6o_conf_value) (data : conf_reg_data) : conf_reg_data :=
  match reg_data value, hSectionKey data with
  | Some (ty, v), Some section =>
      match reg_set_value reg section key ty v (d_registry data) with
      | Some r => {| d_registry := r; hSectionKey := hSectionKey data; prev_section := prev_section data |}
      | None => data
      end
  | _, _ => data
  end.

Definition write_entry_in_registry (section key : string) (value : a6o_conf_value) (data : conf_reg_data) : conf_reg_data :=
  if bool_decide (prev_section data = Some section) then set_reg_value key value data
  else
    match reg_create_key reg section (d_registry data) with
    | None => data
    | Some r => set_reg_value key value {| d_registry := r; hSectionKey := Some section; prev_section := Some section |}
    end.

(** [opened]: whether the key of the application could be opened. *)
Definition save_conf_in_registry (conf : option a6o_conf) (opened : bool) (r : R) : Z * R :=
  match conf with
  | None => (-1, r)
  | Some conf =>
      if negb opened then (-2, r)
      else (0, d_registry (a6o_conf_apply conf write_entry_in_registry {| d_registry := r; hSectionKey := None; prev_section := None |}))
  end.

End save.

(** ** Restoring *)

(** The strings of a [REG_MULTI_SZ], cut after [MAX_PATH] bytes, in a buffer whose bytes
    are [l]: the flag says that the string was cut, and has no NUL. *)
Fixpoint strnlen (n : nat) (l : list ascii) : nat :=
  match n, l with
  | S n, c :: l => if bool_decide (c = "000"%char) then 0%nat else S (strnlen n l)
  | _, _ => 0%nat
  end.

Fixpoint multi_strings (fuel : nat) (l : list ascii) : outcome (list (list ascii)) :=
  match l with
  | [] => Fault OutOfBounds
  | c :: _ =>
      if bool_decide (c = "000"%char) then Ok []
      else
        match fuel with
        | O => Fault Diverges
        | S fuel =>
            let n := (strnlen MAX_PATH l + 1)%nat in
            r ← multi_strings fuel (drop n l); Ok (take n l :: r)
        end
  end.

(** A copy of the bytes that a string was cut to is read past its end. *)
Definition multi_string (l : list ascii) : outcome string :=
  if bool_decide ("000"%char ∈ l) then Ok (c_string l) else Fault OutOfBounds.

Fixpoint multi_values (l : list (list ascii)) : outcome (list string) :=
  match l with [] => Ok [] | x :: l => s ← multi_string x; r ← multi_values l; Ok (s :: r) end.

(** A [DWORD] over the bytes of [data_int]. *)
Definition read_dword (data_int : Z) (data : list ascii) : outcome Z :=
  if (4 <? length data)%nat then Fault OutOfBounds
  else Ok (i32 (le_value (data ++ drop (length data) (le_bytes 4 (u32 data_int)))%list)).

(** [section]: NULL for the key of the application itself. *)
Definition add_reg_value (section : option string) (name : string) (ty : Z) (data : list ascii) (data_int : Z) (conf : a6o_conf)
    : outcome (Z * a6o_conf) :=
  if ty =? REG_DWORD then
    z ← read_dword data_int data;
    match section with
    | None => Ok (z, conf)
    | Some s => r ← a6o_conf_add_uint conf s name z; Ok (z, r.2)
    end
  else if ty =? REG_SZ then
    match section with
    | None => Ok (data_int, conf)
    | Some s => r ← a6o_conf_add_string conf s name (Some (c_string data)); Ok (data_int, r.2)
    end
  else if ty =? REG_MULTI_SZ then
    l ← multi_strings (length data + 1) (data ++ ["000"%char])%list;
    match section with
    | None => Ok (data_int, conf)
    | Some s =>
        r ← conf_add conf s name (l ← multi_values l; a6o_conf_value_set_list l (length l)); Ok (data_int, r.2)
    end
  else Ok (data_int, conf).

(** Values whose data cannot be read are left out. *)
Fixpoint reg_values (section : option string) (l : list (option (string * Z * option (list ascii)))) (data_int : Z) (conf : a6o_conf)
    : outcome (Z * a6o_conf) :=
  match l with
  | [] => Ok (0, conf)
  | None :: _ => Ok (-3, conf)
  | Some (_, _, None) :: l => reg_values section l data_int conf
  | Some (name, ty, Some data) :: l =>
      r ← add_reg_value section name ty data data_int conf; reg_values section l r.1 r.2
  end.

(** The keys below a section are sections too. *)
Fixpoint registry_walker (t : reg_tree) (section : option string) (conf : a6o_conf) : outcome (Z * a6o_conf) :=
  match t with
  | RegUnreadable => Ok (-3, conf)
  | RegKey values subkeys =>
      r ← reg_values section values 0 conf;
      if r.1 =? 0 then walk_subkeys subkeys r.2 else Ok r
  end
with walk_subkeys (l : reg_subkeys) (conf : a6o_conf) : outcome (Z * a6o_conf) :=
  match l with
  | SubEnd => Ok (0, conf)
  | SubError ret => Ok (ret, conf)
  | SubKey name key next => r ← registry_walker key (Some name) conf; walk_subkeys next r.2
  end.

Definition restore_conf_from_registry {R} (reg : registry R) (conf : option a6o_conf) (opened : bool) (r : R)
    : outcome (Z * option a6o_conf) :=
  match conf with
  | None => Ok (-1, None)
  | Some conf =>
      if negb opened then Ok (-2, Some conf)
      else x ← registry_walker (reg_walk reg r) None conf; Ok (0, Some x.2)
  end.

(** ** Setting the registry up *)

(** [hklm], [created]: whether the root of the machine opens and the key of the
    application is created. *)
Definition create_app_registry (hklm created : bool) : Z := 0.

(** A key is opened, [software] telling whether it could be, and closed again; nothing is
    deleted.  What is returned, and how many keys stay open. *)
Definition delete_app_registry (software : bool) : Z * Z :=
  let opened := if software then 1 else 0 in
  (0, opened - (if software then 1 else 0)).

Definition init_configuration {R} (reg : registry R) (hklm created opened : bool) (conf_file : option string)
    (file : string -> option (list ascii)) (r : R) : outcome (Z * R) :=
  if negb (create_app_registry hklm created =? 0) then Ok (-1, r)
  else
    match conf_file with
    | None => Ok (-3, r)
    | Some p =>
        x ← a6o_conf_load_file a6o_conf_new (file p);
        Ok (0, (save_conf_in_registry reg (Some x.2) opened r).2)
    end.

Definition conf_poc_windows {R} (reg : registry R) (hklm created opened : bool) (file : option (list ascii)) (r : R)
    : outcome (Z * R * option a6o_conf) :=
  let ret := create_app_registry hklm created in
  x ← a6o_conf_load_file a6o_conf_new file;
  let r := (save_conf_in_registry reg (Some x.2) opened r).2 in
  y ← restore_conf_from_registry reg (Some a6o_conf_new) opened r;
  Ok (ret, r, y.2).
