(* ===== verification/WinRegistrySpec.v ===== *)
(** * The configuration survives the registry

    What a registry promises ([registry_laws]), and that a configuration saved there is
    restored. *)
From S2P Require Import Prelude ConfVal Conf ConfTheory ConfSpec WinRegistry.

#[local] Open Scope string_scope.
#[local] Open Scope Z_scope.

(** What is stored: for a section and a name, a type and data. *)
Abbreviation rmap := (gmap (string * string) (Z * list ascii)).

(** The tree of sections with values that can all be read. *)
Abbreviation reg_listing := (list (string * list (string * (Z * list ascii)))).

Definition values_tree (l : list (string * (Z * list ascii))) : reg_tree :=
  RegKey ((fun p => Some (p.1, p.2.1, Some p.2.2)) <$> l) SubEnd.

Fixpoint sections_tree (l : reg_listing) : reg_subkeys :=
  match l with [] => SubEnd | (s, values) :: l => SubKey s (values_tree values) (sections_tree l) end.

(** A listing shows what is stored, every section and name once, in any order. *)
Record lists (l : reg_listing) (m : rmap) : Prop := {
  lists_sections : NoDup l.*1;
  lists_names : Forall (fun p => NoDup p.2.*1) l;
  lists_stored : forall s k v, m !! (s, k) = Some v <-> exists values, (s, values) ∈ l /\ (k, v) ∈ values;
}.

(** Data as its type wants it: four bytes, a string with its NUL, strings with theirs and
    a NUL more. *)
Definition data_ok (ty : Z) (data : list ascii) : Prop :=
  ty = REG_DWORD /\ length data = 4%nat \/
  ty = REG_SZ /\ list.last data = Some "000"%char \/
  ty = REG_MULTI_SZ /\ exists l, data = (l ++ ["000"%char])%list /\ (l = [] \/ list.last l = Some "000"%char).

(** The laws of a registry, for a set of names without backslashes no two of which
    differ only by case: [holds r m] says that [r] stores [m] below the key of the
    application and nothing else.  Data is read back as it was written. *)
Record registry_laws {R} (reg : registry R) (plain : string -> Prop) (holds : R -> rmap -> Prop) : Prop := {
  create_law : forall r m s, holds r m -> plain s -> exists r', reg_create_key reg s r = Some r' /\ holds r' m;
  set_law : forall r m s k ty data, holds r m -> plain s -> plain k -> data_ok ty data ->
    exists r', reg_set_value reg s k ty (Some data) r = Some r' /\ holds r' (<[(s, k) := (ty, data)]> m);
  walk_law : forall r m, holds r m -> exists l, lists l m /\ reg_walk reg r = RegKey [] (sections_tree l);
}.

(** The values that are stored whole and read whole. *)
Definition storable_element (s : string) : Prop := ("000"%char ∉ bytes s) /\ s <> "" /\ (String.length s <= MAX_PATH)%nat.

Definition storable (v : a6o_conf_value) : Prop :=
  match v with
  | CvVoid => False
  | CvInt z => - 2 ^ 31 <= z < 2 ^ 31
  | CvString (Some s) => ("000"%char ∉ bytes s) /\ (String.length s < MAX_LEN)%nat
  | CvString None => False
  | CvList l => Forall storable_element l
  end.

Definition encode (v : a6o_conf_value) : Z * list ascii :=
  match v with
  | CvVoid => (0, [])
  | CvInt z => (REG_DWORD, le_bytes 4 (u32 z))
  | CvString s => (REG_SZ, default [] (string_data <$> s))
  | CvList l => (REG_MULTI_SZ, list_data l)
  end.

Lemma reg_data_storable v : storable v -> reg_data v = Some ((encode v).1, Some (encode v).2).
Proof. destruct v as [|z|[s|]|l]; done. Qed.

(** ** Values are read back *)

Lemma read_dword_encoded z z0 : - 2 ^ 31 <= z < 2 ^ 31 -> read_dword z0 (le_bytes 4 (u32 z)) = Ok z.
Proof.
  intros Hz. unfold read_dword. rewrite length_le_bytes. change (4 <? 4)%nat with false. cbn iota.
  rewrite drop_ge by (by rewrite length_le_bytes). rewrite app_nil_r, le_value_bytes by apply (u32_bound z).
  by rewrite i32_u32.
Qed.

Lemma string_data_whole s : (String.length s <= MAX_LEN)%nat -> string_data s = (bytes s ++ ["000"%char])%list.
Proof.
  intros Hl. unfold string_data. rewrite Nat.min_r by done. apply firstn_all2.
  rewrite length_app, length_bytes. cbn [length]. lia.
Qed.

Lemma strnlen_bytes s l n : ("000"%char ∉ bytes s) -> (String.length s <= n)%nat ->
  strnlen n (bytes s ++ "000"%char :: l) = String.length s.
Proof.
  revert n. induction s as [|c s IH]; intros n Hs Hn; [by destruct n|]. cbn in Hs, Hn. apply not_elem_of_cons in Hs as [Hc Hs].
  destruct n as [|n]; [lia|]. cbn. rewrite bool_decide_eq_false_2 by (by intros ->). by rewrite IH by (done || lia).
Qed.

Lemma multi_strings_list l fuel : Forall storable_element l -> (length l < fuel)%nat ->
  multi_strings fuel (list_data l ++ ["000"%char]) = Ok ((fun s => bytes s ++ ["000"%char])%list <$> l).
Proof.
  revert fuel. induction l as [|s l IH]; intros fuel Hl Hf; [by destruct fuel|].
  apply list.Forall_cons in Hl as [(Hs & Hne & Hlen) Hl]. destruct fuel as [|fuel]; [lia|].
  assert (list_data (s :: l) ++ ["000"%char] = bytes s ++ "000"%char :: (list_data l ++ ["000"%char]))%list as E.
  { unfold list_data. rewrite fmap_cons. cbn [concat]. rewrite string_data_whole by (unfold MAX_LEN, MAX_PATH in *; lia).
    by rewrite <- !app_assoc. }
  rewrite E. destruct s as [|c s]; [done|].
  change (bytes (String c s) ++ _)%list with (c :: (bytes s ++ "000"%char :: (list_data l ++ ["000"%char])))%list at 1.
  cbn [multi_strings]. cbn in Hs. apply not_elem_of_cons in Hs as Hs'. destruct Hs' as [Hc _].
  rewrite bool_decide_eq_false_2 by (by intros ->).
  change (c :: (bytes s ++ "000"%char :: (list_data l ++ ["000"%char])))%list
    with (bytes (String c s) ++ "000"%char :: (list_data l ++ ["000"%char]))%list.
  rewrite (strnlen_bytes (String c s)) by done.
  assert (bytes (String c s) ++ "000"%char :: (list_data l ++ ["000"%char]) =
          (bytes (String c s) ++ ["000"%char]) ++ (list_data l ++ ["000"%char]))%list as -> by (by rewrite <- app_assoc).
  rewrite drop_app_length' by (rewrite length_app, length_bytes; done).
  rewrite take_app_length' by (rewrite length_app, length_bytes; done).
  cbn [length] in Hf. rewrite IH by (done || lia). done.
Qed.

Lemma encode_ok v : storable v -> data_ok (encode v).1 (encode v).2.
Proof.
  destruct v as [|z|[s|]|l]; intros Hv; try done.
  - left. split; [done|apply length_le_bytes].
  - right. left. split; [done|]. destruct Hv as [_ Hl]. cbn [encode snd fmap option_fmap option_map default from_option].
    rewrite string_data_whole by lia. apply last_snoc.
  - right. right. split; [done|]. exists (concat (string_data <$> l)). split; [done|].
    destruct l as [|s l] using rev_ind; [by left|]. right. apply list.Forall_app in Hv as [_ (_ & _ & Hl)%list.Forall_singleton].
    rewrite fmap_app, concat_app. cbn [fmap list_fmap concat]. rewrite app_nil_r, string_data_whole by (unfold MAX_LEN, MAX_PATH in *; lia).
    rewrite app_assoc. apply last_snoc.
Qed.

Lemma multi_values_list l : Forall storable_element l -> multi_values ((fun s => bytes s ++ ["000"%char])%list <$> l) = Ok l.
Proof.
  induction 1 as [|s l (Hs & _ & _) _ IH]; [done|]. rewrite fmap_cons. cbn [multi_values]. unfold multi_string.
  rewrite bool_decide_eq_true_2 by (apply elem_of_app; right; by left). cbn [mbind outcome_bind].
  rewrite IH. cbn [mbind outcome_bind]. by rewrite c_string_nul.
Qed.

Lemma length_list_data l : Forall storable_element l -> (length l < length (list_data l) + 1)%nat.
Proof.
  intros Hl. unfold list_data. rewrite length_app. cbn [length]. enough (length l <= length (concat (string_data <$> l)))%nat by lia.
  induction Hl as [|s l (_ & Hne & Hlen) _ IH]; [done|]. rewrite fmap_cons. cbn [concat length]. rewrite length_app.
  rewrite string_data_whole by (unfold MAX_LEN, MAX_PATH in *; lia). rewrite length_app. cbn [length]. lia.
Qed.

Lemma add_encoded s k v z conf :
  storable v -> key_value conf s k = None ->
  exists z', add_reg_value (Some s) k (encode v).1 (encode v).2 z conf = Ok (z', add_entry conf s k v).
Proof.
  intros Hv Hnew. unfold add_reg_value, a6o_conf_add_uint, a6o_conf_add_string.
  destruct v as [|n|[t|]|l]; cbn [storable encode fst snd default option_map fmap option_fmap from_option] in *; try done.
  - change (REG_DWORD =? REG_DWORD) with true. cbn iota. rewrite read_dword_encoded by done. cbn [mbind outcome_bind].
    rewrite conf_add_eq, Hnew. cbn [mbind outcome_bind snd]. unfold a6o_conf_value_set_int. rewrite i32_small by done. by eexists.
  - change (REG_SZ =? REG_DWORD) with false. change (REG_SZ =? REG_SZ) with true. cbn iota. destruct Hv as [Ht Hl].
    rewrite string_data_whole by lia. unfold id. rewrite (c_string_nul t []) by done. rewrite conf_add_eq, Hnew. by eexists.
  - change (REG_MULTI_SZ =? REG_DWORD) with false. change (REG_MULTI_SZ =? REG_SZ) with false.
    change (REG_MULTI_SZ =? REG_MULTI_SZ) with true. cbn iota.
    rewrite multi_strings_list by (done || by apply length_list_data). cbn [mbind outcome_bind].
    rewrite multi_values_list by done. cbn [mbind outcome_bind]. rewrite set_list_all, conf_add_eq, Hnew. by eexists.
Qed.

(** ** Restoring *)

(** What the listing of a section says is in [m], and is not yet in [mc]. *)
Definition pending (m mc : cmap) (s : string) (p : string * (Z * list ascii)) : Prop :=
  exists v, m !! (s, p.1) = Some v /\ storable v /\ p.2 = encode v /\ mc !! (s, p.1) = None.

(** [mc'] has the keys of [mc] and those of [added]. *)
Definition extends (m mc mc' : cmap) (added : string -> string -> Prop) : Prop :=
  mc' ⊆ m /\ forall s k, is_Some (mc' !! (s, k)) <-> is_Some (mc !! (s, k)) \/ added s k.

Lemma reg_values_ok m s l : forall z conf mc,
  conf_rep conf mc -> mc ⊆ m -> NoDup l.*1 -> Forall (pending m mc s) l ->
  exists conf' mc', reg_values (Some s) ((fun p => Some (p.1, p.2.1, Some p.2.2)) <$> l) z conf = Ok (0, conf') /\
    conf_rep conf' mc' /\ extends m mc mc' (fun s' k => s' = s /\ k ∈ l.*1).
Proof.
  induction l as [|[k e] l IH]; intros z conf mc Hrep Hsub Hnd Hl.
  - exists conf, mc. do 3 (split; [done|]). intros s' k'. split; [by left|]. intros [?|[_ ?%elem_of_nil]]; done.
  - cbn [fmap list_fmap] in Hnd. apply list.NoDup_cons in Hnd as [Hk Hnd].
    apply list.Forall_cons in Hl as [(v & Hm & Hv & He & Hmc) Hl]. cbn [fst snd] in *. subst e.
    destruct (add_encoded s k v z conf) as [z' E]; [done|by rewrite (Hrep s k)|].
    destruct (IH z' (add_entry conf s k v) (<[(s, k) := v]> mc)) as (conf' & mc' & E' & Hrep' & Hsub' & Hdom).
    + by apply add_entry_rep.
    + by apply insert_subseteq_l.
    + done.
    + apply list.Forall_forall. intros [k' e'] Hin. destruct (proj1 (list.Forall_forall _ _) Hl _ Hin) as (v' & Hm' & Hv' & He' & Hmc').
      exists v'. split_and!; try done. rewrite lookup_insert_ne; [done|]. intros [= ->]. apply Hk. cbn [fst].
      apply list_elem_of_fmap. by exists (k', e').
    + exists conf', mc'. split; [|split; [done|split; [done|]]].
      * cbn [fmap list_fmap reg_values fst snd]. rewrite E. cbn [mbind outcome_bind fst snd]. done.
      * intros s' k'. rewrite Hdom, fmap_cons, elem_of_cons. cbn [fst]. destruct (decide ((s', k') = (s, k))) as [[= -> ->]|Hne].
        -- rewrite lookup_insert_eq. split; [by right; auto|left; by eexists].
        -- rewrite lookup_insert_ne by congruence. split; [intros [?|[? ?]]; auto|].
           intros [?|[-> [->|?]]]; [by left|by destruct Hne|by right].
Qed.

Lemma walk_sections_ok m l : forall conf mc,
  conf_rep conf mc -> mc ⊆ m -> NoDup l.*1 -> Forall (fun p => NoDup p.2.*1 /\ Forall (pending m mc p.1) p.2) l ->
  exists conf' mc', walk_subkeys (sections_tree l) conf = Ok (0, conf') /\
    conf_rep conf' mc' /\ extends m mc mc' (fun s k => exists values, (s, values) ∈ l /\ k ∈ values.*1).
Proof.
  induction l as [|[s values] l IH]; intros conf mc Hrep Hsub Hnd Hl.
  - exists conf, mc. do 3 (split; [done|]). intros s' k'. split; [by left|]. intros [?|(v & ?%elem_of_nil & _)]; done.
  - cbn [fmap list_fmap] in Hnd. apply list.NoDup_cons in Hnd as [Hs Hnd].
    apply list.Forall_cons in Hl as [[Hv Hp] Hl]. cbn [fst snd] in *.
    destruct (reg_values_ok m s values 0 conf mc) as (conf1 & mc1 & E1 & Hrep1 & Hsub1 & Hdom1); [done..|].
    destruct (IH conf1 mc1) as (conf' & mc' & E' & Hrep' & Hsub' & Hdom'); [done..| |].
    + apply list.Forall_forall. intros [s' values'] Hin.
      destruct (proj1 (list.Forall_forall _ _) Hl _ Hin) as [Hv' Hp']. split; [done|].
      apply list.Forall_forall. intros [k e] Hk. destruct (proj1 (list.Forall_forall _ _) Hp' _ Hk) as (v & Hm & Hst & He & Hmc).
      exists v. split_and!; try done. apply eq_None_not_Some. cbn [fst] in *. rewrite (Hdom1 s' k). intros [[? ?]|[-> _]]; [congruence|].
      apply Hs, list_elem_of_fmap. by exists (s, values').
    + exists conf', mc'. split; [|split; [done|split; [done|]]].
      * cbn [sections_tree walk_subkeys values_tree registry_walker]. fold walk_subkeys. rewrite E1. cbn [mbind outcome_bind fst snd].
        change (0 =? 0) with true. cbn iota. done.
      * intros s' k'. rewrite Hdom', Hdom1. split.
        -- intros [[?|[-> ?]]|(vs & ? & ?)]; [by left|right; exists values; split; [by left|done]|right; exists vs; split; [by right|done]].
        -- intros [?|(vs & [[= -> ->]|?]%elem_of_cons & ?)]; [by left; left|by left; right|right; by exists vs].
Qed.

Lemma walk_restores m l :
  lists l (encode <$> m) -> map_Forall (fun _ v => storable v) m ->
  exists conf', walk_subkeys (sections_tree l) a6o_conf_new = Ok (0, conf') /\ conf_rep conf' m.
Proof.
  intros [Hsec Hnames Hst] Hm.
  destruct (walk_sections_ok m l a6o_conf_new ∅) as (conf' & mc' & E & Hrep & Hsub & Hdom).
  - by intros s k; rewrite lookup_empty.
  - apply map_empty_subseteq.
  - done.
  - apply list.Forall_forall. intros [s values] Hin. split; [by apply (proj1 (list.Forall_forall _ _) Hnames _ Hin)|].
    apply list.Forall_forall. intros [k e] Hk. assert ((encode <$> m) !! (s, k) = Some e) as He by (apply Hst; eauto).
    rewrite lookup_fmap in He. destruct (m !! (s, k)) as [v|] eqn:Ev; [|done]. injection He as <-.
    exists v. split_and!; [done|by apply (Hm (s, k))|done|apply lookup_empty].
  - exists conf'. split; [done|]. assert (mc' = m) as <-; [|done]. apply (anti_symm (⊆)); [done|].
    apply map_subseteq_spec. intros [s k] v Hv.
    assert (is_Some (mc' !! (s, k))) as [v' Hv'].
    { apply Hdom. right. destruct (proj1 (Hst s k (encode v))) as (values & Hin & Hk); [by rewrite lookup_fmap, Hv|].
      exists values. split; [done|]. apply list_elem_of_fmap. by exists (k, encode v). }
    rewrite Hv'. f_equal. pose proof (lookup_weaken _ _ _ _ Hv' Hsub). congruence.
Qed.

(** ** Saving *)

(** The settings in the order of the store. *)
Definition entries (conf : a6o_conf) : list (string * string * a6o_conf_value) :=
  sections conf ≫= fun sec => (fun ke => (s_section sec, k_key ke, k_value ke)) <$> s_keys sec.

Lemma apply_entries {U} conf (f : string -> string -> a6o_conf_value -> U -> U) u :
  a6o_conf_apply conf f u = fold_left (fun u e => f e.1.1 e.1.2 e.2 u) (entries conf) u.
Proof.
  unfold a6o_conf_apply, entries. generalize u. induction (sections conf) as [|sec l IH]; intros u'; [done|].
  rewrite bind_cons. cbn [fold_left]. rewrite fold_left_app, IH. f_equal.
  generalize u'. induction (s_keys sec) as [|ke keys IHk]; intros u''; [done|]. rewrite fmap_cons. cbn [fold_left fst snd]. apply IHk.
Qed.

Lemma entries_value conf s k v : conf_ok conf -> (s, k, v) ∈ entries conf <-> key_value conf s k = Some v.
Proof.
  intros [Hs Hk]. rewrite key_value_named. unfold entries. rewrite list_elem_of_bind. split.
  - intros (sec & (ke & [= -> -> ->] & Hke)%list_elem_of_fmap & Hsec). unfold section_named.
    rewrite (first_named_Some s_section (sections conf) sec) by done. cbn [mbind option_bind]. unfold key_named.
    rewrite (first_named_Some k_key (s_keys sec) ke); [done| |done]. by apply (proj1 (list.Forall_forall _ _) Hk).
  - intros Hv. destruct (section_named conf s) as [sec|] eqn:Es; [|done]. cbn [mbind option_bind] in Hv.
    destruct (key_named sec k) as [ke|] eqn:Ek; [|done]. injection Hv as <-.
    apply first_named_elem in Es as [Hin <-]. apply first_named_elem in Ek as [Hin' <-].
    exists sec. split; [|done]. apply list_elem_of_fmap. by exists ke.
Qed.

Section save.
Context {R : Type} (reg : registry R) (plain : string -> Prop) (holds : R -> rmap -> Prop).
Hypothesis laws : registry_laws reg plain holds.

(** The handle is that of the previous section. *)
Definition handle_ok (data : conf_reg_data (R := R)) : Prop := forall s, prev_section data = Some s -> hSectionKey data = Some s.

Lemma write_entry_ok s k v data m :
  holds (d_registry data) m -> handle_ok data -> plain s -> plain k -> storable v ->
  exists r', holds r' (<[(s, k) := encode v]> m) /\
    write_entry_in_registry reg s k v data = {| d_registry := r'; hSectionKey := Some s; prev_section := Some s |}.
Proof.
  intros Hr Hh Hs Hk Hv. unfold write_entry_in_registry. case_bool_decide as Hp.
  - unfold set_reg_value. rewrite reg_data_storable, (Hh s), Hp by done.
    destruct (set_law reg plain holds laws _ m s k (encode v).1 (encode v).2 Hr) as (r' & -> & Hr'); [done|done|by apply encode_ok|].
    exists r'. split; [by destruct (encode v)|done].
  - destruct (create_law reg plain holds laws _ m s Hr Hs) as (r1 & -> & Hr1).
    unfold set_reg_value. rewrite reg_data_storable by done. cbn [hSectionKey d_registry prev_section].
    destruct (set_law reg plain holds laws _ m s k (encode v).1 (encode v).2 Hr1) as (r' & -> & Hr'); [done|done|by apply encode_ok|].
    exists r'. split; [by destruct (encode v)|done].
Qed.

(** A setting with names and a value that the registry keeps. *)
Definition keepable (e : string * string * a6o_conf_value) : Prop := plain e.1.1 /\ plain e.1.2 /\ storable e.2.

Lemma save_entries es : forall data m,
  holds (d_registry data) m -> handle_ok data -> Forall keepable es ->
  holds (d_registry (fold_left (fun u e => write_entry_in_registry reg e.1.1 e.1.2 e.2 u) es data))
    (fold_left (fun m e => <[e.1 := encode e.2]> m) es m).
Proof.
  induction es as [|[[s k] v] es IH]; intros data m Hr Hh Hes; [done|].
  apply list.Forall_cons in Hes as [(Hs & Hk & Hv) Hes]. cbn [fst snd] in *.
  destruct (write_entry_ok s k v data m) as (r' & Hr' & E); [done..|]. cbn [fold_left fst snd]. rewrite E. apply IH; [done| |done].
  by intros s' [= ->].
Qed.

End save.

Definition insert_entries (es : list (string * string * a6o_conf_value)) (m : cmap) : cmap :=
  fold_left (fun m e => <[e.1 := e.2]> m) es m.

Lemma encode_entries es m :
  fold_left (fun (m : rmap) e => <[e.1 := encode e.2]> m) es (encode <$> m) = encode <$> insert_entries es m.
Proof. revert m. induction es as [|e es IH]; intros m; [done|]. cbn [fold_left]. by rewrite <- fmap_insert, IH. Qed.

Lemma lookup_entries es f m x :
  (forall e, e ∈ es -> f e.1 = Some e.2) -> insert_entries es m !! x = if decide (x ∈ es.*1) then f x else m !! x.
Proof.
  revert m. induction es as [|e es IH]; intros m Hes.
  - rewrite decide_False by apply not_elem_of_nil. done.
  - unfold insert_entries in *. cbn [fold_left]. rewrite IH by (intros e' He'; apply Hes; by right). rewrite fmap_cons.
    destruct (decide (x ∈ es.*1)) as [Hx|Hx]; [by rewrite decide_True by by right|].
    destruct (decide (x = e.1)) as [->|Hne].
    + rewrite lookup_insert_eq, decide_True by by left. symmetry. apply Hes. by left.
    + rewrite lookup_insert_ne by done. rewrite decide_False; [done|]. by intros [?|?]%elem_of_cons.
Qed.

Lemma lookup_conf conf m s k : conf_ok conf ->
  insert_entries (entries conf) m !! (s, k) = match key_value conf s k with Some v => Some v | None => m !! (s, k) end.
Proof.
  intros Hok. rewrite (lookup_entries _ (fun x => key_value conf x.1 x.2)).
  - case_decide as Hin; cbn [fst snd].
    + apply list_elem_of_fmap in Hin as ([[s' k'] v] & [= -> ->] & Hin). apply entries_value in Hin as ->; done.
    + destruct (key_value conf s k) as [v|] eqn:E; [|done]. destruct Hin. apply list_elem_of_fmap. exists (s, k, v).
      split; [done|]. by apply entries_value.
  - intros [[s' k'] v] Hin. by apply entries_value in Hin.
Qed.

(** *** A configuration saved in the registry is restored *)

(** C27: Whatever the registry, when it holds settings it can give back, and the
    configuration has names the registry keeps apart and values it stores whole
    (integers, strings below 512 bytes, lists of non-empty strings of at most 260
    bytes), saving the configuration there succeeds, and restoring from there into an
    empty configuration succeeds and gives every setting of the configuration its
    value; the settings the configuration has not are those that were there. *)
Theorem registry_roundtrip {R} (reg : registry R) (plain : string -> Prop) (holds : R -> rmap -> Prop)
    (conf : a6o_conf) (m0 : cmap) (r : R) :
  registry_laws reg plain holds -> holds r (encode <$> m0) -> map_Forall (fun _ v => storable v) m0 ->
  conf_ok conf -> Forall (keepable plain) (entries conf) ->
  exists r' conf', save_conf_in_registry reg (Some conf) true r = (0, r') /\
    restore_conf_from_registry reg (Some a6o_conf_new) true r' = Ok (0, Some conf') /\
    forall s k, key_value conf' s k = match key_value conf s k with Some v => Some v | None => m0 !! (s, k) end.
Proof.
  intros Hlaws Hr Hm0 Hok Hkeep.
  pose proof (save_entries reg plain holds Hlaws (entries conf) {| d_registry := r; hSectionKey := None; prev_section := None |}
    (encode <$> m0) Hr ltac:(intros s Hs; discriminate Hs) Hkeep) as Hsaved.
  rewrite encode_entries, <- (apply_entries conf (write_entry_in_registry reg)) in Hsaved.
  set (m := insert_entries (entries conf) m0) in *. set (d := a6o_conf_apply _ _ _) in *.
  destruct (walk_law reg plain holds Hlaws _ _ Hsaved) as (l & Hl & Hwalk).
  assert (map_Forall (fun _ v => storable v) m) as Hm.
  { intros [s k] v Hv. unfold m in Hv. rewrite lookup_conf in Hv by done.
    destruct (key_value conf s k) as [v'|] eqn:E; [|by apply (Hm0 (s, k))]. injection Hv as ->.
    apply entries_value in E; [|done]. by apply (proj1 (list.Forall_forall _ _) Hkeep _ E). }
  destruct (walk_restores m l Hl Hm) as (conf' & E & Hrep).
  exists (d_registry d), conf'. split; [done|]. split.
  - cbn [restore_conf_from_registry negb]. rewrite Hwalk. cbn [registry_walker reg_values mbind outcome_bind fst snd].
    change (0 =? 0) with true. cbn iota. fold walk_subkeys. by rewrite E.
  - intros s k. by rewrite (Hrep s k), <- lookup_conf.
Qed.

(** ** A registry *)

(** Keys with values, kept by name. *)
Abbreviation keys := (gmap string (gmap string (Z * list ascii))).

Definition listing (r : keys) : reg_listing := (fun p => (p.1, map_to_list p.2)) <$> map_to_list r.

Definition sample_registry : registry keys :=
  {| reg_create_key := fun s r => Some (<[s := default ∅ (r !! s)]> r);
     reg_set_value := fun s k ty data r => v ← data; Some (<[s := <[k := (ty, v)]> (default ∅ (r !! s))]> r);
     reg_walk := fun r => RegKey [] (sections_tree (listing r)) |}.

Definition sample_holds (r : keys) (m : rmap) : Prop := forall s k, m !! (s, k) = (l ← r !! s; l !! k).

Lemma listing_ok r m : sample_holds r m -> lists (listing r) m.
Proof.
  intros Hr. split.
  - unfold listing. rewrite <- list_fmap_compose. apply (NoDup_fst_map_to_list r).
  - apply list.Forall_forall. intros p ([s l] & -> & _)%list_elem_of_fmap. apply NoDup_fst_map_to_list.
  - intros s k v. rewrite (Hr s k). split.
    + intros E. destruct (r !! s) as [l|] eqn:Es; [|done]. exists (map_to_list l). split; [|by apply elem_of_map_to_list].
      apply list_elem_of_fmap. exists (s, l). split; [done|]. by apply elem_of_map_to_list.
    + intros (values & ([s' l] & [= <- ->] & Hs%elem_of_map_to_list)%list_elem_of_fmap & Hk). cbn [snd] in Hk.
      apply elem_of_map_to_list in Hk. by rewrite Hs.
Qed.

Lemma sample_registry_laws : registry_laws sample_registry (fun _ => True) sample_holds.
Proof.
  split.
  - intros r m s Hr _. eexists. split; [reflexivity|]. intros s' k'. rewrite (Hr s' k').
    destruct (decide (s' = s)) as [->|Hs].
    + rewrite lookup_insert_eq. cbn [mbind option_bind]. by destruct (r !! s).
    + by rewrite lookup_insert_ne.
  - intros r m s k ty data Hr _ _ _. eexists. split; [reflexivity|]. intros s' k'.
    destruct (decide (s' = s)) as [->|Hs].
    + rewrite lookup_insert_eq. cbn [mbind option_bind]. destruct (decide (k' = k)) as [->|Hk].
      * by rewrite !lookup_insert_eq.
      * rewrite !lookup_insert_ne by congruence. rewrite (Hr s k'). by destruct (r !! s).
    + rewrite !lookup_insert_ne by congruence. apply Hr.
  - intros r m Hr. exists (listing r). split; [by apply listing_ok|done].
Qed.

Lemma registry_roundtrip_witness :
  exists r' conf', save_conf_in_registry sample_registry (Some sample_conf) true ∅ = (0, r') /\
    restore_conf_from_registry sample_registry (Some a6o_conf_new) true r' = Ok (0, Some conf') /\
    forall s k, key_value conf' s k = match key_value sample_conf s k with Some v => Some v | None => (∅ : cmap) !! (s, k) end.
Proof.
  apply (registry_roundtrip sample_registry (fun _ => True) sample_holds sample_conf ∅ ∅).
  - apply sample_registry_laws.
  - intros s k. rewrite fmap_empty, !lookup_empty. reflexivity.
  - apply map_Forall_empty.
  - split; [refine (bool_decide_unpack _ _); vm_compute; exact I|].
    repeat constructor; try discriminate; refine (bool_decide_unpack _ _); vm_compute; exact I.
  - repeat constructor; try exact I; try discriminate; try (cbn; lia); try (cbn; unfold MAX_PATH, MAX_LEN; lia);
      refine (bool_decide_unpack _ _); vm_compute; exact I.
Defined.

(** ** What is not restored *)

(** A string of [MAX_LEN] bytes or more is stored without a NUL. *)
Theorem long_string_unterminated (s : string) :
  ("000"%char ∉ bytes s) -> (MAX_LEN < String.length s)%nat -> "000"%char ∉ string_data s.
Proof.
  intros Hs Hl Hin. apply Hs. unfold string_data in Hin. rewrite Nat.min_l in Hin by lia.
  rewrite take_app_le in Hin by (rewrite length_bytes; lia). apply list_elem_of_lookup in Hin as (i & Hi).
  apply lookup_take_Some in Hi as [Hi _]. by apply list_elem_of_lookup_2 in Hi.
Qed.

Lemma strnlen_cut s l n : ("000"%char ∉ bytes s) -> (n <= String.length s)%nat -> strnlen n (bytes s ++ l) = n.
Proof.
  revert n. induction s as [|c s IH]; intros n Hs Hn; cbn in Hs, Hn; [by destruct n; [|lia]|]. apply not_elem_of_cons in Hs as [Hc Hs].
  destruct n as [|n]; [done|]. cbn. rewrite bool_decide_eq_false_2 by (by intros ->). by rewrite IH by (done || lia).
Qed.

Lemma multi_strings_first fuel l r :
  head l <> Some "000"%char -> multi_strings fuel l = Ok r -> exists r', r = take (strnlen MAX_PATH l + 1) l :: r'.
Proof.
  destruct l as [|c l]; intros Hc E; [by destruct fuel|]. destruct fuel as [|fuel]; cbn [multi_strings] in E.
  - by rewrite bool_decide_eq_false_2 in E by (by intros ->).
  - rewrite bool_decide_eq_false_2 in E by (by intros ->). apply bind_Ok_inv in E as (r' & _ & [= <-]). by exists r'.
Qed.

(** An element of a list longer than [MAX_PATH] is cut without a NUL when it is
    restored, and copied from there. *)
Theorem long_element_overread (section name s : string) (conf : a6o_conf) (z : Z) :
  ("000"%char ∉ bytes s) -> (MAX_PATH < String.length s <= MAX_LEN)%nat -> key_value conf section name = None ->
  exists f, add_reg_value (Some section) name REG_MULTI_SZ (list_data [s]) z conf = Fault f.
Proof.
  intros Hs Hl Hnew. unfold add_reg_value. change (REG_MULTI_SZ =? REG_DWORD) with false.
  change (REG_MULTI_SZ =? REG_SZ) with false. change (REG_MULTI_SZ =? REG_MULTI_SZ) with true. cbn iota.
  destruct (multi_strings _ _) as [l|f] eqn:E; [|by eexists]. cbn [mbind outcome_bind]. rewrite conf_add_eq, Hnew.
  enough (exists f, multi_values l = Fault f) as (f & ->) by by exists f.
  assert (exists l', l = take (MAX_PATH + 1) (bytes s) :: l') as (l' & ->).
  { unfold list_data in E. cbn [fmap list_fmap concat] in E. rewrite string_data_whole, app_nil_r, <- !app_assoc in E by lia.
    apply multi_strings_first in E as (l' & ->); [|by destruct s as [|c s]; [cbn in Hl; lia|intros [= ->]; apply Hs; left]].
    exists l'. rewrite strnlen_cut by (done || lia). by rewrite take_app_le by (rewrite length_bytes; lia). }
  exists OutOfBounds. cbn [multi_values]. unfold multi_string. rewrite bool_decide_eq_false_2; [done|].
  intros Hin. apply Hs. apply list_elem_of_lookup in Hin as (i & Hi). apply lookup_take_Some in Hi as [Hi _].
  by apply list_elem_of_lookup_2 in Hi.
Qed.
