(* ===== verification/WinQuarantine.v ===== *)
(** * The quarantine module on Windows
    ([src/libcore/arch/windows/builtin-modules/quarantine/quarantine.c])

    The file system is a map from paths to contents, and the set of its directories;
    names are compared as they are written.  On Windows [a6o_log] does not abort after a
    message of level ERROR, so that the functions return their error codes; a NULL pointer
    is [None].  A function of the C library that is given too small a buffer ends the
    process ([Fault Aborted]). *)
From S2P Require Import Prelude Status ConfVal Conf Module Quarantine.

#[local] Open Scope string_scope.
#[local] Open Scope Z_scope.

Definition MAX_PATH : nat := 260.
Definition ALERT_DIR : string := "Alerts".

Record system_time := SystemTime { wYear : Z; wMonth : Z; wDay : Z; wHour : Z; wMinute : Z; wSecond : Z }.

(** The path of the program, the time of each of the three questions to the clock, and
    whether the other calls succeed. *)
Record win_env := WinEnv {
  env_module : option string;
  env_time : nat -> system_time;
  env_mkdir : bool;
  env_move : bool;
  env_create : bool;
  env_write : bool;
  env_copy : bool;
}.

Record win_fs := WinFs { files : gmap string (list ascii); dirs : gset string }.

Definition with_file (path : string) (content : list ascii) (fs : win_fs) : win_fs :=
  {| files := <[path := content]> (files fs); dirs := dirs fs |}.

(** ** Paths *)

(** [strnlen_s(s, MAX_PATH)] bytes of a string. *)
Definition prefix_max (s : string) : string := String.substring 0 MAX_PATH s.

(** [strrchr(s, '\')]: what is before the last backslash, and the rest with it. *)
Fixpoint last_backslash (s : string) : option (string * string) :=
  match s with
  | EmptyString => None
  | String c t =>
      match last_backslash t with
      | Some (dir, name) => Some (String c dir, name)
      | None => if bool_decide (c = "\"%char) then Some (EmptyString, s) else None
      end
  end.

(** [strncat_s] to the string of a buffer of [size] bytes. *)
Definition strncat_s (size : Z) (buf s : string) : outcome string :=
  if Z.of_nat (String.length buf + String.length s) <? size then Ok (buf +:+ s) else Fault Aborted.

Definition GetLocationCompletepath (env : win_env) (specialDir : string) : outcome (option string) :=
  match env_module env ≫= last_backslash with
  | None => Ok None
  | Some (dirpath, _) =>
      let len := Z.of_nat (String.length dirpath + String.length (prefix_max specialDir) + 2) in
      p ← strncat_s len "" dirpath;
      p ← strncat_s len p "\";
      p ← strncat_s len p (prefix_max specialDir);
      Ok (Some p)
  end.

(** [%0nd]. *)
Definition pad (n : nat) (z : Z) : string :=
  let s := of_bytes (print_int z) in of_bytes (replicate (n - String.length s) "0"%char) +:+ s.

Definition GetTimestampString (st : system_time) : outcome string :=
  let s := pad 4 (wYear st) +:+ pad 2 (wMonth st) +:+ pad 2 (wDay st) +:+ pad 2 (wHour st) +:+ pad 2 (wMinute st) +:+ pad 2 (wSecond st) in
  if (String.length s <? 15)%nat then Ok s else Fault Aborted.

Definition BuildLocationFilePath (env : win_env) (now : nat) (filepath specialDir : option string) : outcome (option string) :=
  match filepath, specialDir with
  | Some filepath, Some specialDir =>
      location_dir ← GetLocationCompletepath env specialDir;
      match location_dir, last_backslash filepath with
      | Some location_dir, Some (_, filename) =>
          timestamp ← GetTimestampString (env_time env now);
          let len := Z.of_nat (String.length (prefix_max location_dir) + String.length (prefix_max filepath) +
                               String.length (prefix_max timestamp) + 3) in
          q ← strncat_s len "" (prefix_max location_dir);
          q ← strncat_s len q (prefix_max filename);
          q ← strncat_s len q "_";
          q ← strncat_s len q (prefix_max timestamp);
          Ok (Some q)
      | _, _ => Ok None
      end
  | _, _ => Ok None
  end.

Definition GetFilenameFromPath (path : option string) : option string :=
  p ← path; d ← last_backslash p; Some d.2.

Definition info_file (path : string) : outcome string :=
  let len := Z.of_nat (String.length (prefix_max path) + String.length ".info" + 1) in
  p ← strncat_s len "" (prefix_max path); strncat_s len p ".info".

(** ** The description, and the quarantine *)

(** The error codes of [quarantine_do]. *)
Definition QU_BAD_PATH : Z := -1.
Definition QU_NO_PATH : Z := -2.
Definition QU_NO_DIRECTORY : Z := -3.
Definition QU_NOT_MOVED : Z := -4.
Definition QU_NOT_DESCRIBED : Z := -5.

Section quarantine.
(** [json_object_to_json_string] of an object with string fields. *)
Variable to_json : list (string * string) -> list ascii.

Definition info_fields (date fname path : string) (report : option a6o_report) : list (string * string) :=
  [("date", date); ("fname", fname); ("path", path);
   ("module", match report with Some r => default "black_list" (r_module_name r) | None => "black_list" end);
   ("desc", match report with Some r => default "uh_malware" (r_module_report r) | None => "uh_malware" end)].

(** [strnlen(content, 2048)] bytes are written; json-c makes a text of every object.  A file
    that was opened and not written is empty, and a copy that fails changes nothing. *)
Definition WriteQuarantineInfoFile (env : win_env) (oldfilepath quarantinePath : option string) (report : option a6o_report) (fs : win_fs)
    : outcome (Z * win_fs) :=
  match oldfilepath, quarantinePath with
  | Some old, Some q =>
      info_path ← info_file q;
      alert_tmp ← BuildLocationFilePath env 1 oldfilepath (Some ALERT_DIR);
      alert_path ← info_file (default "" alert_tmp);
      timestamp ← GetTimestampString (env_time env 2);
      match GetFilenameFromPath quarantinePath with
      | None => Fault NullDeref
      | Some fname =>
          if negb (env_create env) then Ok (-3, fs)
          else if negb (env_write env) then Ok (-3, with_file info_path [] fs)
          else
            let content := take 2048 (to_json (info_fields timestamp fname old report)) in
            let fs := with_file info_path content fs in
            if env_copy env && bool_decide (alert_path ∉ dom (files fs)) then Ok (0, with_file alert_path content fs)
            else Ok (0, fs)
      end
  | _, _ => Ok (-1, fs)
  end.

Definition CreateAvDirectory (env : win_env) (dir : option string) (fs : win_fs) : outcome (Z * win_fs) :=
  match dir with
  | None => Ok (-1, fs)
  | Some dir =>
      completePath ← GetLocationCompletepath env dir;
      match completePath with
      | None => Ok (-2, fs)
      | Some completePath =>
          if bool_decide (completePath ∈ dirs fs) || bool_decide (completePath ∈ dom (files fs)) then Ok (1, fs)
          else if negb (env_mkdir env) then Ok (-3, fs)
          else Ok (0, {| files := files fs; dirs := {[completePath]} ∪ dirs fs |})
      end
  end.

(** [MoveFileEx] with [MOVEFILE_REPLACE_EXISTING]. *)
Definition move_file (env : win_env) (old new : string) (fs : win_fs) : option win_fs :=
  content ← files fs !! old;
  if env_move env then Some {| files := <[new := content]> (delete old (files fs)); dirs := dirs fs |} else None.

Definition win_quarantine_do (qu_data : quarantine_data) (env : win_env) (path : option string) (report : option a6o_report) (fs : win_fs)
    : outcome (Z * win_fs) :=
  match path with
  | None => Ok (QU_BAD_PATH, fs)
  | Some p =>
      quarantineFilepath ← BuildLocationFilePath env 0 path (quarantine_dir qu_data);
      match quarantineFilepath with
      | None => Ok (QU_NO_PATH, fs)
      | Some q =>
          r ← CreateAvDirectory env (quarantine_dir qu_data) fs;
          if r.1 <? 0 then Ok (QU_NO_DIRECTORY, r.2)
          else
            match move_file env p q r.2 with
            | None => Ok (QU_NOT_MOVED, r.2)
            | Some fs =>
                w ← WriteQuarantineInfoFile env path (Some q) report fs;
                Ok (if w.1 =? 0 then 0 else QU_NOT_DESCRIBED, w.2)
            end
      end
  end.

Definition win_quarantine_callback (qu_data : quarantine_data) (env : win_env) (report : a6o_report) (fs : win_fs)
    : outcome (a6o_report * win_fs) :=
  if enable qu_data =? 0 then Ok (report, fs)
  else if bool_decide (r_status report <> A6O_FILE_MALWARE) then Ok (report, fs)
  else
    r ← win_quarantine_do qu_data env (r_path report) (Some report) fs;
    Ok (if r.1 =? 0 then with_action report (Z.lor (r_action report) A6O_ACTION_QUARANTINE) else report, r.2).

End quarantine.

Definition win_quarantine_conf_table {W} `{HasQuarantine W} : list (a6o_conf_entry W) :=
  [{| ce_key := "enable"; ce_type := a6o_conf_value_type_val CONF_TYPE_INT; ce_conf_fun := Some quarantine_conf_enable |};
   {| ce_key := "quarantine-dir"; ce_type := a6o_conf_value_type_val CONF_TYPE_STRING; ce_conf_fun := Some quarantine_conf_quarantine_dir |}].

(** ** The paths *)

Lemma prefix_length s : (String.length (prefix_max s) <= String.length s)%nat.
Proof.
  unfold prefix_max. generalize MAX_PATH. induction s as [|c s IH]; intros [|n]; cbn; [lia..|].
  specialize (IH n). lia.
Qed.

Lemma prefix_whole s : (String.length s <= MAX_PATH)%nat -> prefix_max s = s.
Proof.
  unfold prefix_max. generalize MAX_PATH. induction s as [|c s IH]; intros n Hn; [by destruct n|].
  destruct n as [|n]; cbn in *; [lia|]. by rewrite IH by lia.
Qed.

Lemma strncat_fits size buf s : Z.of_nat (String.length buf + String.length s) < size -> strncat_s size buf s = Ok (buf +:+ s).
Proof. intros Hl. unfold strncat_s. by rewrite (proj2 (Z.ltb_lt _ _)). Qed.

Lemma backslash_split s dir name : last_backslash s = Some (dir, name) -> s = dir +:+ name.
Proof.
  revert dir. induction s as [|c s IH]; intros dir E; cbn in E; [done|].
  destruct (last_backslash s) as [[dir' name']|].
  - injection E as <- <-. by rewrite (IH dir' eq_refl).
  - case_bool_decide; [by injection E as <- <-|done].
Qed.

Lemma location_path env m dir name specialDir :
  env_module env = Some m -> last_backslash m = Some (dir, name) ->
  GetLocationCompletepath env specialDir = Ok (Some (dir +:+ "\" +:+ prefix_max specialDir)).
Proof.
  intros Hm Hd. unfold GetLocationCompletepath. rewrite Hm. cbn [mbind option_bind]. rewrite Hd. rewrite strncat_fits by (cbn;
    lia). cbn [mbind outcome_bind].
  rewrite strncat_fits by (rewrite string_length_app; cbn; lia). cbn [mbind outcome_bind].
  rewrite strncat_fits by (rewrite !string_length_app; cbn; lia). by rewrite <- string_app_assoc.
Qed.

(** The buffer of a path is always large enough. *)
Lemma built_path env now m dir name special filepath d filename ts :
  env_module env = Some m -> last_backslash m = Some (dir, name) -> last_backslash filepath = Some (d, filename) ->
  (String.length filepath <= MAX_PATH)%nat -> GetTimestampString (env_time env now) = Ok ts ->
  BuildLocationFilePath env now (Some filepath) (Some special) =
  Ok (Some (prefix_max (dir +:+ "\" +:+ prefix_max special) +:+ filename +:+ "_" +:+ ts)).
Proof.
  intros Hm Hd Hf Hlen Ht. unfold BuildLocationFilePath. rewrite (location_path env m dir name) by done. cbn [mbind outcome_bind].
  rewrite Hf, Ht. cbn [mbind outcome_bind]. set (loc := prefix_max (dir +:+ "\" +:+ prefix_max special)).
  pose proof (backslash_split _ _ _ Hf) as Ef. apply (f_equal String.length) in Ef as El. rewrite string_length_app in El.
  assert (String.length ts < 15)%nat as Hts by (unfold GetTimestampString in Ht; case_match eqn:E; [|done]; injection Ht as <-; by apply Nat.ltb_lt).
  rewrite (prefix_whole filepath), (prefix_whole filename), (prefix_whole ts) by (unfold MAX_PATH in *; lia).
  rewrite strncat_fits by (cbn; lia). cbn [mbind outcome_bind].
  rewrite strncat_fits by (rewrite string_length_app; cbn; lia). cbn [mbind outcome_bind].
  rewrite strncat_fits by (rewrite !string_length_app; cbn; lia). cbn [mbind outcome_bind].
  rewrite strncat_fits by (rewrite !string_length_app; cbn; lia). by rewrite <- !string_app_assoc.
Qed.

Lemma info_file_path q : (String.length q <= MAX_PATH)%nat -> info_file q = Ok (q +:+ ".info").
Proof.
  intros Hq. unfold info_file. rewrite prefix_whole by done. rewrite strncat_fits by (cbn; lia). cbn [mbind outcome_bind].
  by rewrite strncat_fits by (rewrite string_length_app; cbn; lia).
Qed.

(** A path ends with the last digit of the time, a description with an [o]. *)
Lemma dec_app fuel n acc : dec fuel n acc = (dec fuel n [] ++ acc)%list.
Proof.
  revert n acc. induction fuel as [|fuel IH]; intros n acc; [done|]. cbn [dec]. destruct (n <? 10); [done|].
  rewrite IH, (IH _ [_]). by rewrite <- app_assoc.
Qed.

Lemma print_int_last z : exists l d, print_int z = (l ++ [digit_char (d mod 10)])%list.
Proof.
  assert (forall n, exists l, dec 10 n [] = (l ++ [digit_char (n mod 10)])%list) as H.
  { intros n. change (dec 10 n []) with (if n <? 10 then [digit_char (n mod 10)] else dec 9 (n / 10) [digit_char (n mod 10)]).
    destruct (n <? 10); [by exists []|]. rewrite dec_app. by eexists. }
  unfold print_int. destruct (z <? 0).
  - destruct (H (- z)) as (l & ->). by exists ("-"%char :: l), (- z).
  - destruct (H z) as (l & ->). by exists l, z.
Qed.

Lemma timestamp_last st ts : GetTimestampString st = Ok ts -> exists l d, bytes ts = (l ++ [digit_char (d mod 10)])%list.
Proof.
  unfold GetTimestampString. case_match; [|done]. intros [= <-].
  destruct (print_int_last (wSecond st)) as (l & d & E).
  unfold pad at 6. rewrite !bytes_app, !bytes_of_bytes, E, !app_assoc. by eexists _, d.
Qed.

Lemma path_not_info st ts x y : GetTimestampString st = Ok ts -> x +:+ ts <> y +:+ ".info".
Proof.
  intros (l & d & E)%timestamp_last H%(f_equal bytes). rewrite !bytes_app, E in H.
  change (bytes ".info") with ([".";"i";"n";"f"]%char ++ ["o"%char])%list in H. rewrite !app_assoc in H.
  apply app_inj_tail in H as [_ H]. pose proof (Z.mod_pos_bound d 10 ltac:(lia)) as Hd. revert H.
  generalize (d mod 10), Hd. clear. intros x Hx H. apply (f_equal N_of_ascii) in H. unfold digit_char in H.
  rewrite N_ascii_embedding in H by lia. change (N_of_ascii "o"%char) with 111%N in H. lia.
Qed.

Lemma last_backslash_some s : is_Some (last_backslash s) <-> "\"%char ∈ bytes s.
Proof.
  induction s as [|c s IH]; [split; [by intros []|by intros ?%elem_of_nil]|]. cbn [last_backslash].
  change (bytes (String c s)) with (c :: bytes s). rewrite elem_of_cons, <- IH. destruct (last_backslash s) as [[dir name]|].
  - split; [intros _; right|intros _]; by eexists.
  - case_bool_decide as E; [|split; [by intros []|intros [Hc|[? ?]]; [by destruct E|done]]].
    split; [intros _; left; congruence|intros _; by eexists].
Qed.

Lemma last_backslash_name s dir name : last_backslash s = Some (dir, name) -> "\"%char ∈ bytes name.
Proof.
  revert dir. induction s as [|c s IH]; intros dir E; cbn in E; [done|].
  destruct (last_backslash s) as [[dir' name']|]; [injection E as <- ->; by eapply IH|].
  case_bool_decide as Hc; [|done]. injection E as <- <-. cbn. rewrite Hc. left.
Qed.

Lemma suffix_inj x y t : x +:+ t = y +:+ t -> x = y.
Proof.
  intros E%(f_equal bytes). rewrite !bytes_app in E. apply app_inv_tail in E.
  rewrite <- (of_bytes_bytes x), <- (of_bytes_bytes y). by f_equal.
Qed.

Lemma create_directory env m dir name special fs :
  env_module env = Some m -> last_backslash m = Some (dir, name) ->
  exists r fs', CreateAvDirectory env (Some special) fs = Ok (r, fs') /\ (env_mkdir env = true -> 0 <= r) /\ files fs' = files fs.
Proof.
  intros Hm Hd. unfold CreateAvDirectory. rewrite (location_path env m dir name) by done. cbn [mbind outcome_bind].
  destruct (_ || _); [|destruct (env_mkdir env)]; eexists _, _; (split; [reflexivity|]); split; done || lia.
Qed.

(** ** Quarantining *)

Section moved.
Variable to_json : list (string * string) -> list ascii.
Context (qu_data : quarantine_data) (env : win_env) (report : option a6o_report) (fs : win_fs).
Context (special m mdir mname p pdir fname ts0 ts1 ts2 : string) (content : list ascii).

(** The names of the module and of the directory of the quarantine, and a clock. *)
Hypothesis Hspecial : quarantine_dir qu_data = Some special.
Hypothesis Hmodule : env_module env = Some m.
Hypothesis Hmdir : last_backslash m = Some (mdir, mname).
Hypothesis Hts0 : GetTimestampString (env_time env 0) = Ok ts0.
Hypothesis Hts1 : GetTimestampString (env_time env 1) = Ok ts1.
Hypothesis Hts2 : GetTimestampString (env_time env 2) = Ok ts2.

(** The file, and where it, its description and the copy of this go. *)
Hypothesis Hname : last_backslash p = Some (pdir, fname).
Hypothesis Hfile : files fs !! p = Some content.
Let quarantined := prefix_max (mdir +:+ "\" +:+ prefix_max special) +:+ fname +:+ "_" +:+ ts0.
Let alert := prefix_max (mdir +:+ "\" +:+ ALERT_DIR) +:+ fname +:+ "_" +:+ ts1.
Hypothesis Hfits : (String.length p <= MAX_PATH /\ String.length quarantined <= MAX_PATH /\ String.length alert <= MAX_PATH)%nat.
Hypothesis Hp : p ∉ [quarantined; quarantined +:+ ".info"; alert +:+ ".info"].

Lemma quarantined_name : exists fq, GetFilenameFromPath (Some quarantined) = Some fq.
Proof.
  unfold GetFilenameFromPath. assert (is_Some (last_backslash quarantined)) as [[d f] E].
  { apply last_backslash_some. unfold quarantined. rewrite !bytes_app. apply elem_of_app. right. apply elem_of_app. left.
    by apply (last_backslash_name p pdir). }
  cbn. rewrite E. by exists f.
Qed.

(** The text of the description. *)
Definition description (fq : string) : list ascii := take 2048 (to_json (info_fields ts2 fq p report)).

(** What the description makes of the files. *)
Lemma described fq fs1 :
  GetFilenameFromPath (Some quarantined) = Some fq ->
  exists w fs', WriteQuarantineInfoFile to_json env (Some p) (Some quarantined) report fs1 = Ok (w, fs') /\
    (forall x, x <> quarantined +:+ ".info" -> x <> alert +:+ ".info" -> files fs' !! x = files fs1 !! x) /\
    (w = 0 -> env_copy env = true -> files fs1 !! (alert +:+ ".info") = None -> files fs' !! (alert +:+ ".info") = Some (description fq)) /\
    (w = 0 -> files fs' !! (quarantined +:+ ".info") = Some (description fq)) /\
    (w = 0 <-> env_create env && env_write env = true).
Proof.
  intros Hfq. destruct Hfits as (Hlp & Hlq & Hla). unfold WriteQuarantineInfoFile.
  rewrite (info_file_path quarantined) by done. cbn [mbind outcome_bind].
  rewrite (built_path env 1 m mdir mname ALERT_DIR p pdir fname ts1) by done. cbn [mbind outcome_bind from_option id].
  change (prefix_max ALERT_DIR) with ALERT_DIR. fold alert. rewrite (info_file_path alert) by done. cbn [mbind outcome_bind].
  rewrite Hts2. cbn [mbind outcome_bind]. rewrite Hfq. fold (description fq). generalize (description fq) as text. intros text.
  clear. generalize (quarantined +:+ ".info") (alert +:+ ".info"). intros qi ai.
  destruct (env_create env), (env_write env); cbn [negb andb].
  2-4: eexists _, _; split; [reflexivity|]; split_and!; intros; first [done|cbn; by rewrite ?lookup_insert_ne].
  set (fs2 := with_file qi text fs1). assert (files fs2 !! qi = Some text) as Hq by (by apply lookup_insert_eq).
  assert (forall x, x <> qi -> files fs2 !! x = files fs1 !! x) as Ho by (intros; by apply lookup_insert_ne).
  destruct (env_copy env); cbn [andb]; [case_bool_decide as Hin|]; eexists _, _; (split; [reflexivity|]).
  - cbn [files with_file]. split_and!; try done.
    + intros x H1 H2. rewrite lookup_insert_ne by done. by apply Ho.
    + intros _ _ _. by apply lookup_insert_eq.
    + intros _. rewrite lookup_insert_ne; [done|]. intros ->. apply Hin, elem_of_dom. by eexists.
  - split_and!; try done; [by intros; apply Ho|]. intros _ _ Hai. destruct (decide (ai = qi)) as [->|Hne]; [done|].
    apply elem_of_dom in Hin. rewrite Ho, Hai in Hin by done. by destruct Hin.
  - split_and!; try done. by intros; apply Ho.
Qed.

(** *** A detected file is put in quarantine *)

(** When the paths fit in [MAX_PATH] bytes, whatever the calls of the system answer,
    quarantining a file returns 0 when its directory, the move and the description succeed:
    the file is no longer where it was, but in the quarantine beside the program, under its
    name and the time, with its content and its description, and among the alerts unless the
    copy fails.  It returns -3 or -4 when the file was not moved, and nothing is changed; but
    -5 when the file is in the quarantine without its description.  No other file is ever
    changed. *)
Theorem win_quarantine_moves :
  exists fq ret fs', GetFilenameFromPath (Some quarantined) = Some fq /\
    win_quarantine_do to_json qu_data env (Some p) report fs = Ok (ret, fs') /\
    (forall x, x ∉ [p; quarantined; quarantined +:+ ".info"; alert +:+ ".info"] -> files fs' !! x = files fs !! x) /\
    (ret = 0 \/ ret = QU_NOT_DESCRIBED -> files fs' !! p = None /\ files fs' !! quarantined = Some content) /\
    (ret = 0 -> files fs' !! (quarantined +:+ ".info") = Some (description fq) /\
      (env_copy env = true -> files fs !! (alert +:+ ".info") = None -> files fs' !! (alert +:+ ".info") = Some (description fq))) /\
    (ret <> 0 -> ret <> QU_NOT_DESCRIBED -> files fs' = files fs /\ (ret = QU_NO_DIRECTORY \/ ret = QU_NOT_MOVED)) /\
    (env_mkdir env && env_move env && env_create env && env_write env = true -> ret = 0).
Proof.
  destruct quarantined_name as [fq Hfq]. destruct Hfits as (Hlp & Hlq & Hla).
  assert (quarantined <> quarantined +:+ ".info") as Hqi by (intros E%(f_equal String.length); rewrite string_length_app in E; cbn in E; lia).
  assert (quarantined <> alert +:+ ".info") as Hqa by (unfold quarantined; rewrite !string_app_assoc; by apply (path_not_info (env_time env 0))).
  apply not_elem_of_cons in Hp as [Hpq [Hpi [Hpa _]%not_elem_of_cons]%not_elem_of_cons].
  destruct (create_directory env m mdir mname special fs) as (r & fs1 & Hcreate & Hr & Hfs1); [done..|].
  unfold win_quarantine_do. rewrite Hspecial. rewrite (built_path env 0 m mdir mname special p pdir fname ts0) by done.
  cbn [mbind outcome_bind]. fold quarantined. rewrite Hcreate. cbn [mbind outcome_bind fst snd].
  destruct (Z.ltb_spec r 0) as [Hneg|Hpos].
  { exists fq, QU_NO_DIRECTORY, fs1. rewrite Hfs1. split_and!; try done; [by intros [?|?]|by auto|].
    destruct (env_mkdir env); [specialize (Hr eq_refl); lia|done]. }
  unfold move_file. rewrite Hfs1, Hfile. cbn [mbind option_bind]. destruct (env_move env).
  2: { exists fq, QU_NOT_MOVED, fs1. rewrite Hfs1. split_and!; try done; [by intros [?|?]|by auto|]. by rewrite andb_false_r. }
  set (fs2 := {| files := <[quarantined:=content]> (delete p (files fs)); dirs := dirs fs1 |}).
  destruct (described fq fs2 Hfq) as (w & fs' & Hw & Hother & Halert & Hinfo & Hret). rewrite Hw. cbn [mbind outcome_bind fst snd].
  assert (files fs' !! p = None) as Hpn by (rewrite Hother by done; cbn; by rewrite lookup_insert_ne, lookup_delete_eq).
  assert (files fs' !! quarantined = Some content) as Hqc by (rewrite Hother by done; cbn; by apply lookup_insert_eq).
  exists fq, (if w =? 0 then 0 else QU_NOT_DESCRIBED), fs'. split_and!; try done.
  - intros x Hx. rewrite !not_elem_of_cons in Hx. destruct Hx as (H1 & H2 & H3 & H4 & _). rewrite Hother by done.
    cbn. by rewrite lookup_insert_ne, lookup_delete_ne.
  - destruct (Z.eqb_spec w 0) as [->|?]; [|done]. intros _. split; [by apply Hinfo|]. intros Hc Hn. apply Halert; try done.
    cbn. rewrite lookup_insert_ne, lookup_delete_ne; congruence.
  - by destruct (w =? 0).
  - intros [[_ Hcr]%andb_prop Hwr]%andb_prop. rewrite (proj2 Hret); [done|]. by apply andb_true_intro.
Qed.

End moved.

(** ** Examples *)

Definition sample_json (l : list (string * string)) : list ascii := l ≫= fun f => bytes (f.1 +:+ "=" +:+ f.2 +:+ ";").

Definition at_second (i j : Z) : win_env :=
  {| env_module := Some "C:\A6O\svc.exe";
     env_time := fun now => SystemTime 2016 3 7 14 5 (if (now =? 0)%nat then i else j);
     env_mkdir := true; env_move := true; env_create := true; env_write := true; env_copy := true |}.

Definition sample_fs : win_fs :=
  {| files := {["C:\u\x.exe" := bytes "EICAR"; "C:\v\x.exe" := bytes "worm"]}; dirs := {["C:\A6O\Alerts"]} |}.

Definition sample_data : quarantine_data := QuarantineData (Some "Quarantine") 1.

Lemma win_quarantine_moves_witness :
  exists fs', win_quarantine_do sample_json sample_data (at_second 9 9) (Some "C:\u\x.exe") None sample_fs = Ok (0, fs') /\
    files fs' !! "C:\u\x.exe" = None /\ files fs' !! "C:\A6O\Quarantine\x.exe_20160307140509" = Some (bytes "EICAR").
Proof.
  destruct (win_quarantine_moves sample_json sample_data (at_second 9 9) None sample_fs "Quarantine" "C:\A6O\svc.exe" "C:\A6O" "\svc.exe"
    "C:\u\x.exe" "C:\u" "\x.exe" "20160307140509" "20160307140509" "20160307140509" (bytes "EICAR")) as (fq & ret & fs' & _ & E & _ & Hm & _ & _ & Hr).
  all: try reflexivity.
  - split_and!; refine (bool_decide_unpack _ _); vm_compute; exact I.
  - refine (bool_decide_unpack _ _). vm_compute. exact I.
  - rewrite Hr in E by reflexivity. destruct Hm as [Hp Hq]; [left; by apply Hr|]. exists fs'. exact (conj E (conj Hp Hq)).
Defined.

(** Two files of the same name quarantined in the same second: the second replaces the
    first, whose content is lost. *)
Example same_second_lost :
  (r ← win_quarantine_do sample_json sample_data (at_second 9 9) (Some "C:\u\x.exe") None sample_fs;
   r ← win_quarantine_do sample_json sample_data (at_second 9 10) (Some "C:\v\x.exe") None r.2;
   Ok (r.1, files r.2 !! "C:\A6O\Quarantine\x.exe_20160307140509",
       bool_decide (map_Forall (fun _ c => c <> bytes "EICAR") (files r.2)))) =
  Ok (0, Some (bytes "worm"), true).
Proof. vm_compute. reflexivity. Qed.

(** The description cannot be created: the file is in quarantine, but its report is not
    marked. *)
Example moved_not_marked :
  let env := {| env_module := Some "C:\A6O\svc.exe"; env_time := env_time (at_second 9 9); env_mkdir := true; env_move := true;
                env_create := false; env_write := true; env_copy := true |} in
  let report := {| r_path := Some "C:\u\x.exe"; r_status := A6O_FILE_MALWARE; r_action := A6O_ACTION_NONE;
                   r_module_name := None; r_module_report := None |} in
  (r ← win_quarantine_callback sample_json sample_data env report sample_fs;
   Ok (r_action r.1, files r.2 !! "C:\u\x.exe", files r.2 !! "C:\A6O\Quarantine\x.exe_20160307140509")) =
  Ok (A6O_ACTION_NONE, None, Some (bytes "EICAR")).
Proof. vm_compute. reflexivity. Qed.
