(* ===== verification/WinPaths.v ===== *)
(** * Where the files of the product are, on Windows ([src/libmodule/stdpaths.c])

    The directories are found from the path of the program.  The strings are built in
    blocks of memory, with the offsets of the code; a write outside a block is
    [OutOfBounds]. *)
From S2P Require Import Prelude Buffer Conf WinQuarantine Daemon.

#[local] Open Scope string_scope.
#[local] Open Scope Z_scope.

Definition WIN_MODULES_PATH : string := "modules".
Definition WIN_MODULES_DB_PATH : string := "DB".
Definition WIN_CONF_DIR : string := "conf".

(** ** Blocks *)

Definition block : Type := list (option ascii).

Definition calloc (n : Z) : block := replicate (Z.to_nat n) (Some "000"%char).

(** [p[off] = c] *)
Definition set_char (p : block) (off : Z) (c : ascii) : outcome block := memcpy_at p off [c].

(** [memcpy_s(p + off, destsz, s, count)], where [s] has more than [count] bytes: more than
    [destsz] is refused by the handler of invalid parameters. *)
Definition memcpy_s (p : block) (off destsz : Z) (s : string) (count : Z) : outcome block :=
  if destsz <? count then Fault Aborted else memcpy_at p off (take (Z.to_nat count) (bytes s)).

(** The string a block holds. *)
Definition text (p : block) : string := c_string (omap id p).

(** [strnlen_s(s, _MAX_PATH)] *)
Definition strnlen_s (s : string) : Z := Z.of_nat (String.length (prefix_max s)).

(** ** The paths *)

Section paths.
(** [GetModuleFileNameA], with a buffer of MAX_PATH bytes. *)
Variable module_file_name : option string.

Definition GetBinaryDirectory : outcome (option string) :=
  match module_file_name with
  | None => Ok None
  | Some filepath =>
      match last_backslash filepath with
      | None => Ok None
      | Some (dir, _) =>
          let len := Z.of_nat (String.length dir) in
          dirpath ← set_char (calloc (len + 1)) len "000";
          dirpath ← memcpy_s dirpath 0 len filepath len;
          Ok (Some (text dirpath))
      end
  end.

Definition os_stdpath_module : outcome (option string) :=
  d ← GetBinaryDirectory;
  match d with
  | None => Ok None
  | Some dirpath =>
      let len := strnlen_s dirpath + strnlen_s WIN_MODULES_PATH + 1 in
      modulesdir ← set_char (calloc (len + 1)) len "000";
      modulesdir ← memcpy_s modulesdir 0 len dirpath (strnlen_s dirpath);
      modulesdir ← set_char modulesdir (strnlen_s dirpath) "\";
      modulesdir ← memcpy_s modulesdir (strnlen_s dirpath + 1) len WIN_MODULES_PATH (strnlen_s WIN_MODULES_PATH);
      Ok (Some (text modulesdir))
  end.

Definition os_stdpath_config_file : outcome (option string) :=
  d ← GetBinaryDirectory;
  match d with
  | None => Ok None
  | Some dirpath =>
      let conffile := "\armadito.conf" in
      let len := strnlen_s dirpath + strnlen_s WIN_CONF_DIR + strnlen_s conffile + 1 in
      confdir ← set_char (calloc (len + 1)) len "000";
      confdir ← memcpy_s confdir 0 len dirpath (strnlen_s dirpath);
      confdir ← set_char confdir (strnlen_s dirpath) "\";
      confdir ← memcpy_s confdir (strnlen_s dirpath + 1) len WIN_CONF_DIR (strnlen_s WIN_CONF_DIR);
      confdir ← memcpy_s confdir (strnlen_s dirpath + strnlen_s WIN_CONF_DIR + 1) len conffile (strnlen_s conffile);
      Ok (Some (text confdir))
  end.

(** The path is built, and NULL is returned. *)
Definition os_stdpath_config_dir : outcome (option string) :=
  d ← GetBinaryDirectory;
  match d with
  | None => Ok None
  | Some dirpath =>
      let len := strnlen_s dirpath + strnlen_s WIN_CONF_DIR + 1 in
      confdir ← set_char (calloc (len + 1)) len "000";
      confdir ← memcpy_s confdir 0 len dirpath (strnlen_s dirpath);
      confdir ← set_char confdir (strnlen_s dirpath) "\";
      confdir ← memcpy_s confdir (strnlen_s dirpath + 1) len WIN_CONF_DIR (strnlen_s WIN_CONF_DIR);
      Ok None
  end.

Definition os_stdpath_bases : outcome (option string) :=
  d ← GetBinaryDirectory;
  match d with
  | None => Ok None
  | Some dirpath =>
      let len := strnlen_s dirpath + strnlen_s WIN_MODULES_PATH + strnlen_s WIN_MODULES_DB_PATH + 2 in
      dbdir ← set_char (calloc (len + 1)) len "000";
      dbdir ← memcpy_s dbdir 0 len dirpath (strnlen_s dirpath);
      let off := strnlen_s dirpath in
      dbdir ← set_char dbdir off "\";
      let off := off + 1 in
      dbdir ← memcpy_s dbdir off len WIN_MODULES_PATH (strnlen_s WIN_MODULES_PATH);
      let off := off + strnlen_s WIN_MODULES_PATH in
      dbdir ← set_char dbdir off "\";
      let off := off + 1 in
      dbdir ← memcpy_s dbdir off len WIN_MODULES_DB_PATH (strnlen_s WIN_MODULES_DB_PATH);
      Ok (Some (text dbdir))
  end.

Definition win_std_path (location : a6o_std_location) : outcome (option string) :=
  match location with
  | A6O_LOCATION_MODULES => os_stdpath_module
  | A6O_LOCATION_CONFIG_FILE => os_stdpath_config_file
  | A6O_LOCATION_CONFIG_DIR => os_stdpath_config_dir
  | A6O_LOCATION_BASES => os_stdpath_bases
  | A6O_LOCATION_BINARY | A6O_LOCATION_TMP => Ok None
  end.

End paths.

(** ** Blocks that are filled from the left *)

(** [t], then [n] zero bytes. *)
Definition filled (t : list ascii) (n : nat) : block := ((Some <$> t) ++ replicate n (Some "000"%char))%list.

Lemma calloc_filled n : 0 <= n -> calloc n = filled [] (Z.to_nat n).
Proof. done. Qed.

Lemma fill_next t n data :
  (length data <= n)%nat -> memcpy_at (filled t n) (Z.of_nat (length t)) data = Ok (filled (t ++ data)%list (n - length data)).
Proof.
  intros Hn. unfold memcpy_at, filled. rewrite length_app, length_fmap, length_replicate, Nat2Z.id.
  rewrite bool_decide_eq_true_2 by lia. rewrite take_app_length' by (by rewrite length_fmap).
  rewrite drop_app_add' by (by rewrite length_fmap). by rewrite drop_replicate, fmap_app, <- app_assoc.
Qed.

(** The last byte is set to what it is. *)
Lemma set_last len : 0 <= len -> set_char (calloc (len + 1)) len "000" = Ok (filled [] (Z.to_nat (len + 1))).
Proof.
  intros Hlen. unfold set_char, memcpy_at, calloc, filled. cbn [fmap list_fmap app length].
  rewrite bool_decide_eq_true_2 by (rewrite length_replicate; lia). f_equal.
  replace (Z.to_nat (len + 1)) with (Z.to_nat len + 1)%nat by lia. rewrite replicate_add.
  rewrite take_app_length' by (by rewrite length_replicate). rewrite drop_ge by (rewrite length_app, !length_replicate; lia). done.
Qed.

Lemma omap_some (t : list ascii) : omap id (Some <$> t) = t.
Proof. induction t as [|c t IH]; [done|]. cbn. by rewrite IH. Qed.

Lemma text_filled t n : "000"%char ∉ t -> (0 < n)%nat -> text (filled t n) = of_bytes t.
Proof.
  intros Ht Hn. destruct n as [|n]; [lia|]. unfold text, filled. rewrite omap_app, omap_some. cbn.
  rewrite <- (bytes_of_bytes t) at 1. apply c_string_nul. by rewrite bytes_of_bytes.
Qed.

Lemma text_path dir suffix t n :
  t = (bytes dir ++ bytes suffix)%list -> "000"%char ∉ (bytes dir ++ bytes suffix)%list -> (0 < n)%nat ->
  text (filled t n) = dir +:+ suffix.
Proof. intros -> Ht Hn. rewrite text_filled by done. by rewrite <- bytes_app, of_bytes_bytes. Qed.

(** One more string, and one more character. *)
Lemma put_string t n len off s count :
  off = Z.of_nat (length t) -> count = Z.of_nat (String.length s) -> (String.length s <= n)%nat -> count <= len ->
  memcpy_s (filled t n) off len s count = Ok (filled (t ++ bytes s)%list (n - String.length s)).
Proof.
  intros -> -> Hn Hlen. unfold memcpy_s. rewrite (proj2 (Z.ltb_ge len (Z.of_nat (String.length s)))) by done.
  rewrite Nat2Z.id, take_ge by (by rewrite length_bytes). rewrite fill_next by (by rewrite length_bytes). by rewrite length_bytes.
Qed.

Lemma put_char t n off c :
  off = Z.of_nat (length t) -> (0 < n)%nat -> set_char (filled t n) off c = Ok (filled (t ++ [c])%list (n - 1)).
Proof. intros -> Hn. unfold set_char. by rewrite fill_next. Qed.

(** Run the writes of a path, one after the other. *)
Ltac build_path :=
  repeat (first [rewrite put_string|rewrite put_char]; [|rewrite ?length_app, ?length_bytes; cbn; lia..];
          cbn [mbind outcome_bind]).

(** ** Where the files are *)

Section spec.
Variables (dir name : string).
Hypothesis Hname : last_backslash (dir +:+ name) = Some (dir, name).
Hypothesis Hlen : (String.length (dir +:+ name) < MAX_PATH)%nat.
Hypothesis Hnul : "000"%char ∉ bytes dir.

Lemma dir_length : (String.length dir < MAX_PATH)%nat.
Proof. rewrite <- !length_bytes, bytes_app, length_app in Hlen. rewrite <- length_bytes. lia. Qed.

Lemma strnlen_dir : strnlen_s dir = Z.of_nat (String.length dir).
Proof. pose proof dir_length. unfold strnlen_s. by rewrite prefix_whole by lia. Qed.

Lemma binary_directory : GetBinaryDirectory (Some (dir +:+ name)) = Ok (Some dir).
Proof.
  unfold GetBinaryDirectory. rewrite Hname, set_last by lia. cbn [mbind outcome_bind]. unfold memcpy_s.
  rewrite Z.ltb_irrefl, Nat2Z.id, bytes_app, take_app_length' by (by rewrite length_bytes).
  rewrite (fill_next []) by (rewrite length_bytes; lia). cbn [mbind outcome_bind app].
  rewrite text_filled by (first [done|rewrite length_bytes; lia]). by rewrite of_bytes_bytes.
Qed.
End spec.

(** Of the path of the program, whatever its length, the modules, the configuration file and
    the bases are looked for under its directory; every string is built inside its block and
    ends with a zero byte.  The directory of further configuration files is built in the same
    way, but never returned. *)
Theorem windows_paths (filepath dir name : string)
    (Hname : last_backslash filepath = Some (dir, name)) (Hlen : (String.length filepath < MAX_PATH)%nat)
    (Hnul : "000"%char ∉ bytes filepath) :
  win_std_path (Some filepath) A6O_LOCATION_MODULES = Ok (Some (dir +:+ "\modules")) /\
  win_std_path (Some filepath) A6O_LOCATION_CONFIG_FILE = Ok (Some (dir +:+ "\conf\armadito.conf")) /\
  win_std_path (Some filepath) A6O_LOCATION_BASES = Ok (Some (dir +:+ "\modules\DB")) /\
  win_std_path (Some filepath) A6O_LOCATION_CONFIG_DIR = Ok None.
Proof.
  pose proof (backslash_split _ _ _ Hname) as ->. rewrite bytes_app in Hnul. apply not_elem_of_app in Hnul as [Hnul _].
  cbn [win_std_path]. unfold os_stdpath_module, os_stdpath_config_file, os_stdpath_bases, os_stdpath_config_dir.
  rewrite binary_directory by done. cbn [mbind outcome_bind].
  pose proof (dir_length dir name Hlen) as Hd. rewrite (strnlen_dir dir name Hlen). unfold MAX_PATH in Hd.
  assert (strnlen_s WIN_MODULES_PATH = 7) as -> by reflexivity. assert (strnlen_s WIN_CONF_DIR = 4) as -> by reflexivity.
  assert (strnlen_s "\armadito.conf" = 14) as -> by reflexivity. assert (strnlen_s WIN_MODULES_DB_PATH = 2) as -> by reflexivity.
  rewrite !set_last by lia. cbn [mbind outcome_bind].
  split_and!; build_path; try done; f_equal; f_equal;
    (apply text_path; [by rewrite <- ?(assoc_L (++))|rewrite not_elem_of_app; split; [done|by apply (proj1 (bool_decide_eq_true _))]|cbn; lia]).
Qed.

Lemma windows_paths_witness :
  let program := "C:\Program Files\Armadito\armadito-svc.exe" in
  win_std_path (Some program) A6O_LOCATION_CONFIG_FILE = Ok (Some "C:\Program Files\Armadito\conf\armadito.conf") /\
  win_std_path (Some program) A6O_LOCATION_CONFIG_DIR = Ok None.
Proof.
  intros program.
  destruct (windows_paths program "C:\Program Files\Armadito" "\armadito-svc.exe") as (_ & H1 & _ & H2);
    [reflexivity|cbn; unfold MAX_PATH; lia|by apply (proj1 (bool_decide_eq_true _))|]. by split.
Defined.
