(* ===== verification/WinService.v ===== *)
(** * The threads of the Windows service
    ([src/arch/windows/service/scan_onaccess.c], [scan_ondemand.c])

    The names of the files the driver asks about, the answers of the worker threads of
    on-access scanning, and the pool of threads that serve the graphical interface.  The
    functions of the library they call are not in this tree ([a6o_scan_simple],
    [a6o_json_handler_get_response]): they are parameters, or are left out. *)
From S2P Require Import Prelude Status.

#[local] Open Scope string_scope.
#[local] Open Scope Z_scope.

(** ** The names of files *)

(** [strstr(s, t) != NULL]. *)
Fixpoint occurs (s t : list ascii) : bool :=
  bool_decide (t `prefix_of` s) || match s with [] => false | _ :: s => occurs s t end.

Section names.
(** [GetLogicalDriveStrings], in order; [QueryDosDevice]. *)
Variable drives : list string.
Variable query_device : string -> option string.

Fixpoint find_drive (drives : list string) (DeviceFileName : string) : option string :=
  match drives with
  | [] => None
  | drive :: drives =>
      let deviceLetter := String.substring 0 2 drive in
      match query_device deviceLetter with
      | None => None
      | Some deviceNameQuery =>
          if occurs (bytes DeviceFileName) (bytes deviceNameQuery) then
            Some (deviceLetter +:+ of_bytes (drop (String.length deviceNameQuery) (bytes DeviceFileName)))
          else find_drive drives DeviceFileName
      end
  end.

Definition ConvertDeviceNameToMsDosName (DeviceFileName : option string) : option string :=
  name ← DeviceFileName; find_drive drives name.

(** ** The worker of on-access scanning *)

(** [a6o_scan_simple]. *)
Variable scan : string -> a6o_file_status.

(** What is replied for a message of the driver, and the files that were scanned; a
    malware is scanned again after the reply, when this was sent. *)
Definition worker_message (FileName : string) (sent : bool) : a6o_file_status * list string :=
  match ConvertDeviceNameToMsDosName (Some FileName) with
  | None => (A6O_FILE_EINVAL, [])
  | Some p =>
      let scan_result := scan p in
      (scan_result, if sent && bool_decide (scan_result = A6O_FILE_MALWARE) then [p; p] else [p])
  end.

End names.

Definition ScanResultToStr (res : Z) : string :=
  match res with
  | 0 => "[NONE]"
  | 1 => "[A6O_FILE_UNDECIDED]"
  | 2 => "[A6O_FILE_CLEAN]"
  | 3 => "[A6O_FILE_UNKNOWN_TYPE]"
  | 4 => "[A6O_FILE_EINVAL]"
  | 5 => "[A6O_FILE_IERROR]"
  | 6 => "[A6O_FILE_SUSPICIOUS]"
  | 7 => "[A6O_FILE_WHITE_LISTED]"
  | 8 => "[A6O_FILE_MALWARE]"
  | _ => "[ERROR_DEFAULT]"
  end.

(** Whether there is a context of on-access scanning, and the flag of the on-access
    module, if it is loaded. *)
Definition toggle_onaccess_state (context : bool) (state_flag : option Z) : Z * option Z :=
  if negb context then (-1, state_flag)
  else
    match state_flag with
    | None => (-1, None)
    | Some f => (0, Some (if f =? 1 then 0 else 1))
    end.

(** ** The pool of threads

    A thread is known by its number, which is also its handle; a client by its pipe. *)
Definition SCAN_THREAD_COUNT : nat := 3.

Record thread_ctx := ThreadCtx { Handle : option nat; hPipeInst : option nat; ThreadId : option nat }.

Definition empty_ctx : thread_ctx := {| Handle := None; hPipeInst := None; ThreadId := None |}.

Record pool := Pool {
  ScanThreadCtx : list thread_ctx;
  Scan_thread_count : nat;
  main_index : nat;            (** [index] of the main thread *)
  running : list (nat * nat);  (** the threads that found their context, and its index *)
  created : list nat;          (** the threads that were created and have not begun *)
}.

Definition pool_new : pool :=
  {| ScanThreadCtx := replicate SCAN_THREAD_COUNT empty_ctx; Scan_thread_count := 0; main_index := 0; running := []; created := [] |}.

(** The loop that looks for the place of a new thread. *)
Definition find_index (l : list thread_ctx) (index : nat) : nat :=
  match list_find (fun c => Handle c <> None) l with Some (i, _) => i | None => index end.

(** One turn of [MainThreadWork], when a client connects by [pipe] and the new thread is
    [tid]; without a place there is no turn. *)
Definition connect (pipe tid : nat) (p : pool) : pool :=
  if (Scan_thread_count p =? SCAN_THREAD_COUNT)%nat then p
  else
    let index := find_index (ScanThreadCtx p) (main_index p) in
    {| ScanThreadCtx := <[index := {| Handle := Some tid; hPipeInst := Some pipe; ThreadId := Some tid |}]> (ScanThreadCtx p);
       Scan_thread_count := S (Scan_thread_count p); main_index := index;
       running := running p; created := tid :: created p |}.

(** The beginning of [ScanThreadWork]: a thread that does not find its number in the
    contexts returns at once, and stays counted. *)
Definition start (tid : nat) (p : pool) : pool :=
  let running :=
    match list_find (fun c => ThreadId c = Some tid) (ScanThreadCtx p) with
    | None => running p
    | Some (i, _) => (tid, i) :: running p
    end in
  {| ScanThreadCtx := ScanThreadCtx p; Scan_thread_count := Scan_thread_count p; main_index := main_index p;
     running := running; created := filter (fun t => t <> tid) (created p) |}.

(** The pipe a thread reads its requests from and writes its answers to. *)
Definition thread_pipe (tid : nat) (p : pool) : option nat :=
  e ← list_find (fun e => e.1 = tid) (running p); c ← ScanThreadCtx p !! e.2.2; hPipeInst c.

(** The end of [ScanThreadWork]: the context is emptied, whether or not its pipe could be
    closed. *)
Definition finish (tid : nat) (p : pool) : pool :=
  match list_find (fun e => e.1 = tid) (running p) with
  | None => p
  | Some (_, (_, i)) =>
      {| ScanThreadCtx := <[i := empty_ctx]> (ScanThreadCtx p); Scan_thread_count := pred (Scan_thread_count p);
         main_index := main_index p; running := filter (fun e => e.1 <> tid) (running p); created := created p |}
  end.

(** The clients that connect and the threads that begin and end, in any order; a thread
    begins once. *)
Inductive pool_event := Connect (pipe tid : nat) | Start (tid : nat) | Finish (tid : nat).

Definition pool_step (p : pool) (e : pool_event) : pool :=
  match e with
  | Connect pipe tid => connect pipe tid p
  | Start tid => if bool_decide (tid ∈ created p) then start tid p else p
  | Finish tid => finish tid p
  end.

Definition pool_run (es : list pool_event) (p : pool) : pool := fold_left pool_step es p.

(** [TerminateAllScanThreads]: the handles that it waits for; all must be handles of
    threads, or [WaitForMultipleObjects] fails at once.  Then the contexts are freed. *)
Definition terminate_handles (p : pool) : list (option nat) := Handle <$> ScanThreadCtx p.

Definition terminate_waits (p : pool) : bool := forallb (fun h => bool_decide (h <> None)) (terminate_handles p).

(** What ends [MainThreadWork] with an error: the contexts could not be allocated, or the
    access rights made; the pipe, the connection, the thread or its start failed. *)
Inductive main_failure := NoContexts | NoSecurity | NoPipe | NotConnected | NoThread | NotResumed.

Definition main_ret (f : main_failure) : Z :=
  match f with NoContexts | NoSecurity => -2 | NoPipe => -3 | NotConnected => -4 | NoThread => -5 | NotResumed => -6 end.

(** The contexts are freed, whether or not threads use them; nothing changes for the threads
    that were created.  A thread that could not be resumed was counted neither. *)
Definition MainThreadWork_fails (f : main_failure) (p : pool) : Z * pool :=
  (main_ret f, {| ScanThreadCtx := []; Scan_thread_count := Scan_thread_count p; main_index := main_index p;
                  running := running p; created := created p |}).

(** ** What the pool guarantees, and what it does not *)

(** Only the first place is ever used. *)
Record pool_ok (p : pool) : Prop := {
  ok_length : length (ScanThreadCtx p) = SCAN_THREAD_COUNT;
  ok_rest : forall i c, ScanThreadCtx p !! S i = Some c -> c = empty_ctx;
  ok_index : main_index p = 0%nat;
  ok_running : Forall (fun e => e.2 = 0%nat) (running p);
  ok_count : (Scan_thread_count p <= SCAN_THREAD_COUNT)%nat;
}.

Lemma find_index_first l index :
  (forall i c, l !! S i = Some c -> c = empty_ctx) -> index = 0%nat -> find_index l index = 0%nat.
Proof.
  intros Hl ->. unfold find_index. destruct (list_find _ l) as [[[|i] c]|] eqn:E; [done| |done].
  apply list_find_Some in E as (Hi & Hc & _). by rewrite (Hl i c Hi) in Hc.
Qed.

Lemma connect_ok pipe tid p : pool_ok p -> pool_ok (connect pipe tid p).
Proof.
  intros [Hlen Hrest Hidx Hrun Hcount]. unfold connect. case_match eqn:E; [done|]. apply Nat.eqb_neq in E.
  rewrite find_index_first by done. split; cbn [ScanThreadCtx Scan_thread_count main_index running]; [|..|lia]; try done.
  - by rewrite length_insert.
  - intros i c. rewrite list_lookup_insert_ne by done. apply Hrest.
Qed.

Lemma start_ok tid p : pool_ok p -> pool_ok (start tid p).
Proof.
  intros [Hlen Hrest Hidx Hrun Hcount]. unfold start. split; cbn; try done.
  destruct (list_find _ _) as [[i c]|] eqn:E; [|done]. constructor; [|done]. cbn. destruct i as [|i]; [done|].
  apply list_find_Some in E as (Hi & Hc & _). by rewrite (Hrest i c Hi) in Hc.
Qed.

Lemma finish_ok tid p : pool_ok p -> pool_ok (finish tid p).
Proof.
  intros [Hlen Hrest Hidx Hrun Hcount]. unfold finish. destruct (list_find _ _) as [[j [t i]]|] eqn:E; [|done].
  apply list_find_Some in E as (Hi & _). assert (i = 0%nat) as -> by (by apply (Forall_lookup_1 _ _ _ _ Hrun Hi)).
  split; cbn [ScanThreadCtx Scan_thread_count main_index running]; try done; [|..|lia].
  - by rewrite length_insert.
  - intros i c. rewrite list_lookup_insert_ne by done. apply Hrest.
  - apply list.Forall_forall. intros e [_ Hin]%list_elem_of_filter. by apply (proj1 (list.Forall_forall _ _) Hrun).
Qed.

Lemma pool_new_ok : pool_ok pool_new.
Proof. split; try done; [|cbn; unfold SCAN_THREAD_COUNT; lia]. by intros [|[|i]] c; intros [= <-]. Qed.

Lemma pool_run_ok es p : pool_ok p -> pool_ok (pool_run es p).
Proof.
  revert p. induction es as [|e es IH]; intros p Hp; [done|]. apply IH.
  destruct e; cbn [pool_step]; [by apply connect_ok| |by apply finish_ok]. case_bool_decide; [by apply start_ok|done].
Qed.

(** *** All clients share one place *)

(** C29: Whatever the clients that connect and the order in which the threads begin and end,
    the service never counts more than three threads; but only the first of the three
    contexts is ever used, so that every thread that is running serves the client the first
    context holds: the last that connected, if it is still there.  And when the service
    stops it never waits for its threads: two of the three handles it waits for are NULL,
    so that the contexts are freed under the threads. *)
Theorem pool_shares_context (es : list pool_event) :
  let p := pool_run es pool_new in
  (Scan_thread_count p <= SCAN_THREAD_COUNT)%nat /\
  (forall i c, ScanThreadCtx p !! S i = Some c -> c = empty_ctx) /\
  (exists pipe, forall tid, tid ∈ (running p).*1 -> thread_pipe tid p = pipe) /\
  terminate_waits p = false.
Proof.
  intros p. destruct (pool_run_ok es pool_new pool_new_ok) as [Hlen Hrest _ Hrun Hcount]. fold p in Hlen, Hrest, Hrun, Hcount.
  split; [done|]. split; [done|]. split.
  - exists (c ← ScanThreadCtx p !! 0%nat; hPipeInst c). intros tid Hin. unfold thread_pipe.
    apply list_elem_of_fmap in Hin as (e & -> & Hin).
    destruct (list_find_elem_of (fun e' => e'.1 = e.1) (running p) e Hin eq_refl) as [[i e'] E]. rewrite E.
    cbn [mbind option_bind snd]. apply list_find_Some in E as (Hi & _).
    by rewrite (Forall_lookup_1 _ _ _ _ Hrun Hi).
  - unfold terminate_waits, terminate_handles. destruct (ScanThreadCtx p) as [|c1 [|c2 l]] eqn:E; [done..|].
    rewrite (Hrest 0%nat c2 eq_refl). cbn. by rewrite andb_false_r.
Qed.

(** Two clients: both threads serve the second; a thread that is running is not waited for. *)
Example two_clients :
  let p := pool_run [Connect 10 1; Start 1; Connect 20 2; Start 2] pool_new in
  (thread_pipe 1 p, thread_pipe 2 p, terminate_handles p) = (Some 20%nat, Some 20%nat, [Some 2%nat; None; None]).
Proof. reflexivity. Qed.

(** Threads whose client is replaced before they begin return without being uncounted: the
    place is lost. *)
Example lost_places :
  let p := pool_run [Connect 10 1; Connect 20 2; Start 1; Start 2; Finish 2; Connect 30 3; Connect 40 4; Start 3; Start 4; Finish 4] pool_new in
  (running p, created p, Scan_thread_count p) = ([], [], 2%nat).
Proof. reflexivity. Qed.

(** When the main thread fails, the threads that run have no context and no pipe any more. *)
Lemma failure_frees_contexts f p tid : thread_pipe tid (MainThreadWork_fails f p).2 = None.
Proof. unfold thread_pipe. cbn. by destruct (list_find _ _). Qed.

(** ** Names of files *)

(** A file of a volume gets the letter of its drive, when the device of no drive listed
    before occurs in its name. *)
Theorem dos_name drives query before drive after device rest :
  drives = (before ++ drive :: after)%list -> query (String.substring 0 2 drive) = Some device ->
  Forall (fun d => exists dev, query (String.substring 0 2 d) = Some dev /\ occurs (bytes (device +:+ rest)) (bytes dev) = false) before ->
  ConvertDeviceNameToMsDosName drives query (Some (device +:+ rest)) = Some (String.substring 0 2 drive +:+ rest).
Proof.
  intros -> Hq Hbefore. cbn [ConvertDeviceNameToMsDosName mbind option_bind].
  induction Hbefore as [|d before (dev & Hd & Ho) _ IH].
  - cbn [app find_drive]. rewrite Hq. assert (occurs (bytes (device +:+ rest)) (bytes device) = true) as ->.
    { rewrite bytes_app. destruct (bytes device) as [|c l] eqn:El; [by destruct (bytes rest)|]. cbn [occurs app].
      rewrite bool_decide_eq_true_2; [done|]. by eexists. }
    rewrite bytes_app, <- length_bytes, drop_app_length. by rewrite of_bytes_bytes.
  - cbn [app find_drive]. by rewrite Hd, Ho.
Qed.

Definition sample_devices (letter : string) : option string :=
  if bool_decide (letter = "C:") then Some "\Device\HarddiskVolume1"
  else if bool_decide (letter = "D:") then Some "\Device\HarddiskVolume2" else None.

Lemma dos_name_witness :
  ConvertDeviceNameToMsDosName ["C:\"; "D:\"] sample_devices (Some "\Device\HarddiskVolume2\x.exe") = Some "D:\x.exe".
Proof.
  apply (dos_name ["C:\"; "D:\"] sample_devices ["C:\"] "D:\" [] "\Device\HarddiskVolume2" "\x.exe").
  - reflexivity.
  - reflexivity.
  - constructor; [|constructor]. eexists. split; reflexivity.
Defined.

(** The files of the twelfth volume are looked for on the first. *)
Example twelfth_volume :
  ConvertDeviceNameToMsDosName ["C:\"; "D:\"] sample_devices (Some "\Device\HarddiskVolume12\x.exe") = Some "C:2\x.exe".
Proof. reflexivity. Qed.
