(* ===== verification/WinPipe.v ===== *)
(** * The requests of a client of the Windows service
    ([src/arch/windows/service/scan_ondemand.c], [ScanThreadWork])

    What the thread of a client does between its beginning and its end (WinService.v): it
    reads requests from its pipe, one message each, and writes the answers.  The handler of
    JSON requests is not in this tree: its functions are parameters, and the number of the
    turn is given to each, since their answers can change. *)
From S2P Require Import Prelude.

#[local] Open Scope Z_scope.

Definition BUFSIZE : nat := 512.

(** The answers written, the callbacks executed, the handler and the response that the
    variables hold, and how many handlers and responses they held before. *)
Record thread_run := ThreadRun {
  written : list (list ascii);
  processed : nat;
  json_handler : bool;
  response : bool;
  lost_handlers : nat;
  lost_responses : nat;
}.

Definition thread_start : thread_run := ThreadRun [] 0 false false 0 0.

Definition held (b : bool) : nat := if b then 1 else 0.

Section thread.
(** [a6o_json_handler_new], [a6o_json_handler_get_response] and [WriteFile]; whether the
    service is being finalized. *)
Variable handler_new : nat -> bool.
Variable get_response : nat -> list ascii -> option (list ascii).
Variable write : nat -> bool.
Variable finalizing : nat -> bool.

(** The variable [json_handler] is assigned; the handler it held is not freed. *)
Definition set_handler (b : bool) (t : thread_run) : thread_run :=
  ThreadRun (written t) (processed t) b (response t) (lost_handlers t + held (json_handler t)) (lost_responses t).

Definition set_response (t : thread_run) : thread_run :=
  ThreadRun (written t) (processed t) (json_handler t) true (lost_handlers t) (lost_responses t + held (response t)).

Definition answered (reply : list ascii) (t : thread_run) : thread_run :=
  ThreadRun (written t ++ [reply]) (S (processed t)) (json_handler t) (response t) (lost_handlers t) (lost_responses t).

(** The loop; after the last request the client closes the pipe.  A request that fills the
    buffer leaves no NUL for the trace that prints it; a longer one makes [ReadFile] fail. *)
Fixpoint request_loop (requests : list (list ascii)) (turn : nat) (t : thread_run) : outcome (Z * thread_run) :=
  if finalizing turn then Ok (0, t)
  else
    match requests with
    | [] => Ok (-6, t)
    | request :: requests =>
        if bool_decide (request = []) || (BUFSIZE <? length request)%nat then Ok (-6, t)
        else if (length request =? BUFSIZE)%nat then Fault OutOfBounds
        else
          let t := set_handler (handler_new turn) t in
          if negb (handler_new turn) then Ok (-7, t)
          else
            match get_response turn request with
            | None => Ok (-8, t)
            | Some reply =>
                let t := set_response t in
                if bool_decide (reply = []) || negb (write turn) then Ok (-9, t)
                else request_loop requests (S turn) (answered reply t)
            end
    end.

(** What is read, from the beginning of the thread to its end, where the handler and the
    response that the variables hold are freed; whether the service was being finalized when
    the thread began, and whether it has a pipe. *)
Definition ScanThreadWork (late pipe : bool) (requests : list (list ascii)) : outcome (Z * thread_run) :=
  if late then Ok (0, thread_start)
  else if negb pipe then Ok (-3, thread_start)
  else request_loop requests 0 thread_start.

(** ** What is answered *)

(** The answer of a turn that nothing stops. *)
Definition good_turn (turn : nat) (request : list ascii) : option (list ascii) :=
  if finalizing turn || bool_decide (request = []) || (BUFSIZE <=? length request)%nat || negb (handler_new turn) || negb (write turn) then None
  else reply ← get_response turn request; if bool_decide (reply = []) then None else Some reply.

(** The answers up to the first turn that something stops. *)
Fixpoint good_answers (turn : nat) (requests : list (list ascii)) : list (list ascii) :=
  match requests with
  | [] => []
  | request :: requests => match good_turn turn request with Some reply => reply :: good_answers (S turn) requests | None => [] end
  end.

Lemma request_loop_spec requests : forall turn t ret t',
  request_loop requests turn t = Ok (ret, t') ->
  written t' = (written t ++ good_answers turn requests)%list /\
  processed t' = (processed t + length (good_answers turn requests))%nat /\
  (lost_handlers t' + held (json_handler t') >= lost_handlers t + held (json_handler t) + length (good_answers turn requests))%nat /\
  (ret = -6 \/ ret = 0 \/ (length (good_answers turn requests) < length requests)%nat).
Proof.
  induction requests as [|request requests IH]; intros turn t ret t'; cbn [request_loop good_answers].
  { case_match; intros [= <- <-]; cbn; rewrite app_nil_r; split_and!; auto; lia. }
  unfold good_turn. destruct (finalizing turn); [intros [= <- <-]; cbn; rewrite app_nil_r; split_and!; auto; lia|]. cbn [orb].
  destruct (bool_decide (request = [])); cbn [orb]; [intros [= <- <-]; cbn; rewrite app_nil_r; split_and!; auto; lia|].
  destruct (Nat.ltb_spec BUFSIZE (length request)).
  { rewrite (proj2 (Nat.leb_le _ _)) by lia. cbn. intros [= <- <-]. rewrite app_nil_r. split_and!; auto; lia. }
  destruct (Nat.eqb_spec (length request) BUFSIZE); [done|]. rewrite (proj2 (Nat.leb_gt _ _)) by lia. cbn [orb].
  destruct (handler_new turn); cbn [negb orb]; [|intros [= <- <-]; cbn; rewrite app_nil_r; split_and!; auto; lia].
  destruct (get_response turn request) as [reply|]; cbn [mbind option_bind];
    [|destruct (write turn); intros [= <- <-]; cbn; rewrite app_nil_r; split_and!; auto; lia].
  destruct (write turn); cbn [negb orb]; [|rewrite orb_true_r; intros [= <- <-]; cbn; rewrite app_nil_r; split_and!; auto; lia].
  rewrite orb_false_r. case_bool_decide; [intros [= <- <-]; cbn; rewrite app_nil_r; split_and!; auto; lia|].
  intros E%IH. cbn in E. destruct E as (E1 & E2 & E3 & E4). cbn [length].
  rewrite E1, <- (assoc_L (++)). split_and!; [done|lia|unfold held in *; destruct (json_handler t); lia|].
  destruct E4 as [?|[?|?]]; auto. right. right. lia.
Qed.

(** The requests of a client are answered in order, each with one message, and then their
    callbacks are executed, up to the first that something stops; a thread that stops before
    the client has closed its pipe says why, except when the service ends.  Every handler of
    a request but the last is lost. *)
Theorem requests_answered (requests : list (list ascii)) (ret : Z) (t : thread_run) :
  ScanThreadWork false true requests = Ok (ret, t) ->
  written t = good_answers 0 requests /\ processed t = length (written t) /\
  (length (written t) <= S (lost_handlers t))%nat /\
  (ret = -6 \/ ret = 0 \/ (length (written t) < length requests)%nat).
Proof.
  intros H. destruct (request_loop_spec requests 0 thread_start ret t H) as (H1 & H2 & H3 & H4). cbn in H1, H2, H3.
  rewrite H1. split_and!; [done|done| |done]. unfold held in H3. destruct (json_handler t); lia.
Qed.

End thread.

(** *** Samples *)

Definition echo (turn : nat) (request : list ascii) : option (list ascii) := Some (rev request).
Definition always (turn : nat) : bool := true.
Definition never (turn : nat) : bool := false.

Lemma requests_answered_witness :
  exists t, ScanThreadWork always echo always never false true [bytes "ab"; bytes "cd"; bytes "ef"] = Ok (-6, t) /\
    written t = [bytes "ba"; bytes "dc"; bytes "fe"] /\ (3 <= S (lost_handlers t))%nat.
Proof.
  eexists. split; [reflexivity|].
  destruct (requests_answered always echo always never [bytes "ab"; bytes "cd"; bytes "ef"] (-6) _ eq_refl) as (H1 & _ & H3 & _).
  split; [exact H1|exact H3].
Defined.

(** A request that fills the buffer makes its trace read past the end. *)
Lemma full_buffer_overread c requests : ScanThreadWork always echo always never false true (replicate BUFSIZE c :: requests) = Fault OutOfBounds.
Proof. reflexivity. Qed.
