(* ===== verification/WinDriver.v ===== *)
(** * The service and the driver of on-access scanning, on Windows
    ([src/arch/windows/service/scan_onaccess.c])

    The driver asks about files through a port.  Six buffers wait there for a question; a
    buffer that is filled goes to a completion port, where one of the six threads takes it,
    scans the file, replies and puts the buffer back.  To stop, the service sets a flag,
    cancels the buffers that wait, and waits for its threads.  The steps of the threads, of
    the driver and of the service are interleaved in any order. *)
From S2P Require Import Prelude Status WinService.

#[local] Open Scope string_scope.

Definition USER_SCAN_THREAD_COUNT : nat := 6.

Record scanner_message := ScannerMessage { MessageId : Z; FileName : string }.

(** What the completion port holds: a buffer with a question, or one that was cancelled. *)
Inductive completion := Message (m : scanner_message) | Cancelled.

(** Where a thread is in [UserScanWorker]. *)
Inductive worker :=
  | Waiting    (** in [GetQueuedCompletionStatus] *)
  | Replied    (** the reply was sent, [Finalized] was not read yet *)
  | Arming     (** [Finalized] was not set; before [FilterGetMessage] *)
  | Exited.

#[export] Instance worker_eq_dec : EqDecision worker.
Proof. solve_decision. Defined.

Record reply := Reply { replied : scanner_message; scanResult : a6o_file_status; reply_sent : bool }.

(** The threads, how many buffers wait for the driver, the completion port, the flag,
    whether [CancelIoEx] was called; the replies and the files that were scanned; how many
    buffers were freed, and how many were forgotten. *)
Record onaccess_ctx := OnAccessCtx {
  ScanThreadCtxes : list worker;
  armed : nat;
  port : list completion;
  Finalized : bool;
  cancelled : bool;
  replies : list reply;
  scanned : list string;
  freed : nat;
  forgotten : nat;
}.

(** All the threads are resumed and all the buffers wait. *)
Definition started : onaccess_ctx :=
  {| ScanThreadCtxes := replicate USER_SCAN_THREAD_COUNT Waiting; armed := USER_SCAN_THREAD_COUNT; port := [];
     Finalized := false; cancelled := false; replies := []; scanned := []; freed := 0; forgotten := 0 |}.

Definition move (i : nat) (w : worker) (s : onaccess_ctx) : onaccess_ctx :=
  {| ScanThreadCtxes := <[i := w]> (ScanThreadCtxes s); armed := armed s; port := port s; Finalized := Finalized s;
     cancelled := cancelled s; replies := replies s; scanned := scanned s; freed := freed s; forgotten := forgotten s |}.

Definition with_port (n : nat) (l : list completion) (s : onaccess_ctx) : onaccess_ctx :=
  {| ScanThreadCtxes := ScanThreadCtxes s; armed := n; port := l; Finalized := Finalized s;
     cancelled := cancelled s; replies := replies s; scanned := scanned s; freed := freed s; forgotten := forgotten s |}.

Definition with_flags (f c : bool) (s : onaccess_ctx) : onaccess_ctx :=
  {| ScanThreadCtxes := ScanThreadCtxes s; armed := armed s; port := port s; Finalized := f;
     cancelled := c; replies := replies s; scanned := scanned s; freed := freed s; forgotten := forgotten s |}.

Definition with_reply (r : reply) (files : list string) (s : onaccess_ctx) : onaccess_ctx :=
  {| ScanThreadCtxes := ScanThreadCtxes s; armed := armed s; port := port s; Finalized := Finalized s;
     cancelled := cancelled s; replies := replies s ++ [r]; scanned := (scanned s ++ files)%list; freed := freed s; forgotten := forgotten s |}.

(** The end of a thread: a buffer it holds is freed. *)
Definition leave (i : nat) (holds : bool) (s : onaccess_ctx) : onaccess_ctx :=
  {| ScanThreadCtxes := <[i := Exited]> (ScanThreadCtxes s); armed := armed s; port := port s; Finalized := Finalized s;
     cancelled := cancelled s; replies := replies s; scanned := scanned s;
     freed := if holds then S (freed s) else freed s; forgotten := if holds then forgotten s else S (forgotten s) |}.

Section driver.
Variable drives : list string.
Variable query_device : string -> option string.
Variable scan : string -> a6o_file_status.

(** *** The steps of a thread *)

(** [GetQueuedCompletionStatus], the scan and the reply.  A buffer that was cancelled makes
    the call fail, and the thread end without it. *)
Definition take_message (i : nat) (sent : bool) (s : onaccess_ctx) : option onaccess_ctx :=
  match ScanThreadCtxes s !! i, port s with
  | Some Waiting, Message m :: rest =>
      let '(scan_result, files) := worker_message drives query_device scan (FileName m) sent in
      Some (with_reply (Reply m scan_result sent) files (move i Replied (with_port (armed s) rest s)))
  | Some Waiting, Cancelled :: rest => Some (leave i false (with_port (armed s) rest s))
  | _, _ => None
  end.

Definition check_finalized (i : nat) (s : onaccess_ctx) : option onaccess_ctx :=
  match ScanThreadCtxes s !! i with
  | Some Replied => Some (if Finalized s then leave i true s else move i Arming s)
  | _ => None
  end.

(** [pending]: whether [FilterGetMessage] returns ERROR_IO_PENDING. *)
Definition get_message (i : nat) (pending : bool) (s : onaccess_ctx) : option onaccess_ctx :=
  match ScanThreadCtxes s !! i with
  | Some Arming => Some (if pending then move i Waiting (with_port (S (armed s)) (port s) s) else leave i true s)
  | _ => None
  end.

(** *** The driver, and [UserScanFinalize] *)

Definition deliver (m : scanner_message) (s : onaccess_ctx) : option onaccess_ctx :=
  match armed s with O => None | S n => Some (with_port n (port s ++ [Message m])%list s) end.

Definition set_finalized (s : onaccess_ctx) : option onaccess_ctx :=
  if Finalized s then None else Some (with_flags true (cancelled s) s).

Definition cancel_io (s : onaccess_ctx) : option onaccess_ctx :=
  if Finalized s && negb (cancelled s) then
    Some (with_flags true true (with_port 0 (port s ++ replicate (armed s) Cancelled)%list s))
  else None.

Inductive event :=
  | Deliver (m : scanner_message) | Take (i : nat) (sent : bool) | CheckFlag (i : nat) | GetMessage (i : nat) (pending : bool)
  | Finalize | CancelIo.

Definition step (s : onaccess_ctx) (e : event) : option onaccess_ctx :=
  match e with
  | Deliver m => deliver m s
  | Take i sent => take_message i sent s
  | CheckFlag i => check_finalized i s
  | GetMessage i pending => get_message i pending s
  | Finalize => set_finalized s
  | CancelIo => cancel_io s
  end.

Fixpoint run (es : list event) (s : onaccess_ctx) : option onaccess_ctx :=
  match es with [] => Some s | e :: es => s' ← step s e; run es s' end.

(** [WaitForMultipleObjects] returns when all have ended. *)
Definition finalized (s : onaccess_ctx) : Prop := Forall (eq Exited) (ScanThreadCtxes s).

(** ** What holds in every interleaving *)

Definition delivered (es : list event) : list scanner_message := omap (fun e => match e with Deliver m => Some m | _ => None end) es.
Definition queued (l : list completion) : list scanner_message := omap (fun c => match c with Message m => Some m | Cancelled => None end) l.
Definition count (w : worker) (s : onaccess_ctx) : nat := length (filter (eq w) (ScanThreadCtxes s)).

(** What is answered about a file: EINVAL when no drive holds it, what the scan says otherwise. *)
Definition verdict (name : string) : a6o_file_status :=
  match ConvertDeviceNameToMsDosName drives query_device (Some name) with None => A6O_FILE_EINVAL | Some p => scan p end.

Record driver_ok (s : onaccess_ctx) : Prop := {
  dr_threads : length (ScanThreadCtxes s) = USER_SCAN_THREAD_COUNT;
  dr_waiting : count Waiting s = armed s + length (port s);
  dr_buffers : armed s + length (port s) + count Replied s + count Arming s + freed s + forgotten s = USER_SCAN_THREAD_COUNT;
  dr_cancelled : cancelled s = true -> Finalized s = true;
  dr_replies : Forall (fun r => scanResult r = verdict (FileName (replied r))) (replies s);
}.

Definition same (w x : worker) : nat :=
  match w, x with Waiting, Waiting | Replied, Replied | Arming, Arming | Exited, Exited => 1 | _, _ => 0 end.

Lemma same_decide w x : same w x = if decide (w = x) then 1%nat else 0%nat.
Proof. by destruct w, x. Qed.

Lemma filter_insert (w x : worker) : forall l i y, l !! i = Some y ->
  (length (filter (eq w) (<[i := x]> l)) + (if decide (w = y) then 1 else 0) = length (filter (eq w) l) + (if decide (w = x) then 1 else 0))%nat.
Proof.
  induction l as [|z l IH]; intros [|i] y Hi; [done..| |]; cbn in Hi.
  - injection Hi as ->. cbn [insert list_insert]. rewrite !filter_cons. clear IH. repeat case_decide; subst; cbn [length]; try done; lia.
  - specialize (IH _ _ Hi). change (<[S i := x]> (z :: l)) with (z :: <[i := x]> l). rewrite !filter_cons. revert IH.
    repeat case_decide; cbn [length]; lia.
Qed.

(** A thread that moves is counted elsewhere. *)
Lemma count_change w x s s' i y :
  ScanThreadCtxes s !! i = Some y -> ScanThreadCtxes s' = <[i := x]> (ScanThreadCtxes s) ->
  (count w s' + same w y = count w s + same w x)%nat.
Proof. intros Hi E. unfold count. rewrite E, !same_decide. by apply filter_insert. Qed.

Lemma started_ok : driver_ok started.
Proof. split; [reflexivity..|discriminate|by constructor]. Qed.

Ltac counts Hi x :=
  match goal with |- driver_ok ?s' =>
    match type of Hi with ScanThreadCtxes ?s !! ?i = Some ?y =>
      pose proof (count_change Waiting x s s' i y Hi eq_refl) as HW;
      pose proof (count_change Replied x s s' i y Hi eq_refl) as HR;
      pose proof (count_change Arming x s s' i y Hi eq_refl) as HA; cbn in HW, HR, HA
    end
  end.

Lemma step_ok s e s' : driver_ok s -> step s e = Some s' -> driver_ok s'.
Proof.
  intros [Hl Hw Hb Hc Hr]. destruct e as [m|i sent|i|i pending| |]; cbn [step].
  - unfold deliver. destruct (armed s) as [|n] eqn:En; [done|]. intros [= <-].
    unfold count in *. split; try done; cbn in *; rewrite length_app; cbn; lia.
  - unfold take_message. destruct (ScanThreadCtxes s !! i) as [[]|] eqn:Hi; try done.
    destruct (port s) as [|[m|] rest] eqn:Ep; [done|unfold worker_message| ]; cbn in Hw, Hb.
    + intros E. assert (exists files, s' = with_reply (Reply m (verdict (FileName m)) sent) files (move i Replied (with_port (armed s) rest s))) as [files ->].
      { unfold verdict. destruct (ConvertDeviceNameToMsDosName _ _ _); injection E as <-; by eexists. }
      counts Hi Replied. split; [|unfold count in *; cbn in *; lia..|exact Hc|by apply Forall_app_2; [|repeat constructor]].
      cbn. by rewrite length_insert.
    + intros [= <-]. counts Hi Exited. split; [|unfold count in *; cbn in *; lia..|exact Hc|exact Hr]. cbn. by rewrite length_insert.
  - unfold check_finalized. destruct (ScanThreadCtxes s !! i) as [[]|] eqn:Hi; try done. intros [= <-].
    destruct (Finalized s) eqn:Ef.
    + counts Hi Exited. split; [|unfold count in *; cbn in *; lia..|intros _; exact Ef|exact Hr]. cbn. by rewrite length_insert.
    + counts Hi Arming. split; [|unfold count in *; cbn in *; lia..|intros ?%Hc; discriminate|exact Hr]. cbn. by rewrite length_insert.
  - unfold get_message. destruct (ScanThreadCtxes s !! i) as [[]|] eqn:Hi; try done. intros [= <-]. destruct pending.
    + counts Hi Waiting. split; [|unfold count in *; cbn in *; lia..|exact Hc|exact Hr]. cbn. by rewrite length_insert.
    + counts Hi Exited. split; [|unfold count in *; cbn in *; lia..|exact Hc|exact Hr]. cbn. by rewrite length_insert.
  - unfold set_finalized. destruct (Finalized s); [done|]. intros [= <-]. by split.
  - unfold cancel_io. destruct (Finalized s && _) eqn:E; [|done]. intros [= <-].
    split; try done; unfold count in *; cbn in *; rewrite length_app, length_replicate; lia.
Qed.

Lemma run_ok es s s' : driver_ok s -> run es s = Some s' -> driver_ok s'.
Proof.
  revert s. induction es as [|e es IH]; intros s Hs; cbn; [by intros [= <-]|].
  destruct (step s e) as [s1|] eqn:E; [|done]. cbn. intros H. apply (IH s1); [by eapply step_ok|done].
Qed.

(** The questions that came were answered in their order, or wait on the port. *)
Lemma step_answers s e s' :
  step s e = Some s' ->
  ((replied <$> replies s') ++ queued (port s') = ((replied <$> replies s) ++ queued (port s)) ++ delivered [e])%list.
Proof.
  destruct e as [m|i sent|i|i pending| |]; cbn [step delivered omap list_omap]; rewrite ?app_nil_r.
  - unfold deliver. destruct (armed s); [done|]. intros [= <-]. cbn. unfold queued. by rewrite list.omap_app, (assoc_L (++)).
  - unfold take_message. destruct (ScanThreadCtxes s !! i) as [[]|]; try done. destruct (port s) as [|[m|] rest]; try done.
    + destruct (worker_message _ _ _ _ _) as [r files]. intros [= <-]. cbn. by rewrite fmap_app, <- (assoc_L (++)).
    + by intros [= <-].
  - unfold check_finalized. destruct (ScanThreadCtxes s !! i) as [[]|]; try done. intros [= <-]. by destruct (Finalized s).
  - unfold get_message. destruct (ScanThreadCtxes s !! i) as [[]|]; try done. intros [= <-]. by destruct pending.
  - unfold set_finalized. destruct (Finalized s); [done|]. by intros [= <-].
  - unfold cancel_io. destruct (_ && _); [|done]. intros [= <-]. cbn. unfold queued. rewrite list.omap_app.
    assert (omap (fun c => match c with Message m => Some m | Cancelled => None end) (replicate (armed s) Cancelled) = []) as ->
      by (induction (armed s); done).
    by rewrite app_nil_r.
Qed.

Lemma run_answers es : forall s s', run es s = Some s' ->
  ((replied <$> replies s') ++ queued (port s') = ((replied <$> replies s) ++ queued (port s)) ++ delivered es)%list.
Proof.
  induction es as [|e es IH]; intros s s'; cbn [run]; [intros [= <-]; by rewrite app_nil_r|].
  destruct (step s e) as [s1|] eqn:E; [|done]. cbn [mbind option_bind]. intros H. rewrite (IH _ _ H), (step_answers _ _ _ E).
  change (e :: es) with ([e] ++ es)%list. unfold delivered. by rewrite list.omap_app, (assoc_L (++)).
Qed.


(** ** The end *)

(** After [CancelIoEx], no thread was about to put its buffer back. *)
Definition ending (s : onaccess_ctx) : Prop := cancelled s = true /\ armed s = 0 /\ count Arming s = 0.

(** The steps that are left to the threads. *)
Definition work_left (s : onaccess_ctx) : nat := 2 * count Waiting s + count Replied s.

Lemma count_in w s i : ScanThreadCtxes s !! i = Some w -> (0 < count w s)%nat.
Proof.
  intros Hi. unfold count. assert (w ∈ filter (eq w) (ScanThreadCtxes s)) as Hin
    by (apply list_elem_of_filter; split; [done|by eapply list_elem_of_lookup_2]).
  destruct (filter _ _); [by apply elem_of_nil in Hin|cbn; lia].
Qed.

Lemma ending_step s e s' : driver_ok s -> ending s -> step s e = Some s' -> ending s' /\ (work_left s' < work_left s)%nat.
Proof.
  intros Hs (Hc & Ha & Hn). pose proof (dr_cancelled s Hs Hc) as Hf. unfold ending, work_left.
  destruct e as [m|i sent|i|i pending| |]; cbn [step].
  - unfold deliver. by rewrite Ha.
  - unfold take_message. destruct (ScanThreadCtxes s !! i) as [[]|] eqn:Hi; try done. pose proof (count_in _ _ _ Hi).
    destruct (port s) as [|[m|] rest]; [done| |].
    + destruct (worker_message _ _ _ _ _) as [r files]. intros [= <-].
      set (s' := with_reply _ _ _).
      pose proof (count_change Waiting Replied s s' i _ Hi eq_refl). pose proof (count_change Replied Replied s s' i _ Hi eq_refl).
      pose proof (count_change Arming Replied s s' i _ Hi eq_refl). cbn [same] in *. split; [split_and!; [done..|lia]|lia].
    + intros [= <-]. set (s' := leave _ _ _).
      pose proof (count_change Waiting Exited s s' i _ Hi eq_refl). pose proof (count_change Replied Exited s s' i _ Hi eq_refl).
      pose proof (count_change Arming Exited s s' i _ Hi eq_refl). cbn [same] in *. split; [split_and!; [done..|lia]|lia].
  - unfold check_finalized. destruct (ScanThreadCtxes s !! i) as [[]|] eqn:Hi; try done. rewrite Hf. intros [= <-].
    set (s' := leave _ _ _).
    pose proof (count_change Waiting Exited s s' i _ Hi eq_refl). pose proof (count_change Replied Exited s s' i _ Hi eq_refl).
    pose proof (count_change Arming Exited s s' i _ Hi eq_refl). cbn [same] in *. split; [split_and!; [done..|lia]|lia].
  - unfold get_message. destruct (ScanThreadCtxes s !! i) as [[]|] eqn:Hi; try done. apply count_in in Hi. lia.
  - unfold set_finalized. by rewrite Hf.
  - unfold cancel_io. by rewrite Hf, Hc.
Qed.

(** When nothing can be done any more, the threads have ended. *)
Lemma ending_stuck s : driver_ok s -> ending s -> (forall e, step s e = None) -> finalized s.
Proof.
  intros Hs (Hc & Ha & Hn) Hstuck. apply list.Forall_forall. intros w Hin. destruct (list_elem_of_lookup_1 _ _ Hin) as [i Hi].
  destruct w; [exfalso..|done].
  - pose proof (count_in _ _ _ Hi) as H0. rewrite (dr_waiting s Hs), Ha in H0.
    specialize (Hstuck (Take i true)). cbn in Hstuck. unfold take_message in Hstuck. rewrite Hi in Hstuck.
    destruct (port s) as [|[m|] rest]; [cbn in H0; lia|by destruct (worker_message _ _ _ _ _)|done].
  - specialize (Hstuck (CheckFlag i)). cbn in Hstuck. unfold check_finalized in Hstuck. by rewrite Hi in Hstuck.
  - apply count_in in Hi. lia.
Qed.


End driver.

(** *** Samples *)

Definition sample_drives : list string := ["C:\"].
Definition sample_device (letter : string) : option string := if bool_decide (letter = "C:") then Some "\Device\HarddiskVolume1" else None.
Definition sample_scan (path : string) : a6o_file_status := if bool_decide (path = "C:\virus.exe") then A6O_FILE_MALWARE else A6O_FILE_CLEAN.
Definition sample_run : list event -> onaccess_ctx -> option onaccess_ctx := run sample_drives sample_device sample_scan.
Definition sample_question : scanner_message := ScannerMessage 7 "\Device\HarddiskVolume1\virus.exe".

(** One thread replies and puts its buffer back. *)
Definition one_turn : list event := [Deliver sample_question; Take 2 true; CheckFlag 2; GetMessage 2 true].


(** The service stops while a thread replies. *)
Definition stop_while_replying : list event := [Deliver sample_question; Take 0 true; Finalize; CancelIo].
Definition all_end : list event := Take 1 true :: Take 2 true :: Take 3 true :: Take 4 true :: Take 5 true :: [CheckFlag 0].

Definition stopping : onaccess_ctx := default started (sample_run stop_while_replying started).
Definition ended : onaccess_ctx := default started (sample_run all_end stopping).


(** The buffers that were cancelled are not freed. *)
Example buffers_forgotten :
  forgotten <$> sample_run (stop_while_replying ++ all_end) started = Some 5%nat.
Proof. reflexivity. Qed.

Definition late_buffer : list event :=
  [Deliver sample_question; Take 0 true; CheckFlag 0; Finalize; CancelIo; Take 1 true; Take 2 true; Take 3 true; Take 4 true;
   Take 5 true; GetMessage 0 true].
Definition hanging : onaccess_ctx := default started (sample_run late_buffer started).

(** A thread that read the flag just before it was set puts its buffer back after the others
    were cancelled: the service then waits for it, and only another question of the driver
    could end the wait. *)
Theorem finalize_may_hang :
  sample_run late_buffer started = Some hanging /\ cancelled hanging = true /\ ~ finalized hanging /\
  forall e, step sample_drives sample_device sample_scan hanging e <> None -> exists m, e = Deliver m.
Proof.
  assert (hanging = ltac:(let x := eval vm_compute in hanging in exact x)) as -> by (vm_compute; reflexivity).
  split; [vm_compute; reflexivity|]. split; [reflexivity|]. split; [by intros [? _]%list.Forall_cons|].
  intros [m|i sent|i|i pending| |] Hs; [by exists m|exfalso; apply Hs..]; try reflexivity; do 6 (destruct i as [|i]; [reflexivity|]); reflexivity.
Qed.

(** ** Starting the threads *)

Inductive hresult := S_OK | ERROR_IO_PENDING | HFAILED.

#[export] Instance hresult_eq_dec : EqDecision hresult.
Proof. solve_decision. Defined.

(** The allocations, the calls for each thread and each buffer, the port of the driver, the
    completion port. *)
Record scan_init_env := ScanInitEnv {
  heap_context : bool;
  heap_threads : bool;
  create_thread : nat -> bool;
  connect_port : bool;
  create_completion : bool;
  resume_thread : nat -> bool;
  heap_message : nat -> bool;
  filter_get_message : nat -> hresult;
}.

(** Whether [onAccessCtx] is there, the threads that were resumed, the buffers that wait, the
    handles that are open, and the flag of the on-access module, if it is loaded. *)
Record scan_init := ScanInit { context : bool; resumed : nat; pumped : nat; handles : nat; state_flag : option Z }.

Definition first_failure (ok : nat -> bool) : option nat := snd <$> list_find (fun i => ok i = false) (seq 0 USER_SCAN_THREAD_COUNT).

(** The end of a failure closes every handle and frees the contexts, but ends no thread. *)
Definition init_failed (resumed pumped : nat) (flag : option Z) : scan_init := ScanInit false resumed pumped 0 flag.

(** The turns of the last loop from [i] on: its result, and how many buffers wait. *)
Fixpoint pump (e : scan_init_env) (fuel i : nat) : hresult * nat :=
  match fuel with
  | O => (S_OK, i)
  | S fuel =>
      if negb (heap_message e i) then (HFAILED, i)
      else if bool_decide (filter_get_message e i = ERROR_IO_PENDING) then pump e fuel (S i)
      else (filter_get_message e i, i)
  end.

Definition UserScanInit (e : scan_init_env) (flag : option Z) : outcome (hresult * scan_init) :=
  if negb (heap_context e) then Fault NullDeref
  else if negb (heap_threads e) then Ok (HFAILED, init_failed 0 0 flag)
  else
    match first_failure (create_thread e) with
    | Some _ => Ok (HFAILED, init_failed 0 0 flag)
    | None =>
        if negb (connect_port e) || negb (create_completion e) then Ok (HFAILED, init_failed 0 0 flag)
        else
          match first_failure (resume_thread e) with
          | Some i => Ok (HFAILED, init_failed i 0 flag)
          | None =>
              let '(hRes, n) := pump e USER_SCAN_THREAD_COUNT 0 in
              if bool_decide (hRes <> S_OK) then Ok (hRes, init_failed USER_SCAN_THREAD_COUNT n flag)
              else
                let all := (n =? USER_SCAN_THREAD_COUNT)%nat in
                Ok (S_OK, ScanInit true USER_SCAN_THREAD_COUNT n (USER_SCAN_THREAD_COUNT + 2)
                      (if all then (toggle_onaccess_state true flag).2 else flag))
          end
    end.

(** [threads]: whether [ScanThreadCtxes] is there; whether the two ports could be closed.  The
    failure that is returned, whether the contexts of the threads are left, and the flag. *)
Definition UserScanFinalize (threads close_port close_completion : bool) (flag : option Z) : hresult * bool * option Z :=
  if negb threads then (S_OK, false, flag)
  else (if close_port && close_completion then S_OK else HFAILED, false, (toggle_onaccess_state true flag).2).

(** ** What starting and ending leave *)

Lemma pump_spec e : forall fuel i r n, pump e fuel i = (r, n) -> (i <= n <= i + fuel)%nat /\ (n < i + fuel -> r = filter_get_message e n \/ r = HFAILED)%nat.
Proof.
  induction fuel as [|fuel IH]; intros i r n; cbn [pump]; [intros [= <- <-]; lia|].
  destruct (heap_message e i); cbn [negb]; [|intros [= <- <-]; split; [lia|by right]].
  case_bool_decide; [|intros [= <- <-]; split; [lia|by left]]. intros H'%IH. destruct H' as [? H']. split; [lia|intros; apply H'; lia].
Qed.

(** Starting the threads either gives the context, eight handles and six threads, or leaves
    no handle open and no context; the flag changes only when all the buffers wait for the
    driver.  When starting fails after a thread was resumed, that thread runs without its
    contexts. *)
Theorem scan_init_outcome (e : scan_init_env) (flag : option Z) (hres : hresult) (c : scan_init) :
  UserScanInit e flag = Ok (hres, c) ->
  (hres = S_OK <-> context c = true) /\
  (hres = S_OK -> resumed c = USER_SCAN_THREAD_COUNT /\ handles c = USER_SCAN_THREAD_COUNT + 2)%nat /\
  (hres <> S_OK -> handles c = 0%nat) /\
  (state_flag c <> flag -> hres = S_OK /\ pumped c = USER_SCAN_THREAD_COUNT) /\
  ((0 < resumed c)%nat -> hres <> S_OK -> connect_port e = true /\ create_completion e = true).
Proof.
  unfold UserScanInit. destruct (heap_context e); cbn [negb]; [|done].
  destruct (heap_threads e); cbn [negb]; [|intros [= <- <-]; split_and!; done || cbn; lia].
  destruct (first_failure (create_thread e)); [intros [= <- <-]; split_and!; done || cbn; lia|].
  destruct (connect_port e); cbn [negb orb]; [|intros [= <- <-]; split_and!; done || cbn; lia].
  destruct (create_completion e); cbn [negb orb]; [|intros [= <- <-]; split_and!; done || cbn; lia].
  destruct (first_failure (resume_thread e)) as [k|]; [intros [= <- <-]; split_and!; done|].
  destruct (pump e USER_SCAN_THREAD_COUNT 0) as [r n]. case_bool_decide as Hr; [intros [= <- <-]; by split_and!|].
  intros [= <- <-]. cbn [context resumed handles pumped state_flag]. split_and!; try done.
  destruct (Nat.eqb_spec n USER_SCAN_THREAD_COUNT); [done|by intros []].
Qed.

Lemma scan_init_outcome_witness :
  let e := ScanInitEnv true true (fun _ => true) true true (fun i => i <? 2)%nat (fun _ => true) (fun _ => ERROR_IO_PENDING) in
  UserScanInit e (Some 0%Z) = Ok (HFAILED, ScanInit false 2 0 0 (Some 0%Z)) /\ (HFAILED <> S_OK -> 0 = 0)%nat.
Proof.
  intros e. assert (UserScanInit e (Some 0%Z) = Ok (HFAILED, ScanInit false 2 0 0 (Some 0%Z))) as E by reflexivity.
  split; [exact E|]. exact (proj1 (proj2 (proj2 (scan_init_outcome e (Some 0%Z) _ _ E)))).
Defined.

(** A [FilterGetMessage] that answers at once with success ends the start, with success:
    fewer buffers wait than there are threads, and the module is not told. *)
Example half_started :
  UserScanInit (ScanInitEnv true true (fun _ => true) true true (fun _ => true) (fun _ => true)
    (fun i => if (i =? 1)%nat then S_OK else ERROR_IO_PENDING)) (Some 0%Z) = Ok (S_OK, ScanInit true 6 1 8 (Some 0%Z)).
Proof. reflexivity. Qed.

(** Starting and ending give the module its flag back. *)
Lemma flag_restored (e : scan_init_env) (flag : Z) (c : scan_init) :
  flag = 0%Z \/ flag = 1%Z -> UserScanInit e (Some flag) = Ok (S_OK, c) -> pumped c = USER_SCAN_THREAD_COUNT ->
  forall p q, (UserScanFinalize true p q (state_flag c)).2 = Some flag.
Proof.
  intros Hflag. unfold UserScanInit. destruct (heap_context e), (heap_threads e); cbn [negb]; try done.
  destruct (first_failure _); [done|]. destruct (_ || _); [done|]. destruct (first_failure _); [done|].
  destruct (pump _ _ _) as [r n]. case_bool_decide; [by intros [= ->]|]. intros [= <-]. cbn [pumped]. intros ->.
  by destruct Hflag as [-> | ->].
Qed.
