(* ===== verification/WinMods.v ===== *)
(** * The builtin modules on-access and on-demand, on Windows
    ([src/libcore/arch/windows/builtin-modules/on-access/onaccessmod.c],
    [on-demand/ondemandmod.c])

    The module on-demand is that of Linux.  The module on-access has no monitor: its data
    are the flag that the service toggles (WinService.v) and the setting [enable]; it fills
    the on-access scan configuration.  The function that gives its state writes fields that
    [struct a6o_module_info] does not have any more; only what it returns is modelled. *)
From S2P Require Import Prelude Status ConfVal Conf Module ScanConf Settings OnDemandMod.

#[local] Open Scope string_scope.
#[local] Open Scope Z_scope.

Record onaccess_data := OnAccessData { enable_permission : Z; state_flag : Z }.

(** A world that holds the scan configurations and the data of the module on-access, which
    are not there before it is initialised. *)
Class WinOnAccessWorld (W : Type) `{HasScanConfs W} := {
  get_data : W -> option onaccess_data;
  put_data : option onaccess_data -> W -> W;
  get_put_data : forall d w, get_data (put_data d w) = d;
  get_data_put_confs : forall cs w, get_data (put_confs cs w) = get_data w;
  get_confs_put_data : forall d w, get_confs (put_data d w) = get_confs w;
}.

(** ** The module on-access *)

Section on_access.
Context {W : Type} `{WinOnAccessWorld W}.
Implicit Types (w : W) (by_name : string -> option nat) (key : string) (value : a6o_conf_value).

Definition win_on_access_update (f : a6o_scan_conf -> a6o_scan_conf) w : W :=
  put_confs (a6o_scan_conf_on_access (get_confs w) f) w.

Definition mod_onaccess_init w : outcome (a6o_mod_status * W) := Ok (A6O_MOD_OK, put_data (Some (OnAccessData 0 0)) w).

Definition mod_onaccess_conf_set_enable_on_access by_name key value w : outcome (a6o_mod_status * W) :=
  z ← value_int value;
  match get_data w with
  | None => Fault NullDeref
  | Some d => Ok (A6O_MOD_OK, put_data (Some (OnAccessData z (state_flag d))) w)
  end.

Definition mod_onaccess_conf_modules by_name key value w : outcome (a6o_mod_status * W) :=
  l ← value_strings value;
  Ok (A6O_MOD_OK, win_on_access_update (fun c => fold_left (fun c m => a6o_scan_conf_add_module c m by_name) l c) w).

Definition mod_onaccess_conf_max_size by_name key value w : outcome (a6o_mod_status * W) :=
  z ← value_int value;
  Ok (A6O_MOD_OK, win_on_access_update (fun c => a6o_scan_conf_max_file_size c z) w).

Definition mod_onaccess_conf_mime_types by_name key value w : outcome (a6o_mod_status * W) :=
  l ← value_strings value;
  Ok (A6O_MOD_OK, win_on_access_update (fun c => fold_left a6o_scan_conf_add_mime_type l c) w).

(** The pointer of the module is kept. *)
Definition mod_onaccess_close w : a6o_mod_status * W := (A6O_MOD_OK, w).

(** What the function returns. *)
Definition mod_onaccess_info w : outcome a6o_update_status :=
  match get_data w with
  | None => Fault NullDeref
  | Some d => Ok (if state_flag d =? 0 then A6O_UPDATE_NON_AVAILABLE else A6O_UPDATE_OK)
  end.

Definition mod_onaccess_conf_table : list (a6o_conf_entry W) :=
  let INT := a6o_conf_value_type_val CONF_TYPE_INT in
  [ConfEntry "enable" INT (Some mod_onaccess_conf_set_enable_on_access);
   ConfEntry "modules" STRING_OR_LIST (Some mod_onaccess_conf_modules);
   ConfEntry "mime-types" STRING_OR_LIST (Some mod_onaccess_conf_mime_types);
   ConfEntry "max-size" INT (Some mod_onaccess_conf_max_size)].

End on_access.

(** ** The module on-demand *)

Section on_demand.
Context {W : Type} `{HasScanConfs W}.

Definition win_on_demand_white_list_dir (by_name : string -> option nat) (key : string) (value : a6o_conf_value) (w : W)
    : outcome (a6o_mod_status * W) :=
  l ← value_strings value;
  Ok (A6O_MOD_OK, put_confs (a6o_scan_conf_on_demand (get_confs w) (fun c => fold_left a6o_scan_conf_white_list_directory l c)) w).

Definition win_on_demand_modules (by_name : string -> option nat) (key : string) (value : a6o_conf_value) (w : W)
    : outcome (a6o_mod_status * W) :=
  l ← value_strings value;
  Ok (A6O_MOD_OK, put_confs (a6o_scan_conf_on_demand (get_confs w) (fun c => fold_left (fun c m => a6o_scan_conf_add_module c m by_name) l c)) w).

Definition win_on_demand_mime_types (by_name : string -> option nat) (key : string) (value : a6o_conf_value) (w : W)
    : outcome (a6o_mod_status * W) :=
  l ← value_strings value;
  Ok (A6O_MOD_OK, put_confs (a6o_scan_conf_on_demand (get_confs w) (fun c => fold_left a6o_scan_conf_add_mime_type l c)) w).

Definition win_on_demand_max_size (by_name : string -> option nat) (key : string) (value : a6o_conf_value) (w : W)
    : outcome (a6o_mod_status * W) :=
  z ← value_int value;
  Ok (A6O_MOD_OK, put_confs (a6o_scan_conf_on_demand (get_confs w) (fun c => a6o_scan_conf_max_file_size c z)) w).

Definition win_on_demand_conf_table : list (a6o_conf_entry W) :=
  [ConfEntry "white-list-dir" STRING_OR_LIST (Some win_on_demand_white_list_dir);
   ConfEntry "modules" STRING_OR_LIST (Some win_on_demand_modules);
   ConfEntry "mime-types" STRING_OR_LIST (Some win_on_demand_mime_types);
   ConfEntry "max-size" (a6o_conf_value_type_val CONF_TYPE_INT) (Some win_on_demand_max_size)].

(** Both systems configure on-demand scans in the same way. *)
Lemma win_on_demand_same : win_on_demand_conf_table = on_demand_conf_table.
Proof. reflexivity. Qed.

End on_demand.

(** ** What the settings of on-access amount to *)

Section configured.
Context {W : Type} `{WinOnAccessWorld W}.
Implicit Types w : W.

Definition oa_conf w : a6o_scan_conf := get_conf (on_access_conf (get_confs w)) "on-access scan configuration".

Lemma oa_conf_update f w : oa_conf (win_on_access_update f w) = f (oa_conf w).
Proof. unfold oa_conf, win_on_access_update. by rewrite get_put_confs. Qed.

Lemma data_update f w : get_data (win_on_access_update f w) = get_data w.
Proof. apply get_data_put_confs. Qed.

(** The settings that the table knows. *)
Definition known (st : setting) : Prop := st.1 <> ("on-access", "white-list-dir").

#[local] Instance known_dec st : Decision (known st).
Proof. unfold known. apply _. Defined.

Definition win_configured (by_name : string -> option nat) (l : list setting) (c : a6o_scan_conf) : a6o_scan_conf :=
  configured by_name "on-access" (filter known l) c.

Variable mm : module_manager W.
#[local] Abbreviation by_name := (module_manager_get_module_by_name mm).

Definition on_access_registered : Prop :=
  exists i m, by_name "on-access" = Some i /\ mm_modules mm !! i = Some m /\ mod_conf_table m = Some mod_onaccess_conf_table.

(** What is observed: the scan configuration, and the data. *)
Definition observed w (x : a6o_scan_conf * onaccess_data) : Prop := oa_conf w = x.1 /\ get_data w = Some x.2.

Definition effect (x : a6o_scan_conf * onaccess_data) (st : setting) : a6o_scan_conf * onaccess_data :=
  (win_configured by_name [st] x.1, OnAccessData (int_given id "on-access" "enable" (enable_permission x.2) st) (state_flag x.2)).

(** A setting of the list of white-listed directories changes nothing, the others what they
    change on Linux. *)
Lemma win_configured_one k v c :
  win_configured by_name [("on-access", k, v)] c =
  if decide (k = "white-list-dir") then c else configured by_name "on-access" [("on-access", k, v)] c.
Proof.
  unfold win_configured. destruct (decide (k = "white-list-dir")) as [->|Hk].
  - rewrite filter_cons_False by (unfold known; cbn; tauto). apply configured_nil.
  - by rewrite list.filter_cons_True by (unfold known; cbn; congruence).
Qed.

Lemma win_configured_fold l c : win_configured by_name l c = fold_left (fun c st => win_configured by_name [st] c) l c.
Proof.
  revert c. induction l as [|st l IH]; intros c; [apply configured_nil|]. cbn [fold_left]. rewrite <- IH.
  unfold win_configured. change (st :: l) with ([st] ++ l)%list. by rewrite list.filter_app, configured_app.
Qed.

Lemma effect_other s k v x : s <> "on-access" -> effect x (s, k, v) = x.
Proof.
  intros Hs. unfold effect, win_configured. rewrite list.filter_cons_True by (unfold known; cbn; congruence).
  cbn [filter list_filter]. rewrite configured_other by (by left). rewrite int_given_other by (by left). by destruct x as [? []].
Qed.

Lemma conf_fun_win_on_access k v w x :
  on_access_registered -> v <> CvString None -> observed w x ->
  exists w', module_conf_fun mm "on-access" k v w = Ok w' /\ observed w' (effect x ("on-access", k, v)).
Proof.
  intros (i & m & Hi & Hm & Ht) Hv Hx. unfold module_conf_fun. rewrite Hi. simpl. rewrite Hm, Ht.
  unfold find_conf_entry. cbn [list_find mod_onaccess_conf_table ce_key]. destruct x as [c [z0 f]]. destruct Hx as [Hc Hd]. cbn [fst snd] in *.
  assert (forall w' c' z', oa_conf w' = c' -> get_data w' = Some (OnAccessData z' f) -> c' = win_configured by_name [("on-access", k, v)] c ->
    z' = int_given id "on-access" "enable" z0 ("on-access", k, v) ->
    exists w'', Ok w' = Ok w'' /\ observed w'' (effect (c, OnAccessData z0 f) ("on-access", k, v))) as Hdone.
  { intros w' c' z' H1 H2 H3 H4. exists w'. split; [done|]. unfold effect. split; cbn [fst snd enable_permission state_flag]; congruence. }
  rewrite win_configured_one in Hdone.
  destruct (decide ("enable" = k)) as [<-|H1]; [|destruct (decide ("modules" = k)) as [<-|H2];
    [|destruct (decide ("mime-types" = k)) as [<-|H3]; [|destruct (decide ("max-size" = k)) as [<-|H4]]]].
  5: { cbn. eapply Hdone; [exact Hc|exact Hd| |by rewrite int_given_other by (right; left; congruence)].
       destruct (decide _); [done|]. symmetry. apply configured_other. right. right. split_and!; congruence. }
  1: { rewrite decide_False in Hdone by done.
       cbn; destruct v as [|z|[x|]|l]; try done; cbn; rewrite ?Hd; cbn; (eapply Hdone;
       [rewrite ?get_confs_put_data; unfold oa_conf; rewrite ?get_confs_put_data; exact Hc| rewrite ?get_put_data; (exact Hd || reflexivity)
       |symmetry; apply configured_other; right; right; split_and!; done|]); try (by rewrite int_given_other by (right; right; done)).
       by rewrite int_given_here. }
  all: rewrite decide_False in Hdone by done; cbn; destruct v as [|z|[x|]|l]; try done; cbn;
    (eapply Hdone; [first [apply oa_conf_update|reflexivity]|rewrite ?data_update; exact Hd| |
      by rewrite int_given_other by (right; left; done)]); rewrite ?Hc; try (by rewrite configured_ill_typed); symmetry.
  - by apply (configured_modules _ _ (CvString (Some x)) [x]).
  - by apply (configured_modules _ _ (CvList l) l).
  - by apply (configured_mime_types _ _ (CvString (Some x)) [x]).
  - by apply (configured_mime_types _ _ (CvList l) l).
  - apply configured_max_size.
Qed.

(** What the functions of the other modules do is not seen. *)
Definition others_unseen : Prop :=
  forall s k v w x, s <> "on-access" -> observed w x -> exists w', module_conf_fun mm s k v w = Ok w' /\ observed w' x.

(** On Windows the section on-access fills the scan configuration as on Linux, but for the
    white list, which its module does not know: the directories it names are scanned. *)
Theorem win_on_access_configured (conf : a6o_conf) (w : W) (c : a6o_scan_conf) (d : onaccess_data)
    (Hreg : on_access_registered) (Hothers : others_unseen)
    (Hstrings : Forall (fun '(s, k, v) => v <> CvString None) (settings conf)) (Hw : observed w (c, d)) :
  exists w', module_manager_configure_all mm conf w = Ok (0, w') /\
    observed w' (win_configured by_name (settings conf) c,
                 OnAccessData (last_int id "on-access" "enable" (enable_permission d) (settings conf)) (state_flag d)).
Proof.
  unfold module_manager_configure_all. rewrite conf_apply_settings.
  destruct (fold_settings (module_conf_fun mm) observed effect (settings conf)) with w (c, d) as (w' & -> & E); [|exact Hw|].
  - eapply list.Forall_impl; [exact Hstrings|]. intros [[s k] v] Hv w1 x Hx.
    destruct (decide (s = "on-access")) as [->|Hs]; [by apply conf_fun_win_on_access|]. rewrite effect_other by done. by apply Hothers.
  - exists w'. split; [done|]. rewrite win_configured_fold. unfold last_int.
    assert (forall l c d, fold_left effect l (c, d) = (fold_left (fun c st => win_configured by_name [st] c) l c,
      OnAccessData (fold_left (int_given id "on-access" "enable") l (enable_permission d)) (state_flag d))) as Hf.
    { intros l. induction l as [|st l IH]; intros c1 d1; [by destruct d1|]. cbn [fold_left]. unfold effect at 2. cbn [fst snd]. by rewrite IH. }
    by rewrite Hf in E.
Qed.

End configured.

(** ** A sample *)

#[export] Program Instance pair_confs : HasScanConfs (scan_confs * option onaccess_data) :=
  {| get_confs := fst; put_confs := fun cs w => (cs, w.2) |}.
Solve Obligations with done.

#[export] Program Instance pair_world : WinOnAccessWorld (scan_confs * option onaccess_data) :=
  {| get_data := snd; put_data := fun d w => (w.1, d) |}.
Solve Obligations with done.

Definition win_module (name : string) (table : option (list (a6o_conf_entry (scan_confs * option onaccess_data)))) :
    a6o_module (scan_confs * option onaccess_data) :=
  {| mod_init_fun := None; mod_conf_table := table; mod_post_init_fun := None; mod_scan_fun := None; mod_close_fun := None;
     mod_info_fun := None; mod_supported_mime_types := Some ["*"]; mod_name := name; mod_size := 8; mod_status := A6O_MOD_OK;
     mod_data_allocated := true |}.

Definition win_manager : module_manager (scan_confs * option onaccess_data) :=
  {| mm_modules := [win_module "on-access" (Some mod_onaccess_conf_table); win_module "clamav" None] |}.

Definition win_settings : a6o_conf :=
  {| sections := [{| s_section := "on-access"; s_keys :=
       [{| k_key := "enable"; k_value := CvInt 1 |}; {| k_key := "modules"; k_value := CvList ["clamav"; "none"] |};
        {| k_key := "white-list-dir"; k_value := CvList ["C:\Windows"] |}] |};
       {| s_section := "clamav"; s_keys := [{| k_key := "dbdir"; k_value := CvInt 3 |}] |}] |}.

(** The white list stays empty. *)
Lemma win_on_access_configured_witness :
  exists w', module_manager_configure_all win_manager win_settings (no_confs, Some (OnAccessData 0 0)) = Ok (0, w') /\
    observed w' ({| sc_name := "on-access scan configuration"; sc_max_file_size := 0; sc_mime_types := []; sc_modules := [1%nat];
                    sc_mime_type_cache := ∅; sc_directories_white_list := [] |}, OnAccessData 1 0).
Proof.
  match goal with |- context [observed _ (?c, _)] => replace c with
    (win_configured (module_manager_get_module_by_name win_manager) (settings win_settings) (oa_conf (no_confs, Some (OnAccessData 0 0))))
    by (vm_compute; reflexivity) end.
  apply (win_on_access_configured win_manager win_settings (no_confs, Some (OnAccessData 0 0)) _ (OnAccessData 0 0)).
  - by exists 0%nat, (win_module "on-access" (Some mod_onaccess_conf_table)).
  - intros s k v w x Hs Hx. exists w. split; [|done]. unfold module_conf_fun, module_manager_get_module_by_name.
    simpl. rewrite decide_False by done. simpl. by case_decide.
  - by repeat constructor.
  - done.
Defined.
