(* ===== verification/WinControl.v ===== *)
(** * The control of the Windows service ([src/arch/windows/service/service.c], [scan_ondemand.c])

    Two sides of one protocol.  In the process of the service, the handler of the controls
    loads and unloads the antivirus and reports each change of state to the service control
    manager (SCM).  In the process of a command ([--start], [--stop], [--pause],
    [--continue]), a client asks the SCM for a change and waits for it: what the SCM and the
    clock answer is an environment, question after question, and the handles that are opened
    and closed are counted. *)
From S2P Require Import Prelude ConfVal Conf.

#[local] Open Scope string_scope.
#[local] Open Scope Z_scope.

(** ** Loading and unloading the Windows service
    ([src/arch/windows/service/service.c], [scan_ondemand.c])

    What the service keeps between two controls, in [gScanContext], and the two procedures
    that fill and empty it.  On Windows a message of level ERROR does not abort: every
    failure has its return code.  The calls of Windows that can fail are parameters. *)

(** [gScanContext], and how many libraries are open. *)
Record scan_context := ScanContext { armadito : bool; onDemandCtx : bool; onAccessCtx : bool; libraries : nat }.

Definition empty_context : scan_context := ScanContext false false false 0.

(** Whether the two contexts are allocated, the main thread is created, and resumed. *)
Record ihm_env := IhmEnv { ihm_context : bool; ihm_main : bool; ihm_thread : bool; ihm_resume : bool }.

Definition with_ihm (b : bool) (c : scan_context) : scan_context :=
  {| armadito := armadito c; onDemandCtx := b; onAccessCtx := onAccessCtx c; libraries := libraries c |}.

(** The end of a failure reads [MainThreadCtx->Handle] and writes [ScanThreadCtx->Handle]
    before it tests them: only a thread that could not be created, whose handle is NULL and
    not INVALID_HANDLE_VALUE, fails properly, in [ResumeThread]. *)
Definition Start_IHM_Connection (e : ihm_env) (c : scan_context) : outcome (Z * scan_context) :=
  if negb (armadito c) then Ok (-1, c)
  else if negb (ihm_context e) then Fault NullDeref
  else if negb (ihm_main e) then Fault NullDeref
  else if ihm_thread e && ihm_resume e then Ok (0, with_ihm true c)
  else if ihm_thread e then Fault NullDeref
  else Ok (-4, with_ihm false c).

Definition Close_IHM_Connection (c : scan_context) : Z := 0.

(** The path of the configuration file, the files, the library, the connection to the driver
    and that of the interface; [svc_mode]: not the test of the interface. *)
Record load_env := LoadEnv {
  conf_path : option string;
  conf_content : string -> option (list ascii);
  library_opens : a6o_conf -> bool;
  driver_connects : bool;
  ihm : ihm_env;
}.

Definition ServiceLoadProcedure (svc_mode : bool) (e : load_env) (c : scan_context) : outcome (Z * scan_context) :=
  match conf_path e with
  | None => Ok (-3, c)
  | Some conffile =>
      r ← a6o_conf_load_file a6o_conf_new (conf_content e conffile);
      let conf := r.2 in
      if negb (library_opens e conf) then Ok (-1, c)
      else
        let onaccess_enable := u32 (a6o_conf_get_uint conf "on-access" "enable") in
        let on_access := negb (onaccess_enable =? 0) && svc_mode in
        if on_access && negb (driver_connects e) then Ok (-2, ScanContext true false false (S (libraries c)))
        else
          r ← Start_IHM_Connection (ihm e) (ScanContext true false on_access (S (libraries c)));
          if r.1 <? 0 then Ok (-3, r.2) else Ok (0, r.2)
  end.

(** [finalize_ok]: the threads of the driver could be finalized.  The code of their failure
    is replaced by that of the interface. *)
Definition ServiceUnloadProcedure (finalize_ok : bool) (c : scan_context) : Z * scan_context :=
  let ret := if onAccessCtx c && negb finalize_ok then -1 else 0 in
  let ret := if onDemandCtx c then Close_IHM_Connection c else ret in
  (ret, ScanContext false false false (if armadito c then pred (libraries c) else libraries c)).

(** The keys of [LaunchCmdLineService]; at the end of the input [getchar] fails for ever. *)
Section command_line.
Variable load : scan_context -> outcome (Z * scan_context).
Variable unload : scan_context -> Z * scan_context.

Fixpoint command_loop (input : list ascii) (c : scan_context) : outcome scan_context :=
  match input with
  | [] => Fault Diverges
  | "q"%char :: _ => Ok (unload c).2
  | "p"%char :: input => let '(ret, c) := unload c in if ret =? 0 then command_loop input c else Ok (unload c).2
  | "c"%char :: input => r ← load c; command_loop input r.2
  | _ :: input => command_loop input c
  end.

Definition LaunchCmdLineService (input : list ascii) (c : scan_context) : outcome (Z * scan_context) :=
  r ← load c;
  if r.1 <? 0 then Ok (0, (unload r.2).2)
  else c ← command_loop input r.2; Ok (0, c).

End command_line.

(** ** What loading and unloading leave *)

(** A library is open for the context, and no other. *)
Definition context_ok (c : scan_context) : Prop :=
  libraries c = (if armadito c then 1 else 0)%nat /\ (armadito c = false -> onDemandCtx c = false /\ onAccessCtx c = false).

Lemma empty_context_ok : context_ok empty_context.
Proof. done. Qed.

Lemma unload_empties finalize_ok c : context_ok c -> (ServiceUnloadProcedure finalize_ok c).2 = empty_context.
Proof. intros [Hl _]. unfold ServiceUnloadProcedure, empty_context. cbn. rewrite Hl. by destruct (armadito c). Qed.

(** Loading what is not loaded gives a sound context; it returns 0 exactly when the library
    and the interface are there.  A failure may leave the library open. *)
Lemma load_empty svc_mode e ret c :
  ServiceLoadProcedure svc_mode e empty_context = Ok (ret, c) ->
  context_ok c /\ ret <= 0 /\ (ret = 0 <-> armadito c = true /\ onDemandCtx c = true).
Proof.
  unfold ServiceLoadProcedure. destruct (conf_path e) as [p|]; [|intros [= <- <-]; repeat split; done || lia || naive_solver].
  intros (r & _ & E)%bind_Ok_inv. destruct (library_opens e r.2); cbn [negb] in E;
    [|injection E as <- <-; repeat split; done || lia || naive_solver].
  case_match; [injection E as <- <-; repeat split; done || lia || naive_solver|].
  apply bind_Ok_inv in E as ([ret' c'] & E' & E). unfold Start_IHM_Connection in E'. cbn [armadito negb] in E'.
  destruct (ihm_context (ihm e)), (ihm_main (ihm e)), (ihm_thread (ihm e)), (ihm_resume (ihm e)); cbn in E'; try done;
    injection E' as <- <-; cbn in E; injection E as <- <-; repeat split; done || lia || naive_solver.
Qed.

(** Without the setting, on-access scanning is started: -1 is not 0. *)
Theorem missing_setting_enables (e : load_env) (p : string) (c : scan_context) :
  conf_path e = Some p -> conf_content e p = None -> library_opens e a6o_conf_new = true -> driver_connects e = true ->
  ihm e = IhmEnv true true true true ->
  ServiceLoadProcedure true e c = Ok (0, ScanContext true true true (S (libraries c))).
Proof. intros Hp Hf Ho Hd Hi. unfold ServiceLoadProcedure. rewrite Hp, Hf. cbn. rewrite Ho, Hd, Hi. done. Qed.

(** What is open, with the loads that succeed and leave the library open. *)
Definition sample_env : load_env := LoadEnv (Some "a6o.conf") (fun _ => None) (fun _ => true) true (IhmEnv true true true true).

(** Continuing what was not paused opens the library again, and forgets the first. *)
Example continued_twice :
  (r ← LaunchCmdLineService (ServiceLoadProcedure true sample_env) (ServiceUnloadProcedure true) (bytes "cq") empty_context;
   Ok (libraries r.2)) = Ok 1%nat.
Proof. reflexivity. Qed.

(** The main thread cannot be resumed: the failure is not reported but crashes. *)
Example resume_failure_crashes :
  Start_IHM_Connection (IhmEnv true true true false) (ScanContext true false false 1) = Fault NullDeref.
Proof. reflexivity. Qed.

#[local] Close Scope string_scope.

(** ** The states of the service *)

Inductive service_state :=
  | SERVICE_STOPPED | SERVICE_START_PENDING | SERVICE_STOP_PENDING | SERVICE_RUNNING
  | SERVICE_CONTINUE_PENDING | SERVICE_PAUSE_PENDING | SERVICE_PAUSED.

#[export] Instance service_state_eq_dec : EqDecision service_state.
Proof. solve_decision. Defined.

Definition SERVICE_ACCEPT_STOP : Z := 1.
Definition SERVICE_ACCEPT_PAUSE_CONTINUE : Z := 2.

Definition SERVICE_CONTROL_STOP : Z := 1.
Definition SERVICE_CONTROL_PAUSE : Z := 2.
Definition SERVICE_CONTROL_CONTINUE : Z := 3.
Definition SERVICE_CONTROL_INTERROGATE : Z := 4.

Record service_status := ServiceStatus {
  dwCurrentState : service_state;
  dwControlsAccepted : Z;
  dwWin32ExitCode : Z;
  dwCheckPoint : Z;
  dwWaitHint : Z;
}.

(** ** The process of the service *)

(** [gSvcStatus], the static check point of [ReportSvcStatus], what [SetServiceStatus] was
    given (the last first), [gScanContext] and whether [ghSvcStopEvent] is set. *)
Record service := Service {
  gSvcStatus : service_status;
  next_check_point : Z;
  reports : list service_status;
  gScanContext : scan_context;
  stop_event : bool;
}.

Definition ReportSvcStatus (state : service_state) (exit_code wait_hint : Z) (s : service) : service :=
  let settled := bool_decide (state = SERVICE_RUNNING) || bool_decide (state = SERVICE_STOPPED) in
  let status :=
    {| dwCurrentState := state;
       dwControlsAccepted :=
         if bool_decide (state = SERVICE_START_PENDING) then 0 else Z.lor SERVICE_ACCEPT_STOP SERVICE_ACCEPT_PAUSE_CONTINUE;
       dwWin32ExitCode := exit_code;
       dwCheckPoint := if settled then 0 else next_check_point s;
       dwWaitHint := wait_hint |} in
  {| gSvcStatus := status;
     next_check_point := if settled then next_check_point s else u32 (next_check_point s + 1);
     reports := status :: reports s; gScanContext := gScanContext s; stop_event := stop_event s |}.

Definition with_context (c : scan_context) (s : service) : service :=
  {| gSvcStatus := gSvcStatus s; next_check_point := next_check_point s; reports := reports s; gScanContext := c; stop_event := stop_event s |}.

Definition set_stop_event (s : service) : service :=
  {| gSvcStatus := gSvcStatus s; next_check_point := next_check_point s; reports := reports s; gScanContext := gScanContext s; stop_event := true |}.

(** What an operation of the process meets: the load, whether the threads of the driver are
    finalized, and whether a [ServiceStop] reaches a service that is not stopped. *)
Record process_env := ProcessEnv { loading : load_env; finalize_ok : bool; stop_reaches : bool }.

Section process.
Variable env : process_env.

Definition unload (s : service) : service := with_context (ServiceUnloadProcedure (finalize_ok env) (gScanContext s)).2 s.

(** [ServiceStop] called by the service itself unloads; the control it asks for comes back
    later, as one more control. *)
Definition stop_itself (s : service) : service := if stop_reaches env then unload s else s.

Definition load_or_stop (s : service) : outcome service :=
  r ← ServiceLoadProcedure true (loading env) (gScanContext s);
  Ok (if r.1 <? 0 then stop_itself (with_context r.2 s) else with_context r.2 s).

Definition ServiceCtrlHandler (dwCtrl : Z) (s : service) : outcome service :=
  if dwCtrl =? SERVICE_CONTROL_PAUSE then
    Ok (ReportSvcStatus SERVICE_PAUSED 0 0 (unload (ReportSvcStatus SERVICE_PAUSE_PENDING 0 0 s)))
  else if dwCtrl =? SERVICE_CONTROL_CONTINUE then
    load_or_stop (ReportSvcStatus SERVICE_RUNNING 0 0 (ReportSvcStatus SERVICE_START_PENDING 0 0 s))
  else if dwCtrl =? SERVICE_CONTROL_STOP then
    Ok (ReportSvcStatus SERVICE_STOPPED 0 0 (set_stop_event (unload (ReportSvcStatus SERVICE_STOP_PENDING 0 0 s))))
  else Ok s.

Definition PerformServiceAction (s : service) : outcome service := load_or_stop s.

(** [event]: whether [CreateEvent] succeeds. *)
Definition ServiceInit (event : bool) (s : service) : service :=
  if event then ReportSvcStatus SERVICE_RUNNING 0 0 s else ReportSvcStatus SERVICE_STOPPED 0 0 s.

(** [registered]: whether the handler could be registered. *)
Definition ServiceMain (registered event : bool) (s : service) : outcome service :=
  if negb registered then Ok (stop_itself s)
  else PerformServiceAction (ServiceInit event (ReportSvcStatus SERVICE_START_PENDING 0 3000 s)).

End process.

(** The service before [ServiceMain]: the globals are zero. *)
Definition service_new : service :=
  {| gSvcStatus := ServiceStatus SERVICE_STOPPED 0 0 0 0; next_check_point := 1; reports := []; gScanContext := empty_context; stop_event := false |}.

(** The controls the SCM gives the handler: those that were accepted, in a state that can
    accept one; it can always ask for the state. *)
Definition delivers (st : service_status) (dwCtrl : Z) : bool :=
  if dwCtrl =? SERVICE_CONTROL_INTERROGATE then true
  else if bool_decide (dwCurrentState st ∈ [SERVICE_STOPPED; SERVICE_START_PENDING; SERVICE_STOP_PENDING]) then false
  else if dwCtrl =? SERVICE_CONTROL_STOP then negb (Z.land (dwControlsAccepted st) SERVICE_ACCEPT_STOP =? 0)
  else ((dwCtrl =? SERVICE_CONTROL_PAUSE) || (dwCtrl =? SERVICE_CONTROL_CONTINUE)) &&
       negb (Z.land (dwControlsAccepted st) SERVICE_ACCEPT_PAUSE_CONTINUE =? 0).

(** The life of the process: [ServiceMain], then the controls that are delivered. *)
Inductive lives : service -> Prop :=
  | lives_main env event s : ServiceMain env true event service_new = Ok s -> lives s
  | lives_control env dwCtrl s s' : lives s -> delivers (gSvcStatus s) dwCtrl = true -> ServiceCtrlHandler env dwCtrl s = Ok s' -> lives s'.
