(* ===== verification/WinClient.v ===== *)
(** * The commands that control the Windows service ([src/arch/windows/service/service.c])

    [ServiceLaunch], [ServiceStop], [ServicePause] and [ServiceContinue], in the process of a
    command.  What the service control manager (SCM) and the clock answer is an environment:
    the answers to the successive calls of [QueryServiceStatusEx] and [GetTickCount].
    Handles are numbered in the order they are opened. *)
From S2P Require Import Prelude WinControl.

#[local] Open Scope Z_scope.

Record scm_env := ScmEnv {
  manager_opens : bool;
  service_opens : bool;
  queries : nat -> option service_status;
  ticks : nat -> Z;
  (** [ControlService]: the status it fills *)
  controls : Z -> option service_status;
  starts : bool;
}.

(** How many questions were asked, how many handles were opened, which were closed, and how
    long the process slept. *)
Record client_run := Client { asked : nat; ticked : nat; opened : nat; closed : list nat; slept : list Z }.

Definition client_new : client_run := Client 0 0 0 [] [].

(** ** Programs over an environment *)

Definition cmd (A : Type) : Type := client_run -> outcome (A * client_run).

#[export] Instance cmd_ret : MRet cmd := fun A x c => Ok (x, c).
#[export] Instance cmd_bind : MBind cmd := fun A B k m c => match m c with Ok (x, c) => k x c | Fault f => Fault f end.

Section commands.
Variable env : scm_env.

Definition query : cmd (option service_status) := fun c =>
  Ok (queries env (asked c), Client (S (asked c)) (ticked c) (opened c) (closed c) (slept c)).
Definition GetTickCount : cmd Z := fun c =>
  Ok (u32 (ticks env (ticked c)), Client (asked c) (S (ticked c)) (opened c) (closed c) (slept c)).
Definition open_handle (ok : bool) : cmd (option nat) := fun c =>
  if ok then Ok (Some (opened c), Client (asked c) (ticked c) (S (opened c)) (closed c) (slept c)) else Ok (None, c).
Definition CloseServiceHandle (h : nat) : cmd unit := fun c =>
  Ok (tt, Client (asked c) (ticked c) (opened c) (h :: closed c) (slept c)).
Definition Sleep (ms : Z) : cmd unit := fun c =>
  Ok (tt, Client (asked c) (ticked c) (opened c) (closed c) (ms :: slept c)).
Definition diverge {A} : cmd A := fun _ => Fault Diverges.

Definition OpenSCManager : cmd (option nat) := open_handle (manager_opens env).
Definition OpenService : cmd (option nat) := open_handle (service_opens env).

(** [CloseServiceHandle(schService); CloseServiceHandle(schSCManager);] *)
Definition close_both (schSCManager schService : nat) : cmd unit :=
  _ ← CloseServiceHandle schService; CloseServiceHandle schSCManager.

Definition in_state (st : service_status) (x : service_state) : bool := bool_decide (dwCurrentState st = x).

(** ** Waiting for a state

    The loops of [ServiceStop], [ServicePause] and [ServiceContinue] differ in the state
    that ends them, at the head of a turn and after the question. *)
Inductive wait_result := Reached | QueryFailed | TimedOut.

#[export] Instance wait_result_eq_dec : EqDecision wait_result.
Proof. solve_decision. Defined.

Definition dwTimeout : Z := 10000.

Fixpoint wait_loop (fuel : nat) (leave target : service_state) (dwStartTime : Z) (ssStatus : service_status) : cmd wait_result :=
  match fuel with
  | O => diverge
  | S fuel =>
      if in_state ssStatus leave then mret Reached
      else
        _ ← Sleep (dwWaitHint ssStatus);
        q ← query;
        match q with
        | None => mret QueryFailed
        | Some ssStatus =>
            if in_state ssStatus target then mret Reached
            else
              now ← GetTickCount;
              if dwTimeout <? u32 (now - dwStartTime) then mret TimedOut
              else wait_loop fuel leave target dwStartTime ssStatus
        end
  end.

(** ** [ServicePause] and [ServiceContinue] *)

(** The end of both: the handle of the service is forgotten when that of the manager is
    closed, and never closed. *)
Definition forget_service (schSCManager : nat) (ret : Z) : cmd Z := _ ← CloseServiceHandle schSCManager; mret ret.

(** What is between the opening and the end; [from] is the state that is wanted first. *)
Definition request_control (fuel : nat) (control : Z) (from leave target : service_state) (dwStartTime : Z) : cmd Z :=
  q ← query;
  match q with
  | None => mret (-3)
  | Some ssStatus =>
      if negb (in_state ssStatus from) then mret (-4)
      else
        match controls env control with
        | None => mret (-5)
        | Some ssStatus =>
            r ← wait_loop fuel leave target dwStartTime ssStatus;
            mret (match r with Reached => 0 | QueryFailed => -6 | TimedOut => -7 end)
        end
  end.

Definition ServicePause (fuel : nat) : cmd Z :=
  dwStartTime ← GetTickCount;
  m ← OpenSCManager;
  match m with
  | None => mret (-1)
  | Some schSCManager =>
      s ← OpenService;
      ret ← (match s with
             | None => mret (-2)
             | Some _ => request_control fuel SERVICE_CONTROL_PAUSE SERVICE_RUNNING SERVICE_STOPPED SERVICE_PAUSED dwStartTime
             end);
      forget_service schSCManager ret
  end.

Definition ServiceContinue (fuel : nat) : cmd Z :=
  dwStartTime ← GetTickCount;
  m ← OpenSCManager;
  match m with
  | None => mret (-1)
  | Some schSCManager =>
      s ← OpenService;
      ret ← (match s with
             | None => mret (-2)
             | Some _ => request_control fuel SERVICE_CONTROL_CONTINUE SERVICE_PAUSED SERVICE_RUNNING SERVICE_RUNNING dwStartTime
             end);
      forget_service schSCManager ret
  end.

(** ** [ServiceStop] *)

(** What the command prints last. *)
Inductive stop_message := StopFailed | AlreadyStopped | StoppedMeanwhile | StopTimeout | StopDone.

#[export] Instance stop_message_eq_dec : EqDecision stop_message.
Proof. solve_decision. Defined.

(** The wait for a stop that is pending, without a pause and without an end. *)
Fixpoint stop_pending_loop (fuel : nat) (ssStatus : service_status) : cmd (option stop_message) :=
  match fuel with
  | O => diverge
  | S fuel =>
      if negb (in_state ssStatus SERVICE_STOP_PENDING) then mret None
      else
        q ← query;
        match q with
        | None => mret (Some StopFailed)
        | Some ssStatus => if in_state ssStatus SERVICE_STOPPED then mret (Some StoppedMeanwhile) else stop_pending_loop fuel ssStatus
        end
  end.

(** [unloaded] procedure of the command's own process does nothing: its context is empty. *)
Definition ServiceStop (fuel : nat) : cmd stop_message :=
  dwStartTime ← GetTickCount;
  m ← OpenSCManager;
  match m with
  | None => mret StopFailed
  | Some schSCManager =>
      s ← OpenService;
      match s with
      | None => _ ← CloseServiceHandle schSCManager; mret StopFailed
      | Some schService =>
          let leave_with message := _ ← close_both schSCManager schService; mret message in
          q ← query;
          match q with
          | None => leave_with StopFailed
          | Some ssStatus =>
              if in_state ssStatus SERVICE_STOPPED then leave_with AlreadyStopped
              else
                p ← stop_pending_loop fuel ssStatus;
                match p with
                | Some message => leave_with message
                | None =>
                    match controls env SERVICE_CONTROL_STOP with
                    | None => leave_with StopFailed
                    | Some ssStatus =>
                        r ← wait_loop fuel SERVICE_STOPPED SERVICE_STOPPED dwStartTime ssStatus;
                        match r with
                        | QueryFailed => leave_with StopFailed
                        | TimedOut => leave_with StopTimeout
                        | Reached => mret StopDone
                        end
                    end
                end
          end
      end
  end.

(** ** [ServiceLaunch] *)

Inductive launch_message := LaunchFailed | AlreadyRunning | LaunchDone | NotStarted.

#[export] Instance launch_message_eq_dec : EqDecision launch_message.
Proof. solve_decision. Defined.

(** A tenth of the hint, between one and ten seconds. *)
Definition launch_wait (dwWaitHint : Z) : Z :=
  let dwWaitTime := dwWaitHint / 10 in
  if dwWaitTime <? 1000 then 1000 else if 10000 <? dwWaitTime then 10000 else dwWaitTime.

(** The status after the loop; a question that fails closes both handles first. *)
Fixpoint launch_loop (fuel : nat) (schSCManager schService : nat) (dwStartTickCount dwOldCheckPoint : Z) (ssStatus : service_status)
    : cmd service_status :=
  match fuel with
  | O => diverge
  | S fuel =>
      if negb (in_state ssStatus SERVICE_START_PENDING) then mret ssStatus
      else
        _ ← Sleep (launch_wait (dwWaitHint ssStatus));
        q ← query;
        match q with
        | None => _ ← close_both schSCManager schService; mret ssStatus
        | Some ssStatus =>
            if dwOldCheckPoint <? dwCheckPoint ssStatus then
              now ← GetTickCount;
              launch_loop fuel schSCManager schService now (dwCheckPoint ssStatus) ssStatus
            else
              now ← GetTickCount;
              if dwWaitHint ssStatus <? u32 (now - dwStartTickCount) then mret ssStatus
              else launch_loop fuel schSCManager schService dwStartTickCount dwOldCheckPoint ssStatus
        end
  end.

Definition ServiceLaunch (fuel : nat) : cmd launch_message :=
  m ← OpenSCManager;
  match m with
  | None => mret LaunchFailed
  | Some schSCManager =>
      s ← OpenService;
      match s with
      | None => _ ← CloseServiceHandle schSCManager; mret LaunchFailed
      | Some schService =>
          let leave_with message := _ ← close_both schSCManager schService; mret message in
          q ← query;
          match q with
          | None => leave_with LaunchFailed
          | Some ssStatus =>
              if negb (in_state ssStatus SERVICE_STOPPED) && negb (in_state ssStatus SERVICE_STOP_PENDING) then leave_with AlreadyRunning
              else if negb (starts env) then leave_with LaunchFailed
              else
                q ← query;
                match q with
                | None => leave_with LaunchFailed
                | Some ssStatus =>
                    now ← GetTickCount;
                    ssStatus ← launch_loop fuel schSCManager schService now (dwCheckPoint ssStatus) ssStatus;
                    leave_with (if in_state ssStatus SERVICE_RUNNING then LaunchDone else NotStarted)
                end
          end
      end
  end.

End commands.
