(* ===== verification/WinControlSpec.v ===== *)
(** * What the service and its commands do

    The states the service reports and what it holds in each; its check points; when the
    commands end, what their results mean, and which handles they close. *)
From S2P Require Import Prelude Conf WinControl WinClient.

#[local] Open Scope Z_scope.

(** ** The process of the service *)

(** The controls that are delivered, with a handler that could be set up, when the service is
    only asked to continue while it is paused. *)
Inductive orderly : service -> Prop :=
  | orderly_main env s : ServiceMain env true true service_new = Ok s -> orderly s
  | orderly_control env dwCtrl s s' :
      orderly s -> delivers (gSvcStatus s) dwCtrl = true ->
      (dwCtrl = SERVICE_CONTROL_CONTINUE -> dwCurrentState (gSvcStatus s) = SERVICE_PAUSED) ->
      ServiceCtrlHandler env dwCtrl s = Ok s' -> orderly s'.

Lemma orderly_lives s : orderly s -> lives s.
Proof. induction 1; [by eapply lives_main|by eapply lives_control]. Qed.

Definition state_of (s : service) : service_state := dwCurrentState (gSvcStatus s).

(** The library is open for the context only; a service that is paused or stopped holds
    nothing, and the event is set when it is stopped. *)
Record service_ok (s : service) : Prop := {
  so_context : context_ok (gScanContext s);
  so_state : state_of s ∈ [SERVICE_RUNNING; SERVICE_PAUSED; SERVICE_STOPPED];
  so_empty : state_of s <> SERVICE_RUNNING -> gScanContext s = empty_context;
  so_event : stop_event s = true <-> state_of s = SERVICE_STOPPED;
}.

Lemma load_or_stop_ok env s s' :
  gScanContext s = empty_context -> state_of s = SERVICE_RUNNING -> stop_event s = false ->
  load_or_stop env s = Ok s' -> service_ok s'.
Proof.
  intros Hc Hs He. unfold load_or_stop. rewrite Hc. intros ([ret c] & Hload & E)%bind_Ok_inv.
  destruct (load_empty _ _ _ _ Hload) as [Hok _]. cbn [fst snd] in E.
  assert (context_ok (gScanContext s') /\ state_of s' = SERVICE_RUNNING /\ stop_event s' = false) as (H1 & H2 & H3).
  { destruct (ret <? 0); [unfold stop_itself in E; destruct (stop_reaches env)|]; injection E as <-; try done.
    split; [|done]. cbn [unload with_context gScanContext]. by rewrite unload_empties. }
  split; [done|rewrite H2; by left|by rewrite H2|by rewrite H2, H3].
Qed.

Lemma unload_ok env s : service_ok s -> gScanContext (unload env s) = empty_context.
Proof. intros Hs. cbn [unload with_context gScanContext]. apply unload_empties, (so_context s Hs). Qed.

Lemma handler_ok env dwCtrl s s' :
  service_ok s -> delivers (gSvcStatus s) dwCtrl = true -> (dwCtrl = SERVICE_CONTROL_CONTINUE -> state_of s = SERVICE_PAUSED) ->
  ServiceCtrlHandler env dwCtrl s = Ok s' -> service_ok s'.
Proof.
  intros Hs Hd Hc. unfold ServiceCtrlHandler. destruct (Z.eqb_spec dwCtrl SERVICE_CONTROL_PAUSE) as [->|Hp]; [|
    destruct (Z.eqb_spec dwCtrl SERVICE_CONTROL_CONTINUE) as [->|Hcc]; [|destruct (Z.eqb_spec dwCtrl SERVICE_CONTROL_STOP) as [->|Hst]]].
  - intros [= <-]. pose proof (unload_ok env s Hs) as Hu.
    assert (context_ok (gScanContext (unload env s))) as Hk by (by rewrite Hu).
    split; [exact Hk|set_solver|by intros _; exact Hu|].
    split; [|done]. cbn. intros He%(so_event s Hs). unfold delivers in Hd. cbn in Hd. unfold state_of in He. by rewrite He in Hd.
  - specialize (Hc eq_refl). intros E. eapply load_or_stop_ok; [..|exact E]; [|done|].
    + apply (so_empty s Hs). by rewrite Hc.
    + cbn. apply not_true_iff_false. intros He%(so_event s Hs). congruence.
  - intros [= <-]. pose proof (unload_ok env s Hs) as Hu.
    assert (context_ok (gScanContext (unload env s))) as Hk by (by rewrite Hu).
    split; [exact Hk|set_solver|by intros _; exact Hu|done].
  - by intros [= <-].
Qed.


(** ** Check points *)

Definition settled (st : service_status) : bool :=
  bool_decide (dwCurrentState st = SERVICE_RUNNING) || bool_decide (dwCurrentState st = SERVICE_STOPPED).

(** The check points of the reports of a change, the first first. *)
Definition check_points (s : service) : list Z := dwCheckPoint <$> filter (fun st => settled st = false) (rev (reports s)).

(** The numbers from 1, as 32-bit integers; a settled state has none. *)
Definition points_ok (s : service) : Prop :=
  check_points s = (fun k => u32 (1 + k)) <$> seqZ 0 (Z.of_nat (length (check_points s))) /\
  next_check_point s = u32 (1 + Z.of_nat (length (check_points s))) /\
  Forall (fun st => settled st = true -> dwCheckPoint st = 0) (reports s).

Lemma report_points state exit_code hint s : points_ok s -> points_ok (ReportSvcStatus state exit_code hint s).
Proof.
  intros (Hp & Hn & Hz). unfold points_ok, ReportSvcStatus. cbn [reports next_check_point gSvcStatus].
  set (b := bool_decide (state = SERVICE_RUNNING) || bool_decide (state = SERVICE_STOPPED)).
  unfold check_points in *. cbn [reports rev]. rewrite list.filter_app, fmap_app.
  set (st := ServiceStatus _ _ _ _ _). assert (settled st = b) as Hb by done.
  set (points := dwCheckPoint <$> filter _ (rev (reports s))) in *. destruct b eqn:Eb.
  - rewrite list.filter_cons_False, list.filter_nil by (by rewrite Hb). cbn [fmap list_fmap]. rewrite app_nil_r.
    split_and!; [done..|]. by constructor.
  - rewrite list.filter_cons_True, list.filter_nil by done. cbn [fmap list_fmap dwCheckPoint]. rewrite length_app. cbn [length].
    rewrite Nat2Z.inj_add, seqZ_app by lia. rewrite fmap_app, <- Hp. cbn. rewrite Hn.
    split_and!; [by rewrite Z.add_0_l| |constructor; [congruence|done]].
    unfold u32, wrap. rewrite Zplus_mod_idemp_l. f_equal. lia.
Qed.

(** Every report goes through [ReportSvcStatus]. *)
Lemma with_context_points c s : points_ok s -> points_ok (with_context c s).
Proof. done. Qed.

Lemma load_points env s s' : points_ok s -> load_or_stop env s = Ok s' -> points_ok s'.
Proof.
  intros Hs (r & _ & E)%bind_Ok_inv. unfold stop_itself, unload in E. destruct (r.1 <? 0), (stop_reaches env); by injection E as <-.
Qed.

(** In every life of the service the reports of a change of state carry the check points
    1, 2, 3 and so on, as 32-bit integers, and the reports of RUNNING and STOPPED carry 0. *)
Theorem check_points_count (s : service) (Hs : lives s) : points_ok s.
Proof.
  assert (points_ok service_new) as H0 by (split_and!; done).
  induction Hs as [env event s E|env dwCtrl s s' _ IH _ E].
  - cbn [ServiceMain negb] in E. apply (load_points env) in E; [done|]. unfold ServiceInit. by destruct event; repeat apply report_points.
  - unfold ServiceCtrlHandler in E. case_match; [|case_match; [|case_match]].
    + injection E as <-. apply report_points. unfold unload. by apply with_context_points, report_points.
    + apply (load_points env) in E; [done|]. by do 2 apply report_points.
    + injection E as <-. apply report_points. by apply (report_points SERVICE_STOP_PENDING 0 0) in IH.
    + by injection E as <-.
Qed.

(** *** Samples *)

Definition sample_process : process_env := ProcessEnv sample_env true true.

(** The states after controls that are delivered, with the number of open libraries. *)
Fixpoint control_run (env : process_env) (controls : list Z) (s : service) : outcome service :=
  match controls with
  | [] => Ok s
  | dwCtrl :: controls =>
      if delivers (gSvcStatus s) dwCtrl then s ← ServiceCtrlHandler env dwCtrl s; control_run env controls s
      else control_run env controls s
  end.

Definition observe (s : service) : list service_state * nat * bool :=
  (dwCurrentState <$> rev (reports s), libraries (gScanContext s), stop_event s).

(** Pause, continue and stop; a control after the stop is not delivered. *)
Example orderly_run :
  (s ← ServiceMain sample_process true true service_new;
   s ← control_run sample_process
     [SERVICE_CONTROL_PAUSE; SERVICE_CONTROL_CONTINUE; SERVICE_CONTROL_STOP; SERVICE_CONTROL_CONTINUE] s; Ok (observe s)) =
  Ok ([SERVICE_START_PENDING; SERVICE_RUNNING; SERVICE_PAUSE_PENDING; SERVICE_PAUSED; SERVICE_START_PENDING; SERVICE_RUNNING;
       SERVICE_STOP_PENDING; SERVICE_STOPPED], 0%nat, true).
Proof. reflexivity. Qed.

(** A service that runs can be asked to continue: it opens the library once more, and the
    first is never closed. *)
Example continue_leaks :
  (s ← ServiceMain sample_process true true service_new;
   s ← control_run sample_process [SERVICE_CONTROL_CONTINUE; SERVICE_CONTROL_STOP] s; Ok (observe s)) =
  Ok ([SERVICE_START_PENDING; SERVICE_RUNNING; SERVICE_START_PENDING; SERVICE_RUNNING; SERVICE_STOP_PENDING; SERVICE_STOPPED], 1%nat, true).
Proof. reflexivity. Qed.

(** Without its event the service reports that it stopped, and loads the antivirus. *)
Example stopped_but_loaded :
  (s ← ServiceMain sample_process true false service_new; Ok (observe s)) = Ok ([SERVICE_START_PENDING; SERVICE_STOPPED], 1%nat, false).
Proof. reflexivity. Qed.

(** A load that fails leaves the service reported as running, with nothing loaded. *)
Example running_but_empty :
  let env := ProcessEnv (LoadEnv (Some "a6o.conf"%string) (fun _ => None) (fun _ => false) true (IhmEnv true true true true)) true true in
  (s ← ServiceMain env true true service_new; Ok (observe s, gScanContext s)) =
  Ok ([SERVICE_START_PENDING; SERVICE_RUNNING], 0%nat, false, empty_context).
Proof. reflexivity. Qed.


Lemma check_points_count_witness :
  exists s, lives s /\ check_points s = [1; 2; 3].
Proof.
  destruct (ServiceMain sample_process true true service_new) as [s1|] eqn:E1; [|discriminate E1].
  destruct (ServiceCtrlHandler sample_process SERVICE_CONTROL_PAUSE s1) as [s2|] eqn:E2; [|injection E1 as <-; discriminate E2].
  assert (lives s2) as Ho.
  { apply (lives_control sample_process SERVICE_CONTROL_PAUSE s1); [by apply (lives_main sample_process true)| |exact E2].
    by injection E1 as <-. }
  exists s2. split; [exact Ho|]. destruct (check_points_count s2 Ho) as [Hp _]. rewrite Hp.
  assert (length (check_points s2) = 3%nat) as -> by (injection E1 as <-; injection E2 as <-; reflexivity). reflexivity.
Defined.

(** ** The commands *)

Section commands.
Variable env : scm_env.

(** Handles are opened and closed by neither loop of a wait. *)
Definition same_handles (c c' : client_run) : Prop := opened c' = opened c /\ closed c' = closed c.

(** What a wait found: the status it began with or one that was answered is in [x]. *)
Definition answered (c c' : client_run) (ss : service_status) (x : service_state) : Prop :=
  dwCurrentState ss = x \/ exists k st, (asked c <= k < asked c')%nat /\ queries env k = Some st /\ dwCurrentState st = x.

Lemma in_state_true st x : in_state st x = true <-> dwCurrentState st = x.
Proof. apply bool_decide_eq_true. Qed.

Lemma wait_loop_spec leave target start n : forall fuel c ss,
  (n < fuel)%nat -> dwTimeout < u32 (u32 (ticks env (ticked c + n)) - start) ->
  exists r c', wait_loop env fuel leave target start ss c = Ok (r, c') /\ same_handles c c' /\
    (asked c <= asked c')%nat /\ (ticked c <= ticked c')%nat /\
    (r = Reached -> answered c c' ss leave \/ answered c c' ss target).
Proof.
  induction n as [|n IH]; intros fuel c ss Hf Ht; (destruct fuel as [|fuel]; [lia|]); cbn [wait_loop].
  all: destruct (in_state ss leave) eqn:El; [eexists _, _; split; [reflexivity|]; split_and!; try done; intros _; left; left;
    by apply in_state_true|].
  all: unfold mbind, cmd_bind, Sleep, query; cbn; destruct (queries env (asked c)) as [st|] eqn:Eq;
    [|eexists _, _; split; [reflexivity|]; split_and!; try done; cbn; lia].
  all: destruct (in_state st target) eqn:Et;
    [eexists _, _; split; [reflexivity|]; split_and!; try done; [cbn; lia|intros _; right; right; exists (asked c), st;
      rewrite <- in_state_true; split_and!; cbn; done || lia]|].
  - cbn. rewrite Nat.add_0_r in Ht. rewrite (proj2 (Z.ltb_lt _ _)) by done. eexists _, _. split; [reflexivity|]. split_and!; try done; cbn; lia.
  - cbn. destruct (dwTimeout <? _); [eexists _, _; split; [reflexivity|]; split_and!; try done; cbn; lia|].
    set (c1 := Client _ _ _ _ _). destruct (IH fuel c1 st) as (r & c' & E & [H1 H2] & H3 & H4 & H5); [lia|cbn;
      by replace (S (ticked c + n)) with (ticked c + S n)%nat by lia|].
    exists r, c'. split; [exact E|]. cbn in H1, H2, H3, H4. split_and!; try done; try lia. intros Hr.
    assert (forall x, answered c1 c' st x -> answered c c' ss x) as Ha.
    { intros x [Hx|(k & st' & Hk & Hq & Hx)]; right; [exists (asked c), st|exists k, st'; cbn in Hk]; split_and!; done || lia. }
    destruct (H5 Hr) as [H|H]; [left|right]; by apply Ha.
Qed.

(** A control was asked for in the state [from], and one of the two states was seen after it. *)
Definition changed (control : Z) (from x y : service_state) : Prop :=
  exists st0 st c1 c2, queries env 0 = Some st0 /\ dwCurrentState st0 = from /\ controls env control = Some st /\
    (answered c1 c2 st x \/ answered c1 c2 st y).

Lemma request_control_spec n fuel control from leave target start c :
  (n < fuel)%nat -> dwTimeout < u32 (u32 (ticks env (ticked c + n)) - start) -> asked c = 0%nat ->
  exists ret c', request_control env fuel control from leave target start c = Ok (ret, c') /\ same_handles c c' /\
    ret ∈ [0; -3; -4; -5; -6; -7] /\ (ret = 0 -> changed control from leave target).
Proof.
  intros Hf Ht Ha. unfold request_control, mbind, cmd_bind, query. cbn. rewrite Ha.
  destruct (queries env 0) as [st0|] eqn:Eq; [|eexists _, _; split; [reflexivity|]; split_and!; try done; set_solver].
  destruct (in_state st0 from) eqn:Ef; cbn [negb]; [|eexists _, _; split; [reflexivity|]; split_and!; try done; set_solver].
  destruct (controls env control) as [st|] eqn:Ec; [|eexists _, _; split; [reflexivity|]; split_and!; try done; set_solver].
  set (c1 := Client _ _ _ _ _). destruct (wait_loop_spec leave target start n fuel c1 st) as (r & c' & E & Hh & _ & _ & Hr); [done..|].
  rewrite E. eexists _, c'. split; [reflexivity|]. split; [done|]. split; [destruct r; set_solver|].
  intros H0. exists st0, st, c1, c'. rewrite <- in_state_true. split_and!; try done. apply Hr. by destruct r.
Qed.

(** The clock moves: ten seconds after the start are seen. *)
Definition clock_moves (n : nat) : Prop := dwTimeout < u32 (u32 (ticks env (S n)) - u32 (ticks env 0)).

(** What both commands make of a request. *)
Definition control_outcome (control : Z) (from x y : service_state) (m : outcome (Z * client_run)) : Prop :=
  exists ret c', m = Ok (ret, c') /\ ret ∈ [0; -1; -2; -3; -4; -5; -6; -7] /\ (ret = 0 -> changed control from x y) /\
    opened c' = (if manager_opens env then if service_opens env then 2 else 1 else 0)%nat /\
    closed c' = (if manager_opens env then [0%nat] else []).

(** When the clock moves, the commands that pause and continue the service always end,
    after at most ten seconds or the first question that fails, with 0 or one of their seven
    codes; 0 means that the service was seen in the state wanted - or, for a pause, that it
    was seen stopped.  The handle of the manager is closed, that of the service never. *)
Theorem pause_continue_outcome (n fuel : nat) (Hf : (n < fuel)%nat) (Hclock : clock_moves n) :
  control_outcome SERVICE_CONTROL_PAUSE SERVICE_RUNNING SERVICE_STOPPED SERVICE_PAUSED (ServicePause env fuel client_new) /\
  control_outcome SERVICE_CONTROL_CONTINUE SERVICE_PAUSED SERVICE_RUNNING SERVICE_RUNNING (ServiceContinue env fuel client_new).
Proof.
  unfold ServicePause, ServiceContinue, control_outcome, mbind, cmd_bind, OpenSCManager, OpenService, open_handle, forget_service. cbn.
  destruct (manager_opens env); [|split; eexists _, _; (split; [reflexivity|]); split_and!; done || set_solver].
  cbn. destruct (service_opens env); [|split; eexists _, _; (split; [reflexivity|]); split_and!; done || set_solver].
  cbn. set (c1 := Client 0 1 2 [] []). split.
  - destruct (request_control_spec n fuel SERVICE_CONTROL_PAUSE SERVICE_RUNNING SERVICE_STOPPED SERVICE_PAUSED (u32 (ticks env 0)) c1)
      as (ret & c' & E & [Ho Hc] & Hret & Hz); [done..|].
    rewrite E. cbn. eexists _, _. split; [reflexivity|]. cbn. rewrite Ho, Hc. split_and!; try done. set_solver.
  - destruct (request_control_spec n fuel SERVICE_CONTROL_CONTINUE SERVICE_PAUSED SERVICE_RUNNING SERVICE_RUNNING (u32 (ticks env 0)) c1)
      as (ret & c' & E & [Ho Hc] & Hret & Hz); [done..|].
    rewrite E. cbn. eexists _, _. split; [reflexivity|]. cbn. rewrite Ho, Hc. split_and!; try done. set_solver.
Qed.

(** *** Stopping *)

(** While the SCM answers that a stop is pending, the command asks again, without a pause. *)
Lemma stop_pending_loop_diverges fuel c ss :
  (forall k, exists st, queries env k = Some st /\ dwCurrentState st = SERVICE_STOP_PENDING) ->
  dwCurrentState ss = SERVICE_STOP_PENDING -> stop_pending_loop env fuel ss c = Fault Diverges.
Proof.
  intros Hq. revert c ss. induction fuel as [|fuel IH]; intros c ss Hs; [done|]. cbn [stop_pending_loop].
  rewrite (proj2 (in_state_true ss _) Hs). unfold mbind, cmd_bind, query. cbn. destruct (Hq (asked c)) as (st & -> & Hst).
  unfold in_state at 1. rewrite bool_decide_eq_false_2 by congruence. by apply IH.
Qed.

Theorem stop_never_ends fuel :
  manager_opens env = true -> service_opens env = true ->
  (forall k, exists st, queries env k = Some st /\ dwCurrentState st = SERVICE_STOP_PENDING) ->
  ServiceStop env fuel client_new = Fault Diverges.
Proof.
  intros Hm Hs Hq. unfold ServiceStop, OpenSCManager, OpenService. rewrite Hm, Hs. unfold mbind, cmd_bind. cbn.
  destruct (Hq 0%nat) as (st & -> & Hst). unfold in_state at 1. rewrite bool_decide_eq_false_2 by congruence.
  by rewrite stop_pending_loop_diverges.
Qed.

(** It ends when the SCM answers something else, or nothing. *)
Lemma stop_pending_loop_spec m : forall fuel c ss,
  (S m < fuel)%nat -> (forall st, queries env (asked c + m) = Some st -> dwCurrentState st <> SERVICE_STOP_PENDING) ->
  exists r c', stop_pending_loop env fuel ss c = Ok (r, c') /\ same_handles c c' /\ ticked c' = ticked c /\ r <> Some StopDone.
Proof.
  induction m as [|m IH]; intros fuel c ss Hf Hq; (destruct fuel as [|fuel]; [lia|]); cbn [stop_pending_loop].
  all: destruct (in_state ss SERVICE_STOP_PENDING); cbn [negb]; [|eexists _, _; split; [reflexivity|]; split_and!; done].
  all: unfold mbind, cmd_bind, query; cbn; destruct (queries env (asked c)) as [st|] eqn:Eq;
    [|eexists _, _; split; [reflexivity|]; split_and!; done].
  all: destruct (in_state st SERVICE_STOPPED) eqn:Es; [eexists _, _; split; [reflexivity|]; split_and!; done|].
  - destruct fuel as [|fuel]; [lia|]. cbn [stop_pending_loop]. rewrite Nat.add_0_r in Hq. unfold in_state at 1.
    rewrite bool_decide_eq_false_2 by (by apply Hq). eexists _, _. split; [reflexivity|]. split_and!; done.
  - set (c1 := Client _ _ _ _ _). destruct (IH fuel c1 st) as (r & c' & E & [H1 H2] & H3 & H4); [lia|cbn;
    by replace (S (asked c + m)) with (asked c + S m)%nat by lia|].
    exists r, c'. split; [exact E|]. by split_and!.
Qed.

(** Every handle that was opened is closed once, the manager last. *)
Definition all_closed (c : client_run) : Prop := closed c = seq 0 (opened c).

(** C35: When the clock moves and the SCM does not answer for ever that a stop is pending, the
    command that stops the service ends; every handle is then closed once, except when the
    service was seen to stop after the request: both handles stay open. *)
Theorem stop_outcome (m n fuel : nat) (Hm : (S m < fuel)%nat) (Hn : (n < fuel)%nat) (Hclock : clock_moves n)
    (Hpending : forall st, queries env (S m) = Some st -> dwCurrentState st <> SERVICE_STOP_PENDING) :
  exists message c', ServiceStop env fuel client_new = Ok (message, c') /\
    (message <> StopDone -> all_closed c') /\
    (message = StopDone -> opened c' = 2%nat /\ closed c' = [] /\
      exists st c1 c2, controls env SERVICE_CONTROL_STOP = Some st /\ answered c1 c2 st SERVICE_STOPPED).
Proof.
  unfold ServiceStop, mbind, cmd_bind, OpenSCManager, OpenService, open_handle. cbn.
  destruct (manager_opens env); [|by eexists _, _]. cbn.
  destruct (service_opens env); [|by eexists _, _]. cbn.
  destruct (queries env 0) as [st0|]; [|by eexists _, _].
  destruct (in_state st0 SERVICE_STOPPED); [by eexists _, _|].
  set (c1 := Client _ _ _ _ _). destruct (stop_pending_loop_spec m fuel c1 st0) as (r & c2 & -> & [Ho Hc] & Ht & Hr); [done..|].
  cbn in Ho, Hc, Ht. destruct r as [message|].
  { eexists message, _. split; [reflexivity|]. unfold all_closed. cbn. rewrite Ho, Hc. split; [done|]. intros ->. by destruct Hr. }
  destruct (controls env SERVICE_CONTROL_STOP) as [st|].
  2: { eexists _, _. split; [reflexivity|]. unfold all_closed. cbn. by rewrite Ho, Hc. }
  destruct (wait_loop_spec SERVICE_STOPPED SERVICE_STOPPED (u32 (ticks env 0)) n fuel c2 st) as (r & c' & -> & [Ho' Hc'] & _ & _ & Hreach);
    [done|by rewrite Ht|].
  rewrite Ho in Ho'. rewrite Hc in Hc'. destruct r.
  - eexists _, c'. split; [reflexivity|]. split; [done|]. intros _. split_and!; try done. exists st, c2, c'. split; [done|].
    by destruct (Hreach eq_refl).
  - eexists _, _. split; [reflexivity|]. unfold all_closed. cbn. by rewrite Ho', Hc'.
  - eexists _, _. split; [reflexivity|]. unfold all_closed. cbn. by rewrite Ho', Hc'.
Qed.

(** *** Starting *)

(** What the loop leaves: its handles, or both closed after a question that failed. *)
Definition launched (c c' : client_run) (ss st : service_status) : Prop :=
  opened c' = opened c /\ (asked c <= asked c')%nat /\
  (dwCurrentState st = SERVICE_RUNNING -> answered c c' ss SERVICE_RUNNING).

Lemma launched_later c c1 c' ss st1 st :
  opened c1 = opened c -> asked c1 = S (asked c) -> queries env (asked c) = Some st1 -> launched c1 c' st1 st -> launched c c' ss st.
Proof.
  intros Ho Ha Hq (H1 & H2 & H3). split; [congruence|]. split; [lia|]. intros Hr. right.
  destruct (H3 Hr) as [Hx|(k & st' & Hk & Hq' & Hx)]; [exists (asked c), st1|exists k, st']; split_and!; done || lia.
Qed.

(** The loop ends when the SCM answers that the start is no longer pending. *)
Lemma launch_loop_spec m hm hs : forall fuel start old c ss,
  (S m < fuel)%nat -> (forall st, queries env (asked c + m) = Some st -> dwCurrentState st <> SERVICE_START_PENDING) ->
  exists st c', launch_loop env fuel hm hs start old ss c = Ok (st, c') /\ launched c c' ss st /\
    (closed c' = closed c \/ closed c' = hm :: hs :: closed c /\ exists k, (asked c <= k)%nat /\ queries env k = None).
Proof.
  induction m as [|m IH]; intros fuel start old c ss Hf Hq; (destruct fuel as [|fuel]; [lia|]); cbn [launch_loop].
  all: destruct (in_state ss SERVICE_START_PENDING) eqn:Ess; cbn [negb];
    [|eexists _, c; split; [reflexivity|]; split; [split_and!; [done..|by left]|by left]].
  all: apply in_state_true in Ess; unfold mbind, cmd_bind, Sleep, query, GetTickCount; cbn; destruct (queries env (asked c)) as [st|] eqn:Eq;
    [|eexists _, _; split; [reflexivity|]; split; [split_and!; [done|cbn; lia|congruence]|right; split; [done|by exists (asked c)]]].
  - assert (dwCurrentState st <> SERVICE_START_PENDING) as Hst by (apply Hq; by rewrite Nat.add_0_r).
    assert (forall c1, opened c1 = opened c -> asked c1 = S (asked c) -> launched c c1 ss st) as Hl.
    { intros c1 Ho Ha. split; [done|]. split; [lia|]. intros Hr. right. exists (asked c), st. split_and!; done || lia. }
    destruct fuel as [|fuel]; [lia|]. cbn [launch_loop]. unfold in_state. rewrite bool_decide_eq_false_2 by done. cbn [negb].
    destruct (old <? dwCheckPoint st); [|destruct (dwWaitHint st <? _)]; eexists _, _; (split; [reflexivity|]); (split; [by apply Hl|by left]).
  - assert (forall start old c1, opened c1 = opened c -> asked c1 = S (asked c) -> closed c1 = closed c ->
      exists st' c', launch_loop env fuel hm hs start old st c1 = Ok (st', c') /\ launched c c' ss st' /\
        (closed c' = closed c \/ closed c' = hm :: hs :: closed c /\ exists k, (asked c <= k)%nat /\ queries env k = None)) as Hloop.
    { intros start1 old1 c1 Ho Ha Hc. destruct (IH fuel start1 old1 c1 st) as (st' & c' & E & Hl & Hcl);
        [lia|rewrite Ha; by replace (S (asked c) + m)%nat with (asked c + S m)%nat by lia|].
      exists st', c'. rewrite Hc, Ha in Hcl. split_and!; [done|by eapply launched_later|].
      destruct Hcl as [?|[? (k & Hk & Hn)]]; [by left|right; split; [done|]]. exists k. split; [lia|done]. }
    destruct (old <? dwCheckPoint st); [by apply Hloop|]. destruct (dwWaitHint st <? _); [|by apply Hloop].
    eexists _, _. split; [reflexivity|]. split; [|by left]. apply (launched_later c (Client (S (asked c)) (ticked c) (opened c) (closed c) (slept c)) _ ss st); try done.
    split_and!; [done|cbn; lia|by left].
Qed.

(** When the SCM does not answer for ever that the start is pending, the command that starts
    the service ends, and it says that the service started only when the service was seen
    running.  Every handle is closed once, except when a question fails while the start is
    pending: both handles are then closed twice. *)
Theorem launch_outcome (m fuel : nat) (Hm : (S m < fuel)%nat)
    (Hpending : forall st, queries env (S (S m)) = Some st -> dwCurrentState st <> SERVICE_START_PENDING) :
  exists message c', ServiceLaunch env fuel client_new = Ok (message, c') /\
    (all_closed c' \/ closed c' = [0; 1; 0; 1]%nat /\ exists k, (2 <= k)%nat /\ queries env k = None) /\
    (message = LaunchDone -> starts env = true /\ exists k st, queries env k = Some st /\ dwCurrentState st = SERVICE_RUNNING).
Proof.
  unfold ServiceLaunch, mbind, cmd_bind, OpenSCManager, OpenService, open_handle. cbn.
  destruct (manager_opens env); [|eexists _, _; split; [reflexivity|]; split; [by left|done]]. cbn.
  destruct (service_opens env); [|eexists _, _; split; [reflexivity|]; split; [by left|done]]. cbn.
  destruct (queries env 0) as [st0|] eqn:E0; [|eexists _, _; split; [reflexivity|]; split; [by left|done]].
  destruct (_ && _); [eexists _, _; split; [reflexivity|]; split; [by left|done]|].
  destruct (starts env) eqn:Es; cbn [negb]; [|eexists _, _; split; [reflexivity|]; split; [by left|done]].
  cbn. destruct (queries env 1) as [st1|] eqn:E1; [|eexists _, _; split; [reflexivity|]; split; [by left|done]].
  cbn. set (c1 := Client _ _ _ _ _).
  destruct (launch_loop_spec m 0 1 fuel (u32 (ticks env 0)) (dwCheckPoint st1) c1 st1) as (st & c' & -> & (Ho & _ & Hr) & Hc); [done..|].
  eexists _, _. split; [reflexivity|]. unfold all_closed. cbn in *. rewrite Ho. split.
  - destruct Hc as [->|[-> Hk]]; [by left|by right].
  - destruct (in_state st SERVICE_RUNNING) eqn:E; [|done]. intros _. split; [done|].
    destruct (Hr (proj1 (in_state_true _ _) E)) as [Hx|(k & st' & _ & Hq & Hx)]; [by exists 1%nat, st1|by exists k, st'].
Qed.

End commands.

(** *** Samples *)

Definition status_in (x : service_state) : service_status := ServiceStatus x 3 0 0 0.

(** The SCM answers [first], then [second] for ever; twenty seconds pass at each look. *)
Definition sample_scm (first second : service_state) (control : service_state) : scm_env :=
  {| manager_opens := true; service_opens := true;
     queries := fun k => Some (status_in (if (k =? 0)%nat then first else second));
     ticks := fun k => 20000 * Z.of_nat k; controls := fun _ => Some (status_in control); starts := true |}.

(** The result of a command, when it ends. *)
Definition result {A} (m : outcome (A * client_run)) : option A := match m with Ok (x, _) => Some x | Fault _ => None end.

Lemma pause_continue_outcome_witness :
  (exists c, ServicePause (sample_scm SERVICE_RUNNING SERVICE_PAUSED SERVICE_PAUSE_PENDING) 1 client_new = Ok (0, c) /\
    opened c = 2%nat /\ closed c = [0%nat]) /\
  (exists ret c, ServicePause (sample_scm SERVICE_RUNNING SERVICE_RUNNING SERVICE_RUNNING) 1 client_new = Ok (ret,
    c) /\ ret = -7 /\ closed c = [0%nat]).
Proof.
  split.
  - destruct (pause_continue_outcome (sample_scm SERVICE_RUNNING SERVICE_PAUSED SERVICE_PAUSE_PENDING) 0 1) as [(ret & c & E & _ & _ & Ho & Hc) _];
      [lia|reflexivity|]. exists c. split; [|by split].
    assert (result (ServicePause (sample_scm SERVICE_RUNNING SERVICE_PAUSED SERVICE_PAUSE_PENDING) 1 client_new) = Some 0) as Hr by (vm_compute; reflexivity).
    rewrite E in Hr. injection Hr as ->. exact E.
  - destruct (pause_continue_outcome (sample_scm SERVICE_RUNNING SERVICE_RUNNING SERVICE_RUNNING) 0 1) as [(ret & c & E & _ & _ & _ & Hc) _];
      [lia|reflexivity|]. exists ret, c. split; [exact E|]. split; [|done].
    assert (result (ServicePause (sample_scm SERVICE_RUNNING SERVICE_RUNNING SERVICE_RUNNING) 1 client_new) = Some (-7)) as Hr by (vm_compute; reflexivity).
    rewrite E in Hr. by injection Hr as ->.
Defined.

Lemma stop_outcome_witness :
  exists c, ServiceStop (sample_scm SERVICE_RUNNING SERVICE_STOPPED SERVICE_STOP_PENDING) 2 client_new = Ok (StopDone, c) /\
    opened c = 2%nat /\ closed c = [].
Proof.
  destruct (stop_outcome (sample_scm SERVICE_RUNNING SERVICE_STOPPED SERVICE_STOP_PENDING) 0 0 2) as (message & c & E & _ & Hd);
    [lia|lia|reflexivity|by intros st [= <-]|].
  assert (result (ServiceStop (sample_scm SERVICE_RUNNING SERVICE_STOPPED SERVICE_STOP_PENDING) 2 client_new) = Some StopDone) as Hr by (vm_compute; reflexivity).
  rewrite E in Hr. injection Hr as ->. exists c. split; [exact E|]. destruct (Hd eq_refl) as (? & ? & _). by split.
Defined.

(** The third question fails. *)
Definition failing_scm : scm_env :=
  {| manager_opens := true; service_opens := true;
     queries := fun k => match k with O => Some (status_in SERVICE_STOPPED) | 1%nat => Some (status_in SERVICE_START_PENDING) | _ => None end;
     ticks := fun _ => 0; controls := fun _ => None; starts := true |}.

Lemma launch_outcome_witness :
  exists message c, ServiceLaunch failing_scm 2 client_new = Ok (message, c) /\ closed c = [0; 1; 0; 1]%nat /\
    exists k, (2 <= k)%nat /\ queries failing_scm k = None.
Proof.
  destruct (launch_outcome failing_scm 0 2) as (message & c & E & [Ha|Hd] & _); [lia|done| |by exists message, c].
  exfalso. assert (match ServiceLaunch failing_scm 2 client_new with Ok (_,
    c) => bool_decide (closed c = seq 0 (opened c)) | _ => true end = false) as Hr
    by (vm_compute; reflexivity).
  rewrite E in Hr. apply bool_decide_eq_false in Hr. by apply Hr.
Defined.
