(* ===== verification/WinInstall.v ===== *)
(** * Installing the Windows service, and its command line ([src/arch/windows/service/service.c])

    The keys that [--install] adds to the registry and [--uninstall] deletes, the database of
    the services, and the options of [main].  Each call of the registry can be refused: the
    environment says which, call after call.  Handles are closed on every path and are not
    modelled. *)
From S2P Require Import Prelude WinControl WinClient.

#[local] Open Scope string_scope.
#[local] Open Scope Z_scope.

Definition ROOT_KEY_PATH : string := "SYSTEM\CurrentControlSet\services\eventlog\Application".
Definition APPS_KEY_NAME : string := "Armadito-av".
Definition APP_DLL_PATH : string := "%systemRoot%\System32\a6oEventProvider.dll".
Definition ROOT_CRASH_KEY_PATH : string := "SOFTWARE\Microsoft\Windows\Windows Error Reporting".
Definition ROOT_CRASH_KEY_PATH_LOCAL_DUMPS : string := "SOFTWARE\Microsoft\Windows\Windows Error Reporting\LocalDumps".
Definition SVC_KEY_NAME : string := "ArmaditoSvc.exe".
Definition DUMP_FOLDER : string := "%LocalAppData%\CrashDumps\ArmaditoSvc".
Definition DUMP_TYPE : Z := 1.

(** ** The registry *)

Inductive key_value := RegDword (z : Z) | RegExpandSz (s : string).

(** The keys below the root of the machine, by path, and how many calls were made. *)
Record reg_state := RegState { keys : gmap string (gmap string key_value); calls : nat }.

Definition ERROR_SUCCESS : Z := 0.
Definition ERROR_FILE_NOT_FOUND : Z := 2.
Definition ERROR_ACCESS_DENIED : Z := 5.

Section registry.
(** Whether the n-th call is allowed. *)
Variable allowed : nat -> bool.

(** One call: refused, or [f] of the keys. *)
Definition reg_call (f : gmap string (gmap string key_value) -> Z * gmap string (gmap string key_value)) (r : reg_state) : Z * reg_state :=
  if allowed (calls r) then let '(res, ks) := f (keys r) in (res, RegState ks (S (calls r)))
  else (ERROR_ACCESS_DENIED, RegState (keys r) (S (calls r))).

Definition subkey (key name : string) : string := key +:+ "\" +:+ name.

Definition RegOpenKeyA (path : string) : reg_state -> Z * reg_state :=
  reg_call (fun ks => (if bool_decide (path ∈ dom ks) then ERROR_SUCCESS else ERROR_FILE_NOT_FOUND, ks)).

(** The key is opened when it is already there. *)
Definition RegCreateKeyA (hkey name : string) : reg_state -> Z * reg_state :=
  reg_call (fun ks => (ERROR_SUCCESS, if bool_decide (subkey hkey name ∈ dom ks) then ks else <[subkey hkey name := ∅]> ks)).

Definition RegSetKeyValueA (hkey name : string) (v : key_value) : reg_state -> Z * reg_state :=
  reg_call (fun ks => (ERROR_SUCCESS, <[hkey := <[name := v]> (default ∅ (ks !! hkey))]> ks)).

(** A key that has subkeys is not deleted. *)
Definition has_subkeys (path : string) (ks : gmap string (gmap string key_value)) : bool :=
  existsb (String.prefix (path +:+ "\")) (elements (dom ks)).

Definition RegDeleteKeyA (hkey name : string) : reg_state -> Z * reg_state :=
  reg_call (fun ks =>
    if bool_decide (subkey hkey name ∉ dom ks) then (ERROR_FILE_NOT_FOUND, ks)
    else if has_subkeys (subkey hkey name) ks then (ERROR_ACCESS_DENIED, ks)
    else (ERROR_SUCCESS, delete (subkey hkey name) ks)).

(** Calls one after the other, up to the first that fails. *)
Fixpoint steps (l : list (reg_state -> Z * reg_state)) (r : reg_state) : Z * reg_state :=
  match l with
  | [] => (ERROR_SUCCESS, r)
  | f :: l => let '(res, r) := f r in if res =? ERROR_SUCCESS then steps l r else (res, r)
  end.

(** The key of the event log: its failures change nothing to the result. *)
Definition event_log_key : list (reg_state -> Z * reg_state) :=
  let hkey := subkey ROOT_KEY_PATH APPS_KEY_NAME in
  [RegOpenKeyA ROOT_KEY_PATH; RegCreateKeyA ROOT_KEY_PATH APPS_KEY_NAME;
   RegSetKeyValueA hkey "CategoryCount" (RegDword 3); RegSetKeyValueA hkey "CategoryMessageFile" (RegExpandSz APP_DLL_PATH);
   RegSetKeyValueA hkey "EventMessageFile" (RegExpandSz APP_DLL_PATH); RegSetKeyValueA hkey "ParameterMessageFile" (RegExpandSz APP_DLL_PATH);
   RegSetKeyValueA hkey "TypesSupported" (RegDword 7)].

(** The key of the crash reports, created when it does not exist. *)
Definition open_local_dumps (r : reg_state) : Z * reg_state :=
  let '(res, r) := RegOpenKeyA ROOT_CRASH_KEY_PATH_LOCAL_DUMPS r in
  if res =? ERROR_FILE_NOT_FOUND then
    steps [RegOpenKeyA ROOT_CRASH_KEY_PATH; RegCreateKeyA ROOT_CRASH_KEY_PATH "LocalDumps"; RegOpenKeyA ROOT_CRASH_KEY_PATH_LOCAL_DUMPS] r
  else (res, r).

Definition crash_key : list (reg_state -> Z * reg_state) :=
  let hkey := subkey ROOT_CRASH_KEY_PATH_LOCAL_DUMPS SVC_KEY_NAME in
  [open_local_dumps; RegCreateKeyA ROOT_CRASH_KEY_PATH_LOCAL_DUMPS SVC_KEY_NAME;
   RegSetKeyValueA hkey "DumpFolder" (RegExpandSz DUMP_FOLDER); RegSetKeyValueA hkey "DumpType" (RegDword DUMP_TYPE)].

Definition RegistryKeysInitialization (r : reg_state) : Z * reg_state :=
  let '(_, r) := steps event_log_key r in
  let '(res, r) := steps crash_key r in
  (if res =? ERROR_SUCCESS then 0 else -1, r).

(** The result is 0 whatever happens. *)
Definition DeleteRegistryKeys (r : reg_state) : Z * reg_state :=
  let '(_, r) := steps [RegOpenKeyA ROOT_KEY_PATH; RegDeleteKeyA ROOT_KEY_PATH APPS_KEY_NAME] r in
  let '(_, r) := steps [RegOpenKeyA ROOT_CRASH_KEY_PATH_LOCAL_DUMPS; RegDeleteKeyA ROOT_CRASH_KEY_PATH_LOCAL_DUMPS SVC_KEY_NAME] r in
  (0, r).

(** ** The database of the services *)

Definition SERVICE_AUTO_START : Z := 2.
Definition SERVICE_DEMAND_START : Z := 3.

(** How the service starts, when it is installed, and the registry. *)
Record machine := Machine { installed : option Z; registry : reg_state }.

(** Whether the path of the program is found, and the database opens; a service that is
    installed cannot be created. *)
Definition ServiceInstall (path_found manager_opens : bool) (startType : Z) (w : machine) : Z * machine :=
  if negb path_found then (-1, w)
  else if negb manager_opens then (-1, w)
  else if bool_decide (installed w <> None) then (-1, w)
  else
    let '(ret, r) := RegistryKeysInitialization (registry w) in
    (if ret <? 0 then -1 else 0, Machine (Some startType) r).

(** Only a service that runs or starts is stopped first.  [deletes]: [DeleteService]. *)
Definition ServiceRemove (env : scm_env) (fuel : nat) (deletes : bool) (w : machine) : cmd (Z * machine) :=
  m ← OpenSCManager env;
  match m with
  | None => mret (-1, w)
  | Some schSCManager =>
      s ← OpenService env;
      match s with
      | None => _ ← CloseServiceHandle schSCManager; mret (-1, w)
      | Some schService =>
          q ← query env;
          match q with
          | None => _ ← close_both schSCManager schService; mret (-1, w)
          | Some ssStatus =>
              _ ← (if in_state ssStatus SERVICE_RUNNING || in_state ssStatus SERVICE_START_PENDING
                   then _ ← ServiceStop env fuel; mret tt else mret tt : cmd unit);
              _ ← close_both schSCManager schService;
              if deletes then mret (0, Machine None (DeleteRegistryKeys (registry w)).2) else mret (-1, w)
          end
      end
  end.

End registry.

(** ** The command line *)

Inductive action :=
  | DoNothing (ret : Z)          (** an option that is only for tests, or whose code is disabled *)
  | Notify
  | TestGui
  | TestService
  | Info
  | InstallBoot
  | InstallDemand
  | Uninstall
  | StopService
  | StartService
  | PauseService
  | ContinueService
  | RestoreFile                  (** [--restore] with the name of a file *)
  | Dispatch.                    (** the process is that of the service *)

#[export] Instance action_eq_dec : EqDecision action.
Proof. solve_decision. Defined.

(** The tests of [main] in their order: how many arguments at least, the [n] first characters
    that are compared with the option, and what is done. *)
Definition main_options : list (nat * nat * string * action) :=
  [(2, 6, "--conf", DoNothing 0); (2, 12, "--disable_rt", DoNothing 0); (2, 8, "--notify", Notify); (2, 9, "--testGUI", TestGui);
   (2, 6, "--test", TestService); (2, 10, "--register", DoNothing 0); (2, 7, "--crypt", DoNothing 0);
   (3, 11, "--quarantine", DoNothing 0); (2, 11, "--quarantine", DoNothing 0); (2, 9, "--restore", DoNothing 0);
   (3, 9, "--restore", RestoreFile); (2, 10, "--updatedb", DoNothing 0); (2, 6, "--info", Info);
   (2, 13, "--installboot", InstallBoot); (2, 9, "--install", InstallDemand); (2, 11, "--uninstall", Uninstall);
   (2, 6, "--stop", StopService); (2, 7, "--start", StartService); (2, 7, "--pause", PauseService); (2, 10, "--continue", ContinueService)]%nat.

Fixpoint first_option (options : list (nat * nat * string * action)) (argc : nat) (arg1 : string) : action :=
  match options with
  | [] => Dispatch
  | (least, n, option, act) :: options =>
      if (least <=? argc)%nat && bool_decide (String.substring 0 n arg1 = String.substring 0 n option) then act
      else first_option options argc arg1
  end.

(** [argv] after the name of the program. *)
Definition main_action (args : list string) : action :=
  match args with [] => Dispatch | arg1 :: _ => first_option main_options (S (length args)) arg1 end.

(** ** What installing leaves in the registry *)

(** Opening the key of the dumps creates it. *)
Definition with_local_dumps (ks : gmap string (gmap string key_value)) : gmap string (gmap string key_value) :=
  if bool_decide (ROOT_CRASH_KEY_PATH_LOCAL_DUMPS ∈ dom ks) then ks else <[ROOT_CRASH_KEY_PATH_LOCAL_DUMPS := ∅]> ks.

Lemma with_local_dumps_dom ks : dom (with_local_dumps ks) = dom ks ∪ {[ ROOT_CRASH_KEY_PATH_LOCAL_DUMPS ]}.
Proof. unfold with_local_dumps. case_bool_decide; [| rewrite dom_insert_L]; set_solver. Qed.

Section registry_theory.
Variable allowed : nat -> bool.

Definition event_key : string := subkey ROOT_KEY_PATH APPS_KEY_NAME.
Definition dump_key : string := subkey ROOT_CRASH_KEY_PATH_LOCAL_DUMPS SVC_KEY_NAME.

Definition event_values : gmap string key_value :=
  list_to_map [("CategoryCount", RegDword 3); ("CategoryMessageFile", RegExpandSz APP_DLL_PATH);
               ("EventMessageFile", RegExpandSz APP_DLL_PATH); ("ParameterMessageFile", RegExpandSz APP_DLL_PATH);
               ("TypesSupported", RegDword 7)].

Definition dump_values : gmap string key_value :=
  list_to_map [("DumpFolder", RegExpandSz DUMP_FOLDER); ("DumpType", RegDword DUMP_TYPE)].

(** A step that works, and the key paths it leaves. *)
Definition does (f : reg_state -> Z * reg_state) (ks ks' : gmap string (gmap string key_value)) : Prop :=
  forall n, f (RegState ks n) = (ERROR_SUCCESS, RegState ks' (S n)).

Lemma steps_nil r : steps [] r = (ERROR_SUCCESS, r).
Proof. reflexivity. Qed.

Lemma steps_does f l ks ks' n : does f ks ks' -> steps (f :: l) (RegState ks n) = steps l (RegState ks' (S n)).
Proof. intros H. cbn [steps]. rewrite (H n). reflexivity. Qed.

Lemma reg_call_in f r res r' : reg_call allowed f r = (res, r') -> (res = ERROR_ACCESS_DENIED /\ keys r' = keys r) \/ f (keys r) = (res, keys r').
Proof.
  unfold reg_call. destruct (allowed (calls r)).
  - destruct (f (keys r)) as [x ks]. intros [= <- <-]. right. reflexivity.
  - intros [= <- <-]. left. split; reflexivity.
Qed.

Lemma set_value_in hkey name v r res r' :
  RegSetKeyValueA allowed hkey name v r = (res, r') -> res = ERROR_SUCCESS -> keys r' = <[hkey := <[name := v]> (default ∅ (keys r !! hkey))]> (keys r).
Proof. intros [[-> _] | [= <- <-]]%reg_call_in; [discriminate | reflexivity]. Qed.

(** The second key decides the result: 0 is returned when its two values were written. *)
Lemma crash_key_writes r res r' :
  steps (crash_key allowed) r = (res, r') -> res = ERROR_SUCCESS ->
  exists vs, keys r' !! dump_key = Some vs /\ vs !! "DumpFolder" = Some (RegExpandSz DUMP_FOLDER) /\ vs !! "DumpType" = Some (RegDword DUMP_TYPE).
Proof.
  unfold crash_key. cbn [steps]. intros H ->.
  destruct (open_local_dumps allowed r) as [r1 s1]. destruct (r1 =? ERROR_SUCCESS) eqn:E1; [| injection H as -> _; discriminate E1].
  destruct (RegCreateKeyA _ _ _ s1) as [r2 s2]. destruct (r2 =? ERROR_SUCCESS) eqn:E2; [| injection H as -> _; discriminate E2].
  destruct (RegSetKeyValueA _ _ "DumpFolder" _ s2) as [r3 s3] eqn:F3. destruct (r3 =? ERROR_SUCCESS) eqn:E3; [| injection H as -> _; discriminate E3].
  destruct (RegSetKeyValueA _ _ "DumpType" _ s3) as [r4 s4] eqn:F4. destruct (r4 =? ERROR_SUCCESS) eqn:E4; [| injection H as -> _; discriminate E4].
  apply Z.eqb_eq in E3, E4. injection H as <-.
  apply set_value_in in F4 as ->; [| exact E4]. apply set_value_in in F3 as ->; [| exact E3].
  fold dump_key. rewrite !lookup_insert_eq. simpl. eexists. split; [reflexivity |].
  rewrite lookup_insert_ne by discriminate. rewrite !lookup_insert_eq. split; reflexivity.
Qed.

(** The result of the initialization is that of the key of the crash reports: whatever
    calls the system refuses, it is 0 exactly when that block succeeds, and then the folder
    and the kind of the dumps are in the registry.  The key of the event log has no part in
    it. *)
Theorem registry_result_is_crash_key r :
  let r1 := (steps (event_log_key allowed) r).2 in
  (RegistryKeysInitialization allowed r).1 = (if (steps (crash_key allowed) r1).1 =? ERROR_SUCCESS then 0 else -1) /\
  (forall r', RegistryKeysInitialization allowed r = (0, r') ->
     exists vs, keys r' !! dump_key = Some vs /\ vs !! "DumpFolder" = Some (RegExpandSz DUMP_FOLDER) /\ vs !! "DumpType" = Some (RegDword DUMP_TYPE)).
Proof.
  cbn zeta. unfold RegistryKeysInitialization. destruct (steps (event_log_key allowed) r) as [res1 r1]. cbn [snd].
  destruct (steps (crash_key allowed) r1) as [res r2] eqn:C. cbn [fst]. split; [reflexivity |].
  intros r'. destruct (res =? ERROR_SUCCESS) eqn:E; [| discriminate]. intros [= <-].
  exact (crash_key_writes _ _ _ C (proj1 (Z.eqb_eq _ _) E)).
Qed.

Section everything_allowed.
Hypothesis all_allowed : forall n, allowed n = true.

Lemma opens path ks : path ∈ dom ks -> does (RegOpenKeyA allowed path) ks ks.
Proof. intros H n. unfold RegOpenKeyA, reg_call. rewrite all_allowed. cbn [keys calls]. rewrite bool_decide_true by exact H. reflexivity. Qed.

Lemma creates hkey name ks : subkey hkey name ∉ dom ks -> does (RegCreateKeyA allowed hkey name) ks (<[subkey hkey name := ∅]> ks).
Proof. intros H n. unfold RegCreateKeyA, reg_call. rewrite all_allowed. cbn [keys calls]. rewrite bool_decide_false by exact H. reflexivity. Qed.

Lemma sets hkey name v vs ks : does (RegSetKeyValueA allowed hkey name v) (<[hkey := vs]> ks) (<[hkey := <[name := v]> vs]> ks).
Proof. intros n. unfold RegSetKeyValueA, reg_call. rewrite all_allowed. cbn [keys calls].
rewrite lookup_insert_eq, insert_insert_eq. reflexivity. Qed.

Lemma deletes_key hkey name vs ks :
  subkey hkey name ∉ dom ks -> has_subkeys (subkey hkey name) (<[subkey hkey name := vs]> ks) = false ->
  does (RegDeleteKeyA allowed hkey name) (<[subkey hkey name := vs]> ks) ks.
Proof.
  intros H1 H2 n. unfold RegDeleteKeyA, reg_call. rewrite all_allowed. cbn [keys calls].
  rewrite bool_decide_false by set_solver. rewrite H2. rewrite delete_insert_id by (apply not_elem_of_dom, H1). reflexivity.
Qed.

Lemma event_log_key_ok ks n :
  ROOT_KEY_PATH ∈ dom ks -> event_key ∉ dom ks ->
  exists m, steps (event_log_key allowed) (RegState ks n) = (ERROR_SUCCESS, RegState (<[event_key := event_values]> ks) m).
Proof.
  intros H1 H2. unfold event_log_key. fold event_key.
  rewrite (steps_does _ _ _ _ _ (opens _ _ H1)), (steps_does _ _ _ _ _ (creates _ _ _ H2)).
  fold event_key. rewrite !(steps_does _ _ _ _ _ (sets _ _ _ _ _)). eexists. reflexivity.
Qed.

Lemma open_local_dumps_ok ks n :
  ROOT_CRASH_KEY_PATH ∈ dom ks -> exists m, open_local_dumps allowed (RegState ks n) = (ERROR_SUCCESS, RegState (with_local_dumps ks) m).
Proof.
  intros H. unfold open_local_dumps, with_local_dumps.
  case_bool_decide as D; [rewrite (opens _ _ D n); eexists; reflexivity |].
  unfold RegOpenKeyA at 1. unfold reg_call. rewrite all_allowed. cbn [keys calls]. rewrite bool_decide_false by exact D.
  cbn [Z.eqb ERROR_FILE_NOT_FOUND Pos.eqb].
  rewrite (steps_does _ _ _ _ _ (opens _ _ H)), (steps_does _ _ _ _ _ (creates ROOT_CRASH_KEY_PATH "LocalDumps" _ D)).
  change (subkey ROOT_CRASH_KEY_PATH "LocalDumps") with ROOT_CRASH_KEY_PATH_LOCAL_DUMPS.
  assert (ROOT_CRASH_KEY_PATH_LOCAL_DUMPS ∈ dom (<[ROOT_CRASH_KEY_PATH_LOCAL_DUMPS := ∅]> ks)) as O by (rewrite dom_insert_L; set_solver).
  rewrite (steps_does _ _ _ _ _ (opens _ _ O)).
  eexists. reflexivity.
Qed.

Lemma crash_key_ok ks n :
  ROOT_CRASH_KEY_PATH ∈ dom ks -> dump_key ∉ dom ks ->
  exists m, steps (crash_key allowed) (RegState ks n) = (ERROR_SUCCESS, RegState (<[dump_key := dump_values]> (with_local_dumps ks)) m).
Proof.
  intros H1 H2. unfold crash_key. destruct (open_local_dumps_ok ks n H1) as [m E].
  assert (dump_key ∉ dom (with_local_dumps ks)) as D.
  { rewrite with_local_dumps_dom. apply not_elem_of_union. split; [exact H2 | rewrite elem_of_singleton; discriminate]. }
  cbn [steps]. rewrite E. cbn [Z.eqb ERROR_SUCCESS]. fold dump_key.
  rewrite (creates _ _ _ D m). cbn [Z.eqb ERROR_SUCCESS]. fold dump_key. rewrite (sets _ _ _ _ _ _). cbn [Z.eqb ERROR_SUCCESS].
  rewrite (sets _ _ _ _ _ _). cbn [Z.eqb ERROR_SUCCESS]. eexists. reflexivity.
Qed.

Lemma still_in {V} x y (v : V) (ks : gmap string V) : x ∈ dom ks -> x ∈ dom (<[y := v]> ks).
Proof. intros H. rewrite dom_insert_L. apply elem_of_union_r, H. Qed.

Lemma still_out {V} x y (v : V) (ks : gmap string V) : x <> y -> x ∉ dom ks -> x ∉ dom (<[y := v]> ks).
Proof. intros N H. rewrite dom_insert_L. apply not_elem_of_union. split; [rewrite elem_of_singleton; exact N | exact H]. Qed.

(** Deleting the two keys gives back what was there, when nothing was put below them. *)
Lemma delete_ok ks n :
  ROOT_KEY_PATH ∈ dom ks -> ROOT_CRASH_KEY_PATH_LOCAL_DUMPS ∈ dom ks -> event_key ∉ dom ks -> dump_key ∉ dom ks ->
  has_subkeys event_key (<[event_key := event_values]> (<[dump_key := dump_values]> ks)) = false ->
  has_subkeys dump_key (<[dump_key := dump_values]> ks) = false ->
  keys (DeleteRegistryKeys allowed (RegState (<[event_key := event_values]> (<[dump_key := dump_values]> ks)) n)).2 = ks.
Proof.
  intros H1 H2 H3 H4 S1 S2. unfold DeleteRegistryKeys.
  rewrite (steps_does _ _ _ _ _ (opens _ _ (still_in _ _ _ _ (still_in _ _ _ _ H1)))).
  assert (event_key ∉ dom (<[dump_key := dump_values]> ks)) as D by (apply still_out; [discriminate | exact H3]).
  rewrite (steps_does _ _ _ _ _ (deletes_key ROOT_KEY_PATH APPS_KEY_NAME _ _ D S1)), steps_nil. cbv beta iota.
  rewrite (steps_does _ _ _ _ _ (opens _ _ (still_in _ _ _ _ H2))).
  rewrite (steps_does _ _ _ _ _ (deletes_key ROOT_CRASH_KEY_PATH_LOCAL_DUMPS SVC_KEY_NAME _ _ H4 S2)). reflexivity.
Qed.

End everything_allowed.

End registry_theory.

Lemma has_subkeys_false p ks : has_subkeys p ks = false <-> forall k, k ∈ dom ks -> String.prefix (p +:+ "\") k = false.
Proof.
  unfold has_subkeys. rewrite <- Bool.not_true_iff_false, existsb_exists. split.
  - intros H k Hk. apply Bool.not_true_iff_false. intros P. apply H. exists k. split; [| exact P].
    apply list_elem_of_In, elem_of_elements, Hk.
  - intros H (k & Hk%list_elem_of_In%elem_of_elements & P). rewrite (H k Hk) in P. discriminate.
Qed.

Lemma has_subkeys_insert p k v ks :
  String.prefix (p +:+ "\") k = false -> has_subkeys p ks = false -> has_subkeys p (<[k := v]> ks) = false.
Proof. rewrite !has_subkeys_false. intros P H x. rewrite dom_insert_L. intros [-> %elem_of_singleton | Hx]%elem_of_union; auto. Qed.

Lemma has_subkeys_dumps p ks :
  String.prefix (p +:+ "\") ROOT_CRASH_KEY_PATH_LOCAL_DUMPS = false -> has_subkeys p ks = false -> has_subkeys p (with_local_dumps ks) = false.
Proof. intros P H. unfold with_local_dumps. case_bool_decide; [exact H | apply has_subkeys_insert; assumption]. Qed.

Lemma with_local_dumps_insert k v ks :
  k <> ROOT_CRASH_KEY_PATH_LOCAL_DUMPS -> with_local_dumps (<[k := v]> ks) = <[k := v]> (with_local_dumps ks).
Proof.
  intros N. unfold with_local_dumps. rewrite (bool_decide_ext _ (ROOT_CRASH_KEY_PATH_LOCAL_DUMPS ∈ dom ks)).
  - case_bool_decide; [reflexivity |]. rewrite insert_insert_ne by congruence. reflexivity.
  - rewrite dom_insert_L. set_solver.
Qed.

(** A registry where the service was never installed, with the keys of the system. *)
Record never_installed (ks : gmap string (gmap string key_value)) : Prop := {
  has_root : ROOT_KEY_PATH ∈ dom ks;
  has_crash_root : ROOT_CRASH_KEY_PATH ∈ dom ks;
  no_event_key : event_key ∉ dom ks;
  no_dump_key : dump_key ∉ dom ks;
  nothing_below_event : has_subkeys event_key ks = false;
  nothing_below_dump : has_subkeys dump_key ks = false;
}.

(** C36: When the system refuses nothing, installing writes exactly the two keys of the
    service, with their values, and uninstalling gives the registry back: all that stays is
    the parent key of the dumps, where the installation had to create it. *)
Theorem install_uninstall allowed ks n :
  (forall i, allowed i = true) -> never_installed ks ->
  let '(ret, r) := RegistryKeysInitialization allowed (RegState ks n) in
  ret = 0 /\ keys r = <[event_key := event_values]> (<[dump_key := dump_values]> (with_local_dumps ks)) /\
  keys (DeleteRegistryKeys allowed r).2 = with_local_dumps ks.
Proof.
  intros A [H1 H2 H3 H4 S1 S2]. unfold RegistryKeysInitialization.
  destruct (event_log_key_ok allowed A ks n H1 H3) as [m ->].
  destruct (crash_key_ok allowed A (<[event_key := event_values]> ks) m) as [m' ->].
  { apply still_in, H2. } { apply still_out; [discriminate | exact H4]. }
  cbn [Z.eqb ERROR_SUCCESS keys].
  rewrite with_local_dumps_insert by discriminate. rewrite (insert_insert_ne _ dump_key event_key) by discriminate.
  split_and!; [reflexivity | reflexivity |].
  assert (has_subkeys dump_key (<[dump_key := dump_values]> (with_local_dumps ks)) = false) as S2'
    by (apply has_subkeys_insert, has_subkeys_dumps; [reflexivity | reflexivity | exact S2]).
  apply delete_ok; try assumption.
  - rewrite with_local_dumps_dom. apply elem_of_union_l, H1.
  - rewrite with_local_dumps_dom. set_solver.
  - rewrite with_local_dumps_dom. apply not_elem_of_union. split; [exact H3 | rewrite elem_of_singleton; discriminate].
  - rewrite with_local_dumps_dom. apply not_elem_of_union. split; [exact H4 | rewrite elem_of_singleton; discriminate].
  - apply has_subkeys_insert, has_subkeys_insert, has_subkeys_dumps; try reflexivity. exact S1.
Qed.

Definition bare_registry : gmap string (gmap string key_value) := {[ ROOT_KEY_PATH := ∅; ROOT_CRASH_KEY_PATH := ∅ ]}.

Lemma install_uninstall_witness :
  let '(ret, r) := RegistryKeysInitialization (fun _ => true) (RegState bare_registry 0) in
  ret = 0 /\ keys r = <[event_key := event_values]> (<[dump_key := dump_values]> (with_local_dumps bare_registry)) /\
  keys (DeleteRegistryKeys (fun _ => true) r).2 = with_local_dumps bare_registry.
Proof. refine (install_uninstall (fun _ => true) bare_registry 0 (fun _ => eq_refl) _). split; vm_compute;
  first [reflexivity | discriminate | set_solver]. Defined.

(** The event log can be refused and the result is 0 all the same. *)
Example event_log_refused :
  let '(ret, r) := RegistryKeysInitialization (fun i => negb (i =? 0)%nat) (RegState bare_registry 0) in
  ret = 0 /\ keys r !! event_key = None.
Proof. vm_compute. split; reflexivity. Qed.

(** When the registry is refused [--install] fails, and the service is in the database. *)
Example installed_but_failed :
  ServiceInstall (fun _ => false) true true SERVICE_AUTO_START (Machine None (RegState bare_registry 0)) =
  (-1, Machine (Some SERVICE_AUTO_START) (RegState bare_registry 2)).
Proof. reflexivity. Qed.

(** A service that is paused is deleted without being stopped. *)
Example paused_is_not_stopped :
  let paused := ServiceStatus SERVICE_PAUSED 3 0 0 0 in
  ServiceRemove (fun _ => true) (ScmEnv true true (fun _ => Some paused) (fun _ => 0) (fun _ => None) true) 1 true
    (Machine (Some SERVICE_AUTO_START) (RegState bare_registry 0)) client_new =
  Ok ((0, Machine None (RegState bare_registry 3)), Client 1 0 2 [0; 1]%nat []).
Proof. vm_compute. reflexivity. Qed.

(** ** What the command line does *)

(** What an option asks for, when it is the whole of the first argument: the options that are
    only for tests do nothing, and the others do what their name says, whatever follows. *)
Definition documented : list (string * action) :=
  [("--notify", Notify); ("--testGUI", TestGui); ("--test", TestService); ("--info", Info); ("--installboot", InstallBoot);
   ("--install", InstallDemand); ("--uninstall", Uninstall); ("--stop", StopService); ("--start", StartService);
   ("--pause", PauseService); ("--continue", ContinueService)].

Lemma documented_options option act rest : (option, act) ∈ documented -> main_action (option :: rest) = act.
Proof. unfold documented. rewrite !elem_of_cons, elem_of_nil. intros. destruct_or!; simplify_eq; destruct rest; reflexivity || contradiction. Qed.

(** The restoration of a file that is named is never reached: the test for [--restore]
    without a name comes first. *)
Lemma restore_unreachable args : main_action args <> RestoreFile.
Proof.
  unfold main_action. destruct args as [| arg1 args]; [discriminate |].
  unfold main_options. cbn [first_option].
  destruct (bool_decide (String.substring 0 9 arg1 = String.substring 0 9 "--restore")) eqn:E; rewrite ?andb_false_r;
    repeat (case_match; try discriminate).
Qed.
