(* ===== verification/WinNotify.v ===== *)
(** * Notifications, requests and logs of the Windows service
    ([src/arch/windows/service/notify.c], [log.c], [config.c], [utils/tools.c])

    The JSON library of the service (json-c) and the pipe to the interface are not in the
    tree: the class [JsonC] lists the calls, [JsonCLaws] what they are documented to do, an
    object owning what is added to it.  [nodes] implements the class.  On Windows a message
    of level ERROR does not abort. *)
From S2P Require Import Prelude Log Heap.
From iris.proofmode Require Import proofmode.

#[local] Open Scope string_scope.
#[local] Open Scope Z_scope.

(** ** The event log *)

Definition LIBARMADITO_CATEGORY : Z := 1.
Definition MODULES_CATEGORY : Z := 2.
Definition SERVICE_CATEGORY : Z := 3.

Definition MSG_ERROR : Z := 0xC0000100.
Definition MSG_WARNING : Z := 0x80000200.
Definition MSG_INFO : Z := 0x40000300.

(** <winnt.h> *)
Definition EVENTLOG_ERROR_TYPE : Z := 1.
Definition EVENTLOG_WARNING_TYPE : Z := 2.
Definition EVENTLOG_INFORMATION_TYPE : Z := 4.

(** What the handler does: it takes the handle of the log, reports, and gives it back. *)
Inductive event_output :=
  | RegisterEventSource
  | ReportEvent (type category id : Z) (message : string)
  | DeregisterEventSource
  | PrintError.

Definition eventCategory (domain : a6o_log_domain) : Z :=
  match domain with
  | A6O_LOG_LIB => LIBARMADITO_CATEGORY | A6O_LOG_MODULE => MODULES_CATEGORY | A6O_LOG_SERVICE => SERVICE_CATEGORY
  end.

(** The type of the event and its identifier. *)
Definition event_type_id (log_level : a6o_log_level) : Z * Z :=
  match log_level with
  | A6O_LOG_LEVEL_ERROR => (EVENTLOG_ERROR_TYPE, MSG_ERROR)
  | A6O_LOG_LEVEL_WARNING => (EVENTLOG_WARNING_TYPE, MSG_WARNING)
  | A6O_LOG_LEVEL_INFO | A6O_LOG_LEVEL_DEBUG | A6O_LOG_LEVEL_NONE => (EVENTLOG_INFORMATION_TYPE, MSG_INFO)
  end.

(** [registers], [reports]: whether the two calls succeed.  Without a message the array
    that is reported is not initialised. *)
Definition winEventHandler (registers reports : bool) (domain : a6o_log_domain) (log_level : a6o_log_level)
    (message : option string) : outcome (list event_output) :=
  if negb registers then Ok [PrintError]
  else
    match message with
    | None => Fault UninitRead
    | Some message =>
        let '(eventLogType, eventId) := event_type_id log_level in
        Ok ([RegisterEventSource; ReportEvent eventLogType (eventCategory domain) eventId message] ++
            (if reports then [] else [PrintError]) ++ [DeregisterEventSource])%list
    end.

(** ** The file of messages *)

(** [gfirst_time], and the content of [C:\ARMADITO.TXT]. *)
Record log_file := LogFile { gfirst_time : bool; armadito_txt : option string }.

(** [opened]: whether [fopen_s] succeeds. *)
Definition a6oLogFile (text : string) (opened : bool) (f : log_file) : log_file :=
  {| gfirst_time := false;
     armadito_txt :=
       if opened then Some ((if gfirst_time f then "" else default "" (armadito_txt f)) +:+ text)
       else armadito_txt f |}.

(** ** json-c *)

(** A value with the objects that hold it, each at its address; a NULL value is null. *)
Inductive jnode :=
  | JString (a : addr) (s : string)
  | JInt (a : addr) (i : Z)
  | JObject (a : addr) (fields : list (string * option jnode)).

Definition jroot (n : jnode) : addr := match n with JString a _ | JInt a _ | JObject a _ => a end.

Section interface.
Context {B : Type}.

Class JsonC := {
  json_object_new_object : cmd B ptr;
  json_object_new_string : string -> cmd B ptr;
  json_object_new_int : Z -> cmd B ptr;
  json_object_object_add : addr -> string -> ptr -> cmd B unit;
  json_object_get_string : addr -> cmd B string;
  json_object_put : addr -> cmd B unit;
}.

Context `{JsonC}.

Class JsonCLaws := {
  json_at : jnode -> hprop B;
  json_text : jnode -> string;
  new_object_spec : ⊢ wp json_object_new_object (fun r => match r with Some a => json_at (JObject a []) | None => emp end);
  new_string_spec s : ⊢ wp (json_object_new_string s) (fun r => match r with Some a => json_at (JString a s) | None => emp end);
  new_int_spec i : ⊢ wp (json_object_new_int i) (fun r => match r with Some a => json_at (JInt a i) | None => emp end);
  (** the value belongs to the object *)
  object_add_spec o fields key v : key ∉ fields.*1 ->
    json_at (JObject o fields) ∗ (match v with Some v => json_at v | None => emp end) ⊢
    wp (json_object_object_add o key (jroot <$> v)) (fun _ => json_at (JObject o (fields ++ [(key, v)])));
  get_string_spec n : json_at n ⊢ wp (json_object_get_string (jroot n)) (fun s => ⟨s = json_text n⟩ ∗ json_at n);
  (** with the last reference, everything an object owns is freed *)
  object_put_spec n : json_at n ⊢ wp (json_object_put (jroot n)) (fun _ => emp);
  field_is_there o fields key v h :
    holds (json_at (JObject o fields)) h -> (key, Some v) ∈ fields -> is_Some (h !! jroot v);
  put_freed a (h : gmap positive B) : h !! a = None -> json_object_put a h = Fault UseAfterFree;
}.
End interface.
Arguments JsonC B : clear implicits.
Arguments JsonCLaws B {_}.

(** ** Requests *)

Inductive notif_type := NOTIF_INFO | NOTIF_WARNING | NOTIF_ERROR | NOTIF_OTHER.

Definition notif_type_to_str (type : notif_type) : string :=
  match type with
  | NOTIF_INFO => "INFO" | NOTIF_WARNING => "WARNING" | NOTIF_ERROR => "ERROR" | NOTIF_OTHER => "NONE"
  end.

Definition NOTIFY_MAX_LEN : nat := 2048.
Definition CONFIG_MAX_LEN : nat := 512.

Section requests.
Context {B : Type} `{JsonC B}.
(** Whether [json_handler_ui_request] answers [JSON_OK] for a request and its length. *)
Variable json_handler_ui_request : string -> nat -> bool.

(** [json_object_object_add(o, key, json_object_new_...)] *)
Definition add_string (o : addr) (key value : string) : cmd B unit :=
  v ← json_object_new_string value; json_object_object_add o key v.

Definition add_int (o : addr) (key : string) (value : Z) : cmd B unit :=
  v ← json_object_new_int value; json_object_object_add o key v.

(** Both objects are put, at the end of every path; the first owns the second by then. *)
Definition ui_request (MAX_LEN : nat) (jobj jparams : addr) : cmd B Z :=
  text ← json_object_get_string jobj;
  let ok := json_handler_ui_request text (Nat.min (String.length text) MAX_LEN) in
  json_object_put jobj;;
  json_object_put jparams;;
  mret (if ok then 0 else -4).

(** The two objects of a request, filled by [fill]. *)
Definition with_objects (fill : addr -> addr -> cmd B Z) : cmd B Z :=
  jobj ← json_object_new_object;
  match jobj with
  | None => mret (-2)
  | Some jobj =>
      jparams ← json_object_new_object;
      match jparams with
      | None => json_object_put jobj;; mret (-3)
      | Some jparams => fill jobj jparams
      end
  end.

Definition fill_notif (type : notif_type) (message : string) (jobj jparams : addr) : cmd B unit :=
  add_string jobj "ihm_request" "notification";;
  add_int jobj "id" 0;;
  add_int jobj "status" 0;;
  add_string jparams "type" (notif_type_to_str type);;
  add_string jparams "message" message;;
  json_object_object_add jobj "params" (Some jparams).

Definition send_notif (type : notif_type) (message : option string) : cmd B Z :=
  match message with
  | None => mret (-1)
  | Some message =>
      with_objects (fun jobj jparams =>
        fill_notif type message jobj jparams;; ui_request NOTIFY_MAX_LEN jobj jparams)
  end.

Definition fill_conf_set (jobj jparams : addr) : cmd B unit :=
  add_string jobj "av_request" "conf_set";;
  add_int jobj "id" 123;;
  add_string jparams "section" "on-access";;
  add_string jparams "key" "enable";;
  add_int jparams "value" 0;;
  json_object_object_add jobj "params" (Some jparams).

Definition disable_onaccess : cmd B Z :=
  with_objects (fun jobj jparams =>
    fill_conf_set jobj jparams;; ui_request CONFIG_MAX_LEN jobj jparams).

End requests.

(** The text of a literal, its quotation marks written as apostrophes. *)
Definition with_quotes (s : string) : string :=
  of_bytes ((fun c => if bool_decide (c = "'"%char) then "034"%char else c) <$> bytes s).

Definition state_request : string := with_quotes "{ 'av_request':'state', 'id':123, 'params': {}}".

Definition default_resp : string := with_quotes
  "{ 'av_response': 'state', 'id': 123, 'status': -1, 'info': { 'antivirus': { 'version': '0.0', 'service': 'off', 'real-time-protection': 'off' }, 'update': { 'status': 'critical', 'last-update': '1970-01-01 00:00' }, 'modules': [] } } ".

(** What is returned and printed; [answer]: the response to [state_request], if one came. *)
Definition get_av_info (answer : string -> option string) : Z * string :=
  match answer state_request with
  | Some response => (0, response +:+ newline)
  | None => (-1, default_resp +:+ newline)
  end.

(** ** What is logged *)

(** The type of an event is that of the severity in the two upper bits of its identifier,
    and the category is the customer's. *)
Lemma event_severity l :
  let '(type, id) := event_type_id l in
  Z.shiftr id 30 = (if type =? EVENTLOG_ERROR_TYPE then 3 else if type =? EVENTLOG_WARNING_TYPE then 2 else 1).
Proof. by destruct l. Qed.

Definition handles (o : event_output) : Z :=
  match o with RegisterEventSource => 1 | DeregisterEventSource => -1 | _ => 0 end.

Definition reported (o : event_output) : option (Z * Z * Z * string) :=
  match o with ReportEvent type category id message => Some (type, category, id, message) | _ => None end.

(** A message is reported at most once, and every handle that is taken is given back. *)
Lemma event_handles registers reports domain l message out :
  winEventHandler registers reports domain l (Some message) = Ok out ->
  foldr Z.add 0 (handles <$> out) = 0 /\
  omap reported out =
    if registers then [((event_type_id l).1, eventCategory domain, (event_type_id l).2, message)] else [].
Proof. by destruct registers, reports, l; intros [= <-]. Qed.

(** The messages that were written, put together. *)
Definition written (calls : list (string * bool)) : option string :=
  foldr (fun c r => if (c.2 : bool) then Some (c.1 +:+ default "" r) else r) None calls.

Lemma appended calls old :
  armadito_txt (fold_left (fun f c => a6oLogFile c.1 c.2 f) calls (LogFile false old)) =
    match written calls with Some s => Some (default "" old +:+ s) | None => old end.
Proof.
  revert old. induction calls as [|[text opened] calls IH]; intros old; [done|]. simpl.
  unfold a6oLogFile at 2. simpl. rw IH. destruct opened, (written calls); simpl; [|by rw (right_id_L "" String.append)|done..].
  by rw (assoc_L String.append).
Qed.

(** The file holds the messages that could be written, in order.  An older file loses its
    content with the first message of the process, unless that one could not be written. *)
Lemma log_file_holds text opened calls old :
  armadito_txt (fold_left (fun f c => a6oLogFile c.1 c.2 f) ((text, opened) :: calls) (LogFile true old)) =
    match written ((text, opened) :: calls) with
    | Some s => Some ((if opened then "" else default "" old) +:+ s)
    | None => old
    end.
Proof.
  simpl. unfold a6oLogFile at 2. simpl. rw appended.
  by destruct opened, (written calls); simpl; rw ?(assoc_L String.append) ?(right_id_L "" String.append).
Qed.

(** ** What becomes of a request *)

Section request.
Context {B : Type} `{JsonC B, !JsonCLaws B}.
Variable ui : string -> nat -> bool.

Definition is_text (s : string) (n : option jnode) : Prop := match n with Some n => exists a, n = JString a s | None => True end.
Definition is_number (i : Z) (n : option jnode) : Prop := match n with Some n => exists a, n = JInt a i | None => True end.

Lemma add_string_spec o fields key s : key ∉ fields.*1 ->
  json_at (JObject o fields) ⊢
  wp (add_string o key s) (fun _ => ∃ v, ⟨is_text s v⟩ ∗ json_at (JObject o (fields ++ [(key, v)]))).
Proof.
  iIntros (Hk) "Ho". wp_front. iApply wp_wand. iSplitR; [iApply new_string_spec|]. iIntros (r) "Hr".
  set (v := (fun a => JString a s) <$> r). iAssert (match v with Some v => json_at v | None => emp end)%I with "[Hr]" as "Hv".
  { by destruct r. }
  replace r with (jroot <$> v) by by destruct r. iCombine "Ho Hv" as "H".
  iApply wp_wand. iSplitL; [by iApply (object_add_spec o fields key v)|]. iIntros (_) "Ho". iExists v. iFrame.
  iPureIntro. destruct r; simpl; eauto.
Qed.

Lemma add_int_spec o fields key i : key ∉ fields.*1 ->
  json_at (JObject o fields) ⊢
  wp (add_int o key i) (fun _ => ∃ v, ⟨is_number i v⟩ ∗ json_at (JObject o (fields ++ [(key, v)]))).
Proof.
  iIntros (Hk) "Ho". wp_front. iApply wp_wand. iSplitR; [iApply new_int_spec|]. iIntros (r) "Hr".
  set (v := (fun a => JInt a i) <$> r). iAssert (match v with Some v => json_at v | None => emp end)%I with "[Hr]" as "Hv".
  { by destruct r. }
  replace r with (jroot <$> v) by by destruct r. iCombine "Ho Hv" as "H".
  iApply wp_wand. iSplitL; [by iApply (object_add_spec o fields key v)|]. iIntros (_) "Ho". iExists v. iFrame.
  iPureIntro. destruct r; simpl; eauto.
Qed.

(** The fields of a request: texts and numbers, or null where memory ran out. *)
Definition notif_params (type : notif_type) (message : string) (l : list (string * option jnode)) : Prop :=
  exists t m, l = [("type", t); ("message", m)] /\ is_text (notif_type_to_str type) t /\ is_text message m.

Definition notif_fields (type : notif_type) (message : string) (p : addr) (l : list (string * option jnode)) : Prop :=
  exists r i s params, l = [("ihm_request", r); ("id", i); ("status", s); ("params", Some (JObject p params))] /\
    is_text "notification" r /\ is_number 0 i /\ is_number 0 s /\ notif_params type message params.

Definition conf_set_fields (p : addr) (l : list (string * option jnode)) : Prop :=
  exists r i s k v, l = [("av_request", r); ("id", i);
      ("params", Some (JObject p [("section", s); ("key", k); ("value", v)]))] /\
    is_text "conf_set" r /\ is_number 123 i /\ is_text "on-access" s /\ is_text "enable" k /\ is_number 0 v.

Lemma fill_notif_spec type message o p :
  json_at (JObject o []) ∗ json_at (JObject p []) ⊢
  wp (fill_notif type message o p) (fun _ => ∃ l, ⟨notif_fields type message p l⟩ ∗ json_at (JObject o l)).
Proof.
  iIntros "[Ho Hp]".
  wp_use add_string_spec with "Ho" as (_) "(%r & %Hr & Ho)"; [set_solver|].
  wp_use add_int_spec with "Ho" as (_) "(%i & %Hi & Ho)"; [set_solver|].
  wp_use add_int_spec with "Ho" as (_) "(%s & %Hs & Ho)"; [set_solver|].
  wp_use add_string_spec with "Hp" as (_) "(%t & %Ht & Hp)"; [set_solver|].
  wp_use add_string_spec with "Hp" as (_) "(%m & %Hm & Hp)"; [set_solver|].
  iCombine "Ho Hp" as "H".
  wp_use (object_add_spec o _ "params" (Some (JObject p [("type", t); ("message", m)]))) with "H" as (_) "H"; [set_solver|].
  iExists _. iFrame. iPureIntro. unfold notif_fields, notif_params. naive_solver.
Qed.

Lemma fill_conf_set_spec o p :
  json_at (JObject o []) ∗ json_at (JObject p []) ⊢
  wp (fill_conf_set o p) (fun _ => ∃ l, ⟨conf_set_fields p l⟩ ∗ json_at (JObject o l)).
Proof.
  iIntros "[Ho Hp]".
  wp_use add_string_spec with "Ho" as (_) "(%r & %Hr & Ho)"; [set_solver|].
  wp_use add_int_spec with "Ho" as (_) "(%i & %Hi & Ho)"; [set_solver|].
  wp_use add_string_spec with "Hp" as (_) "(%s & %Hs & Hp)"; [set_solver|].
  wp_use add_string_spec with "Hp" as (_) "(%k & %Hk & Hp)"; [set_solver|].
  wp_use add_int_spec with "Hp" as (_) "(%v & %Hv & Hp)"; [set_solver|].
  iCombine "Ho Hp" as "H".
  wp_use (object_add_spec o _ "params" (Some (JObject p [("section", s); ("key", k); ("value", v)]))) with "H"
    as (_) "H"; [set_solver|].
  iExists _. iFrame. iPureIntro. unfold conf_set_fields. naive_solver.
Qed.

Lemma run_empty {A} (c : cmd B A) Q h : (⊢ wp c Q) ->
  exists v h', c h = Ok (v, h' ∪ h) /\ h' ##ₘ h /\ holds (Q v) h'.
Proof.
  intros Hc. destruct (wp_run _ c Q ∅ h Hc) as (v & h' & E & D & HQ); [done|apply map_disjoint_empty_l|].
  rw left_id_L in E. eauto.
Qed.

(** Once the parameters belong to the request, the request is freed with them, and they are
    freed again. *)
Lemma with_objects_faults n (fill : addr -> addr -> cmd B unit) (F : addr -> list (string * option jnode) -> Prop) h :
  (forall p l, F p l -> exists key v, (key, Some v) ∈ l /\ jroot v = p) ->
  (forall o p, json_at (JObject o []) ∗ json_at (JObject p []) ⊢
     wp (fill o p) (fun _ => ∃ l, ⟨F p l⟩ ∗ json_at (JObject o l))) ->
  let c := with_objects (fun o p => fill o p;; ui_request ui n o p) in
  c h = Ok (-2, h) \/ c h = Ok (-3, h) \/ c h = Fault UseAfterFree.
Proof.
  intros HF Hfill. unfold with_objects, ui_request, mbind, cmd_bind.
  destruct (run_empty _ _ h new_object_spec) as ([o|] & ho & Eo & Do & Ho); rw Eo; simpl.
  2: { left. hnf in Ho. subst ho. by rw left_id_L. }
  destruct (run_empty _ _ (ho ∪ h) new_object_spec) as ([p|] & hp & Ep & Dp & Hp); rw Ep; simpl; right.
  2: { left. hnf in Hp. subst hp. rw left_id_L.
       destruct (wp_run _ _ _ ho h (object_put_spec (JObject o []))) as ([] & h' & E & _ & He); [done|done|].
       rw E. hnf in He. subst h'. simpl. by rw left_id_L. }
  right. apply map_disjoint_union_r in Dp as [Dpo Dp].
  destruct (wp_run _ _ _ (ho ∪ hp) h (Hfill o p)) as ([] & h1 & E1 & D1 & l & H1).
  { exists ho, hp. by split_and!. }
  { by apply map_disjoint_union_l. }
  rw (map_union_assoc hp) (map_union_comm hp ho); [|done]. rw E1. simpl.
  destruct H1 as (h0 & h2 & -> & _ & [He HFl] & H2). hnf in He. subst h0. rw left_id_L in D1. rw left_id_L.
  destruct (HF p l HFl) as (key & v & Hv & <-).
  destruct (wp_run _ _ _ h2 h (get_string_spec (JObject o l))) as (s & h3 & Eg & D3 & h4 & h5 & -> & _ & [He _] & H5); [done..|].
  hnf in He. subst h4. rw left_id_L in D3. simpl in Eg. rw Eg left_id_L. simpl.
  destruct (field_is_there o l key v h5 H5 Hv) as [b Hb].
  destruct (wp_run _ _ _ h5 h (object_put_spec (JObject o l))) as ([] & h6 & Eput & _ & H6); [done..|].
  hnf in H6. subst h6. simpl in Eput. rw Eput left_id_L. simpl. rw put_freed; [done|]. by eapply map_disjoint_Some_l.
Qed.

(** A notification is never reported as sent: without a message it is refused, the objects
    may fail to be created, and otherwise the service uses a freed block after the request,
    whatever the interface answers. *)
Theorem notification_frees_twice type message h :
  match message with
  | None => send_notif ui type message h = Ok (-1, h)
  | Some _ => send_notif ui type message h ∈ [Ok (-2, h); Ok (-3, h); Fault UseAfterFree]
  end.
Proof.
  destruct message as [m|]; [|done].
  destruct (with_objects_faults NOTIFY_MAX_LEN (fill_notif type m) (notif_fields type m) h) as [E|[E|E]].
  - intros p l (r & i & s & params & -> & _). exists "params", (JObject p params). split; [set_solver|done].
  - apply fill_notif_spec.
  - unfold send_notif. rw E. set_solver.
  - unfold send_notif. rw E. set_solver.
  - unfold send_notif. rw E. set_solver.
Qed.

Theorem disable_onaccess_frees_twice h :
  disable_onaccess ui h ∈ [Ok (-2, h); Ok (-3, h); Fault UseAfterFree].
Proof.
  unfold disable_onaccess.
  destruct (with_objects_faults CONFIG_MAX_LEN fill_conf_set conf_set_fields h) as [E|[E|E]].
  - intros p l (r & i & s & k & v & -> & _). eexists _, (JObject p _). split; [|done]. do 2 right. left.
  - apply fill_conf_set_spec.
  - rw E. set_solver.
  - rw E. set_solver.
  - rw E. set_solver.
Qed.

End request.

(** ** An implementation: the tree is kept at its root *)

Inductive jblock :=
  | KRoot (n : jnode)
  | KOwned.                        (** a value that belongs to an object *)

(** Where the values below the root are. *)
Fixpoint jaddrs (n : jnode) : list addr :=
  match n with
  | JString a _ | JInt a _ => [a]
  | JObject a fields => a :: flat_map (fun f => match f.2 with Some v => jaddrs v | None => [] end) fields
  end.

Definition jbelow (n : jnode) : list addr := tail (jaddrs n).

Section implementation.
Context `{Allocator}.

Definition get_root (a : addr) : cmd jblock jnode :=
  b ← load a; match b with KRoot n => mret n | KOwned => fault_cmd UninitRead end.

#[export] Instance nodes : JsonC jblock := {|
  json_object_new_object := a ← malloc KOwned; store a (KRoot (JObject a []));; mret (Some a);
  json_object_new_string s := a ← malloc KOwned; store a (KRoot (JString a s));; mret (Some a);
  json_object_new_int i := a ← malloc KOwned; store a (KRoot (JInt a i));; mret (Some a);
  json_object_object_add o key v :=
    n ← get_root o;
    match n with
    | JObject a fields =>
        v ← (match v with
             | None => mret None
             | Some p => n ← get_root p; store p KOwned;; mret (Some n)
             end);
        store o (KRoot (JObject a (fields ++ [(key, v)])))
    | _ => fault_cmd UninitRead
    end;
  json_object_get_string a := n ← get_root a; mret "";
  json_object_put a := n ← get_root a; for_each free (Some <$> jbelow n);; free (Some a) |}.

Definition node_at (n : jnode) : hprop jblock :=
  (jroot n ↦ KRoot n ∗ [∗ list] a ∈ jbelow n, a ↦ KOwned)%I.

Lemma get_root_spec n :
  jroot n ↦ KRoot n ⊢ wp (get_root (jroot n)) (fun r => ⟨r = n⟩ ∗ jroot n ↦ KRoot n).
Proof. iIntros "H". wp_read "H". wp_pure. by iFrame. Qed.

Lemma jaddrs_root n : jaddrs n = jroot n :: jbelow n.
Proof. by destruct n. Qed.

Lemma free_owned l :
  ([∗ list] a ∈ l, a ↦ KOwned) ⊢ wp (for_each free (Some <$> l)) (fun _ => emp).
Proof.
  induction l as [|a l IH]; simpl; [iIntros "_"; by wp_pure|]. iIntros "[Ha Hl]". wp_del "Ha". by iApply IH.
Qed.

Lemma below_added a fields key v :
  jbelow (JObject a (fields ++ [(key, v)])) =
    (jbelow (JObject a fields) ++ match v with Some v => jroot v :: jbelow v | None => [] end)%list.
Proof.
  unfold jbelow at 1 2. simpl. rw flat_map_app. simpl. destruct v; [|done]. by rw right_id_L jaddrs_root.
Qed.

#[export] Program Instance nodes_laws : JsonCLaws jblock :=
  {| json_at := node_at; json_text _ := "" |}.
Next Obligation. simpl. wp_let a as "H". wp_write "H". wp_pure. unfold node_at. by iFrame. Qed.
Next Obligation. intros s. simpl. wp_let a as "H". wp_write "H". wp_pure. unfold node_at. by iFrame. Qed.
Next Obligation. intros i. simpl. wp_let a as "H". wp_write "H". wp_pure. unfold node_at. by iFrame. Qed.
Next Obligation.
  intros o fields key v _. iIntros "[[Ho Hb] Hv]". simpl.
  wp_use (get_root_spec (JObject o fields)) with "Ho" as (r) "[-> Ho]".
  unfold node_at. destruct v as [v|]; simpl.
  - iDestruct "Hv" as "[Hv Hvb]". wp_front. wp_use get_root_spec with "Hv" as (r) "[-> Hv]". wp_write "Hv". wp_pure.
    wp_write "Ho". rw below_added big_sepL_app. by iFrame.
  - wp_pure. wp_write "Ho". rw below_added big_sepL_app. by iFrame.
Qed.
Next Obligation.
  intros n. iIntros "[Hn Hb]". simpl. wp_use get_root_spec with "Hn" as (r) "[-> Hn]". wp_pure. by iFrame.
Qed.
Next Obligation.
  intros n. iIntros "[Hn Hb]". simpl. wp_use get_root_spec with "Hn" as (r) "[-> Hn]".
  wp_use free_owned with "Hb" as (u) "_". by wp_del "Hn".
Qed.
Next Obligation.
  intros o fields key v h (h1 & h2 & -> & D & _ & Hb) Hv. simpl.
  assert (jroot v ∈ jbelow (JObject o fields)) as [i Hi]%list_elem_of_lookup_1.
  { unfold jbelow. simpl. apply list_elem_of_In, in_flat_map. exists (key, Some v).
    split; [by apply list_elem_of_In|]. simpl. rw jaddrs_root. by left. }
  assert (([∗ list] a ∈ jbelow (JObject o fields), a ↦ KOwned) ⊢ jroot v ↦ KOwned ∗ (jroot v ↦ KOwned -∗ [∗ list] a ∈ jbelow (JObject o fields), a ↦ KOwned)) as [Hl].
  { by rw -(big_sepL_lookup_acc _ _ i). }
  destruct (Hl _ Hb) as (h3 & h4 & -> & _ & Ha & _). exists KOwned.
  apply lookup_union_Some_r; [done|]. by apply points_to_union.
Qed.
Next Obligation. intros a h Ha. simpl. unfold get_root, load, mbind, cmd_bind. by rw Ha. Qed.

End implementation.

(** With memory enough, a freed block is used. *)
Example notification_faults : send_notif (fun _ _ => true) NOTIF_WARNING (Some "Malware detected!") ∅ = Fault UseAfterFree.
Proof. vm_compute. reflexivity. Qed.
