(* ===== verification/WinCrypt.v ===== *)
(** * Checking the signature of a file
    ([src/arch/windows/utils/crypt.c], [others.c])

    The cryptographic services of Windows are parameters, and so are the files; a NULL
    pointer or handle is [None].  The bytes that are only printed, and the services whose
    failure is only logged, are not modelled. *)
From S2P Require Import Prelude.

#[local] Open Scope string_scope.
#[local] Open Scope Z_scope.

(** [GetFileContent_b]: the content of the file, when it can be opened,
    measured and read.  Its size is stored in an [int], whose byte is written in a buffer
    of one byte more. *)
Definition GetFileContent_b (content : option (list ascii)) : outcome (option (list ascii)) :=
  match content with
  | None => Ok None
  | Some l =>
      let size := i32 (Z.of_nat (length l)) in
      if size <? 0 then Fault OutOfBounds else Ok (Some (take (Z.to_nat size) l))
  end.

(** The same for text. *)
Definition GetFileContent (content : option (list ascii)) : outcome (option (list ascii)) := GetFileContent_b content.

(** The loop of [verify_file_signature] that turns the signature round: [invert[j++] =
    signature[i]] for [i] from [sig_size - 1] down to 0. *)
Fixpoint invert_loop (signature : list ascii) (i : nat) (invert : list ascii) : outcome (list ascii) :=
  match i with
  | O => Ok invert
  | S i =>
      match signature !! i with
      | None => Fault OutOfBounds
      | Some c => invert_loop signature i (invert ++ [c])%list
      end
  end.

Section crypt.
Context {Key Hash : Type}.

(** The services: whether a context is acquired, where the key is downloaded, the files,
    base64 and the decoding of a key, importing it, hashing, reading a hash, verifying. *)
Variable acquire : bool.
Variable url_download : option string.
Variable file : string -> option (list ascii).
Variable string_to_binary : list ascii -> option (list ascii).
Variable decode_object : list ascii -> option (list ascii).
Variable import_key : list ascii -> option Key.
Variable create_hash : bool.
(** A hash object that was given no data, and one that was given some. *)
Variable empty_hash : Hash.
Variable hash_data : list ascii -> option Hash.
Variable hash_param : Hash -> option (list ascii).
Variable verify : Hash -> list ascii -> Key -> bool.

Definition download_pub_key : option string := url_download.

Definition import_public_key (filename : string) : outcome (option Key) :=
  content ← GetFileContent_b (file filename);
  Ok (content ← content; buf ← string_to_binary content; blob ← decode_object buf; import_key blob).

(** The hash is returned whatever becomes of [CryptHashData]. *)
Definition calc_file_hash (filename : string) : outcome (option Hash) :=
  content ← GetFileContent_b (file filename);
  Ok (content ← content; if create_hash then Some (default empty_hash (hash_data content)) else None).

Definition verify_file_signature (filename sigfile : option string) : outcome Z :=
  match filename, sigfile with
  | Some filename, Some sigfile =>
      if negb acquire then Ok (-1)
      else
        match download_pub_key with
        | None => Ok (-1)
        | Some pubkeyfile =>
            hPubKey ← import_public_key pubkeyfile;
            match hPubKey with
            | None => Ok (-2)
            | Some hPubKey =>
                hHash ← calc_file_hash filename;
                match hHash with
                | None => Ok (-3)
                | Some hHash =>
                    signature ← GetFileContent_b (file sigfile);
                    match signature with
                    | None => Ok (-4)
                    | Some signature =>
                        invert ← invert_loop signature (length signature) [];
                        Ok (if verify hHash invert hPubKey then 0 else -9)
                    end
                end
            end
        end
  | _, _ => Ok (-1)
  end.

(** [GetFileHash] of [len] bytes. *)
Definition GetFileHash (data : option (list ascii)) : option (list ascii) :=
  l ← data;
  if bool_decide (l = []) then None
  else if acquire && create_hash then h ← hash_data l; hash_param h
  else None.

(** ** What is verified *)

Lemma invert_loop_rev signature : forall n acc,
  (n <= length signature)%nat -> invert_loop signature n acc = Ok (acc ++ rev (take n signature))%list.
Proof.
  induction n as [|n IH]; intros acc Hn; [by rewrite take_0, app_nil_r|]. cbn [invert_loop].
  destruct (lookup_lt_is_Some_2 signature n) as [c Hc]; [lia|]. rewrite Hc, IH by lia.
  rewrite (take_S_r _ _ c) by done. rewrite rev_app_distr. by rewrite <- app_assoc.
Qed.

(** A return that is not 0, where some service failed. *)
Ltac refused :=
  split; [set_solver|]; split; [done|];
  intros (? & ? & ? & ? & ? & ? & ? & ? & ? & ? & ? & ? & ? & ? & ? & ? & ?); exfalso; congruence.

(** *** The signature of a file *)

(** Whatever the files and the services, the check ends with 0 or one of its error codes,
    and with 0 exactly when the key that was downloaded can be imported and verifies the
    signature, its bytes in reverse order, for the hash of the content; but a content that
    cannot be hashed is not noticed, and its signature is compared with the hash of nothing.
    A file counts as far as the code reads it: by the number of its bytes in an [int]. *)
Theorem signature_verified (filename sigfile : string) (r : Z) :
  verify_file_signature (Some filename) (Some sigfile) = Ok r ->
  r ∈ [0; -1; -2; -3; -4; -9] /\
  (r = 0 <-> acquire = true /\ create_hash = true /\
    exists pub content buf blob key data sig,
      url_download = Some pub /\ GetFileContent_b (file pub) = Ok (Some content) /\ string_to_binary content = Some buf /\
      decode_object buf = Some blob /\ import_key blob = Some key /\
      GetFileContent_b (file filename) = Ok (Some data) /\ GetFileContent_b (file sigfile) = Ok (Some sig) /\
      verify (default empty_hash (hash_data data)) (rev sig) key = true).
Proof.
  unfold verify_file_signature, import_public_key, calc_file_hash, download_pub_key.
  destruct acquire; cbn [negb]; [|intros [= <-]; refused].
  destruct url_download as [pub|]; [|intros [= <-]; refused].
  destruct (GetFileContent_b (file pub)) as [content|] eqn:Hc; [|done]. cbn [mbind outcome_bind].
  destruct (content ≫= _) as [key|] eqn:Hk; [|intros [= <-]; split; [set_solver|]].
  2: { split; [done|]. intros (_ & _ & pub' & content' & buf & blob & key & ? & ? & [= <-] & Hc' & Hb & Hd & Hi & _). exfalso.
       rewrite Hc in Hc'. injection Hc' as ->. cbn in Hk. rewrite Hb in Hk. cbn in Hk. rewrite Hd in Hk. cbn in Hk. congruence. }
  destruct content as [content|]; [|done]. cbn in Hk.
  destruct (string_to_binary content) as [buf|] eqn:Hb; [|done]. cbn in Hk.
  destruct (decode_object buf) as [blob|] eqn:Hd; [|done]. cbn in Hk.
  destruct (GetFileContent_b (file filename)) as [[data|]|] eqn:Hf; [| |done]; cbn [mbind outcome_bind option_bind].
  2: { intros [= <-]. refused. }
  destruct create_hash; [|intros [= <-]; refused].
  destruct (GetFileContent_b (file sigfile)) as [[sig|]|] eqn:Hs; [| |done]; cbn [mbind outcome_bind].
  2: { intros [= <-]. refused. }
  rewrite invert_loop_rev, firstn_all by done. cbn [mbind outcome_bind app].
  destruct (verify _ _ _) eqn:Hv; intros [= <-]; (split; [set_solver|]).
  - split; [|done]. intros _. split_and!; [done..|]. by exists pub, content, buf, blob, key, data, sig.
  - split; [done|]. intros (_ & _ & pub' & content' & buf' & blob' & key' & data' & sig' & [= <-] & Hc' & Hb' & Hd' & Hk' & Hf' & Hs' & Hv').
    rewrite Hc in Hc'. injection Hc' as <-. rewrite Hb in Hb'. injection Hb' as <-. rewrite Hd in Hd'. injection Hd' as <-.
    exfalso. congruence.
Qed.

End crypt.

(** A file longer than 4 gigabytes is checked as if it were the file of its first bytes:
    what follows a signed file by that much is never looked at. *)
Theorem long_file_cut (l tail : list ascii) :
  Z.of_nat (length l) < 2 ^ 31 -> Z.of_nat (length tail) = 2 ^ 32 ->
  GetFileContent_b (Some (l ++ tail)%list) = GetFileContent_b (Some l).
Proof.
  intros Hl Ht. unfold GetFileContent_b. rewrite length_app, Nat2Z.inj_add, Ht.
  assert (i32 (Z.of_nat (length l) + 2 ^ 32) = Z.of_nat (length l)) as ->.
  { transitivity (i32 (Z.of_nat (length l))); [|apply i32_small; lia].
    unfold i32, signed, wrap. pose proof (Z_mod_plus_full (Z.of_nat (length l)) 1 (2 ^ 32)) as E.
    rewrite Z.mul_1_l in E. by rewrite E. }
  rewrite i32_small by lia. rewrite (proj2 (Z.ltb_ge _ _)) by lia. by rewrite !Nat2Z.id, take_app_length, firstn_all.
Qed.

(** A file with its signature, for services that copy what they are given. *)
Definition sample_file (name : string) : option (list ascii) :=
  if bool_decide (name = "f") then Some (bytes "virus base") else if bool_decide (name = "f.sig") then Some (bytes "esab suriv") else Some (bytes "key").

Lemma signature_verified_witness :
  let check := verify_file_signature true (Some "pub") sample_file Some Some Some true [] Some
    (fun h s k => bool_decide (h = s /\ k = bytes "key")) in
  check (Some "f") (Some "f.sig") = Ok 0 /\
  (0 ∈ [0; -1; -2; -3; -4; -9] /\ exists sig, GetFileContent_b (sample_file "f.sig") = Ok (Some sig) /\ rev sig = bytes "virus base").
Proof.
  intros check. assert (check (Some "f") (Some "f.sig") = Ok 0) as E by (vm_compute; reflexivity). split; [exact E|].
  destruct (signature_verified _ _ _ _ _ _ _ _ _ Some _ "f" "f.sig" 0 E) as [H0 [H1 _]]. split; [exact H0|].
  destruct (H1 eq_refl) as (_ & _ & pub & content & buf & blob & key & data & sig & _ & _ & _ & _ & _ & Hd & Hs & Hv).
  exists sig. split; [exact Hs|]. apply bool_decide_eq_true in Hv as [Hv _]. rewrite <- Hv. cbn in Hd. by injection Hd as <-.
Defined.

(** A file that cannot be hashed is checked against the hash of nothing. *)
Example unhashed_accepted :
  verify_file_signature true (Some "pub") sample_file Some Some Some true ([] : list ascii) (fun _ => None) (fun h s k => bool_decide (h = []))
    (Some "f") (Some "f.sig") = Ok 0.
Proof. vm_compute. reflexivity. Qed.
